(* ===== verification/_CoqProject ===== *)
-Q . S2P
Prelude.v
Bytes.v
Crc.v
Locks.v
PageKernel.v
WalBlock.v
Wal.v
WalReplay.v
WalRepair.v
TxLog.v
Cell.v
Query.v
BtMem.v
BtLeaf.v
BtVersion.v
BtHeap.v
BtTree.v
BtSplit.v
BtIntern.v
BtInsert.v
BtSpine.v
Overflow.v
OverflowOk.v
BtInsertOk.v
BtCut.v
BtAttach.v
BtGrow.v
BtStore.v
BtLaws.v
Cursor.v
CursorOk.v
Lz4.v
Uuid.v
