(* ===== verification/Prelude.v ===== *)
(** * c2db: a verification development

    c2db (src/pkg/c2db, Go) is an embedded multi-version key-value store.  A
    shard keeps its data in 16 KiB pages, a B-tree whose leaves order the
    versions of a key by a 16-byte time-ordered id, and makes writes durable in
    a write-ahead log of sealed 4 KiB blocks on a block device.  Beside them
    stand a transaction event log on ordinary files, a query builder over
    cursors, and a lock ladder for the file layer.  This library translates the
    parts that carry this logic into executable definitions and proves what they
    promise.  Names of definitions follow the source; where Go has a method
    [T.f] and a second [f] exists, the type's name is in the definition's.

    ** Conventions

    A Go integer of [N] bits is a [Z]; its wrap-around is written with [wN] or
    the operators of [u64_scope].  A byte is a [Z] in [[0, 256)], a buffer a
    [list Z] ([bytes_ok] is the well-formedness of its bytes), an updated buffer
    the function's result.  Where an index of the source can be out of range, the
    run-time panic is a value: [None] in the kernels, [walPanic] in the log.
    [Go] arrays keep their length as a hypothesis.  Hash and seal functions that
    are not in this repository's modelled part are parameters, with the laws that
    are used as the fields of a class ([Seal], and [CursorOps] with its laws).

    ** Files

    - [Prelude]: machine integers, bytes, little-endian encodings, buffers
      ([sub], [copy_at]), bounded loops, the tactics on them ([unwrap],
      [zcase], [ifcase]) and the hint databases [c2db] and [c2db_len].
    - [Bytes]: what the code uses of Go's [bytes] and [strings].
    - [Crc]: CRC-32C as a bit-serial division, its table form, its linearity.
    - [Locks]: vfs_locks.go.  [Lock] and [Unlock] of [FileLockState] as steps on
      the map of holders; a step relation of any interleaving, its invariants.
    - [PageKernel]: db_page_gen.go and c2db_crc32c_fullpage_gen.go.  Page header,
      slot array and the two page checksums.
    - [WalBlock]: db_wal_gen.go.  The layout of one record block.
    - [Wal]: wal.go over device.go.  The state machine of the log: opening,
      packs of records, chunked payloads, the write buffer, replay, tip search,
      rollback, checkpoints and compaction, repair.  A state and error monad.
    - [WalReplay]: a log gives back what was appended to it.
    - [WalRepair]: holes in the middle of a log, and their repair.
    - [TxLog]: txnlog.go.  The event codec and the segmented log.
    - [Query]: query.go over the interface of cursors, with pkg-level JSON field
      extraction.
    - [BtMem], [BtLeaf], [BtVersion]: db_btree_gen.go.  Memory accessors; leaves
      on one page; versioned leaves.
    - [BtHeap], [BtTree]: the tree of many pages in one buffer.  The leaf kernels
      at a base address, the copy on write of a page, the choice of a child; what a
      well-formed tree is ([tree], [btree]) and the descent of a read.
    - [BtSplit], [BtIntern]: the split of a leaf between two keys, repacking,
      and the insertion of a separator in an internal page.
    - [BtInsert]: [Db_bt_insert_ver_heap] with every split up to a new root.
      [BtSpine], [BtInsertOk], [BtCut], [BtAttach], [BtGrow] prove it: paths in a
      tree ([spine]), the descent, the cut of an internal page, the way of a
      separator up the path ([pending]), and the whole insertion.
    - [BtStore], [BtLaws]: the tree as a store of versions ([store]), the read of
      engine.go, and the properties with a concrete tree.
    - [Cell], [Overflow], [OverflowOk]: overflow.go.  Leaf values, inline or in a chain
      of overflow pages: allocation, reading, streaming, retirement and the check
      of a replay; their proofs.
    - [Cursor], [CursorOk]: cursor.go.  The leaves of a tree listed once, the groups
      of versions of a key, and the moves; so far it is proved that a slot reads as
      the cell of the tree.
    - [Lz4]: src/pkg/c2lz4.  [Uuid]: src/pkg/c2uuidv7 and id.go.

    ** What the theorems show

    - Durability: [session_replayed] (append records that [rec_ok] allows, flush: the
      open log and the reopened device replay exactly these records in order),
      [median_rupture_refused], [repair_cuts_hole] (exactly the blocks from the hole
      to the last one with the magic are cleared and handed over), [wal_pack_unpack],
      [wal_refusals], [log_read_back] (events emitted over any number of segments
      are read back in order with increasing stamps), [stamps_increase],
      [encode_decode], [torn_tail_unreadable], [segment_name_roundtrip].
    - The store on one page: [leaf_put_get], [leaf_full_refused],
      [version_insert], [snapshot_read], [version_gc], [slot_set_get],
      [slot_set_refused], [hdr_write_read], [overlong_slot_accepted].
    - Integrity: at most four changed bytes in a row are detected, in an event
      outside bytes 52 to 63 ([burst_rejected]), in a page's body
      ([page_crc_store_detects]) or anywhere on a page outside bytes 28 to 31
      ([fullpage_crc_store_detects]).
    - Queries: [query_answers] (filters, limit, direction and prefix against a
      list specification), [prefix_bound_exact], [json_extract_flat].
    - Locks: [lock_ladder_exclusion], [pending_blocks_new_readers],
      [ladder_step_granted], [refused_exclusive_holds_pending].
    - The tree of pages: [heap_insert] (the insertion refines adding a version to
      the store and keeps the tree well formed), [heap_insert_read],
      [heap_insert_accepted], [heap_read], [heap_read_bounded], [leaf_split] (a
      [splittable] leaf is split), [heap_leaf_read_equiv], [heap_count],
      [heap_count_deep].
    - Values: [overflow_roundtrip], [overflow_stream], [overflow_read_total],
      [overflow_retired], [overflow_replay_exact].
    - Compression and identifiers: [lz4_roundtrip], [lz4_decompress_safe],
      [v7fast_increasing], [parse_v7_exact], and [id_order] and [id_fields], which
      are about counters modulo 2^40.

    ** Bounds and fuel

    Loops whose bound the source computes are folds over that many iterations.
    Loops that search (binary searches, replay, tip search, log directory scans)
    take fuel, and each theorem about them gives the fuel that suffices from the
    data: the number of slots of a leaf, of blocks of the device, of files of the
    directory.  Addresses are [Z]; the theorems on the log take devices of fewer than
    2^63 blocks and those on trees buffers of fewer than 2^63 bytes, where the code's
    64-bit sums do not wrap.  The descents of
    the tree have the number of pages as fuel, as in the source; the theorems show
    that a well-formed tree never uses it up.  The theorems on insertion leave out
    the buffer of exactly two pages, which the source treats apart (two chained
    leaves without a root; engine.go has at least 4096 pages).

    ** What is not modelled, and why

    Goroutines, channels, mmap, fdatasync, file locks and growth of the engine
    and device (engine.go, device.go) are calls of the operating system; the
    model keeps their outcome as arguments where the code branches on it.  Keys,
    signatures and third-party ciphers (enc.go, keyfile.go, kdf.go) have no
    readable definition here.  SIMD kernels are vector intrinsics.  The SQLite
    bridge (vfs_bridge.go) calls a translated C library.  Still planned: deletion,
    scans and collection on the tree of pages, its unversioned insertion, and the
    theorem on pruning insertions ([bt_replace_same_value_at] is translated, the
    theorems on insertion are for [prune = 0]); the moves of the cursor, so that
    [CursorOps] is discharged by the code, the theorems on compaction of the log, the
    pager, the file layer (vfs_file.go), history segments (history.go), and the query
    lots of c2ql.go. *)

From Stdlib Require Export ZArith Lia.
From stdpp Require Export base option numbers list sorting.

Global Open Scope Z_scope.

(** ** Machine integers

    A Go [uintN] is a [Z] in [[0, 2^N)]; the wrap-around of the Go operators
    is written out with [wN]. *)

Definition w8 (x : Z) : Z := x `mod` 2 ^ 8.
Definition w16 (x : Z) : Z := x `mod` 2 ^ 16.
Definition w32 (x : Z) : Z := x `mod` 2 ^ 32.
Definition w64 (x : Z) : Z := x `mod` 2 ^ 64.

Declare Scope u64_scope.
Delimit Scope u64_scope with u64.
Infix "+%" := (fun a b => w64 (a + b)) (at level 50, left associativity) : u64_scope.
Infix "-%" := (fun a b => w64 (a - b)) (at level 50, left associativity) : u64_scope.
Infix "*%" := (fun a b => w64 (a * b)) (at level 40, left associativity) : u64_scope.
Global Open Scope u64_scope.

Lemma w8_small x : 0 <= x < 2 ^ 8 -> w8 x = x.
Proof. apply Z.mod_small. Qed.
Lemma w16_small x : 0 <= x < 2 ^ 16 -> w16 x = x.
Proof. apply Z.mod_small. Qed.
Lemma w32_small x : 0 <= x < 2 ^ 32 -> w32 x = x.
Proof. apply Z.mod_small. Qed.
Lemma w64_small x : 0 <= x < 2 ^ 64 -> w64 x = x.
Proof. apply Z.mod_small. Qed.

Lemma w8_bound x : 0 <= w8 x < 256.
Proof. apply Z.mod_pos_bound. lia. Qed.
Lemma w16_bound x : 0 <= w16 x < 65536.
Proof. apply Z.mod_pos_bound. lia. Qed.
Lemma w32_bound x : 0 <= w32 x < 2 ^ 32.
Proof. apply Z.mod_pos_bound. lia. Qed.
Lemma w64_bound x : 0 <= w64 x < 2 ^ 64.
Proof. apply Z.mod_pos_bound. lia. Qed.

(** Remove the wrap-arounds whose argument is provably in range. *)
Ltac unwrap :=
  repeat match goal with
  | |- context [w64 ?e] => rewrite (w64_small e) by lia
  | |- context [w32 ?e] => rewrite (w32_small e) by lia
  | |- context [w16 ?e] => rewrite (w16_small e) by lia
  | |- context [w8 ?e] => rewrite (w8_small e) by lia
  end.
Ltac unwrap_in H :=
  repeat match type of H with
  | context [w64 ?e] => rewrite (w64_small e) in H by lia
  | context [w32 ?e] => rewrite (w32_small e) in H by lia
  | context [w16 ?e] => rewrite (w16_small e) in H by lia
  | context [w8 ?e] => rewrite (w8_small e) in H by lia
  end.

(** Fold the sums of two literals, and [a + i + j] with literal [i] and [j]. *)
Ltac zlit :=
  repeat match goal with
  | |- context [Z.add Z0 (Zpos ?b)] => change (Z.add Z0 (Zpos b)) with (Zpos b)
  | |- context [Z.add (Zpos ?a) (Zpos ?b)] =>
      let r := eval vm_compute in (Z.add (Zpos a) (Zpos b)) in
      change (Z.add (Zpos a) (Zpos b)) with r
  | |- context [Z.add (Z.add ?x (Zpos ?a)) (Zpos ?b)] =>
      let r := eval vm_compute in (Z.add (Zpos a) (Zpos b)) in
      rewrite <- (Z.add_assoc x (Zpos a) (Zpos b)); change (Z.add (Zpos a) (Zpos b)) with r
  end.

(** Boolean comparisons on [Z] and [nat]: turn the first test found into its
    two cases, each with the arithmetic fact. *)
Ltac zcase :=
  match goal with
  | |- context [?a <? ?b] => destruct (Z.ltb_spec a b)
  | |- context [?a <=? ?b] => destruct (Z.leb_spec a b)
  | |- context [?a =? ?b] => destruct (Z.eqb_spec a b)
  | |- context [?a >? ?b] => rewrite (Z.gtb_ltb a b); destruct (Z.ltb_spec b a)
  | |- context [?a >=? ?b] => rewrite (Z.geb_leb a b); destruct (Z.leb_spec b a)
  end.
(** The same on the condition of the outermost [if]. *)
Ltac zsplit b :=
  match b with
  | context [?a <? ?c] => destruct (Z.ltb_spec a c)
  | context [?a <=? ?c] => destruct (Z.leb_spec a c)
  | context [?a =? ?c] => destruct (Z.eqb_spec a c)
  | context [?a >? ?c] => rewrite (Z.gtb_ltb a c); destruct (Z.ltb_spec c a)
  | context [?a >=? ?c] => rewrite (Z.geb_leb a c); destruct (Z.leb_spec c a)
  | _ => let E := fresh "E" in destruct b eqn:E
  end; cbn [andb orb negb].
Ltac ifcase :=
  match goal with
  | |- context [if ?b then _ else _] => zsplit b
  end.

Ltac zcases := repeat (zcase; cbn [andb orb negb]; try lia).

(** ** Byte buffers

    A Go [[]byte] is a list of [Z]; [bytes_ok] is its type invariant.  A nil
    slice is distinct from an empty one wherever the code tests [== nil]: the
    type [slice] is [option (list Z)] and [None] is nil. *)

Definition bytes_ok (l : list Z) : Prop := Forall (fun b => 0 <= b < 256) l.

#[export] Instance bytes_ok_dec l : Decision (bytes_ok l).
Proof. unfold bytes_ok. apply _. Defined.

Abbreviation slice := (option (list Z)).

Definition is_nil (s : slice) : bool := match s with None => true | Some _ => false end.
Definition bytes_of (s : slice) : list Z := default [] s.
Definition len {A} (l : list A) : Z := Z.of_nat (length l).
Definition slen (s : slice) : Z := len (bytes_of s).

(** A read guarded by the code's own bounds test, and one that panics (the
    [None] result) when it is out of range. *)
Definition rd (l : list Z) (a : Z) : Z := default 0 (l !! Z.to_nat a).
Definition idx {A} (l : list A) (a : Z) : option A :=
  if 0 <=? a then l !! Z.to_nat a else None.

(** A guarded write, and one that panics out of range. *)
Definition wr {A} (l : list A) (a : Z) (v : A) : list A := <[Z.to_nat a := v]> l.
Definition upd {A} (l : list A) (a : Z) (v : A) : option (list A) :=
  if (0 <=? a) && (a <? len l) then Some (wr l a v) else None.

(** Go's [copy(l[a:], src)] (what does not fit is dropped) and [l[a:b]]. *)
Definition copy_at (l : list Z) (a : Z) (src : list Z) : list Z :=
  list_inserts (Z.to_nat a) src l.
Definition sub {A} (l : list A) (a b : Z) : list A :=
  take (Z.to_nat (b - a)) (drop (Z.to_nat a) l).

Definition zeros (n : Z) : list Z := replicate (Z.to_nat n) 0.

Lemma len_nonneg {A} (l : list A) : 0 <= len l.
Proof. unfold len. lia. Qed.
Lemma len_app {A} (l k : list A) : len (l ++ k) = len l + len k.
Proof. unfold len. rewrite length_app. lia. Qed.
Lemma len_cons {A} (x : A) l : len (x :: l) = 1 + len l.
Proof. unfold len. cbn. lia. Qed.
Lemma len_nil {A} : len (@nil A) = 0. Proof. done. Qed.
Lemma len_single {A} (x : A) : len [x] = 1. Proof. done. Qed.
Lemma len_nil_inv {A} (l : list A) : len l = 0 -> l = [].
Proof. destruct l; [done|]. rewrite len_cons. pose proof (len_nonneg l). lia. Qed.
Lemma len_wr {A} (l : list A) a v : len (wr l a v) = len l.
Proof. unfold len, wr. by rewrite length_insert. Qed.
Lemma len_copy_at l a src : len (copy_at l a src) = len l.
Proof. unfold len, copy_at. by rewrite length_inserts. Qed.
Lemma len_zeros n : 0 <= n -> len (zeros n) = n.
Proof. intros. unfold len, zeros. rewrite length_replicate. lia. Qed.
Lemma len_sub {A} (l : list A) a b :
  0 <= a <= b -> b <= len l -> len (sub l a b) = b - a.
Proof. unfold len, sub. intros. rewrite length_take, length_drop. lia. Qed.

Lemma rd_wr_eq l a v : 0 <= a < len l -> rd (wr l a v) a = v.
Proof.
  intros. unfold rd, wr, len in *. rewrite list_lookup_insert_eq; [done | lia].
Qed.
Lemma rd_wr_ne l a b v : 0 <= a -> 0 <= b -> a <> b -> rd (wr l a v) b = rd l b.
Proof. intros. unfold rd, wr. rewrite list_lookup_insert_ne; [done | lia]. Qed.

Lemma rd_copy_at_out l a src b :
  0 <= a -> 0 <= b -> (b < a \/ a + len src <= b) -> rd (copy_at l a src) b = rd l b.
Proof.
  intros Ha Hb Hout. unfold rd, copy_at, len in *.
  destruct (decide (Z.to_nat b < Z.to_nat a)%nat).
  - by rewrite list_lookup_inserts_lt by lia.
  - by rewrite list_lookup_inserts_ge by lia.
Qed.
Lemma rd_copy_at_in l a src b :
  0 <= a -> a <= b < a + len src -> b < len l -> rd (copy_at l a src) b = rd src (b - a).
Proof.
  intros Ha Hb Hin. unfold rd, copy_at, len in *.
  rewrite list_lookup_inserts by lia. do 2 f_equal. lia.
Qed.

Lemma rd_bound l a : bytes_ok l -> 0 <= rd l a < 256.
Proof.
  unfold rd. intros Hl. destruct (l !! Z.to_nat a) eqn:E; cbn; [|lia].
  eapply Forall_lookup_1 in Hl; eauto.
Qed.

Lemma idx_rd l a : 0 <= a < len l -> idx l a = Some (rd l a).
Proof.
  unfold idx, rd, len. intros. rewrite (proj2 (Z.leb_le 0 a)) by lia.
  destruct (lookup_lt_is_Some_2 l (Z.to_nat a)) as [x Hx]; [lia|]. by rewrite Hx.
Qed.
Lemma idx_out {A} (l : list A) a : len l <= a -> idx l a = None.
Proof.
  unfold idx, len. intros. zcase; [|done]. apply lookup_ge_None. lia.
Qed.
Lemma upd_wr {A} (l : list A) a v : 0 <= a < len l -> upd l a v = Some (wr l a v).
Proof.
  unfold upd. intros. destruct (Z.leb_spec 0 a), (Z.ltb_spec a (len l)); done || lia.
Qed.

Lemma rd_app_l l k a : 0 <= a < len l -> rd (l ++ k) a = rd l a.
Proof. unfold rd, len. intros. by rewrite lookup_app_l by lia. Qed.
Lemma rd_app_r l k a : len l <= a -> rd (l ++ k) a = rd k (a - len l).
Proof. unfold rd, len. intros. rewrite lookup_app_r by lia. do 2 f_equal. lia. Qed.
Lemma rd_cons_0 x l : rd (x :: l) 0 = x.
Proof. done. Qed.
Lemma rd_cons_S x l a : 0 < a -> rd (x :: l) a = rd l (a - 1).
Proof.
  intros. unfold rd. replace (Z.to_nat a) with (S (Z.to_nat (a - 1))) by lia. done.
Qed.
Lemma rd_sub l a b i :
  0 <= a -> 0 <= i < b - a -> rd (sub l a b) i = rd l (a + i).
Proof.
  intros. unfold rd, sub. rewrite lookup_take_lt, lookup_drop by lia.
  do 2 f_equal. lia.
Qed.
Lemma rd_zeros n a : rd (zeros n) a = 0.
Proof.
  unfold rd, zeros. destruct (replicate _ _ !! _) eqn:E; [|done].
  apply lookup_replicate in E as [-> _]. done.
Qed.

(** Two buffers of one length are equal when every byte is. *)
Lemma bytes_ext l k :
  len l = len k -> (forall i, 0 <= i < len l -> rd l i = rd k i) -> l = k.
Proof.
  unfold len. intros Hlen Hrd. apply list_eq. intros i.
  destruct (decide (i < length l)%nat) as [Hi|Hi].
  - specialize (Hrd (Z.of_nat i) ltac:(lia)). unfold rd in Hrd. rewrite Nat2Z.id in Hrd.
    destruct (lookup_lt_is_Some_2 l i Hi) as [x Hx].
    destruct (lookup_lt_is_Some_2 k i) as [y Hy]; [lia|].
    rewrite Hx, Hy in *. cbn in Hrd. congruence.
  - rewrite !lookup_ge_None_2 by lia. done.
Qed.

Lemma bytes_ok_wr l a v : bytes_ok l -> 0 <= v < 256 -> bytes_ok (wr l a v).
Proof. intros. by apply Forall_insert. Qed.
Lemma bytes_ok_copy_at l a src : bytes_ok l -> bytes_ok src -> bytes_ok (copy_at l a src).
Proof.
  unfold copy_at. intros Hl Hs. generalize (Z.to_nat a). revert l Hl.
  induction Hs as [|x s Hx Hs IH]; intros l Hl n; cbn; [done|].
  apply Forall_insert; auto. by apply IH.
Qed.
Lemma bytes_ok_app l k : bytes_ok l -> bytes_ok k -> bytes_ok (l ++ k).
Proof. intros. by apply Forall_app_2. Qed.
Lemma bytes_ok_zeros n : bytes_ok (zeros n).
Proof. apply Forall_replicate. lia. Qed.
Lemma bytes_ok_sub l a b : bytes_ok l -> bytes_ok (sub l a b).
Proof. intros. by apply Forall_take, Forall_drop. Qed.
Lemma w8_byte x : 0 <= w8 x < 256.
Proof. apply w8_bound. Qed.

Create HintDb c2db.
Create Rewrite HintDb c2db_len.
#[export] Hint Resolve bytes_ok_wr bytes_ok_copy_at bytes_ok_app bytes_ok_zeros
  bytes_ok_sub w8_byte rd_bound : c2db.
#[export] Hint Rewrite @len_wr len_copy_at @len_app @len_cons : c2db_len.

(** ** Little-endian integers: Go's [encoding/binary] *)

Fixpoint le_get (n : nat) (l : list Z) : Z :=
  match n, l with
  | S n', b :: l' => b + 256 * le_get n' l'
  | _, _ => 0
  end.
Fixpoint le_put (n : nat) (v : Z) : list Z :=
  match n with
  | O => []
  | S n' => v `mod` 256 :: le_put n' (v / 256)
  end.

Lemma length_le_put n v : length (le_put n v) = n.
Proof. revert v. induction n as [|n IH]; intros v; cbn; [done|]. by rewrite IH. Qed.
Lemma len_le_put n v : len (le_put n v) = Z.of_nat n.
Proof. unfold len. by rewrite length_le_put. Qed.
Lemma bytes_ok_le_put n v : bytes_ok (le_put n v).
Proof.
  revert v. induction n as [|n IH]; intros v; cbn; [constructor|].
  constructor; [apply Z.mod_pos_bound; lia | apply IH].
Qed.
Lemma le_get_put_app n v l : le_get n (le_put n v ++ l) = v `mod` 2 ^ (8 * Z.of_nat n).
Proof.
  revert v. induction n as [|n IH]; intros v; cbn [le_get le_put app].
  - by rewrite Z.mod_1_r.
  - rewrite IH. replace (8 * Z.of_nat (S n)) with (8 + 8 * Z.of_nat n) by lia.
    rewrite Z.pow_add_r by lia. change (2 ^ 8) with 256.
    rewrite Z.rem_mul_r by lia. lia.
Qed.
Lemma le_get_put n v : le_get n (le_put n v) = v `mod` 2 ^ (8 * Z.of_nat n).
Proof. rewrite <- (app_nil_r (le_put n v)). apply le_get_put_app. Qed.
Lemma le_get_put_small n v l :
  0 <= v < 2 ^ (8 * Z.of_nat n) -> le_get n (le_put n v ++ l) = v.
Proof. intros. rewrite le_get_put_app. by apply Z.mod_small. Qed.
Lemma le_get_inj l k :
  bytes_ok l -> bytes_ok k -> length l = length k ->
  le_get (length l) l = le_get (length k) k -> l = k.
Proof.
  intros Hl. revert k. induction Hl as [|b l Hb Hl IH]; intros k Hk Hlen Heq.
  - by destruct k.
  - destruct Hk as [|b' k Hb' Hk]; [done|]. cbn [length le_get] in *.
    injection Hlen as Hlen. assert (b = b') as -> by lia. f_equal.
    apply IH; [done..|]. lia.
Qed.

Lemma le_put_mod n v : le_put n (v `mod` 2 ^ (8 * Z.of_nat n)) = le_put n v.
Proof.
  revert v. induction n as [|n IH]; intros v; [done|].
  cbn [le_put]. replace (8 * Z.of_nat (S n)) with (8 + 8 * Z.of_nat n) by lia.
  rewrite Z.pow_add_r by lia. change (2 ^ 8) with 256.
  rewrite Z.rem_mul_r by lia. f_equal.
  - rewrite (Z.mul_comm 256), Z.mod_add, Z.mod_mod by lia. done.
  - rewrite (Z.mul_comm 256), Z.div_add, Zmod_div, Z.add_0_l by lia. apply IH.
Qed.
Lemma le_get_bound n l : bytes_ok l -> 0 <= le_get n l < 2 ^ (8 * Z.of_nat n).
Proof.
  revert l. induction n as [|n IH]; intros l Hl; [cbn; lia|].
  replace (8 * Z.of_nat (S n)) with (8 + 8 * Z.of_nat n) by lia.
  rewrite Z.pow_add_r by lia. change (2 ^ 8) with 256.
  destruct l as [|b l]; cbn [le_get]; [lia|].
  inversion_clear Hl as [|? ? Hb Hl2]. specialize (IH l Hl2). lia.
Qed.

(** Bitwise assembly of bytes is addition. *)
Lemma lor_shiftl_add a b k :
  0 <= k -> 0 <= a < 2 ^ k -> 0 <= b -> Z.lor a (Z.shiftl b k) = a + 2 ^ k * b.
Proof.
  intros Hk Ha Hb. rewrite Z.shiftl_mul_pow2 by lia. rewrite (Z.mul_comm (2 ^ k)).
  assert (Hand : Z.land a (b * 2 ^ k) = 0).
  { apply Z.bits_inj'. intros i Hi. rewrite Z.land_spec, Z.bits_0.
    destruct (Z.ltb_spec i k).
    - rewrite Z.mul_pow2_bits_low by lia. apply andb_false_r.
    - rewrite <- (Z.mod_small a (2 ^ k)) by lia.
      rewrite Z.mod_pow2_bits_high by lia. done. }
  rewrite <- Z.lxor_lor by done. symmetry. by apply Z.add_nocarry_lxor.
Qed.

(** Turn the or of shifted bytes into their weighted sum, innermost first. *)
Ltac lor_sum :=
  repeat match goal with
  | |- context [Z.lor ?x (Z.shiftl ?y ?k)] =>
      lazymatch x with
      | context [Z.lor] => fail
      | _ => rewrite (lor_shiftl_add x y k) by lia
      end
  end.

Lemma land_low k x : 0 <= k -> Z.land x (Z.ones k) = x `mod` 2 ^ k.
Proof. intros. by apply Z.land_ones. Qed.
Lemma land_255 x : Z.land x 255 = x `mod` 256.
Proof. change 255 with (Z.ones 8). by rewrite Z.land_ones. Qed.

(** ** Loops

    [for_to k i body s] is a Go [for] loop with the index running from [i] for
    [k] iterations: [Next] goes on, [Stop] is [break], [Ret] is [return] from
    the enclosing function, and a [None] body is a run-time panic. *)

Inductive ctl (S R : Type) : Type :=
| Next (s : S)
| Stop (s : S)
| Ret (r : R).
Arguments Next {S R} s.
Arguments Stop {S R} s.
Arguments Ret {S R} r.

Fixpoint for_to {S R} (k : nat) (i : Z) (body : Z -> S -> option (ctl S R)) (s : S)
    : option (S + R) :=
  match k with
  | O => Some (inl s)
  | Datatypes.S k' =>
      match body i s with
      | None => None
      | Some (Next s') => for_to k' (i + 1) body s'
      | Some (Stop s') => Some (inl s')
      | Some (Ret r) => Some (inr r)
      end
  end.

(** [for i = lo; i < hi; i++ { body }] *)
Definition for_range {S R} (lo hi : Z) (body : Z -> S -> option (ctl S R)) (s : S)
    : option (S + R) :=
  for_to (Z.to_nat (hi - lo)) lo body s.

(** A loop without a [return]: its final state. *)
Definition no_ret {S} (r : option (S + Empty_set)) : option S :=
  match r with
  | Some (inl s) => Some s
  | Some (inr e) => match e with end
  | None => None
  end.

(** The invariant rule: an invariant indexed by the loop variable that every
    [Next] step preserves. *)
Lemma for_to_inv {S R} (P : Z -> S -> Prop) (Q : S + R -> Prop) k i body (s : S) :
  P i s ->
  (forall j t, i <= j < i + Z.of_nat k -> P j t ->
     match body j t with
     | None => False
     | Some (Next t') => P (j + 1) t'
     | Some (Stop t') => Q (inl t')
     | Some (Ret r) => Q (inr r)
     end) ->
  (forall t, P (i + Z.of_nat k) t -> Q (inl t)) ->
  exists r, for_to k i body s = Some r /\ Q r.
Proof.
  revert i s. induction k as [|k IH]; intros i s Hi Hstep Hend.
  - exists (inl s). split; [done|]. apply Hend. by rewrite Z.add_0_r.
  - cbn [for_to]. pose proof (Hstep i s ltac:(lia) Hi) as H.
    destruct (body i s) as [[t|t|r]|]; [| eauto | eauto | done].
    apply IH; [done | |].
    + intros j u Hj. apply Hstep. lia.
    + intros u Hu. apply Hend. by replace (i + Z.of_nat (Datatypes.S k)) with (i + 1 + Z.of_nat k) by lia.
Qed.

Lemma for_range_inv {S R} (P : Z -> S -> Prop) (Q : S + R -> Prop) lo hi body (s : S) :
  lo <= hi ->
  P lo s ->
  (forall j t, lo <= j < hi -> P j t ->
     match body j t with
     | None => False
     | Some (Next t') => P (j + 1) t'
     | Some (Stop t') => Q (inl t')
     | Some (Ret r) => Q (inr r)
     end) ->
  (forall t, P hi t -> Q (inl t)) ->
  exists r, for_range lo hi body s = Some r /\ Q r.
Proof.
  intros Hle Hlo Hstep Hend. apply (for_to_inv P Q); [done | |].
  - intros j t Hj. apply Hstep. lia.
  - intros t Ht. apply Hend. by replace (lo + Z.of_nat (Z.to_nat (hi - lo))) with hi in Ht by lia.
Qed.

Lemma for_range_step {S R} lo hi (body : Z -> S -> option (ctl S R)) s : lo < hi ->
  for_range lo hi body s =
    match body lo s with
    | None => None
    | Some (Next s') => for_range (lo + 1) hi body s'
    | Some (Stop s') => Some (inl s')
    | Some (Ret r) => Some (inr r)
    end.
Proof.
  intros Hlt. unfold for_range. replace (Z.to_nat (hi - lo)) with (Datatypes.S (Z.to_nat (hi - (lo + 1)))) by lia.
  done.
Qed.

Lemma for_range_ext {S R} lo hi (f g : Z -> S -> option (ctl S R)) s :
  (forall i t, lo <= i < hi -> f i t = g i t) -> for_range lo hi f s = for_range lo hi g s.
Proof.
  unfold for_range. remember (Z.to_nat (hi - lo)) as k eqn:Ek. revert lo s Ek.
  induction k as [|k IH]; intros lo s Ek Hext; [done|]. cbn [for_to].
  rewrite Hext by lia. destruct (g lo s) as [[t|t|r]|]; try done.
  apply IH; [lia|]. intros. apply Hext. lia.
Qed.

(** [for i = lo; i < hi; i++ { s = body(i, s) }]: a loop whose body neither
    leaves early nor panics. *)
Fixpoint for_pure_to {S} (k : nat) (i : Z) (body : Z -> S -> S) (s : S) : S :=
  match k with
  | O => s
  | Datatypes.S k' => for_pure_to k' (i + 1) body (body i s)
  end.
Definition for_pure {S} (lo hi : Z) (body : Z -> S -> S) (s : S) : S :=
  for_pure_to (Z.to_nat (hi - lo)) lo body s.

Lemma for_pure_to_inv {S} (P : Z -> S -> Prop) k i body (s : S) :
  P i s ->
  (forall j t, i <= j < i + Z.of_nat k -> P j t -> P (j + 1) (body j t)) ->
  P (i + Z.of_nat k) (for_pure_to k i body s).
Proof.
  revert i s. induction k as [|k IH]; intros i s Hi Hstep.
  - by rewrite Z.add_0_r.
  - cbn [for_pure_to]. replace (i + Z.of_nat (Datatypes.S k)) with (i + 1 + Z.of_nat k) by lia.
    apply IH; [apply Hstep; [lia | done]|]. intros j t Hj. apply Hstep. lia.
Qed.

Lemma for_pure_inv {S} (P : Z -> S -> Prop) lo hi body (s : S) :
  lo <= hi -> P lo s ->
  (forall j t, lo <= j < hi -> P j t -> P (j + 1) (body j t)) ->
  P hi (for_pure lo hi body s).
Proof.
  intros Hle Hlo Hstep. unfold for_pure.
  replace hi with (lo + Z.of_nat (Z.to_nat (hi - lo))) at 1 by lia.
  apply for_pure_to_inv; [done|]. intros j t Hj. apply Hstep. lia.
Qed.

(** A pure loop over the bytes of a buffer is a left fold over them. *)
Lemma for_pure_foldl {S} (f : S -> Z -> S) l lo hi s :
  0 <= lo <= hi -> hi <= len l ->
  for_pure lo hi (fun i s => f s (rd l i)) s = foldl f s (sub l lo hi).
Proof.
  intros Hlo Hhi. unfold for_pure, sub, len in *.
  remember (Z.to_nat (hi - lo)) as k eqn:Ek. revert lo s Hlo Ek.
  induction k as [|k IH]; intros lo s Hlo Ek; [done|]. cbn [for_pure_to].
  rewrite IH by lia. unfold rd.
  destruct (lookup_lt_is_Some_2 l (Z.to_nat lo)) as [x Hx]; [lia|].
  rewrite (drop_S l x (Z.to_nat lo)) by done. rewrite Hx. cbn.
  by replace (Z.to_nat (lo + 1)) with (Datatypes.S (Z.to_nat lo)) by lia.
Qed.

Lemma for_pure_ext {S} lo hi (f g : Z -> S -> S) s :
  (forall i t, lo <= i < hi -> f i t = g i t) -> for_pure lo hi f s = for_pure lo hi g s.
Proof.
  unfold for_pure. remember (Z.to_nat (hi - lo)) as k eqn:Ek. revert lo s Ek.
  induction k as [|k IH]; intros lo s Ek Hext; [done|]. cbn.
  rewrite Hext by lia. apply IH; [lia|]. intros. apply Hext. lia.
Qed.

(** ** Windows of a buffer *)

Lemma sub_full {A} (l : list A) : sub l 0 (len l) = l.
Proof. unfold sub, len. rewrite Z.sub_0_r, Nat2Z.id. cbn. by rewrite firstn_all. Qed.

Lemma sub_copy_at_eq l a src b :
  0 <= a -> b = a + len src -> b <= len l -> sub (copy_at l a src) a b = src.
Proof.
  intros Ha -> Hb. apply bytes_ext.
  - rewrite len_sub by (rewrite ?len_copy_at; pose proof (len_nonneg src); lia). lia.
  - intros i. rewrite len_sub by (rewrite ?len_copy_at; pose proof (len_nonneg src); lia).
    intros Hi. rewrite rd_sub, rd_copy_at_in by lia. f_equal. lia.
Qed.

Lemma sub_copy_at_ne l a src b c :
  0 <= a -> 0 <= b <= c -> c <= len l -> (c <= a \/ a + len src <= b) ->
  sub (copy_at l a src) b c = sub l b c.
Proof.
  intros Ha Hb Hc Hout. apply bytes_ext.
  - rewrite !len_sub by (rewrite ?len_copy_at; lia). done.
  - intros i. rewrite len_sub by (rewrite ?len_copy_at; lia). intros Hi.
    rewrite !rd_sub by lia. apply rd_copy_at_out; lia.
Qed.

Lemma sub_app_l {A} (l k : list A) a b :
  0 <= a <= b -> b <= len l -> sub (l ++ k) a b = sub l a b.
Proof.
  intros Ha Hb. unfold sub, len in *. rewrite drop_app_le by lia.
  rewrite take_app_le; [done|]. rewrite length_drop. lia.
Qed.

Lemma sub_app_r {A} (l k : list A) a b :
  len l <= a -> a <= b -> sub (l ++ k) a b = sub k (a - len l) (b - len l).
Proof.
  intros Ha Hb. unfold sub, len in *. rewrite drop_app_ge by lia.
  f_equal; [lia|]. f_equal. lia.
Qed.

(** The segments of a concatenation: skip the parts before, take the one asked. *)
Lemma sub_head {A} (q r : list A) a b : a = 0 -> b = len q -> sub (q ++ r) a b = q.
Proof.
  intros -> ->. unfold sub, len. rewrite Z.sub_0_r, Nat2Z.id. cbn. apply take_app_length.
Qed.
Lemma sub_all {A} (q : list A) a b : a = 0 -> b = len q -> sub q a b = q.
Proof. intros -> ->. unfold sub, len. rewrite Z.sub_0_r, Nat2Z.id. cbn. by rewrite firstn_all. Qed.
Lemma sub_skip {A} (p l : list A) a b :
  len p <= a <= b -> sub (p ++ l) a b = sub l (a - len p) (b - len p).
Proof.
  intros Hab. unfold sub, len in *. rewrite drop_app_ge by lia.
  f_equal; [lia|]. f_equal. lia.
Qed.

Lemma sub_split {A} (l : list A) a b c :
  0 <= a <= b -> b <= c -> sub l a c = sub l a b ++ sub l b c.
Proof.
  intros Ha Hb. unfold sub.
  replace (Z.to_nat b) with (Z.to_nat a + Z.to_nat (b - a))%nat by lia.
  rewrite <- drop_drop.
  replace (Z.to_nat (c - a)) with (Z.to_nat (b - a) + Z.to_nat (c - b))%nat by lia.
  by rewrite take_take_drop.
Qed.

Lemma sub_nil {A} (l : list A) a : sub l a a = [].
Proof. unfold sub. by rewrite Z.sub_diag. Qed.
Lemma sub_copy_at_in l a src b c :
  0 <= b <= a -> a + len src <= c -> c <= len l ->
  sub (copy_at l a src) b c = copy_at (sub l b c) (a - b) src.
Proof.
  intros Hb Hc Hl. pose proof (len_nonneg src).
  apply bytes_ext; rewrite ?len_copy_at, !len_sub by (rewrite ?len_copy_at; lia); [done|].
  intros i Hi. rewrite rd_sub by lia. destruct (decide (a <= b + i < a + len src)).
  - rewrite !rd_copy_at_in by (rewrite ?len_sub by lia; lia). f_equal. lia.
  - rewrite !rd_copy_at_out by lia. by rewrite rd_sub by lia.
Qed.

Lemma copy_at_app_l p q a src :
  0 <= a -> a + len src <= len p -> copy_at (p ++ q) a src = copy_at p a src ++ q.
Proof.
  intros Ha Hend. pose proof (len_nonneg src). pose proof (len_nonneg q).
  apply bytes_ext; rewrite ?len_app, !len_copy_at, ?len_app; [done|]. intros i Hi.
  destruct (decide (i < len p)).
  - rewrite rd_app_l by (rewrite ?len_copy_at; lia).
    destruct (decide (a <= i < a + len src)).
    + by rewrite !rd_copy_at_in by (rewrite ?len_app; lia).
    + rewrite !rd_copy_at_out by lia. by rewrite rd_app_l by lia.
  - rewrite rd_copy_at_out by lia. by rewrite !rd_app_r by (rewrite ?len_copy_at; lia); rewrite len_copy_at.
Qed.
Lemma copy_at_app_r p q a src :
  len p <= a -> a + len src <= len p + len q ->
  copy_at (p ++ q) a src = p ++ copy_at q (a - len p) src.
Proof.
  intros Ha Hend. pose proof (len_nonneg src). pose proof (len_nonneg p).
  apply bytes_ext; rewrite ?len_app, !len_copy_at, ?len_app; [done|]. intros i Hi.
  destruct (decide (a <= i < a + len src)).
  - rewrite rd_copy_at_in, rd_app_r, rd_copy_at_in by (rewrite ?len_app; lia). f_equal. lia.
  - rewrite rd_copy_at_out by lia. destruct (decide (i < len p)).
    + by rewrite !rd_app_l by lia.
    + rewrite !rd_app_r by lia. by rewrite rd_copy_at_out by lia.
Qed.

(** A window replaced, as a list. *)
Lemma copy_at_split l a src :
  0 <= a -> a + len src <= len l ->
  copy_at l a src = sub l 0 a ++ src ++ sub l (a + len src) (len l).
Proof.
  intros Ha Hb. pose proof (len_nonneg src).
  rewrite <- (sub_full (copy_at l a src)), len_copy_at.
  rewrite (sub_split _ 0 a), (sub_split _ a (a + len src)) by lia.
  rewrite sub_copy_at_eq by lia. by rewrite !sub_copy_at_ne by lia.
Qed.
Lemma copy_at_full l src : len src = len l -> copy_at l 0 src = src.
Proof.
  intros H. rewrite copy_at_split by lia. rewrite sub_nil. cbn.
  replace (0 + len src) with (len l) by lia. by rewrite sub_nil, app_nil_r.
Qed.
Lemma split_at {A} (l : list A) a b :
  0 <= a <= b -> b <= len l -> l = sub l 0 a ++ sub l a b ++ sub l b (len l).
Proof.
  intros Ha Hb. rewrite <- (sub_full l) at 1.
  by rewrite (sub_split _ 0 a), (sub_split _ a b) by lia.
Qed.

Lemma wr_copy_at l a v : wr l a v = copy_at l a [v].
Proof. done. Qed.

Lemma copy_at_cons l a x src :
  0 <= a -> copy_at l a (x :: src) = wr (copy_at l (a + 1) src) a x.
Proof.
  intros. unfold copy_at, wr. cbn.
  by replace (Z.to_nat (a + 1)) with (Datatypes.S (Z.to_nat a)) by lia.
Qed.

(** [copy] as the code's successive stores. *)
Lemma copy_at_step l a x src :
  0 <= a -> copy_at l a (x :: src) = copy_at (wr l a x) (a + 1) src.
Proof.
  intros. rewrite copy_at_cons by lia. unfold copy_at, wr.
  rewrite list_insert_inserts_lt by lia. done.
Qed.
Lemma copy_at_nil l a : copy_at l a [] = l.
Proof. done. Qed.

Lemma wr_comm {A} (l : list A) a b x y :
  0 <= a -> 0 <= b -> a <> b -> wr (wr l a x) b y = wr (wr l b y) a x.
Proof. intros. unfold wr. apply list_insert_insert_ne. lia. Qed.

(** The little-endian value of a window, byte by byte. *)
Lemma le_get_sub_S n l a b :
  0 <= a -> b = a + Z.of_nat (Datatypes.S n) -> b <= len l ->
  le_get (Datatypes.S n) (sub l a b) = rd l a + 256 * le_get n (sub l (a + 1) b).
Proof.
  intros Ha -> Hb. unfold sub, rd, len in *.
  destruct (lookup_lt_is_Some_2 l (Z.to_nat a)) as [x Hx]; [lia|].
  rewrite (drop_S l x (Z.to_nat a)) by done. rewrite Hx.
  replace (Z.to_nat (a + Z.of_nat (Datatypes.S n) - a)) with (Datatypes.S n) by lia.
  replace (Z.to_nat (a + Z.of_nat (Datatypes.S n) - (a + 1))) with n by lia.
  replace (Z.to_nat (a + 1)) with (Datatypes.S (Z.to_nat a)) by lia. done.
Qed.

(** ** Fixed-width fields of a buffer *)

(** The bytes [v & 0xff], [(v >> 8) & 0xff], ... that the code stores one by
    one are the little-endian bytes of [v]. *)
Lemma land_shiftr_255 v k : 0 <= k -> Z.land (Z.shiftr v k) 255 = (v / 2 ^ k) `mod` 256.
Proof. intros. by rewrite land_255, Z.shiftr_div_pow2. Qed.

Lemma le_put_S n v : le_put (S n) v = Z.land v 255 :: le_put n (Z.shiftr v 8).
Proof. by rewrite land_255, Z.shiftr_div_pow2. Qed.

(** A field written at [a] reads back, and leaves every disjoint field alone. *)
Lemma field_put_get n l a b v :
  0 <= a -> b = a + Z.of_nat n -> b <= len l ->
  le_get n (sub (copy_at l a (le_put n v)) a b) = v `mod` 2 ^ (8 * Z.of_nat n).
Proof.
  intros Ha -> Hb. rewrite sub_copy_at_eq; [apply le_get_put | lia | | lia].
  by rewrite len_le_put.
Qed.
Lemma field_put_other n m l a b c v :
  0 <= a -> 0 <= b <= c -> c <= len l ->
  (c <= a \/ a + Z.of_nat m <= b) ->
  le_get n (sub (copy_at l a (le_put m v)) b c) = le_get n (sub l b c).
Proof.
  intros. f_equal. apply sub_copy_at_ne; [lia..|]. rewrite len_le_put. lia.
Qed.
Lemma le_get_sub_bound n l a b :
  bytes_ok l -> 0 <= le_get n (sub l a b) < 2 ^ (8 * Z.of_nat n).
Proof. intros. by apply le_get_bound, bytes_ok_sub. Qed.
#[export] Hint Resolve bytes_ok_le_put le_get_sub_bound : c2db.
#[export] Hint Rewrite len_le_put : c2db_len.

(** Adjacent copies are one copy. *)
Lemma copy_at_app l a s1 s2 b :
  0 <= a -> b = a + len s1 -> copy_at (copy_at l a s1) b s2 = copy_at l a (s1 ++ s2).
Proof.
  intros Ha ->. unfold copy_at, len.
  rewrite list_inserts_app_l. f_equal. lia.
Qed.

Lemma sub_snoc {A} (l : list A) a b x :
  0 <= a <= b -> l !! Z.to_nat b = Some x -> sub l a (b + 1) = sub l a b ++ [x].
Proof.
  intros Ha Hx. rewrite (sub_split l a b) by lia. f_equal. unfold sub.
  rewrite (drop_S l x (Z.to_nat b)) by done.
  replace (Z.to_nat (b + 1 - b)) with 1%nat by lia. done.
Qed.
Lemma sub_single (l : list Z) a : 0 <= a < len l -> sub l a (a + 1) = [rd l a].
Proof.
  intros Ha. transitivity (sub l a a ++ [rd l a]); [|by rewrite sub_nil]. apply sub_snoc; [lia..|].
  unfold rd. destruct (lookup_lt_is_Some_2 l (Z.to_nat a)) as [x Hx]; [unfold len in *; lia|]. by rewrite Hx.
Qed.

Lemma sub_sub {A} (l : list A) a b c d :
  0 <= a -> 0 <= c <= d -> d <= b - a -> sub (sub l a b) c d = sub l (a + c) (a + d).
Proof.
  intros Ha Hc Hd. unfold sub. rewrite skipn_firstn_comm, drop_drop, take_take.
  f_equal; [lia|]. f_equal. lia.
Qed.

(** The byte copy loop [for i = 0; i < k; i++ { dst[a+i] = src[i] }], with both
    indices checked. *)
Lemma copy_loop l a src k :
  0 <= a -> 0 <= k <= len src -> a + k <= len l ->
  for_range 0 k (fun i d => x ← idx src i; d' ← upd d (a + i) x; Some (Next (R:=Empty_set) d')) l
    = Some (inl (copy_at l a (sub src 0 k))).
Proof.
  intros Ha Hk Hl.
  destruct (for_range_inv (S:=list Z) (R:=Empty_set)
    (fun i d => d = copy_at l a (sub src 0 i))
    (fun r => r = inl (copy_at l a (sub src 0 k)))
    0 k (fun i d => x ← idx src i; d' ← upd d (a + i) x; Some (Next d')) l)
    as (r & Hr & ->); [lia | by rewrite sub_nil | | by intros t ->| done].
  intros i d Hi ->. unfold idx. rewrite (proj2 (Z.leb_le 0 i)) by lia.
  destruct (lookup_lt_is_Some_2 src (Z.to_nat i)) as [x Hx]; [unfold len in *; lia|].
  rewrite Hx. cbn [mbind option_bind]. rewrite upd_wr by (rewrite len_copy_at; lia). cbn.
  rewrite (sub_snoc _ _ _ x) by (done || lia).
  rewrite <- (copy_at_app _ _ _ _ (a + i)); [done | lia|]. rewrite len_sub by lia. lia.
Qed.

Lemma Forall_snoc_inv {A} (P : A -> Prop) l x : Forall P (l ++ [x]) -> Forall P l /\ P x.
Proof. intros [Hl Hx]%Forall_app. split; [done | by inversion_clear Hx]. Qed.
Lemma Forall_snoc_intro {A} (P : A -> Prop) l x : Forall P l -> P x -> Forall P (l ++ [x]).
Proof. intros Hl Hx. apply Forall_app_2; [done | by repeat constructor]. Qed.

(** ** Filters and sorted lists *)

Lemma filter_none {A} (p : A -> bool) l : Forall (fun x => p x = false) l -> List.filter p l = [].
Proof. induction 1 as [|x l Hx _ IH]; cbn; [done|]. by rewrite Hx. Qed.
Lemma filter_same {A} (p r : A -> bool) l : Forall (fun x => p x = r x) l -> List.filter p l = List.filter r l.
Proof. induction 1 as [|x l Hx _ IH]; cbn; [done|]. by rewrite Hx, IH. Qed.
Lemma filter_rev' {A} (p : A -> bool) l : List.filter p (rev l) = rev (List.filter p l).
Proof.
  induction l as [|x l IH]; cbn; [done|]. rewrite List.filter_app, IH. cbn.
  by destruct (p x); [|rewrite app_nil_r].
Qed.

Lemma StronglySorted_imp {A} (R S : A -> A -> Prop) l :
  (forall a b, R a b -> S a b) -> StronglySorted R l -> StronglySorted S l.
Proof.
  intros Himp. induction 1 as [|x l _ IH Hall]; constructor; [done|].
  eapply Forall_impl; [exact Hall|]. auto.
Qed.

Lemma StronglySorted_rev {A} (R : A -> A -> Prop) l :
  StronglySorted R l -> StronglySorted (fun a b => R b a) (rev l).
Proof.
  induction 1 as [|x l _ IH Hall]; cbn; [constructor|].
  apply StronglySorted_app. split_and!; [|done|by repeat constructor].
  intros a b Ha%list_elem_of_In%in_rev ->%list_elem_of_singleton.
  rewrite Forall_forall in Hall. by apply Hall, list_elem_of_In.
Qed.
