(* ===== verification/Bytes.v ===== *)
(** * Byte strings: what the code uses of Go's [bytes] and [strings]

    [Compare] is the lexicographic order, a total order on byte strings; the
    prefix, suffix and substring tests are stated by their decompositions. *)

From Stdlib Require Import String Ascii.
From S2P Require Import Prelude.

Local Open Scope Z_scope.

Module Bytes.

(** A Go string literal, as its bytes. *)
Definition str (s : string) : list Z :=
  map (fun a => Z.of_nat (nat_of_ascii a)) (list_ascii_of_string s).

(** [bytes.Compare]: -1, 0 or 1. *)
Fixpoint Compare (a b : list Z) : Z :=
  match a, b with
  | [], [] => 0
  | [], _ => -1
  | _, [] => 1
  | x :: a', y :: b' => if x <? y then -1 else if y <? x then 1 else Compare a' b'
  end.

Definition Equal (a b : list Z) : bool := bool_decide (a = b).
Definition HasPrefix (s p : list Z) : bool := bool_decide (take (length p) s = p).
Definition HasSuffix (s p : list Z) : bool :=
  (len p <=? len s) && bool_decide (sub s (len s - len p) (len s) = p).
Fixpoint Contains (s p : list Z) : bool :=
  HasPrefix s p || match s with [] => false | _ :: s' => Contains s' p end.

(** ** The order *)

Definition blt (a b : list Z) : Prop := Compare a b < 0.

Lemma Compare_range a b : Compare a b = -1 \/ Compare a b = 0 \/ Compare a b = 1.
Proof. revert b. induction a as [|x a IH]; intros [|y b]; cbn; auto. zcases; auto. Qed.

Lemma Compare_refl a : Compare a a = 0.
Proof. induction a as [|x a IH]; cbn; [done|]. by rewrite Z.ltb_irrefl. Qed.

Lemma Compare_eq a b : Compare a b = 0 <-> a = b.
Proof.
  split; [|intros ->; apply Compare_refl].
  revert b. induction a as [|x a IH]; intros [|y b]; cbn; try done.
  zcases. intros H1. assert (x = y) as -> by lia. by rewrite (IH b H1).
Qed.

Lemma Compare_antisym a b : Compare b a = - Compare a b.
Proof. revert b. induction a as [|x a IH]; intros [|y b]; cbn; try done. zcases. apply IH. Qed.

Lemma blt_trans a b c : blt a b -> blt b c -> blt a c.
Proof.
  unfold blt. revert b c. induction a as [|x a IH]; intros [|y b] [|z c]; cbn; try lia.
  zcases. apply IH.
Qed.

Lemma blt_irrefl a : ~ blt a a.
Proof. unfold blt. rewrite Compare_refl. lia. Qed.

Lemma not_blt a b : ~ blt a b -> a = b \/ blt b a.
Proof.
  unfold blt. rewrite (Compare_antisym a b). pose proof (Compare_range a b).
  intros. destruct (Z.eq_dec (Compare a b) 0) as [E|]; [left; by apply Compare_eq|right; lia].
Qed.

Lemma blt_ge_trans a b c : blt a b -> 0 <= Compare c b -> blt a c.
Proof.
  intros Hab Hcb. destruct (Z.eq_dec (Compare c b) 0) as [E|].
  - apply Compare_eq in E as ->. done.
  - eapply blt_trans; [done|]. unfold blt. rewrite Compare_antisym. lia.
Qed.

#[export] Instance blt_dec a b : Decision (blt a b).
Proof. unfold blt. apply _. Defined.

(** ** Prefixes *)

Lemma HasPrefix_spec s p : HasPrefix s p = true <-> exists t, s = p ++ t.
Proof.
  unfold HasPrefix. rewrite bool_decide_eq_true. split.
  - intros H. exists (drop (length p) s). by rewrite <- H at 1; rewrite take_drop.
  - intros (t & ->). apply take_app_length.
Qed.

Lemma HasPrefix_cons x s y p : HasPrefix (x :: s) (y :: p) = (x =? y) && HasPrefix s p.
Proof.
  unfold HasPrefix. cbn [length take]. destruct (Z.eqb_spec x y) as [->|]; cbn [andb].
  - case_bool_decide as H; case_bool_decide as H2; try done; [|by rewrite H2 in H].
    by injection H.
  - apply bool_decide_eq_false. intros [= ??]. done.
Qed.

Lemma HasPrefix_nil s : HasPrefix s [] = true.
Proof. unfold HasPrefix. by apply bool_decide_eq_true. Qed.

Lemma HasPrefix_nil_l y p : HasPrefix [] (y :: p) = false.
Proof. unfold HasPrefix. by apply bool_decide_eq_false. Qed.

(** A string with prefix [p] is not below [p]. *)
Lemma HasPrefix_ge s p : HasPrefix s p = true -> 0 <= Compare s p.
Proof.
  revert p. induction s as [|x s IH]; intros [|y p].
  - cbn. lia.
  - by rewrite HasPrefix_nil_l.
  - cbn. lia.
  - rewrite HasPrefix_cons. intros [->%Z.eqb_eq Hp]%andb_true_iff. cbn.
    rewrite Z.ltb_irrefl. auto.
Qed.

Lemma Contains_spec s p : Contains s p = true <-> exists u v, s = u ++ p ++ v.
Proof.
  induction s as [|x s IH]; cbn [Contains]; rewrite orb_true_iff, HasPrefix_spec.
  - split.
    + intros [(t & Ht)|]; [|done]. exists [], t. done.
    + intros (u & v & H). left. symmetry in H. apply app_nil in H as [_ H]. exists v. by rewrite H.
  - rewrite IH. split.
    + intros [(t & Ht)|(u & v & ->)]; [exists [], t; done | exists (x :: u), v; done].
    + intros ([|y u] & v & H); [left; exists v; done|]. right. injection H as -> ->. eauto.
Qed.

End Bytes.
