(* ===== verification/Crc.v ===== *)
(** * CRC-32C (Castagnoli)

    The reference is the bit-serial division by the reflected polynomial
    [0x82F63B78], which is what Go's [hash/crc32] documents for [Castagnoli]
    (txnlog.go, history.go) and what the 256-entry tables of db_page_gen.go and
    c2db_crc32c_fullpage_gen.go tabulate.  The closed form [crc_bytes_shift]
    turns every statement about the checksum into one about xor. *)

From Stdlib Require Import Btauto.
From S2P Require Import Prelude.

Local Open Scope Z_scope.

Module Crc.

Definition poly : Z := 0x82F63B78.

(** One bit of the division, and [k] of them. *)
Definition bit (c : Z) : Z := Z.lxor (Z.shiftr c 1) (if Z.odd c then poly else 0).
Fixpoint bits (k : nat) (c : Z) : Z :=
  match k with O => c | S k' => bits k' (bit c) end.

Definition byte_step (c b : Z) : Z := bits 8 (Z.lxor c b).
Definition crc_bytes (c : Z) (l : list Z) : Z := foldl byte_step c l.

(** Go's [^x] on a [uint32]. *)
Definition not32 (x : Z) : Z := Z.lxor x 0xFFFFFFFF.

(** [crc32.Checksum(l, crc32.MakeTable(crc32.Castagnoli))]. *)
Definition checksum (l : list Z) : Z := not32 (crc_bytes 0xFFFFFFFF l).

(** [var Crc32c_table256] of db_page_gen.go; [C2db_crc32c_table256] of
    c2db_crc32c_fullpage_gen.go has the same 256 entries. *)
Definition Crc32c_table256 : list Z :=
  [0x00000000; 0xf26b8303; 0xe13b70f7; 0x1350f3f4; 0xc79a971f; 0x35f1141c; 0x26a1e7e8; 
0xd4ca64eb; 0x8ad958cf; 0x78b2dbcc; 0x6be22838; 0x9989ab3b; 0x4d43cfd0; 0xbf284cd3; 
0xac78bf27; 0x5e133c24; 0x105ec76f; 0xe235446c; 0xf165b798; 0x030e349b; 0xd7c45070; 
0x25afd373; 0x36ff2087; 0xc494a384; 0x9a879fa0; 0x68ec1ca3; 0x7bbcef57; 0x89d76c54; 
0x5d1d08bf; 0xaf768bbc; 0xbc267848; 0x4e4dfb4b; 0x20bd8ede; 0xd2d60ddd; 0xc186fe29; 
0x33ed7d2a; 0xe72719c1; 0x154c9ac2; 0x061c6936; 0xf477ea35; 0xaa64d611; 0x580f5512; 
0x4b5fa6e6; 0xb93425e5; 0x6dfe410e; 0x9f95c20d; 0x8cc531f9; 0x7eaeb2fa; 0x30e349b1; 
0xc288cab2; 0xd1d83946; 0x23b3ba45; 0xf779deae; 0x05125dad; 0x1642ae59; 0xe4292d5a; 
0xba3a117e; 0x4851927d; 0x5b016189; 0xa96ae28a; 0x7da08661; 0x8fcb0562; 0x9c9bf696; 
0x6ef07595; 0x417b1dbc; 0xb3109ebf; 0xa0406d4b; 0x522bee48; 0x86e18aa3; 0x748a09a0; 
0x67dafa54; 0x95b17957; 0xcba24573; 0x39c9c670; 0x2a993584; 0xd8f2b687; 0x0c38d26c; 
0xfe53516f; 0xed03a29b; 0x1f682198; 0x5125dad3; 0xa34e59d0; 0xb01eaa24; 0x42752927; 
0x96bf4dcc; 0x64d4cecf; 0x77843d3b; 0x85efbe38; 0xdbfc821c; 0x2997011f; 0x3ac7f2eb; 
0xc8ac71e8; 0x1c661503; 0xee0d9600; 0xfd5d65f4; 0x0f36e6f7; 0x61c69362; 0x93ad1061; 
0x80fde395; 0x72966096; 0xa65c047d; 0x5437877e; 0x4767748a; 0xb50cf789; 0xeb1fcbad; 
0x197448ae; 0x0a24bb5a; 0xf84f3859; 0x2c855cb2; 0xdeeedfb1; 0xcdbe2c45; 0x3fd5af46; 
0x7198540d; 0x83f3d70e; 0x90a324fa; 0x62c8a7f9; 0xb602c312; 0x44694011; 0x5739b3e5; 
0xa55230e6; 0xfb410cc2; 0x092a8fc1; 0x1a7a7c35; 0xe811ff36; 0x3cdb9bdd; 0xceb018de; 
0xdde0eb2a; 0x2f8b6829; 0x82f63b78; 0x709db87b; 0x63cd4b8f; 0x91a6c88c; 0x456cac67; 
0xb7072f64; 0xa457dc90; 0x563c5f93; 0x082f63b7; 0xfa44e0b4; 0xe9141340; 0x1b7f9043; 
0xcfb5f4a8; 0x3dde77ab; 0x2e8e845f; 0xdce5075c; 0x92a8fc17; 0x60c37f14; 0x73938ce0; 
0x81f80fe3; 0x55326b08; 0xa759e80b; 0xb4091bff; 0x466298fc; 0x1871a4d8; 0xea1a27db; 
0xf94ad42f; 0x0b21572c; 0xdfeb33c7; 0x2d80b0c4; 0x3ed04330; 0xccbbc033; 0xa24bb5a6; 
0x502036a5; 0x4370c551; 0xb11b4652; 0x65d122b9; 0x97baa1ba; 0x84ea524e; 0x7681d14d; 
0x2892ed69; 0xdaf96e6a; 0xc9a99d9e; 0x3bc21e9d; 0xef087a76; 0x1d63f975; 0x0e330a81; 
0xfc588982; 0xb21572c9; 0x407ef1ca; 0x532e023e; 0xa145813d; 0x758fe5d6; 0x87e466d5; 
0x94b49521; 0x66df1622; 0x38cc2a06; 0xcaa7a905; 0xd9f75af1; 0x2b9cd9f2; 0xff56bd19; 
0x0d3d3e1a; 0x1e6dcdee; 0xec064eed; 0xc38d26c4; 0x31e6a5c7; 0x22b65633; 0xd0ddd530; 
0x0417b1db; 0xf67c32d8; 0xe52cc12c; 0x1747422f; 0x49547e0b; 0xbb3ffd08; 0xa86f0efc; 
0x5a048dff; 0x8ecee914; 0x7ca56a17; 0x6ff599e3; 0x9d9e1ae0; 0xd3d3e1ab; 0x21b862a8; 
0x32e8915c; 0xc083125f; 0x144976b4; 0xe622f5b7; 0xf5720643; 0x07198540; 0x590ab964; 
0xab613a67; 0xb831c993; 0x4a5a4a90; 0x9e902e7b; 0x6cfbad78; 0x7fab5e8c; 0x8dc0dd8f; 
0xe330a81a; 0x115b2b19; 0x020bd8ed; 0xf0605bee; 0x24aa3f05; 0xd6c1bc06; 0xc5914ff2; 
0x37faccf1; 0x69e9f0d5; 0x9b8273d6; 0x88d28022; 0x7ab90321; 0xae7367ca; 0x5c18e4c9; 
0x4f48173d; 0xbd23943e; 0xf36e6f75; 0x0105ec76; 0x12551f82; 0xe03e9c81; 0x34f4f86a; 
0xc69f7b69; 0xd5cf889d; 0x27a40b9e; 0x79b737ba; 0x8bdcb4b9; 0x988c474d; 0x6ae7c44e; 
0xbe2da0a5; 0x4c4623a6; 0x5f16d052; 0xad7d5351].

(** One step of the table-driven loops: [crc = (crc >> 8) ^ table[(crc ^ b) & 0xff]]. *)
Definition table_step (c b : Z) : Z :=
  Z.lxor (Z.shiftr c 8) (rd Crc32c_table256 (Z.land (Z.lxor c b) 0xff)).

(** ** The bit step is linear and injective on 32-bit words *)

Lemma bits_add j k c : bits (j + k) c = bits k (bits j c).
Proof. revert c. induction j as [|j IH]; intros c; cbn; [done | apply IH]. Qed.

Lemma bit_shift x y : bit (Z.lxor x (Z.shiftl y 1)) = Z.lxor (bit x) y.
Proof.
  unfold bit. rewrite Z.shiftr_lxor, Z.shiftr_shiftl_l by lia.
  change (1 - 1) with 0. rewrite Z.shiftl_0_r.
  replace (Z.odd (Z.lxor x (Z.shiftl y 1))) with (Z.odd x); [apply Z.bits_inj'; intros i Hi; rewrite !Z.lxor_spec; btauto|].
  rewrite <- !Z.bit0_odd, Z.lxor_spec, Z.shiftl_spec by lia.
  rewrite (Z.testbit_neg_r y) by lia. by rewrite xorb_false_r.
Qed.

Lemma bits_shift k x y :
  bits k (Z.lxor x (Z.shiftl y (Z.of_nat k))) = Z.lxor (bits k x) y.
Proof.
  revert x y. induction k as [|k IH]; intros x y; cbn [bits].
  - by rewrite Z.shiftl_0_r.
  - rewrite <- IH. f_equal. rewrite <- bit_shift. f_equal. f_equal.
    rewrite Z.shiftl_shiftl by lia. f_equal. lia.
Qed.

Lemma odd_div2 c : c = 2 * Z.shiftr c 1 + Z.b2z (Z.odd c).
Proof. rewrite <- Z.div2_spec. apply Z.div2_odd. Qed.

Lemma bit_high c : 0 <= c < 2 ^ 32 -> Z.testbit (bit c) 31 = Z.odd c.
Proof.
  intros Hc. unfold bit. rewrite Z.lxor_spec, Z.shiftr_spec by lia.
  rewrite (Z.bits_above_log2 c (31 + 1)); [by destruct (Z.odd c)|lia|].
  destruct (Z.eq_dec c 0) as [->|]; [cbn; lia|].
  apply Z.log2_lt_pow2; lia.
Qed.

Lemma bit_inj c d : 0 <= c < 2 ^ 32 -> 0 <= d < 2 ^ 32 -> bit c = bit d -> c = d.
Proof.
  intros Hc Hd Heq. pose proof (bit_high c Hc) as Bc. pose proof (bit_high d Hd) as Bd.
  rewrite Heq in Bc. assert (Ho : Z.odd c = Z.odd d) by congruence.
  rewrite (odd_div2 c), (odd_div2 d), Ho. do 2 f_equal.
  unfold bit in Heq. rewrite Ho in Heq.
  apply (f_equal (fun x => Z.lxor x (if Z.odd d then poly else 0))) in Heq.
  by rewrite !Z.lxor_assoc, !Z.lxor_nilpotent, !Z.lxor_0_r in Heq.
Qed.

Lemma lxor_bound n a b :
  0 <= n -> 0 <= a < 2 ^ n -> 0 <= b < 2 ^ n -> 0 <= Z.lxor a b < 2 ^ n.
Proof.
  intros Hn Ha Hb.
  replace (Z.lxor a b) with (Z.lxor a b `mod` 2 ^ n); [apply Z.mod_pos_bound; lia|].
  apply Z.bits_inj'. intros i Hi. destruct (Z.ltb_spec i n).
  - by rewrite Z.mod_pow2_bits_low by lia.
  - rewrite Z.mod_pow2_bits_high, Z.lxor_spec by lia.
    rewrite <- (Z.mod_small a (2 ^ n)), <- (Z.mod_small b (2 ^ n)) by lia.
    by rewrite !Z.mod_pow2_bits_high by lia.
Qed.

Lemma bit_bound c : 0 <= c < 2 ^ 32 -> 0 <= bit c < 2 ^ 32.
Proof.
  intros Hc. unfold bit. apply lxor_bound; [lia | |].
  - rewrite Z.shiftr_div_pow2 by lia. change (2 ^ 1) with 2. Z.to_euclidean_division_equations. lia.
  - unfold poly. destruct (Z.odd c); lia.
Qed.

Lemma bits_bound k c : 0 <= c < 2 ^ 32 -> 0 <= bits k c < 2 ^ 32.
Proof. revert c. induction k as [|k IH]; intros c Hc; cbn; [done|]. by apply IH, bit_bound. Qed.

Lemma bits_inj k c d :
  0 <= c < 2 ^ 32 -> 0 <= d < 2 ^ 32 -> bits k c = bits k d -> c = d.
Proof.
  revert c d. induction k as [|k IH]; intros c d Hc Hd; cbn; [done|].
  intros H. apply IH in H; [|by apply bit_bound ..]. by apply bit_inj.
Qed.

(** [bit] duplicates its argument: keep the kernel from unrolling [bits]. *)
#[global] Opaque bit bits.

(** ** The closed form of the byte loop *)

Lemma le_get_cons_lxor n b l :
  0 <= b < 256 -> bytes_ok l ->
  le_get (S n) (b :: l) = Z.lxor b (Z.shiftl (le_get n l) 8).
Proof.
  intros Hb Hl. pose proof (le_get_bound n l Hl).
  rewrite Z.lxor_lor; [cbn [le_get]; rewrite lor_shiftl_add; lia|].
  apply Z.bits_inj'. intros i Hi. rewrite Z.land_spec, Z.bits_0.
  destruct (Z.ltb_spec i 8).
  - rewrite Z.shiftl_spec_low by lia. apply andb_false_r.
  - rewrite <- (Z.mod_small b (2 ^ 8)) by lia.
    by rewrite Z.mod_pow2_bits_high by lia.
Qed.

(** Feeding [k] bytes is [8k] bit steps of the state xor their value. *)
Lemma crc_bytes_shift c l :
  bytes_ok l -> crc_bytes c l = bits (8 * length l) (Z.lxor c (le_get (length l) l)).
Proof.
  intros Hl. revert c. induction Hl as [|b l Hb Hl IH]; intros c.
  - cbn. by rewrite Z.lxor_0_r.
  - cbn [crc_bytes foldl length].
    change (foldl byte_step (byte_step c b) l) with (crc_bytes (byte_step c b) l).
    rewrite IH, le_get_cons_lxor by done.
    replace (8 * S (length l))%nat with (8 + 8 * length l)%nat by lia.
    rewrite bits_add. f_equal. unfold byte_step. change 8 with (Z.of_nat 8).
    rewrite <- bits_shift. f_equal. by rewrite Z.lxor_assoc.
Qed.

Lemma byte_step_bound c b : 0 <= c < 2 ^ 32 -> 0 <= b < 256 -> 0 <= byte_step c b < 2 ^ 32.
Proof. intros. apply bits_bound, lxor_bound; lia. Qed.

Lemma crc_bytes_bound c l :
  0 <= c < 2 ^ 32 -> bytes_ok l -> 0 <= crc_bytes c l < 2 ^ 32.
Proof.
  intros Hc Hl. revert c Hc. induction Hl as [|b l Hb Hl IH]; intros c Hc; [done|].
  cbn. by apply IH, byte_step_bound.
Qed.

Lemma crc_bytes_app c l k : crc_bytes c (l ++ k) = crc_bytes (crc_bytes c l) k.
Proof. apply foldl_app. Qed.

Lemma byte_step_inj c d b :
  0 <= c < 2 ^ 32 -> 0 <= d < 2 ^ 32 -> 0 <= b < 256 ->
  byte_step c b = byte_step d b -> c = d.
Proof.
  intros Hc Hd Hb H. apply bits_inj in H; [|apply lxor_bound; lia ..].
  apply (f_equal (fun x => Z.lxor x b)) in H.
  by rewrite !Z.lxor_assoc, !Z.lxor_nilpotent, !Z.lxor_0_r in H.
Qed.

(** Equal suffixes keep different states different. *)
Lemma crc_bytes_inj_state c d l :
  0 <= c < 2 ^ 32 -> 0 <= d < 2 ^ 32 -> bytes_ok l ->
  crc_bytes c l = crc_bytes d l -> c = d.
Proof.
  intros Hc Hd Hl. revert c d Hc Hd.
  induction Hl as [|b l Hb Hl IH]; intros c d Hc Hd H; [done|].
  apply IH in H; [|by apply byte_step_bound ..]. by apply byte_step_inj in H.
Qed.

(** Different windows of at most four bytes lead to different states. *)
Lemma crc_bytes_inj_window c l k :
  0 <= c < 2 ^ 32 -> bytes_ok l -> bytes_ok k -> length l = length k ->
  (length l <= 4)%nat -> crc_bytes c l = crc_bytes c k -> l = k.
Proof.
  intros Hc Hl Hk Hlen H4 Heq. rewrite !crc_bytes_shift, <- Hlen in Heq by done.
  assert (Hb : forall m, bytes_ok m -> 0 <= le_get (length l) m < 2 ^ 32).
  { intros m Hm. pose proof (le_get_bound (length l) m Hm).
    assert (2 ^ (8 * Z.of_nat (length l)) <= 2 ^ 32) by (apply Z.pow_le_mono_r; lia). lia. }
  apply bits_inj in Heq; [|apply lxor_bound; [lia | done | by apply Hb] ..].
  apply (f_equal (Z.lxor c)) in Heq.
  rewrite <- !Z.lxor_assoc, !Z.lxor_nilpotent, !Z.lxor_0_l in Heq.
  apply le_get_inj; [done.. |]. by rewrite <- Hlen.
Qed.

(** A change confined to four consecutive bytes always changes the state. *)
Lemma crc_burst c p w w' q :
  0 <= c < 2 ^ 32 -> bytes_ok p -> bytes_ok w -> bytes_ok w' -> bytes_ok q ->
  length w = length w' -> (length w <= 4)%nat ->
  crc_bytes c (p ++ w ++ q) = crc_bytes c (p ++ w' ++ q) -> w = w'.
Proof.
  intros Hc Hp Hw Hw' Hq Hlen H4. rewrite !crc_bytes_app. intros Heq.
  pose proof (crc_bytes_bound c p Hc Hp) as Hcp.
  apply crc_bytes_inj_state in Heq; [|by apply crc_bytes_bound..|done].
  by apply crc_bytes_inj_window in Heq.
Qed.

Lemma not32_inj a b : not32 a = not32 b -> a = b.
Proof.
  unfold not32. intros H. apply (f_equal (fun x => Z.lxor x 0xFFFFFFFF)) in H.
  by rewrite !Z.lxor_assoc, !Z.lxor_nilpotent, !Z.lxor_0_r in H.
Qed.

Lemma not32_bound a : 0 <= a < 2 ^ 32 -> 0 <= not32 a < 2 ^ 32.
Proof. intros. apply lxor_bound; lia. Qed.

Lemma checksum_bound l : bytes_ok l -> 0 <= checksum l < 2 ^ 32.
Proof. intros. apply not32_bound, crc_bytes_bound; [lia | done]. Qed.

Lemma checksum_burst p w w' q :
  bytes_ok p -> bytes_ok w -> bytes_ok w' -> bytes_ok q ->
  length w = length w' -> (length w <= 4)%nat ->
  checksum (p ++ w ++ q) = checksum (p ++ w' ++ q) -> w = w'.
Proof. intros Hp Hw Hw' Hq Hlen H4 H%not32_inj. by eapply crc_burst in H. Qed.

(** [q] is [p] with at most four consecutive bytes from [a] overwritten. *)
Definition burst (p q : list Z) (a : Z) (w : list Z) : Prop :=
  q = copy_at p a w /\ bytes_ok w /\ 0 <= a /\ a + len w <= len p /\ (length w <= 4)%nat.

Lemma checksum_burst_at p q a w :
  bytes_ok p -> burst p q a w -> checksum q = checksum p -> q = p.
Proof.
  intros Hp (-> & Hw & Ha & Hend & H4). pose proof (len_nonneg w).
  pose proof (split_at p a (a + len w) ltac:(lia) ltac:(lia)) as Hs.
  rewrite copy_at_split by lia. intros Heq. rewrite (f_equal checksum Hs) in Heq.
  apply checksum_burst in Heq; auto with c2db.
  - etrans; [|exact (eq_sym Hs)]. exact (f_equal (fun x => sub p 0 a ++ x ++ sub p (a + len w) (len p)) Heq).
  - assert (len (sub p a (a + len w)) = len w) by (rewrite len_sub; lia). unfold len in *. lia.
Qed.

(** ** The table *)

Lemma table_entries : Crc32c_table256 = map (fun i => bits 8 (Z.of_nat i)) (seq 0 256).
Proof. vm_compute. reflexivity. Qed.

Lemma table_entry i : 0 <= i < 256 -> rd Crc32c_table256 i = bits 8 i.
Proof.
  intros Hi. unfold rd. rewrite table_entries.
  rewrite list_lookup_fmap, lookup_seq_lt by lia. cbn [fmap option_fmap option_map default from_option].
  unfold id. f_equal. lia.
Qed.

(** The table-driven step is the bit-serial step. *)
Lemma table_step_spec c b : 0 <= c -> 0 <= b < 256 -> table_step c b = byte_step c b.
Proof.
  intros Hc Hb. unfold table_step, byte_step.
  rewrite land_255. pose proof (Z.mod_pos_bound (Z.lxor c b) 256 ltac:(lia)).
  rewrite table_entry by lia. rewrite Z.lxor_comm.
  rewrite <- (bits_shift 8). f_equal. apply Z.bits_inj'. intros i Hi.
  change 256 with (2 ^ 8). rewrite !Z.lxor_spec. change (Z.of_nat 8) with 8.
  destruct (Z.ltb_spec i 8).
  - rewrite Z.mod_pow2_bits_low by lia. rewrite Z.shiftl_spec_low by lia.
    by rewrite Z.lxor_spec, xorb_false_r.
  - rewrite Z.mod_pow2_bits_high by lia. rewrite Z.shiftl_spec, Z.shiftr_spec by lia.
    rewrite Z.sub_add. rewrite <- (Z.mod_small b (2 ^ 8)) by lia.
    rewrite (Z.mod_pow2_bits_high b) by lia. by destruct (Z.testbit c i).
Qed.

Lemma table_foldl c l :
  0 <= c < 2 ^ 32 -> bytes_ok l -> foldl table_step c l = crc_bytes c l.
Proof.
  intros Hc Hl. revert c Hc. induction Hl as [|b l Hb Hl IH]; intros c Hc; [done|].
  cbn. rewrite table_step_spec by lia. by apply IH, byte_step_bound.
Qed.

End Crc.
