(* ===== verification/Locks.v ===== *)
(** * The VFS lock ladder (src/pkg/c2db/vfs_locks.go)

    One [FileLockState] is the map [holders] from connection ids to levels; the
    registry maps file ids to lock states.  Every method runs under the mutex of
    its state, so it is one atomic step: [Lock] and [Unlock] return the new map
    and the error.  The theorems are invariants of every interleaving of steps
    from the empty map: [EXCLUSIVE] excludes every other holder and [PENDING] is
    unique.  A [RESERVED] holder may stand beside a [PENDING] one, which
    [refused_exclusive_holds_pending] shows. *)

From stdpp Require Import gmap strings.
From S2P Require Import Prelude.

Local Open Scope Z_scope.

Module Locks.

(** ** Levels and errors *)

Definition LockNone : Z := 0.
Definition LockShared : Z := 1.
Definition LockReserved : Z := 2.
Definition LockPending : Z := 3.
Definition LockExclusive : Z := 4.

Inductive lock_error := ErrBusy | ErrLockSequence.

#[export] Instance lock_error_eq_dec : EqDecision lock_error.
Proof. solve_decision. Defined.

Abbreviation holders := (gmap Z Z).

(** [s.holders[connID]]: the zero value of the type when the key is absent. *)
Definition Level (s : holders) (connID : Z) : Z := default LockNone (s !! connID).

Definition maxLock (s : holders) : Z :=
  map_fold (fun _ st mx => if st >? mx then st else mx) 0 s.

Definition maxOther (s : holders) (except : Z) : Z :=
  map_fold (fun id st mx =>
    if negb (id =? except) && (st >? mx) then st else mx) 0 s.

Definition hasOther (s : holders) (except : Z) : bool :=
  map_fold (fun id _ acc => if negb (id =? except) then true else acc) false s.

(** ** [Lock] *)

Definition Lock (s : holders) (connID target : Z) : holders * option lock_error :=
  if (target <? LockNone) || (target >? LockExclusive) then (s, Some ErrLockSequence) else
  let cur := Level s connID in
  if target <=? cur then (s, None) else
  let grant := (<[connID := target]> s, None) in
  if target =? LockShared then
    if maxLock s >=? LockPending then (s, Some ErrBusy) else grant
  else if target =? LockReserved then
    if negb (cur =? LockShared) then (s, Some ErrLockSequence)
    else if maxOther s connID >=? LockReserved then (s, Some ErrBusy) else grant
  else if target =? LockPending then
    if negb (cur =? LockReserved) then (s, Some ErrLockSequence)
    else if maxOther s connID >=? LockPending then (s, Some ErrBusy) else grant
  else if target =? LockExclusive then
    if negb (cur =? LockShared) && negb (cur =? LockReserved) && negb (cur =? LockPending)
    then (s, Some ErrLockSequence)
    else if maxOther s connID >=? LockPending then (s, Some ErrBusy)
    else
      let s1 := if cur <? LockPending then <[connID := LockPending]> s else s in
      if hasOther s1 connID then (s1, Some ErrBusy)
      else (<[connID := LockExclusive]> s1, None)
  else (s, Some ErrLockSequence).

(** ** [Unlock] *)

Definition Unlock (s : holders) (connID target : Z) : holders * option lock_error :=
  if (target <? LockNone) || (target >? LockExclusive) then (s, Some ErrLockSequence) else
  let cur := Level s connID in
  if target >=? cur then (s, None) else
  if (target =? LockReserved) && (maxOther s connID >=? LockReserved)
  then (s, Some ErrBusy)
  else if target =? LockNone then (delete connID s, None)
  else (<[connID := target]> s, None).

Definition CheckReservedLock (s : holders) : bool := maxLock s >=? LockReserved.

(** ** The registry: file ids to shared lock states *)

Abbreviation registry := (gmap string holders).

Definition NewFileLockRegistry : registry := ∅.

(** [File] returns the state of [id], creating it empty on first use; callers
    share it, so it stays in the registry. *)
Definition File (r : registry) (id : string) : registry * holders :=
  match r !! id with
  | Some st => (r, st)
  | None => (<[id := ∅]> r, ∅)
  end.

(** ** Facts on the three map scans *)

Lemma maxOther_spec s c :
  0 <= maxOther s c /\
  (forall id st, s !! id = Some st -> id <> c -> st <= maxOther s c) /\
  (0 < maxOther s c -> exists id, s !! id = Some (maxOther s c) /\ id <> c).
Proof.
  unfold maxOther. apply (map_fold_weak_ind (fun r m => 0 <= r /\
    (forall id st, m !! id = Some st -> id <> c -> st <= r) /\
    (0 < r -> exists id, m !! id = Some r /\ id <> c))).
  - split_and!; [lia | intros ??; by rewrite lookup_empty | lia].
  - intros i x m r Hi (H0 & Hle & Hex).
    assert (Hnew : forall id st, <[i:=x]> m !! id = Some st ->
      (id = i /\ st = x) \/ (id <> i /\ m !! id = Some st)).
    { intros id st. rewrite lookup_insert. case_decide; intros; simplify_eq; auto. }
    assert (Hold : 0 < r -> exists id, <[i:=x]> m !! id = Some r /\ id <> c).
    { intros Hpos. destruct (Hex Hpos) as (id & Hid & Hc). exists id.
      by rewrite lookup_insert_ne by congruence. }
    destruct (Z.eqb_spec i c) as [->|Hne]; cbn [negb andb].
    + split_and!; [lia | | done].
      intros id st [[-> ->]|[? Hl]]%Hnew Hc; [done | eauto].
    + zcases; split_and!; auto; try lia.
      * intros id st [[-> ->]|[? Hl]]%Hnew Hc; [lia|]. specialize (Hle _ _ Hl Hc). lia.
      * intros _. exists i. by rewrite lookup_insert_eq.
      * intros id st [[-> ->]|[? Hl]]%Hnew Hc; [lia | eauto].
Qed.

Lemma maxOther_lt s c k id st :
  maxOther s c < k -> s !! id = Some st -> id <> c -> st < k.
Proof. intros Hlt Hid Hc. destruct (maxOther_spec s c) as (_ & H & _). specialize (H _ _ Hid Hc). lia. Qed.

Lemma maxOther_ge s c k id st :
  s !! id = Some st -> id <> c -> k <= st -> k <= maxOther s c.
Proof. intros Hid Hc Hk. destruct (maxOther_spec s c) as (_ & H & _). specialize (H _ _ Hid Hc). lia. Qed.

Lemma maxLock_upper s id st : s !! id = Some st -> st <= maxLock s.
Proof.
  unfold maxLock. revert id st.
  apply (map_fold_weak_ind (fun r m => forall id st, m !! id = Some st -> st <= r)).
  - intros ??. by rewrite lookup_empty.
  - intros i x m r Hi IH id st. rewrite lookup_insert.
    case_decide; intros Hl; simplify_eq; [|apply IH in Hl]; zcases.
Qed.

Lemma hasOther_spec s c :
  hasOther s c = true <-> exists id st, s !! id = Some st /\ id <> c.
Proof.
  unfold hasOther. apply (map_fold_weak_ind (fun r m =>
    r = true <-> exists id st, m !! id = Some st /\ id <> c)).
  - split; [done|]. intros (id & st & H & _). by rewrite lookup_empty in H.
  - intros i x m r Hi IH. destruct (Z.eqb_spec i c) as [->|Hne]; cbn [negb].
    + rewrite IH. split; intros (id & st & Hl & Hc); exists id, st;
        [rewrite lookup_insert_ne by congruence | rewrite lookup_insert_ne in Hl by congruence]; done.
    + split; [intros _|done]. exists i, x. by rewrite lookup_insert_eq.
Qed.

Lemma hasOther_false s c :
  hasOther s c = false -> forall id st, s !! id = Some st -> id = c.
Proof.
  intros H id st Hl. destruct (decide (id = c)); [done|].
  assert (hasOther s c = true) by (apply hasOther_spec; eauto). congruence.
Qed.

(** ** Steps and reachable states *)

Inductive request := RLock (connID target : Z) | RUnlock (connID target : Z).

Definition exec (s : holders) (r : request) : holders * option lock_error :=
  match r with
  | RLock c t => Lock s c t
  | RUnlock c t => Unlock s c t
  end.

Inductive reachable : holders -> Prop :=
| reach_init : reachable ∅
| reach_step s r : reachable s -> reachable (exec s r).1.

(** The three clauses the ladder maintains. *)
Record lock_inv (s : holders) : Prop := {
  inv_range : forall id st, s !! id = Some st -> LockShared <= st <= LockExclusive;
  inv_pending : forall i j a b, s !! i = Some a -> s !! j = Some b ->
    LockPending <= a -> LockPending <= b -> i = j;
  inv_exclusive : forall i j b, s !! i = Some LockExclusive -> s !! j = Some b -> i = j;
}.

Ltac lock_consts := unfold LockNone, LockShared, LockReserved, LockPending, LockExclusive in *.

Lemma lock_inv_empty : lock_inv ∅.
Proof. split; intros *; rewrite lookup_empty; done. Qed.

Lemma Level_cases s c : lock_inv s ->
  (s !! c = None /\ Level s c = 0) \/ (exists st, s !! c = Some st /\ Level s c = st /\ 1 <= st <= 4).
Proof.
  intros Hs. unfold Level. destruct (s !! c) as [st|] eqn:E; [right|by left].
  exists st. pose proof (inv_range _ Hs _ _ E). lock_consts. auto.
Qed.

(** Setting one entry keeps the invariant when the new level does not clash. *)
Lemma lock_inv_insert s c t :
  lock_inv s -> LockShared <= t <= LockExclusive ->
  (LockPending <= t -> forall id st, s !! id = Some st -> id <> c -> st < LockPending) ->
  (t = LockExclusive -> forall id st, s !! id = Some st -> id = c) ->
  (forall id, s !! id = Some LockExclusive -> id = c) ->
  lock_inv (<[c := t]> s).
Proof.
  intros Hs Ht Hp He Hx. split.
  - intros id st. rewrite lookup_insert. case_decide; [intros [= <-]; done|]. apply (inv_range _ Hs).
  - intros i j a b. rewrite !lookup_insert. repeat case_decide; intros; simplify_eq; try done.
    + exfalso. assert (b < LockPending) by (eapply Hp; eauto). lia.
    + exfalso. assert (a < LockPending) by (eapply Hp; eauto). lia.
    + eapply (inv_pending _ Hs); eauto.
  - intros i j b. rewrite !lookup_insert. repeat case_decide; intros; simplify_eq; try done.
    + exfalso. apply H0. symmetry. by eapply He.
    + exfalso. apply H. symmetry. by eapply Hx.
    + eapply (inv_exclusive _ Hs); eauto.
Qed.

Lemma lock_inv_delete s c : lock_inv s -> lock_inv (delete c s).
Proof.
  intros Hs. split.
  - intros id st [_ H]%lookup_delete_Some. by eapply inv_range.
  - intros i j a b [_ Hi]%lookup_delete_Some [_ Hj]%lookup_delete_Some.
    by eapply inv_pending.
  - intros i j b [_ Hi]%lookup_delete_Some [_ Hj]%lookup_delete_Some.
    by eapply inv_exclusive.
Qed.

(** An exclusive holder is the only entry, so lowering or raising another
    connection's entry never meets one. *)
Lemma exclusive_is_self s c st :
  lock_inv s -> s !! c = Some st -> forall id, s !! id = Some LockExclusive -> id = c.
Proof. intros Hs Hc id Hid. by eapply (inv_exclusive _ Hs). Qed.

Lemma no_exclusive_below s : maxLock s < LockPending ->
  forall id, s !! id = Some LockExclusive -> False.
Proof. intros Hm id Hid. apply maxLock_upper in Hid. lock_consts. lia. Qed.

Lemma Lock_inv s c t : lock_inv s -> lock_inv (Lock s c t).1.
Proof.
  intros Hs. unfold Lock. lock_consts. ifcase; [done|]. cbn [orb]. ifcase; [done|].
  destruct (Level_cases s c Hs) as [(Hn & HL)|(st & Hc & HL & Hst)]; rewrite HL;
    ifcase; try done.
  - (* a new connection *)
    assert (t = 1 \/ t = 2 \/ t = 3 \/ t = 4) as [->|[->|[->| ->]]] by lia;
      cbn [Z.eqb Pos.eqb negb andb]; try done.
    ifcase; cbn [fst]; [done|].
    apply lock_inv_insert; lock_consts; auto; try lia.
    intros id Hid. exfalso. eapply no_exclusive_below; eauto.
  - (* a holder going up *)
    pose proof (exclusive_is_self s c st Hs Hc) as Hx.
    assert (t = 2 \/ t = 3 \/ t = 4) as [->|[->| ->]] by lia; cbn [Z.eqb Pos.eqb].
    + ifcase; cbn [negb fst]; [|done]. ifcase; cbn [fst]; [done|].
      apply lock_inv_insert; lock_consts; auto; lia.
    + ifcase; cbn [negb fst]; [|done]. ifcase; cbn [fst]; [done|].
      apply lock_inv_insert; lock_consts; auto; try lia.
      intros _ id st' Hid Hne. eapply maxOther_lt; eauto.
    + destruct (negb _ && negb _ && negb _); [done|]. ifcase; cbn [fst]; [done|].
      assert (Hs1 : lock_inv (if st <? 3 then <[c:=3]> s else s)).
      { ifcase; [|done]. apply lock_inv_insert; lock_consts; auto; try lia.
        intros _ id st' Hid Hne. eapply maxOther_lt; eauto. }
      destruct (hasOther _ c) eqn:Ho; cbn [fst]; [done|].
      pose proof (hasOther_false _ _ Ho) as Hself.
      apply lock_inv_insert; lock_consts; auto; try lia.
      * intros _ id st' Hid Hne. by apply Hself in Hid.
      * intros id Hid. by apply Hself in Hid.
Qed.

Lemma Unlock_inv s c t : lock_inv s -> lock_inv (Unlock s c t).1.
Proof.
  intros Hs. unfold Unlock. ifcase; [done|]. cbn [orb]. ifcase; [done|].
  destruct (Level_cases s c Hs) as [(Hn & HL)|(st & Hc & HL & Hst)]; rewrite HL;
    ifcase; try done; lock_consts; [lia|].
  destruct ((t =? 2) && _); [done|].
  ifcase; cbn [fst]; [by apply lock_inv_delete|].
  apply lock_inv_insert; lock_consts; auto; try lia.
  - intros Ht id st' Hid Hne.
    destruct (Z.lt_ge_cases st' 3) as [|Hge]; [done|]. exfalso. apply Hne.
    eapply (inv_pending _ Hs); eauto; lock_consts; lia.
  - eapply exclusive_is_self; eauto.
Qed.

Lemma reachable_inv s : reachable s -> lock_inv s.
Proof.
  induction 1 as [|s [c t|c t] _ IH]; cbn [exec].
  - apply lock_inv_empty.
  - by apply Lock_inv.
  - by apply Unlock_inv.
Qed.

(** ** Properties *)

(** C12: mutual exclusion of the lock ladder.  In every state reachable by any
    interleaving of [Lock] and [Unlock] calls, a connection at [EXCLUSIVE] is
    the only holder of the file, at most one connection is at [PENDING] or
    above, and every recorded level is one of the four. *)
Theorem lock_ladder_exclusion s :
  reachable s ->
  (forall i j b, s !! i = Some LockExclusive -> s !! j = Some b -> i = j) /\
  (forall i j a b, s !! i = Some a -> s !! j = Some b ->
     LockPending <= a -> LockPending <= b -> i = j) /\
  (forall i a, s !! i = Some a -> LockShared <= a <= LockExclusive).
Proof.
  intros Hr. destruct (reachable_inv s Hr) as [Hrange Hp He]. split_and!; eauto.
Qed.

Lemma lock_ladder_exclusion_witness :
  exists s, reachable s /\ s !! 7 = Some LockExclusive /\
    (forall i j b, s !! i = Some LockExclusive -> s !! j = Some b -> i = j).
Proof.
  exists (exec (exec ∅ (RLock 7 LockShared)).1 (RLock 7 LockExclusive)).1.
  assert (Hr : reachable (exec (exec ∅ (RLock 7 LockShared)).1 (RLock 7 LockExclusive)).1)
    by (repeat constructor).
  split; [exact Hr|]. split; [reflexivity|].
  exact (proj1 (lock_ladder_exclusion _ Hr)).
Defined.

Lemma maxOther_alone s c :
  (forall id st, s !! id = Some st -> id = c) -> maxOther s c = 0.
Proof.
  intros Halone. destruct (maxOther_spec s c) as (H0 & _ & Hex).
  destruct (Z.eq_dec (maxOther s c) 0) as [|Hne]; [done|].
  destruct Hex as (id & Hid & Hc); [lia|]. by apply Halone in Hid.
Qed.

Lemma hasOther_alone s c :
  (forall id st, s !! id = Some st -> id = c) -> hasOther s c = false.
Proof.
  intros Hm. destruct (hasOther s c) eqn:E; [|done].
  apply hasOther_spec in E as (id & st & Hid & Hc). by apply Hm in Hid.
Qed.

Lemma maxLock_alone s c :
  (forall id st, s !! id = Some st -> id = c) -> s !! c = None -> maxLock s = 0.
Proof.
  intros Halone Hn. assert (s = ∅) as ->; [|done]. apply map_eq. intros i.
  rewrite lookup_empty. destruct (s !! i) eqn:E; [|done].
  pose proof (Halone _ _ E). subst. congruence.
Qed.

Lemma Level_insert s c t : Level (<[c := t]> s) c = t.
Proof. unfold Level. by rewrite lookup_insert_eq. Qed.

(** The steps of the documented ladder. *)
Definition ladder_step (cur t : Z) : bool :=
  ((cur =? LockNone) && (t =? LockShared)) ||
  ((cur =? LockShared) && (t =? LockReserved)) ||
  ((cur =? LockReserved) && (t =? LockPending)) ||
  ((LockShared <=? cur) && (cur <? LockExclusive) && (t =? LockExclusive)).

Lemma ladder_step_cases cur t : ladder_step cur t = true ->
  (cur = 0 /\ t = 1) \/ (cur = 1 /\ t = 2) \/ (cur = 2 /\ t = 3) \/ (1 <= cur <= 3 /\ t = 4).
Proof. unfold ladder_step. lock_consts. lia. Qed.

(** C25: the ladder can be climbed.  In a reachable state where no other
    connection holds the file, every documented step ([NONE] to [SHARED],
    [SHARED] to [RESERVED], [RESERVED] to [PENDING], any held level to
    [EXCLUSIVE]) is granted without error and leaves the connection at the
    level it asked for. *)
Theorem ladder_step_granted s c t :
  reachable s -> (forall id st, s !! id = Some st -> id = c) ->
  ladder_step (Level s c) t = true ->
  (Lock s c t).2 = None /\ Level (Lock s c t).1 c = t.
Proof.
  intros Hr Halone Hstep. apply ladder_step_cases in Hstep.
  pose proof (reachable_inv s Hr) as Hs. pose proof (maxOther_alone s c Halone) as Hmo.
  destruct (Level_cases s c Hs) as [(Hn & HL)|(st & Hc & HL & Hst)]; rewrite HL in Hstep.
  - assert (t = 1) as -> by lia. unfold Lock. rewrite HL. cbn.
    rewrite (maxLock_alone s c) by done. cbn. by rewrite Level_insert.
  - assert ((st = 1 /\ t = 2) \/ (st = 2 /\ t = 3) \/ (1 <= st <= 3 /\ t = 4))
      as [[-> ->]|[[-> ->]|[Hst3 ->]]] by lia; unfold Lock; rewrite HL, Hmo;
      [cbn; by rewrite Level_insert ..|].
    assert (Halone1 : forall id x,
      (if st <? LockPending then <[c := LockPending]> s else s) !! id = Some x -> id = c).
    { intros id x. ifcase; [|eauto]. rewrite lookup_insert. case_decide; [done | eauto]. }
    rewrite (hasOther_alone _ _ Halone1).
    assert (st = 1 \/ st = 2 \/ st = 3) as [->|[->| ->]] by lia; cbn; by rewrite Level_insert.
Qed.

Lemma ladder_step_granted_witness :
  let s := (exec (exec ∅ (RLock 7 LockShared)).1 (RLock 7 LockReserved)).1 in
  reachable s /\ (Lock s 7 LockExclusive).2 = None /\
  Level (Lock s 7 LockExclusive).1 7 = LockExclusive.
Proof.
  intros s. assert (Hr : reachable s) by (repeat constructor).
  split; [exact Hr|].
  apply (ladder_step_granted s 7 LockExclusive Hr); [|reflexivity].
  change s with (<[7 := 2]> (<[7 := 1]> (∅ : gmap Z Z))).
  intros id st H. apply lookup_insert_Some in H as [[<- _]|[_ H]]; [reflexivity|].
  apply lookup_insert_Some in H as [[<- _]|[_ H]]; [reflexivity|].
  rewrite lookup_empty in H. discriminate.
Defined.

(** C24: no writer starves behind new readers: once a connection is at [PENDING] or
    above, every other connection that does not yet hold the file is refused
    [SHARED] with [ErrBusy] and the state is unchanged, so the set of readers
    can only shrink. *)
Theorem pending_blocks_new_readers s c d st :
  s !! c = Some st -> LockPending <= st -> s !! d = None ->
  Lock s d LockShared = (s, Some ErrBusy).
Proof.
  intros Hc Hst Hd. unfold Lock, Level. rewrite Hd. cbn.
  apply maxLock_upper in Hc. lock_consts. ifcase; [done | lia].
Qed.

Lemma pending_blocks_new_readers_witness :
  let s := {[ 1 := LockShared; 2 := LockPending ]} : gmap Z Z in
  Lock s 3 LockShared = (s, Some ErrBusy).
Proof.
  intros s. apply (pending_blocks_new_readers s 2 3 LockPending);
    [reflexivity | vm_compute; discriminate | reflexivity].
Defined.

(** A refused [EXCLUSIVE] is not without effect.  A [SHARED] connection that
    asks for [EXCLUSIVE] while another one is [RESERVED] (and none is at [PENDING] or
    above) is told [ErrBusy] but is left at [PENDING], beside the [RESERVED] holder.
    From then on neither can go up: the [RESERVED] one is refused [PENDING] and
    [EXCLUSIVE], the [PENDING] one is refused [EXCLUSIVE], all with [ErrBusy] and no
    change of state, until one of the two unlocks. *)
Theorem refused_exclusive_holds_pending s c d :
  reachable s -> Level s c = LockShared -> Level s d = LockReserved ->
  (forall id st, s !! id = Some st -> st < LockPending) ->
  let s' := <[c := LockPending]> s in
  Lock s c LockExclusive = (s', Some ErrBusy) /\ reachable s' /\
  Level s' c = LockPending /\ Level s' d = LockReserved /\
  Lock s' d LockPending = (s', Some ErrBusy) /\ Lock s' d LockExclusive = (s', Some ErrBusy) /\
  Lock s' c LockExclusive = (s', Some ErrBusy).
Proof.
  intros Hr Hc Hd Hlow s'. assert (Hne : d <> c) by (intros ->; rewrite Hc in Hd; done).
  assert (Hsd : s !! d = Some LockReserved) by (revert Hd; unfold Level; by destruct (s !! d); cbn; [intros ->|]).
  assert (Hsd' : s' !! d = Some LockReserved) by (unfold s'; by rewrite lookup_insert_ne by congruence).
  assert (Hsc' : s' !! c = Some LockPending) by (unfold s'; by rewrite lookup_insert_eq).
  assert (Hother : hasOther s' c = true) by (apply hasOther_spec; eauto).
  assert (Hmax : (maxOther s c >=? LockPending) = false).
  { destruct (maxOther_spec s c) as (H0 & _ & Hex). destruct (Z.geb_spec (maxOther s c) LockPending); [|done].
    destruct Hex as (id & Hid & _); [lock_consts; lia|]. apply Hlow in Hid. lia. }
  assert (Hmax' : (maxOther s' c >=? LockPending) = false).
  { destruct (maxOther_spec s' c) as (H0 & _ & Hex). destruct (Z.geb_spec (maxOther s' c) LockPending); [|done].
    destruct Hex as (id & Hid & Hic); [lock_consts; lia|]. 
    assert (Hids : s !! id = Some (maxOther s' c)) by (rewrite <- Hid; symmetry; by apply lookup_insert_ne).
    apply Hlow in Hids. lia. }
  assert (Hmaxd : (maxOther s' d >=? LockPending) = true).
  { pose proof (maxOther_ge s' d LockPending c LockPending Hsc' ltac:(congruence) ltac:(lia)). lia. }
  assert (HLc : Level s' c = LockPending) by (unfold Level; by rewrite Hsc').
  assert (HLd : Level s' d = LockReserved) by (unfold Level; by rewrite Hsd').
  assert (Hfst : Lock s c LockExclusive = (s', Some ErrBusy)).
  { unfold Lock. rewrite Hc, Hmax. cbn. fold s'. by rewrite Hother. }
  split_and!; [done | | done | done | | |].
  - assert (s' = (exec s (RLock c LockExclusive)).1) as -> by (cbn [exec]; by rewrite Hfst). by constructor.
  - unfold Lock. rewrite HLd, Hmaxd. done.
  - unfold Lock. rewrite HLd, Hmaxd. done.
  - unfold Lock. rewrite HLc, Hmax'. cbn. by rewrite Hother.
Qed.

Lemma refused_exclusive_holds_pending_witness :
  let s := (exec (exec (exec ∅ (RLock 1 LockShared)).1 (RLock 2 LockShared)).1 (RLock 1 LockReserved)).1 in
  let s' := <[2 := LockPending]> s in
  reachable s /\ Lock s 2 LockExclusive = (s', Some ErrBusy) /\ reachable s' /\
  Level s' 2 = LockPending /\ Level s' 1 = LockReserved /\
  Lock s' 1 LockPending = (s', Some ErrBusy) /\ Lock s' 1 LockExclusive = (s', Some ErrBusy) /\
  Lock s' 2 LockExclusive = (s', Some ErrBusy).
Proof.
  intros s s'. assert (Hr : reachable s) by (repeat constructor). split; [exact Hr|].
  apply (refused_exclusive_holds_pending s 2 1 Hr); [reflexivity | reflexivity |].
  change s with (<[1 := 2]> (<[2 := 1]> (<[1 := 1]> (∅ : gmap Z Z)))). intros id st H.
  do 3 (apply lookup_insert_Some in H as [[_ <-]|[_ H]]; [reflexivity|]).
  rewrite lookup_empty in H. discriminate.
Defined.

(** ** The registry *)

(** Two lookups of one file id give the same shared state. *)
Lemma File_shared r id : File (File r id).1 id = ((File r id).1, (File r id).2).
Proof.
  unfold File. destruct (r !! id) as [st|] eqn:E; cbn; [by rewrite E|].
  by rewrite lookup_insert_eq.
Qed.

(** A [Lock] call through the registry changes the shared state of its own file
    only. *)
Definition lock_file (r : registry) (id : string) (c t : Z) : registry * option lock_error :=
  let '(r1, st) := File r id in
  let '(st', e) := Lock st c t in
  (<[id := st']> r1, e).

Lemma File_other r id id' : id <> id' -> (File r id).1 !! id' = r !! id'.
Proof. intros. unfold File. destruct (r !! id); cbn; [done|]. by rewrite lookup_insert_ne. Qed.

Lemma lock_file_other r id id' c t :
  id <> id' -> (lock_file r id c t).1 !! id' = r !! id'.
Proof.
  intros. unfold lock_file. pose proof (File_other r id id' H) as Ho.
  destruct (File r id) as [r1 st]. destruct (Lock st c t). cbn in *.
  by rewrite lookup_insert_ne.
Qed.

End Locks.
