(* ===== verification/PageKernel.v ===== *)
(** * The page kernel (src/pkg/c2db/db_page_gen.go, c2db_crc32c_fullpage_gen.go)

    A page is a Go slice and the length [n] the caller gives, which every
    function first clamps to [len(page)]; all accesses are guarded, so the
    functions are total.  The stores return the new contents of the buffer. *)

From S2P Require Import Prelude Crc.

Local Open Scope Z_scope.

Module PageKernel.

Record Db_page_hdr_t := { Nslots : Z; Free_lo : Z; Free_hi : Z; Crc : Z }.
Record Db_page_slot_t := { Off : Z; Len_ : Z; Valid : Z }.

(** [if uint64(len(page)) < n { n = uint64(len(page)) }] *)
Definition clamp (page : slice) (n : Z) : Z := if slen page <? n then slen page else n.

Definition Db_page_bounds (page : slice) (n addr len_ : Z) : Z :=
  let n := clamp page n in
  let len_ := clamp page len_ in
  if is_nil page then 0 else
  if negb (n =? 0x4000) then 0 else
  if (addr <? n) && (len_ <=? w64 (n - addr)) then 1 else 0.

(** The guard [(addr < n) && (k <= (n - addr))] of the accessors. *)
Definition room (n addr k : Z) : bool := (addr <? n) && (k <=? w64 (n - addr)).

Definition db_read8 (page : slice) (n addr : Z) : Z :=
  let n := clamp page n in
  match page with
  | None => 0
  | Some p => if room n addr 1 then rd p addr else 0
  end.

(** [uint16(page[a] | byte(uint16(page[a+1])<<8))]: the shifted value is cut to
    a byte before it is or-ed. *)
Definition db_read16 (page : slice) (n addr : Z) : Z :=
  let n := clamp page n in
  match page with
  | None => 0
  | Some p =>
      if room n addr 2
      then Z.lor (rd p addr) (w8 (w16 (Z.shiftl (rd p (w64 (addr + 1))) 8)))
      else 0
  end.

Definition db_read32 (page : slice) (n addr : Z) : Z :=
  let n := clamp page n in
  match page with
  | None => 0
  | Some p =>
      if room n addr 4
      then Z.lor (Z.lor (Z.lor (rd p addr)
                   (w32 (Z.shiftl (rd p (w64 (addr + 1))) 8)))
                   (w32 (Z.shiftl (rd p (w64 (addr + 2))) 16)))
                   (w32 (Z.shiftl (rd p (w64 (addr + 3))) 24))
      else 0
  end.

Definition db_read64 (page : slice) (n addr : Z) : Z :=
  let n := clamp page n in
  match page with
  | None => 0
  | Some p =>
      if room n addr 8
      then Z.lor (Z.lor (Z.lor (Z.lor (Z.lor (Z.lor (Z.lor (rd p addr)
             (w64 (Z.shiftl (rd p (w64 (addr + 1))) 8)))
             (w64 (Z.shiftl (rd p (w64 (addr + 2))) 16)))
             (w64 (Z.shiftl (rd p (w64 (addr + 3))) 24)))
             (w64 (Z.shiftl (rd p (w64 (addr + 4))) 32)))
             (w64 (Z.shiftl (rd p (w64 (addr + 5))) 40)))
             (w64 (Z.shiftl (rd p (w64 (addr + 6))) 48)))
             (w64 (Z.shiftl (rd p (w64 (addr + 7))) 56))
      else 0
  end.

Definition db_write8 (page : slice) (n addr val : Z) : slice :=
  let n := clamp page n in
  match page with
  | None => None
  | Some p => Some (if room n addr 1 then wr p addr val else p)
  end.

Definition db_write16 (page : slice) (n addr val : Z) : slice :=
  let n := clamp page n in
  match page with
  | None => None
  | Some p => Some (
      if room n addr 2 then
        let p := wr p addr (w8 (Z.land val 0xff)) in
        wr p (w64 (addr + 1)) (w8 (Z.land (Z.shiftr val 8) 0xff))
      else p)
  end.

Definition db_write32 (page : slice) (n addr val : Z) : slice :=
  let n := clamp page n in
  match page with
  | None => None
  | Some p => Some (
      if room n addr 4 then
        let p := wr p addr (w8 (Z.land val 0xff)) in
        let p := wr p (w64 (addr + 1)) (w8 (Z.land (Z.shiftr val 8) 0xff)) in
        let p := wr p (w64 (addr + 2)) (w8 (Z.land (Z.shiftr val 16) 0xff)) in
        wr p (w64 (addr + 3)) (w8 (Z.land (Z.shiftr val 24) 0xff))
      else p)
  end.

Definition db_write64 (page : slice) (n addr val : Z) : slice :=
  let n := clamp page n in
  match page with
  | None => None
  | Some p => Some (
      if room n addr 8 then
        let p := wr p addr (w8 (Z.land val 0xff)) in
        let p := wr p (w64 (addr + 1)) (w8 (Z.land (Z.shiftr val 8) 0xff)) in
        let p := wr p (w64 (addr + 2)) (w8 (Z.land (Z.shiftr val 16) 0xff)) in
        let p := wr p (w64 (addr + 3)) (w8 (Z.land (Z.shiftr val 24) 0xff)) in
        let p := wr p (w64 (addr + 4)) (w8 (Z.land (Z.shiftr val 32) 0xff)) in
        let p := wr p (w64 (addr + 5)) (w8 (Z.land (Z.shiftr val 40) 0xff)) in
        let p := wr p (w64 (addr + 6)) (w8 (Z.land (Z.shiftr val 48) 0xff)) in
        wr p (w64 (addr + 7)) (w8 (Z.land (Z.shiftr val 56) 0xff))
      else p)
  end.

(** ** The header *)

Definition hdr0 : Db_page_hdr_t := {| Nslots := 0; Free_lo := 0; Free_hi := 0; Crc := 0 |}.

Definition Db_page_hdr_read (page : slice) (n : Z) : Db_page_hdr_t :=
  let n := clamp page n in
  if is_nil page || negb (n =? 0x4000) then hdr0 else
  if Db_page_bounds page n 22 8 =? 0 then hdr0 else
  {| Nslots := db_read16 page n 22;
     Free_lo := db_read16 page n 24;
     Free_hi := db_read16 page n 26;
     Crc := db_read32 page n 28 |}.

Definition Db_page_hdr_write (page : slice) (n : Z) (hdr : Db_page_hdr_t) : slice * Z :=
  let n := clamp page n in
  if is_nil page || negb (n =? 0x4000) then (page, 0) else
  if Db_page_bounds page n 22 8 =? 0 then (page, 0) else
  let page := db_write16 page n 22 (w16 (Nslots hdr)) in
  let page := db_write16 page n 24 (Free_lo hdr) in
  let page := db_write16 page n 26 (Free_hi hdr) in
  let page := db_write32 page n 28 (Crc hdr) in
  (page, 1).

(** ** Slots *)

Definition slot0 : Db_page_slot_t := {| Off := 0; Len_ := 0; Valid := 0 |}.

Definition Db_page_slot_get (page : slice) (n idx : Z) : Db_page_slot_t :=
  let n := clamp page n in
  if is_nil page || negb (n =? 0x4000) then slot0 else
  if idx >=? Nslots (Db_page_hdr_read page n) then slot0 else
  let v22 := (64 +% (idx *% 16))%u64 in
  if Db_page_bounds page n v22 16 =? 0 then slot0 else
  let off := db_read64 page n v22 in
  let len_ := db_read64 page n (v22 +% 8)%u64 in
  if Db_page_bounds page n off len_ =? 0 then slot0
  else {| Off := off; Len_ := len_; Valid := 1 |}.

Definition Db_page_slot_set (page : slice) (n idx : Z) (slot : Db_page_slot_t) : slice * Z :=
  let n := clamp page n in
  if is_nil page || negb (n =? 0x4000) then (page, 0) else
  if idx >=? Nslots (Db_page_hdr_read page n) then (page, 0) else
  let v21 := (64 +% (idx *% 16))%u64 in
  if Db_page_bounds page n v21 16 =? 0 then (page, 0) else
  if Db_page_bounds page n (Off slot) (Len_ slot) =? 0 then (page, 0) else
  let page := db_write64 page n v21 (Off slot) in
  let page := db_write64 page n (v21 +% 8)%u64 (Len_ slot) in
  (page, 1).

(** ** The two page checksums *)

Definition Db_page_crc32c (page : slice) (n : Z) : Z :=
  let n := clamp page n in
  if is_nil page || negb (n =? 0x4000) then 0 else
  if Db_page_bounds page n 64 0x3fc0 =? 0 then 0 else
  Crc.not32 (for_pure 64 n (fun v4 v3 => Crc.table_step v3 (rd (bytes_of page) v4)) 0xffffffff).

Definition Db_page_crc32c_store (page : slice) (n : Z) : slice * Z :=
  let n := clamp page n in
  if is_nil page || negb (n =? 0x4000) then (page, 0) else
  (db_write32 page n 28 (Db_page_crc32c page n), 1).

(** The whole page with the checksum field (bytes 28..31) read as zero. *)
Definition C2db_crc32c_fullpage (page : slice) (n : Z) : Z :=
  let n := clamp page n in
  if is_nil page || negb (n =? 0x4000) then 0 else
  Crc.not32 (for_pure 0 n (fun v4 v3 =>
    let v5 := if (v4 >=? 28) && (v4 <? 32) then 0 else rd (bytes_of page) v4 in
    Crc.table_step v3 v5) 0xffffffff).

Definition C2db_crc32c_fullpage_store (page : slice) (n : Z) : slice * Z :=
  let n := clamp page n in
  match page with
  | None => (page, 0)
  | Some p =>
      if negb (n =? 0x4000) then (page, 0) else
      let v12 := C2db_crc32c_fullpage page n in
      let p := wr p 28 (w8 (Z.land v12 0xff)) in
      let p := wr p 29 (w8 (Z.land (Z.shiftr v12 8) 0xff)) in
      let p := wr p 30 (w8 (Z.land (Z.shiftr v12 16) 0xff)) in
      let p := wr p 31 (w8 (Z.land (Z.shiftr v12 24) 0xff)) in
      (Some p, 1)
  end.

(** ** Accessors as fields of the buffer *)

Lemma room_ok n a k : 0 <= a -> 0 < k -> a + k <= n < 2 ^ 64 -> room n a k = true.
Proof. intros. unfold room. unwrap. zcases. Qed.

Section Fields.
Context (p : list Z) (n : Z).
Hypothesis Hp : bytes_ok p.
Hypothesis Hn : n <= len p < 2 ^ 63.

Lemma clamp_le : clamp (Some p) n = n.
Proof. unfold clamp, slen. cbn. zcase; lia. Qed.

Lemma room_true a k : 0 <= a -> 0 < k -> a + k <= n -> room n a k = true.
Proof. intros. apply room_ok; lia. Qed.

Ltac field_bytes :=
  repeat match goal with
  | |- context [rd p ?a] =>
      lazymatch goal with
      | _ : 0 <= rd p a < 256 |- _ => fail
      | _ => pose proof (rd_bound p a Hp)
      end
  end.

Lemma db_read8_eq a : 0 <= a -> a + 1 <= n -> db_read8 (Some p) n a = rd p a.
Proof. intros. unfold db_read8. by rewrite clamp_le, room_true by lia. Qed.

Lemma db_read32_eq a : 0 <= a -> a + 4 <= n ->
  db_read32 (Some p) n a = le_get 4 (sub p a (a + 4)).
Proof.
  intros. unfold db_read32. rewrite clamp_le, room_true by lia. unwrap.
  rewrite !le_get_sub_S by lia. cbn [le_get]. zlit.
  field_bytes. rewrite !Z.shiftl_mul_pow2 by lia. unwrap.
  rewrite <- !Z.shiftl_mul_pow2 by lia. lor_sum. lia.
Qed.

Lemma db_read64_eq a : 0 <= a -> a + 8 <= n ->
  db_read64 (Some p) n a = le_get 8 (sub p a (a + 8)).
Proof.
  intros. unfold db_read64. rewrite clamp_le, room_true by lia. unwrap.
  rewrite !le_get_sub_S by lia. cbn [le_get]. zlit.
  field_bytes. rewrite !Z.shiftl_mul_pow2 by lia. unwrap.
  rewrite <- !Z.shiftl_mul_pow2 by lia. lor_sum. lia.
Qed.

(** What [db_read16] returns: the low byte of the field. *)
Lemma db_read16_eq a : 0 <= a -> a + 2 <= n -> db_read16 (Some p) n a = rd p a.
Proof.
  intros. unfold db_read16. rewrite clamp_le, room_true by lia. unwrap.
  field_bytes. rewrite Z.shiftl_mul_pow2 by lia. unwrap. unfold w8.
  rewrite Z.mod_mul by lia. apply Z.lor_0_r.
Qed.

Lemma db_write8_eq a v : 0 <= a -> a + 1 <= n -> db_write8 (Some p) n a v = Some (wr p a v).
Proof. intros. unfold db_write8. by rewrite clamp_le, room_true by lia. Qed.

Lemma w8_land x : w8 (Z.land x 255) = Z.land x 255.
Proof. rewrite land_255. apply w8_small, Z.mod_pos_bound. lia. Qed.

Ltac field_write :=
  rewrite clamp_le, room_true by lia; unwrap; cbn zeta; rewrite !w8_land;
  rewrite !le_put_S; cbn [le_put];
  rewrite ?Z.shiftr_shiftr by lia; zlit;
  rewrite !copy_at_step by lia; zlit;
  by rewrite copy_at_nil.

Lemma db_write16_eq a v : 0 <= a -> a + 2 <= n ->
  db_write16 (Some p) n a v = Some (copy_at p a (le_put 2 v)).
Proof. intros. unfold db_write16. field_write. Qed.

Lemma db_write32_eq a v : 0 <= a -> a + 4 <= n ->
  db_write32 (Some p) n a v = Some (copy_at p a (le_put 4 v)).
Proof. intros. unfold db_write32. field_write. Qed.

Lemma db_write64_eq a v : 0 <= a -> a + 8 <= n ->
  db_write64 (Some p) n a v = Some (copy_at p a (le_put 8 v)).
Proof. intros. unfold db_write64. field_write. Qed.

Lemma Db_page_bounds_eq a k :
  n = 0x4000 -> 0 <= a < 2 ^ 64 ->
  Db_page_bounds (Some p) n a k = if (a + Z.min k (len p) <=? n) && (a <? n) then 1 else 0.
Proof.
  intros Hpage Ha. unfold Db_page_bounds. rewrite clamp_le. cbn [is_nil].
  rewrite Hpage. cbn [Z.eqb Pos.eqb negb].
  assert (clamp (Some p) k = Z.min k (len p)) as ->
    by (unfold clamp, slen; cbn; zcase; lia).
  destruct (Z.ltb_spec a 0x4000); cbn [andb].
  - unwrap. zcases.
  - by rewrite andb_false_r.
Qed.

Lemma Db_page_bounds_in a k :
  n = 0x4000 -> 0 <= a < n -> a + Z.min k (len p) <= n ->
  (Db_page_bounds (Some p) n a k =? 0) = false.
Proof. intros. rewrite Db_page_bounds_eq by lia. zcases. Qed.
End Fields.

(** ** A 16 KiB page *)

Definition page_ok (p : list Z) : Prop := len p = 0x4000 /\ bytes_ok p.

Lemma page_ok_copy_at p a src : page_ok p -> bytes_ok src -> page_ok (copy_at p a src).
Proof. intros [Hl Hb] Hs. split; [by rewrite len_copy_at | by apply bytes_ok_copy_at]. Qed.
#[local] Hint Resolve page_ok_copy_at bytes_ok_le_put : c2db.

Ltac page_side := match goal with H : page_ok ?p |- _ => destruct H; lia || assumption end.

(** The header of a page, field by field. *)
Lemma Db_page_hdr_read_eq p : page_ok p ->
  Db_page_hdr_read (Some p) 0x4000 =
  {| Nslots := rd p 22; Free_lo := rd p 24; Free_hi := rd p 26;
     Crc := le_get 4 (sub p 28 32) |}.
Proof.
  intros [Hl Hb]. unfold Db_page_hdr_read. rewrite clamp_le by lia. cbn [is_nil].
  rewrite Db_page_bounds_in by lia. cbn [orb negb Z.eqb Pos.eqb].
  by rewrite !db_read16_eq, db_read32_eq by (done || lia).
Qed.

Lemma Db_page_hdr_write_eq p h : page_ok p ->
  Db_page_hdr_write (Some p) 0x4000 h =
  (Some (copy_at (copy_at (copy_at (copy_at p 22 (le_put 2 (w16 (Nslots h))))
     24 (le_put 2 (Free_lo h))) 26 (le_put 2 (Free_hi h))) 28 (le_put 4 (Crc h))), 1).
Proof.
  intros [Hl Hb]. unfold Db_page_hdr_write. rewrite clamp_le by lia. cbn [is_nil].
  rewrite Db_page_bounds_in by lia. cbn [orb negb Z.eqb Pos.eqb].
  by rewrite !db_write16_eq, db_write32_eq by (rewrite ?len_copy_at; auto with c2db; lia).
Qed.

(** The address of slot [i] and the slot accessors, on a page whose header
    admits it: at most 255 slots, so the product never wraps. *)
Definition slot_at (i : Z) : Z := 64 + i * 16.

Lemma slot_at_u64 i : 0 <= i < 256 -> (64 +% (i *% 16))%u64 = slot_at i.
Proof. intros. unfold slot_at. unwrap. done. Qed.

Lemma Db_page_slot_get_eq p i : page_ok p -> 0 <= i ->
  Db_page_slot_get (Some p) 0x4000 i =
  if i <? rd p 22 then
    let off := le_get 8 (sub p (slot_at i) (slot_at i + 8)) in
    let len_ := le_get 8 (sub p (slot_at i + 8) (slot_at i + 16)) in
    if (off + Z.min len_ 0x4000 <=? 0x4000) && (off <? 0x4000)
    then {| Off := off; Len_ := len_; Valid := 1 |} else slot0
  else slot0.
Proof.
  intros Hp Hi. pose proof Hp as [Hl Hb]. unfold Db_page_slot_get.
  rewrite clamp_le by lia. cbn [is_nil orb negb Z.eqb Pos.eqb].
  rewrite Db_page_hdr_read_eq by done. cbn [Nslots].
  rewrite Z.geb_leb, Z.leb_antisym. pose proof (rd_bound p 22 Hb).
  destruct (Z.ltb_spec i (rd p 22)); cbn [negb]; [|done].
  rewrite slot_at_u64 by lia. unfold slot_at in *.
  rewrite Db_page_bounds_in by lia. unwrap.
  rewrite !db_read64_eq by (done || lia). zlit.
  replace (64 + i * 16 + 8 + 8) with (64 + i * 16 + 16) by lia.
  pose proof (le_get_sub_bound 8 p (64 + i * 16) (64 + i * 16 + 8) Hb).
  rewrite Db_page_bounds_eq, Hl by (done || lia). by destruct (_ && _).
Qed.

Lemma Db_page_slot_set_eq p i s : page_ok p -> 0 <= i -> 0 <= Off s < 2 ^ 64 ->
  Db_page_slot_set (Some p) 0x4000 i s =
  if (i <? rd p 22) && ((Off s + Z.min (Len_ s) 0x4000 <=? 0x4000) && (Off s <? 0x4000))
  then (Some (copy_at (copy_at p (slot_at i) (le_put 8 (Off s))) (slot_at i + 8) (le_put 8 (Len_ s))), 1)
  else (Some p, 0).
Proof.
  intros Hp Hi Hoff. pose proof Hp as [Hl Hb]. unfold Db_page_slot_set.
  rewrite clamp_le by lia. cbn [is_nil orb negb Z.eqb Pos.eqb].
  rewrite Db_page_hdr_read_eq by done. cbn [Nslots].
  rewrite Z.geb_leb, Z.leb_antisym. pose proof (rd_bound p 22 Hb).
  destruct (Z.ltb_spec i (rd p 22)); cbn [negb andb]; [|done].
  rewrite slot_at_u64 by lia. unfold slot_at in *.
  rewrite Db_page_bounds_in by lia. unwrap.
  rewrite Db_page_bounds_eq, Hl by lia.
  destruct (_ && _); cbn [Z.eqb]; [|done].
  by rewrite !db_write64_eq by (rewrite ?len_copy_at; lia).
Qed.

Definition slot_range (s : Db_page_slot_t) : Prop :=
  0 <= Off s < 0x4000 /\ 0 <= Len_ s /\ Off s + Len_ s <= 0x4000.

(** What [Db_page_slot_set] stores. *)
Definition slot_store (p : list Z) (i : Z) (s : Db_page_slot_t) : list Z :=
  copy_at (copy_at p (slot_at i) (le_put 8 (Off s))) (slot_at i + 8) (le_put 8 (Len_ s)).

Lemma page_ok_slot_store p i s : page_ok p -> page_ok (slot_store p i s).
Proof. intros. unfold slot_store. auto with c2db. Qed.

Lemma slot_store_out p i s a : 0 <= i -> 0 <= a ->
  (a < slot_at i \/ slot_at i + 16 <= a) -> rd (slot_store p i s) a = rd p a.
Proof.
  intros Hi Ha Hout. unfold slot_store, slot_at in *.
  rewrite !rd_copy_at_out by (rewrite ?len_le_put; lia). done.
Qed.

(** C27: a slot written is the slot read back, and nothing else moves.  On a
    16 KiB page, [Db_page_slot_set] of an in-range slot at an index below the
    header's slot count succeeds, [Db_page_slot_get] then returns exactly that
    slot as valid, every byte outside the 16 bytes of that entry is unchanged,
    and so is every other slot. *)
Theorem slot_set_get p i s :
  page_ok p -> 0 <= i < Nslots (Db_page_hdr_read (Some p) 0x4000) -> slot_range s ->
  exists p', Db_page_slot_set (Some p) 0x4000 i s = (Some p', 1) /\
    Db_page_slot_get (Some p') 0x4000 i = {| Off := Off s; Len_ := Len_ s; Valid := 1 |} /\
    (forall a, 0 <= a -> (a < slot_at i \/ slot_at i + 16 <= a) -> rd p' a = rd p a) /\
    (forall j, 0 <= j -> j <> i ->
       Db_page_slot_get (Some p') 0x4000 j = Db_page_slot_get (Some p) 0x4000 j).
Proof.
  intros Hp Hi (Hoff & Hlen & Hend). pose proof Hp as [Hl Hb].
  rewrite Db_page_hdr_read_eq in Hi by done. cbn [Nslots] in Hi.
  pose proof (rd_bound p 22 Hb).
  pose proof (page_ok_slot_store p i s Hp) as Hp'.
  assert (H22 : rd (slot_store p i s) 22 = rd p 22)
    by (apply slot_store_out; unfold slot_at; lia).
  exists (slot_store p i s). split_and!.
  - rewrite Db_page_slot_set_eq by (done || lia). zcases. done.
  - rewrite Db_page_slot_get_eq, H22 by (done || lia). cbv zeta. unfold slot_store, slot_at in *.
    rewrite field_put_other, !field_put_get by (rewrite ?len_copy_at; lia).
    rewrite !Z.mod_small by lia. zcases. done.
  - intros. apply slot_store_out; lia.
  - intros j Hj Hne. rewrite !Db_page_slot_get_eq, H22 by (done || lia).
    zcase; [|done]. unfold slot_store, slot_at in *.
    rewrite !field_put_other by (rewrite ?len_copy_at; lia). done.
Qed.

(** A concrete page: all zero but for a slot count of 3. *)
Definition page3 : list Z := wr (zeros 0x4000) 22 3.
Lemma page3_ok : page_ok page3.
Proof. split; [unfold page3; by rewrite len_wr | apply bytes_ok_wr; [apply bytes_ok_zeros | lia]]. Qed.
Lemma page3_nslots : Nslots (Db_page_hdr_read (Some page3) 0x4000) = 3.
Proof. rewrite Db_page_hdr_read_eq by apply page3_ok. apply rd_wr_eq. done. Qed.

Lemma slot_set_get_witness :
  exists p', Db_page_slot_set (Some page3) 0x4000 2 {| Off := 100; Len_ := 50; Valid := 0 |}
    = (Some p', 1) /\
  Db_page_slot_get (Some p') 0x4000 2 = {| Off := 100; Len_ := 50; Valid := 1 |}.
Proof.
  destruct (slot_set_get page3 2 {| Off := 100; Len_ := 50; Valid := 0 |}) as (p' & Hset & Hget & _).
  - exact page3_ok.
  - rewrite page3_nslots. lia.
  - unfold slot_range; cbn; lia.
  - exists p'. split; [exact Hset | exact Hget].
Defined.

(** A refused slot write changes nothing and says so.  An index at or above
    the slot count, an offset outside the page, or a length (up to the page
    size) that runs past its end returns 0 with the page as it was; reading
    such an index returns the zero slot, which is not valid. *)
Theorem slot_set_refused p i s :
  page_ok p -> 0 <= i -> 0 <= Off s < 2 ^ 64 ->
  Nslots (Db_page_hdr_read (Some p) 0x4000) <= i \/ 0x4000 <= Off s \/
    (Len_ s <= 0x4000 /\ 0x4000 < Off s + Len_ s) ->
  Db_page_slot_set (Some p) 0x4000 i s = (Some p, 0) /\
  (Nslots (Db_page_hdr_read (Some p) 0x4000) <= i ->
   Db_page_slot_get (Some p) 0x4000 i = slot0).
Proof.
  intros Hp Hi Hoff. rewrite Db_page_hdr_read_eq by done. cbn [Nslots]. intros Hbad.
  rewrite Db_page_slot_set_eq, Db_page_slot_get_eq by done.
  split; [zcases; done | intros; zcases; done].
Qed.

Lemma slot_set_refused_witness :
  Db_page_slot_set (Some page3) 0x4000 3 {| Off := 0; Len_ := 1; Valid := 1 |} = (Some page3, 0).
Proof.
  apply (slot_set_refused page3 3 {| Off := 0; Len_ := 1; Valid := 1 |} page3_ok); cbn; [lia..|].
  left. rewrite page3_nslots. lia.
Defined.

(** C33: [Db_page_bounds] cuts the length to [len(page)] before it tests it, so an
    offset-0 slot of any length is accepted and read back as valid: a valid slot
    need not lie inside the page. *)
Theorem overlong_slot_accepted p i k :
  page_ok p -> 0 <= i < Nslots (Db_page_hdr_read (Some p) 0x4000) -> 0x4000 <= k < 2 ^ 64 ->
  exists p', Db_page_slot_set (Some p) 0x4000 i {| Off := 0; Len_ := k; Valid := 0 |} = (Some p', 1) /\
    Db_page_slot_get (Some p') 0x4000 i = {| Off := 0; Len_ := k; Valid := 1 |}.
Proof.
  intros Hp Hi Hk. pose proof Hp as [Hl Hb].
  rewrite Db_page_hdr_read_eq in Hi by done. cbn [Nslots] in Hi.
  pose proof (rd_bound p 22 Hb).
  set (s := {| Off := 0; Len_ := k; Valid := 0 |}).
  exists (slot_store p i s). split.
  - rewrite Db_page_slot_set_eq by (done || cbn; lia). cbn [Off Len_ s]. zcases. done.
  - rewrite Db_page_slot_get_eq by (apply page_ok_slot_store || lia; done).
    rewrite slot_store_out by (unfold slot_at; lia). cbv zeta. unfold slot_store, slot_at in *.
    rewrite field_put_other, !field_put_get by (rewrite ?len_copy_at; lia). cbn [Off Len_ s].
    rewrite !Z.mod_small by lia. zcases. done.
Qed.

Lemma overlong_slot_accepted_witness :
  exists p', Db_page_slot_set (Some page3) 0x4000 0 {| Off := 0; Len_ := 2 ^ 40; Valid := 0 |} = (Some p', 1) /\
    Db_page_slot_get (Some p') 0x4000 0 = {| Off := 0; Len_ := 2 ^ 40; Valid := 1 |}.
Proof. apply (overlong_slot_accepted page3 0 (2 ^ 40) page3_ok); [rewrite page3_nslots|]; lia. Defined.

(** C32: the header comes back cut to bytes.  Writing a header and reading it
    returns the checksum exactly but [Nslots], [Free_lo] and [Free_hi] modulo
    256, because [db_read16] shifts the high byte inside a byte; the bytes in
    the page hold the full 16-bit values. *)
Theorem hdr_write_read p h :
  page_ok p -> 0 <= Nslots h < 2 ^ 16 -> 0 <= Free_lo h < 2 ^ 16 ->
  0 <= Free_hi h < 2 ^ 16 -> 0 <= Crc h < 2 ^ 32 ->
  exists p', Db_page_hdr_write (Some p) 0x4000 h = (Some p', 1) /\ page_ok p' /\
    Db_page_hdr_read (Some p') 0x4000 =
      {| Nslots := Nslots h `mod` 256; Free_lo := Free_lo h `mod` 256;
         Free_hi := Free_hi h `mod` 256; Crc := Crc h |} /\
    le_get 2 (sub p' 22 24) = Nslots h /\ le_get 2 (sub p' 24 26) = Free_lo h /\
    le_get 2 (sub p' 26 28) = Free_hi h /\
    (forall a, 0 <= a -> (a < 22 \/ 32 <= a) -> rd p' a = rd p a).
Proof.
  intros Hp Hn Hlo Hhi Hc. pose proof Hp as [Hl Hb]. rewrite Db_page_hdr_write_eq by done.
  eexists. split; [done|].
  assert (Hp' : page_ok (copy_at (copy_at (copy_at (copy_at p 22 (le_put 2 (w16 (Nslots h))))
     24 (le_put 2 (Free_lo h))) 26 (le_put 2 (Free_hi h))) 28 (le_put 4 (Crc h)))) by auto 10 with c2db.
  rewrite Db_page_hdr_read_eq by done. split; [done|]. split_and!.
  - f_equal.
    + rewrite !rd_copy_at_out by (rewrite ?len_le_put; lia). rewrite rd_copy_at_in by (rewrite ?len_le_put; lia).
      cbn. unwrap. done.
    + rewrite !(rd_copy_at_out _ _ _ 24) by (rewrite ?len_le_put; lia).
      rewrite rd_copy_at_in by (rewrite ?len_copy_at, ?len_le_put; lia). done.
    + rewrite !(rd_copy_at_out _ 28 _ 26) by (rewrite ?len_le_put; lia).
      rewrite rd_copy_at_in by (rewrite ?len_copy_at, ?len_le_put; lia). done.
    + rewrite field_put_get by (rewrite ?len_copy_at; lia). by apply Z.mod_small.
  - rewrite !field_put_other, field_put_get by (rewrite ?len_copy_at; lia). unwrap. by apply Z.mod_small.
  - rewrite !field_put_other, field_put_get by (rewrite ?len_copy_at; lia). by apply Z.mod_small.
  - rewrite !field_put_other, field_put_get by (rewrite ?len_copy_at; lia). by apply Z.mod_small.
  - intros. by rewrite !rd_copy_at_out by (rewrite ?len_le_put; lia).
Qed.

Lemma hdr_write_read_witness :
  exists p', Db_page_hdr_write (Some page3) 0x4000
      {| Nslots := 300; Free_lo := 4096; Free_hi := 16383; Crc := 7 |} = (Some p', 1) /\
    Db_page_hdr_read (Some p') 0x4000 = {| Nslots := 44; Free_lo := 0; Free_hi := 255; Crc := 7 |}.
Proof.
  destruct (hdr_write_read page3 {| Nslots := 300; Free_lo := 4096; Free_hi := 16383; Crc := 7 |} page3_ok)
    as (p' & Hw & _ & Hr & _); cbn; [lia..|].
  exists p'. split; [exact Hw | exact Hr].
Defined.

(** ** The checksums *)

Lemma not32_land c : 0 <= c < 2 ^ 32 -> forall k, 0 <= k -> w8 (Z.land (Z.shiftr c k) 255) = Z.land (Z.shiftr c k) 255.
Proof. intros. apply w8_land. Qed.

#[local] Opaque for_pure.

Lemma table_loop l lo hi c :
  0 <= c < 2 ^ 32 -> bytes_ok l -> 0 <= lo <= hi -> hi <= len l ->
  for_pure lo hi (fun i c => Crc.table_step c (rd l i)) c = Crc.crc_bytes c (sub l lo hi).
Proof.
  intros Hc Hl Hlo Hhi. rewrite (for_pure_foldl Crc.table_step) by lia.
  apply Crc.table_foldl; auto with c2db.
Qed.

(** [Db_page_crc32c] is the CRC-32C of the bytes after the header. *)
Lemma Db_page_crc32c_eq p : page_ok p ->
  Db_page_crc32c (Some p) 0x4000 = Crc.checksum (sub p 64 0x4000).
Proof.
  intros [Hl Hb]. unfold Db_page_crc32c. rewrite clamp_le by lia.
  rewrite Db_page_bounds_in by lia. cbn [is_nil orb negb Z.eqb Pos.eqb bytes_of default from_option].
  unfold id. by rewrite table_loop by (done || lia).
Qed.

(** [C2db_crc32c_fullpage] is that of the page with the checksum field zeroed. *)
Definition blank_crc (p : list Z) : list Z := copy_at p 28 [0; 0; 0; 0].

Lemma blank_crc_ok p : page_ok p -> page_ok (blank_crc p).
Proof. intros. apply page_ok_copy_at; [done|]. repeat constructor; lia. Qed.

Lemma len_blank_crc p : len (blank_crc p) = len p.
Proof. apply len_copy_at. Qed.

Lemma rd_blank_crc p i : page_ok p -> 0 <= i ->
  rd (blank_crc p) i = if (i >=? 28) && (i <? 32) then 0 else rd p i.
Proof.
  intros [Hl _] Hi. unfold blank_crc. change (len [0; 0; 0; 0]) with 4. zcases.
  - rewrite rd_copy_at_in by (change (len [0; 0; 0; 0]) with 4; lia).
    assert (i = 28 \/ i = 29 \/ i = 30 \/ i = 31) as [-> | [-> | [-> | ->]]] by lia; done.
  - by rewrite rd_copy_at_out by (change (len [0; 0; 0; 0]) with 4; lia).
  - by rewrite rd_copy_at_out by (change (len [0; 0; 0; 0]) with 4; lia).
Qed.

Lemma C2db_crc32c_fullpage_eq p : page_ok p ->
  C2db_crc32c_fullpage (Some p) 0x4000 = Crc.checksum (blank_crc p).
Proof.
  intros Hp. pose proof Hp as [Hl Hb]. pose proof (blank_crc_ok p Hp) as [Hl' Hb'].
  unfold C2db_crc32c_fullpage. rewrite clamp_le by lia.
  cbn [is_nil orb negb Z.eqb Pos.eqb bytes_of default from_option]. unfold id, Crc.checksum.
  apply (f_equal Crc.not32). transitivity (Crc.crc_bytes 0xffffffff (sub (blank_crc p) 0 0x4000)).
  - rewrite <- table_loop by (assumption || lia).
    apply for_pure_ext. intros i t Hi. by rewrite rd_blank_crc by (assumption || lia).
  - rewrite <- Hl'. by rewrite sub_full.
Qed.

(** C28: the page checksum is stored where it is read and catches short bursts.
    After [Db_page_crc32c_store], the header's [Crc] is the checksum of the
    page, nothing but bytes 28..31 has moved, and overwriting at most four
    consecutive bytes of the body (at offset 64 or above) so that the page changes
    always makes the checksum differ from the stored one.  This checksum does not
    cover the 64 bytes of the header. *)
Theorem page_crc_store_detects p :
  page_ok p ->
  exists p', Db_page_crc32c_store (Some p) 0x4000 = (Some p', 1) /\
    Crc (Db_page_hdr_read (Some p') 0x4000) = Db_page_crc32c (Some p') 0x4000 /\
    (forall i, 0 <= i -> (i < 28 \/ 32 <= i) -> rd p' i = rd p i) /\
    (forall a w, 64 <= a -> Crc.burst p' (copy_at p' a w) a w -> copy_at p' a w <> p' ->
       Db_page_crc32c (Some (copy_at p' a w)) 0x4000 <> Crc (Db_page_hdr_read (Some p') 0x4000)).
Proof.
  intros Hp. pose proof Hp as [Hl Hb]. unfold Db_page_crc32c_store. rewrite clamp_le by lia.
  cbn [is_nil orb negb Z.eqb Pos.eqb]. rewrite db_write32_eq by lia. zlit.
  set (c := Db_page_crc32c (Some p) 0x4000). set (p' := copy_at p 28 (le_put 4 c)).
  assert (Hp' : page_ok p') by (unfold p'; auto with c2db). pose proof Hp' as [Hl' Hb'].
  assert (Hsame : Db_page_crc32c (Some p') 0x4000 = c).
  { unfold c. rewrite !Db_page_crc32c_eq by done. unfold p'.
    by rewrite sub_copy_at_ne by (rewrite ?len_le_put; lia). }
  assert (Hfield : Crc (Db_page_hdr_read (Some p') 0x4000) = c).
  { rewrite Db_page_hdr_read_eq by done. cbn [Crc]. unfold p'. rewrite field_put_get by lia.
    apply Z.mod_small. unfold c. rewrite Db_page_crc32c_eq by done.
    apply Crc.checksum_bound. auto with c2db. }
  exists p'. split; [done|]. split; [congruence|]. split.
  { intros. unfold p'. by rewrite rd_copy_at_out by (rewrite ?len_le_put; lia). }
  intros a w Ha (_ & Hw & _ & Hend & H4) Hne Heq. apply Hne. pose proof (len_nonneg w).
  rewrite Hfield, <- Hsame in Heq.
  rewrite !Db_page_crc32c_eq in Heq by auto with c2db.
  assert (Hsub : sub (copy_at p' a w) 64 0x4000 = copy_at (sub p' 64 0x4000) (a - 64) w)
    by (apply sub_copy_at_in; lia).
  rewrite Hsub in Heq. eapply (Crc.checksum_burst_at _ _ (a - 64) w) in Heq; [|auto with c2db|].
  2:{ split_and!; [done..| lia | rewrite len_sub by lia; lia | done]. }
  etrans; [apply (split_at _ 0 64); rewrite ?len_copy_at; lia|].
  etrans; [|symmetry; apply (split_at p' 0 64); lia].
  rewrite len_copy_at, Hl', Hsub, Heq. f_equal. f_equal. apply sub_copy_at_ne; lia.
Qed.

Lemma page_crc_store_detects_witness :
  exists p', Db_page_crc32c_store (Some page3) 0x4000 = (Some p', 1) /\
    Crc (Db_page_hdr_read (Some p') 0x4000) = Db_page_crc32c (Some p') 0x4000.
Proof.
  destruct (page_crc_store_detects page3 page3_ok) as (p' & Hs & Hc & _).
  exists p'. split; [exact Hs | exact Hc].
Defined.

(** The store of the whole-page checksum. *)
Lemma C2db_crc32c_fullpage_store_eq p : page_ok p ->
  C2db_crc32c_fullpage_store (Some p) 0x4000 =
  (Some (copy_at p 28 (le_put 4 (C2db_crc32c_fullpage (Some p) 0x4000))), 1).
Proof.
  intros [Hl Hb]. unfold C2db_crc32c_fullpage_store. rewrite clamp_le by lia.
  cbn [negb Z.eqb Pos.eqb]. set (c := C2db_crc32c_fullpage _ _). cbv zeta.
  rewrite !le_put_S. cbn [le_put]. rewrite !Z.shiftr_shiftr by lia. zlit.
  rewrite !w8_land, !copy_at_step by lia. zlit. by rewrite copy_at_nil.
Qed.

(** Blanking forgets what the checksum field holds. *)
Lemma blank_crc_store p c : page_ok p -> blank_crc (copy_at p 28 (le_put 4 c)) = blank_crc p.
Proof.
  intros Hp. pose proof Hp as [Hl Hb].
  assert (Hp' : page_ok (copy_at p 28 (le_put 4 c))) by auto with c2db.
  apply bytes_ext; rewrite !len_blank_crc, len_copy_at; [done|].
  intros i Hi. rewrite !rd_blank_crc by (assumption || lia). zcases;
    by rewrite rd_copy_at_out by (rewrite ?len_le_put; lia).
Qed.

(** A burst outside the checksum field is a burst of the blanked page. *)
Lemma blank_crc_burst p a w : page_ok p -> bytes_ok w ->
  0 <= a -> a + len w <= 0x4000 -> (a + len w <= 28 \/ 32 <= a) ->
  blank_crc (copy_at p a w) = copy_at (blank_crc p) a w.
Proof.
  intros Hp Hw Ha Hend Hout. pose proof Hp as [Hl Hb].
  assert (Hp' : page_ok (copy_at p a w)) by auto with c2db.
  apply bytes_ext; [by rewrite len_blank_crc, !len_copy_at, len_blank_crc|].
  intros i Hi. rewrite len_blank_crc, len_copy_at in Hi.
  rewrite rd_blank_crc by (assumption || lia).
  destruct (decide (a <= i < a + len w)).
  - rewrite !rd_copy_at_in by (rewrite ?len_blank_crc; lia). zcases; done.
  - rewrite !rd_copy_at_out by lia. by rewrite rd_blank_crc by (assumption || lia).
Qed.

(** C20: the whole-page checksum, which the pager seals pages with, is stored so
    that it verifies, and catches every burst of at most four consecutive bytes
    that does not overlap its own field, bytes 28 to 31; the rest of the header is
    covered. *)
Theorem fullpage_crc_store_detects p :
  page_ok p ->
  exists p', C2db_crc32c_fullpage_store (Some p) 0x4000 = (Some p', 1) /\
    db_read32 (Some p') 0x4000 28 = C2db_crc32c_fullpage (Some p') 0x4000 /\
    (forall i, 0 <= i -> (i < 28 \/ 32 <= i) -> rd p' i = rd p i) /\
    (forall a w, (a + len w <= 28 \/ 32 <= a) ->
       Crc.burst p' (copy_at p' a w) a w -> copy_at p' a w <> p' ->
       C2db_crc32c_fullpage (Some (copy_at p' a w)) 0x4000 <> db_read32 (Some p') 0x4000 28).
Proof.
  intros Hp. pose proof Hp as [Hl Hb]. rewrite C2db_crc32c_fullpage_store_eq by done.
  set (c := C2db_crc32c_fullpage (Some p) 0x4000). set (p' := copy_at p 28 (le_put 4 c)).
  assert (Hp' : page_ok p') by (unfold p'; auto with c2db). pose proof Hp' as [Hl' Hb'].
  assert (Hsame : C2db_crc32c_fullpage (Some p') 0x4000 = c).
  { unfold c. rewrite !C2db_crc32c_fullpage_eq by done. unfold p'. by rewrite blank_crc_store. }
  assert (Hfield : db_read32 (Some p') 0x4000 28 = c).
  { rewrite db_read32_eq by (assumption || lia). zlit. unfold p'. rewrite field_put_get by lia.
    apply Z.mod_small. unfold c. rewrite C2db_crc32c_fullpage_eq by done.
    apply Crc.checksum_bound, blank_crc_ok, Hp. }
  exists p'. split; [done|]. split; [congruence|]. split.
  { intros. unfold p'. by rewrite rd_copy_at_out by (rewrite ?len_le_put; lia). }
  intros a w Hout (_ & Hw & Ha & Hend & H4) Hne Heq. apply Hne.
  rewrite Hfield, <- Hsame, !C2db_crc32c_fullpage_eq in Heq by auto with c2db.
  pose proof (blank_crc_ok p' Hp') as [Hbl Hbb].
  rewrite blank_crc_burst in Heq by (assumption || lia).
  apply (Crc.checksum_burst_at _ _ a w) in Heq; [|done|split_and!; by rewrite ?Hbl, <- ?Hl'].
  apply bytes_ext; [by rewrite len_copy_at|]. rewrite len_copy_at. intros i Hi.
  destruct (decide (a <= i < a + len w)); [|by rewrite rd_copy_at_out by lia].
  apply (f_equal (fun l => rd l i)) in Heq. rewrite !rd_copy_at_in in * by lia.
  rewrite Heq, rd_blank_crc by (assumption || lia). zcases; done.
Qed.

Lemma fullpage_crc_store_detects_witness :
  exists p', C2db_crc32c_fullpage_store (Some page3) 0x4000 = (Some p', 1) /\
    db_read32 (Some p') 0x4000 28 = C2db_crc32c_fullpage (Some p') 0x4000.
Proof.
  destruct (fullpage_crc_store_detects page3 page3_ok) as (p' & Hs & Hc & _).
  exists p'. split; [exact Hs | exact Hc].
Defined.

End PageKernel.
