(* ===== verification/WalBlock.v ===== *)
(** * The WAL record kernel (src/pkg/c2db/db_wal_gen.go)

    A 4 KiB block holds one record: magic, payload length, 16-byte id, type,
    payload, zero padding, and a 16-byte tag slot that [Db_wal_pack] does not
    touch.  A store outside a slice is a Go panic, the [None] result. *)

From S2P Require Import Prelude PageKernel.
Import PageKernel.

Local Open Scope Z_scope.

Module WalBlock.

Record Db_wal_desc_t := { Magic : Z; dLen_ : Z; Typ : Z; Plen : Z; Ok : Z }.

Definition WALMagic : Z := 0x43324442.

Definition Db_wal_bounds (block : slice) (n addr len_ : Z) : Z :=
  let n := clamp block n in
  let len_ := clamp block len_ in
  if is_nil block then 0 else
  if negb (n =? 0x1000) then 0 else
  if (addr <? n) && (len_ <=? w64 (n - addr)) then 1 else 0.

Definition Db_wal_type_ok (t : Z) : Z :=
  match t with
  | 0 => 1 | 1 => 1 | 2 => 1 | 3 => 1 | 4 => 1
  | 5 => 1 | 6 => 1 | 7 => 1 | 8 => 1 | 9 => 1
  | _ => 0
  end.

Definition Db_wal_payload_off : Z := 25.
Definition Db_wal_tag_off : Z := 0xff0.

Definition wal_read8 (block : slice) (n addr : Z) : Z :=
  let n := clamp block n in
  match block with
  | None => 0
  | Some b => if room n addr 1 then rd b addr else 0
  end.

Definition wal_read32 (block : slice) (n addr : Z) : Z :=
  let n := clamp block n in
  match block with
  | None => 0
  | Some b =>
      if room n addr 4
      then Z.lor (Z.lor (Z.lor (rd b addr)
                   (w32 (Z.shiftl (rd b (w64 (addr + 1))) 8)))
                   (w32 (Z.shiftl (rd b (w64 (addr + 2))) 16)))
                   (w32 (Z.shiftl (rd b (w64 (addr + 3))) 24))
      else 0
  end.

Definition wal_write8 (block : slice) (n addr val : Z) : slice :=
  let n := clamp block n in
  match block with
  | None => None
  | Some b => Some (if room n addr 1 then wr b addr val else b)
  end.

Definition wal_write32 (block : slice) (n addr val : Z) : slice :=
  let n := clamp block n in
  match block with
  | None => None
  | Some b => Some (
      if room n addr 4 then
        let b := wr b addr (w8 (Z.land val 0xff)) in
        let b := wr b (w64 (addr + 1)) (w8 (Z.land (Z.shiftr val 8) 0xff)) in
        let b := wr b (w64 (addr + 2)) (w8 (Z.land (Z.shiftr val 16) 0xff)) in
        wr b (w64 (addr + 3)) (w8 (Z.land (Z.shiftr val 24) 0xff))
      else b)
  end.

(** [for v4 = 0; v4 < 16; v4++ { dst[a+v4] = src[b+v4] }]: Go checks both indices. *)
Definition copy16 (dst : list Z) (a : Z) (src : list Z) (b : Z) : option (list Z) :=
  no_ret (for_range 0 16 (fun v4 d =>
    x ← idx src (b + v4); d' ← upd d (a + v4) x; Some (Next d')) dst).

(** [n] is not clamped here: a block shorter than [n] panics. *)
Definition wal_copy16_in (block : slice) (n addr : Z) (src : slice) : option slice :=
  match block, src with
  | Some b, Some s => if room n addr 16 then Some <$> copy16 b addr s 0 else Some block
  | _, _ => Some block
  end.

Definition wal_copy16_out (block : slice) (n addr : Z) (dst : slice) : option slice :=
  match block, dst with
  | Some b, Some d => if room n addr 16 then Some <$> copy16 d 0 b addr else Some dst
  | _, _ => Some dst
  end.

Definition Db_wal_pack (block : slice) (n : Z) (id : slice) (typ : Z) (payload : slice)
    (plen : Z) : option (slice * Z) :=
  if is_nil block || negb (n =? 0x1000) then Some (block, 0) else
  if is_nil id then Some (block, 0) else
  if Db_wal_type_ok typ =? 0 then Some (block, 0) else
  if plen >? 0xfd7 then Some (block, 0) else
  if (plen >? 0) && is_nil payload then Some (block, 0) else
  if Db_wal_bounds block n 0 4 =? 0 then Some (block, 0) else
  if Db_wal_bounds block n 8 16 =? 0 then Some (block, 0) else
  if Db_wal_bounds block n 24 1 =? 0 then Some (block, 0) else
  let block := wal_write32 block n 0 0x43324442 in
  let block := wal_write32 block n 4 (w32 plen) in
  block ← wal_copy16_in block n 8 id;
  let block := wal_write8 block n 24 typ in
  b ← block;
  b ← no_ret (for_range 0 plen (fun v6 b =>
        let v67 := w64 (25 + v6) in
        if room n v67 1 then
          x ← idx (bytes_of payload) v6;
          b' ← upd b v67 x;
          Some (Next b')
        else Some (Next b)) b);
  b ← no_ret (for_range (w64 (25 + plen)) 0xff0 (fun v6 b =>
        if room n v6 1 then b' ← upd b v6 0; Some (Next b')
        else Some (Next b)) b);
  Some (Some b, 1).

Definition Db_wal_unpack (block : slice) (n : Z) (id : slice) : option (Db_wal_desc_t * slice) :=
  let v3 := {| Magic := 0; dLen_ := 0; Typ := 0; Plen := 0; Ok := 0 |} in
  if is_nil block || negb (n =? 0x1000) then Some (v3, id) else
  if Db_wal_bounds block n 0 4 =? 0 then Some (v3, id) else
  if Db_wal_bounds block n 0xff0 16 =? 0 then Some (v3, id) else
  let v31 := wal_read32 block n 0 in
  let v34 := wal_read32 block n 4 in
  let typ := wal_read8 block n 24 in
  let v3 := {| Magic := v31; dLen_ := v34; Typ := typ; Plen := 0; Ok := 0 |} in
  if negb (v31 =? 0x43324442) then Some (v3, id) else
  if v34 >? 0xfd7 then Some (v3, id) else
  id ← (if is_nil id then Some id else wal_copy16_out block n 8 id);
  Some ({| Magic := v31; dLen_ := v34; Typ := typ; Plen := v34; Ok := 1 |}, id).

Definition Db_wal_tag_slot (block : slice) (n : Z) (src dst : slice) : option (slice * slice * Z) :=
  if is_nil block || negb (n =? 0x1000) then Some (block, dst, 0) else
  if Db_wal_bounds block n 0xff0 16 =? 0 then Some (block, dst, 0) else
  block ← (if is_nil src then Some block else wal_copy16_in block n 0xff0 src);
  dst ← (if is_nil dst then Some dst else wal_copy16_out block n 0xff0 dst);
  Some (block, dst, 1).

(** ** Facts *)

Lemma wal_read8_db : wal_read8 = db_read8. Proof. done. Qed.
Lemma wal_read32_db : wal_read32 = db_read32. Proof. done. Qed.
Lemma wal_write8_db : wal_write8 = db_write8. Proof. done. Qed.
Lemma wal_write32_db : wal_write32 = db_write32. Proof. done. Qed.

Definition block_ok (b : list Z) : Prop := len b = 0x1000 /\ bytes_ok b.

Lemma Db_wal_bounds_in b a k : len b = 0x1000 -> 0 <= a < 0x1000 -> 0 <= k -> a + k <= 0x1000 ->
  (Db_wal_bounds (Some b) 0x1000 a k =? 0) = false.
Proof.
  intros Hl Ha Hk Hend. unfold Db_wal_bounds, clamp, slen. cbn [bytes_of default from_option id is_nil].
  unfold id. rewrite Hl. cbn [Z.ltb Z.compare Pos.compare Pos.compare_cont negb Z.eqb Pos.eqb].
  unwrap. zcases.
Qed.

Lemma copy16_eq d a s b :
  0 <= a -> a + 16 <= len d -> 0 <= b -> b + 16 <= len s ->
  copy16 d a s b = Some (copy_at d a (sub s b (b + 16))).
Proof.
  intros Ha Hd Hb Hs. unfold copy16.
  pose proof (copy_loop d a (sub s b (b + 16)) 16 Ha) as H.
  rewrite len_sub in H by lia.
  assert (Heq : forall i, 0 <= i < 16 -> idx s (b + i) = idx (sub s b (b + 16)) i).
  { intros i Hi. rewrite !idx_rd by (rewrite ?len_sub by lia; lia).
    by rewrite rd_sub by lia. }
  rewrite (for_range_ext _ _ _ (fun i d => x ← idx (sub s b (b + 16)) i;
    d' ← upd d (a + i) x; Some (Next d'))).
  - rewrite H by lia. cbn. f_equal. f_equal.
    rewrite sub_sub by lia. f_equal; lia.
  - intros i t Hi. by rewrite Heq by lia.
Qed.

(** The two loops of [Db_wal_pack]. *)
Lemma payload_loop b pl plen :
  len b = 0x1000 -> 0 <= plen <= 0xfd7 -> plen <= len pl ->
  no_ret (for_range 0 plen (fun v6 b =>
    let v67 := w64 (25 + v6) in
    if room 0x1000 v67 1 then x ← idx pl v6; b' ← upd b v67 x; Some (Next b')
    else Some (Next b)) b) = Some (copy_at b 25 (sub pl 0 plen)).
Proof.
  intros Hb Hp Hl. pose proof (copy_loop b 25 pl plen) as H.
  rewrite (for_range_ext _ _ _ (fun i d => x ← idx pl i; d' ← upd d (25 + i) x; Some (Next d'))).
  - by rewrite H by lia.
  - intros i t Hi. cbv zeta. unwrap. unfold room. unwrap. zcases. done.
Qed.

Lemma zero_loop b lo hi :
  0 <= lo <= hi -> hi <= 0xff0 -> len b = 0x1000 ->
  no_ret (for_range lo hi (fun v6 b =>
    if room 0x1000 v6 1 then b' ← upd b v6 0; Some (Next b') else Some (Next b)) b)
  = Some (copy_at b lo (zeros (hi - lo))).
Proof.
  intros Hlo Hhi Hb.
  destruct (for_range_inv (S:=list Z) (R:=Empty_set)
    (fun i d => d = copy_at b lo (zeros (i - lo)))
    (fun r => r = inl (copy_at b lo (zeros (hi - lo))))
    lo hi (fun v6 b => if room 0x1000 v6 1 then b' ← upd b v6 0; Some (Next b') else Some (Next b)) b)
    as (r & Hr & ->); [lia | by rewrite Z.sub_diag | | by intros t -> | by rewrite Hr].
  intros i d Hi ->. unfold room. unwrap. zcases.
  rewrite upd_wr by (rewrite len_copy_at; lia). cbn.
  rewrite wr_copy_at, copy_at_app by (rewrite ?len_zeros; lia). f_equal.
  unfold zeros. replace (Z.to_nat (i + 1 - lo)) with (Z.to_nat (i - lo) + 1)%nat by lia.
  by rewrite replicate_add.
Qed.

(** The image of a packed block. *)
Definition wal_image (id : list Z) (typ : Z) (pl tag : list Z) : list Z :=
  (le_put 4 WALMagic ++ le_put 4 (len pl) ++ id ++ [typ] ++ pl ++ zeros (4055 - len pl)) ++ tag.

Lemma len_wal_head id typ pl : len id = 16 -> len pl <= 4055 ->
  len (le_put 4 WALMagic ++ le_put 4 (len pl) ++ id ++ [typ] ++ pl ++ zeros (4055 - len pl)) = 4080.
Proof.
  intros. rewrite !len_app, !len_le_put, len_zeros by lia. change (len [typ]) with 1. lia.
Qed.

Lemma type_ok_iff t : 0 <= t -> (Db_wal_type_ok t =? 0) = negb (t <=? 9).
Proof.
  intros Ht. destruct (Z.leb_spec t 9).
  - assert (t = 0 \/ t = 1 \/ t = 2 \/ t = 3 \/ t = 4 \/ t = 5 \/ t = 6 \/ t = 7 \/ t = 8 \/ t = 9)
      as Hc by lia. by repeat destruct Hc as [->|Hc]; subst.
  - destruct t as [|p|p]; [lia | | lia]. do 4 (destruct p as [p|p|]; try (exfalso; lia); try done).
Qed.

(** [Db_wal_pack] writes exactly the image and keeps the tag slot. *)
Lemma Db_wal_pack_eq b id typ pl plen :
  block_ok b -> 16 <= len id -> 0 <= typ <= 9 -> 0 <= plen <= 4055 -> plen <= len pl ->
  Db_wal_pack (Some b) 0x1000 (Some id) typ (Some pl) plen =
  Some (Some (wal_image (sub id 0 16) typ (sub pl 0 plen) (sub b 4080 4096)), 1).
Proof.
  intros [Hl Hb] Hid Ht Hp Hpl. unfold Db_wal_pack.
  cbn [is_nil orb negb Z.eqb Pos.eqb]. rewrite type_ok_iff by lia.
  rewrite (proj2 (Z.leb_le typ 9)) by lia. cbn [negb].
  ifcase; [lia|]. rewrite andb_false_r, !Db_wal_bounds_in by lia.
  rewrite wal_write32_db, wal_write8_db, !db_write32_eq by (rewrite ?len_copy_at; lia).
  unfold wal_copy16_in. rewrite (room_ok _ 8) by lia. unwrap.
  rewrite copy16_eq by (rewrite ?len_copy_at; lia). cbn [fmap option_fmap option_map mbind option_bind].
  rewrite db_write8_eq by (rewrite ?len_copy_at; lia). cbn [mbind option_bind].
  change (bytes_of (Some pl)) with pl.
  rewrite payload_loop by (rewrite ?len_wr, ?len_copy_at; lia). cbn [mbind option_bind].
  rewrite zero_loop by (rewrite ?len_copy_at, ?len_wr, ?len_copy_at; lia). cbn [mbind option_bind].
  do 3 f_equal. rewrite wr_copy_at.
  rewrite !copy_at_app by (rewrite ?len_app, ?len_le_put, ?len_sub by lia; change (len [typ]) with 1; lia).
  replace (0xff0 - (25 + plen)) with (4055 - len (sub pl 0 plen)) by (rewrite len_sub by lia; lia).
  unfold wal_image. replace (len (sub pl 0 plen)) with plen by (rewrite len_sub by lia; lia).
  pose proof (len_wal_head (sub id 0 16) typ (sub pl 0 plen)) as Hhead.
  rewrite !len_sub, !Z.sub_0_r in Hhead by lia. specialize (Hhead eq_refl ltac:(lia)).
  change 0x43324442 with WALMagic. change (0 + 16) with 16.
  rewrite copy_at_split, sub_nil by lia. by rewrite Hhead, Hl.
Qed.

(** The fields of an image. *)
Lemma wal_image_fields id typ pl tag :
  len id = 16 -> len pl <= 4055 -> len tag = 16 ->
  let b := wal_image id typ pl tag in
  len b = 4096 /\ sub b 0 4 = le_put 4 WALMagic /\ sub b 4 8 = le_put 4 (len pl) /\
  sub b 8 24 = id /\ rd b 24 = typ /\ sub b 25 (25 + len pl) = pl /\ sub b 4080 4096 = tag.
Proof.
  intros Hid Hpl Htag b. pose proof (len_nonneg pl). pose proof (len_wal_head id typ pl Hid Hpl) as Hh.
  assert (H1 : len [typ] = 1) by done.
  assert (Hb : len b = 4096) by (unfold b, wal_image; rewrite len_app; lia).
  split; [done|]. unfold b, wal_image in *.
  pose proof (len_le_put 4 WALMagic). pose proof (len_le_put 4 (len pl)).
  split_and!.
  1-3,5: rewrite sub_app_l by lia; rewrite ?sub_skip by lia; apply sub_head; lia.
  - rewrite rd_app_l by lia. rewrite !rd_app_r by lia. by replace (24 - _ - _ - _) with 0 by lia.
  - rewrite sub_skip by lia. apply sub_all; lia.
Qed.

Lemma Db_wal_unpack_eq b id : block_ok b -> 16 <= len (bytes_of id) \/ id = None ->
  Db_wal_unpack (Some b) 0x1000 id =
  let m := le_get 4 (sub b 0 4) in
  let k := le_get 4 (sub b 4 8) in
  let d ok p := {| Magic := m; dLen_ := k; Typ := rd b 24; Plen := p; Ok := ok |} in
  if (m =? WALMagic) && (k <=? 4055)
  then Some (d 1 k, (fun i => copy_at i 0 (sub b 8 24)) <$> id)
  else Some (d 0 0, id).
Proof.
  intros [Hl Hb] Hid. unfold Db_wal_unpack. cbn [is_nil orb negb Z.eqb Pos.eqb].
  rewrite !Db_wal_bounds_in by lia.
  rewrite wal_read32_db, wal_read8_db, !db_read32_eq, db_read8_eq by (assumption || lia).
  zlit. cbv zeta. change 0x43324442 with WALMagic.
  destruct (_ =? WALMagic); cbn [negb andb]; [|done].
  rewrite Z.gtb_ltb, Z.leb_antisym. ifcase; cbn [negb]; [done|].
  destruct id as [i|]; cbn [is_nil fmap option_fmap option_map mbind option_bind]; [|done].
  destruct Hid as [Hid|]; [|done]. cbn in Hid.
  unfold wal_copy16_out. rewrite (room_ok _ 8) by lia.
  by rewrite copy16_eq by lia.
Qed.

(** C21: a record packed is the record unpacked.  Packing a legal record (known
    type, payload of at most 4055 bytes) into any 4 KiB block succeeds; the
    block then holds the image of the record, which depends on nothing that was
    in the block but its tag slot, and [Db_wal_unpack] returns its type, its
    length and its id, with the payload at offset 25. *)
Theorem wal_pack_unpack b id typ pl plen idbuf :
  block_ok b -> 16 <= len id -> bytes_ok id -> 0 <= typ <= 9 -> 0 <= plen <= 4055 ->
  plen <= len pl -> bytes_ok pl -> 16 <= len idbuf ->
  exists b', Db_wal_pack (Some b) 0x1000 (Some id) typ (Some pl) plen = Some (Some b', 1) /\
    block_ok b' /\ b' = wal_image (sub id 0 16) typ (sub pl 0 plen) (sub b 4080 4096) /\
    Db_wal_unpack (Some b') 0x1000 (Some idbuf) =
      Some ({| Magic := WALMagic; dLen_ := plen; Typ := typ; Plen := plen; Ok := 1 |},
            Some (copy_at idbuf 0 (sub id 0 16))) /\
    sub b' 25 (25 + plen) = sub pl 0 plen.
Proof.
  intros Hblk Hid Hbid Ht Hp Hpl Hbpl Hbuf. pose proof Hblk as [Hl Hb].
  rewrite Db_wal_pack_eq by assumption. eexists. split; [done|].
  destruct (wal_image_fields (sub id 0 16) typ (sub pl 0 plen) (sub b 4080 4096))
    as (Hlen & Hm & Hk & Hi & Hty & Hpay & Htag); [rewrite len_sub; lia..|].
  rewrite len_sub, Z.sub_0_r in * by lia.
  assert (Hok : block_ok (wal_image (sub id 0 16) typ (sub pl 0 plen) (sub b 4080 4096))).
  { split; [done|]. unfold wal_image. repeat apply bytes_ok_app; auto with c2db.
    repeat constructor; lia. }
  split_and!; [done | done | | done].
  rewrite Db_wal_unpack_eq by auto. cbv zeta. rewrite Hm, Hk, Hi, Hty.
  rewrite !le_get_put, !Z.mod_small by (unfold WALMagic; lia). rewrite Z.eqb_refl.
  by rewrite (proj2 (Z.leb_le plen 4055)) by lia.
Qed.

Lemma wal_pack_unpack_witness :
  exists b', Db_wal_pack (Some (zeros 4096)) 0x1000 (Some (zeros 16)) 1 (Some [1; 2; 3]) 3
    = Some (Some b', 1) /\ sub b' 25 28 = [1; 2; 3].
Proof.
  destruct (wal_pack_unpack (zeros 4096) (zeros 16) 1 [1; 2; 3] 3 (zeros 16))
    as (b' & Hp & _ & _ & _ & Hs).
  - split; [reflexivity | apply bytes_ok_zeros].
  - vm_compute; discriminate.
  - apply bytes_ok_zeros.
  - lia.
  - lia.
  - vm_compute; discriminate.
  - repeat constructor; lia.
  - vm_compute; discriminate.
  - exists b'. split; [exact Hp | exact Hs].
Defined.

(** What is refused.  An unknown type, a payload over 4055 bytes, a nil id
    or a nil payload of positive length leave the block as it was with result
    0; a block whose magic or length field is wrong is not unpacked ([Ok] is 0)
    and the caller's id buffer is not written. *)
Theorem wal_refusals b id typ pl plen idbuf :
  block_ok b ->
  (9 < typ \/ 4055 < plen \/ id = None \/ (0 < plen /\ pl = None) -> 0 <= typ ->
   Db_wal_pack (Some b) 0x1000 id typ pl plen = Some (Some b, 0)) /\
  (16 <= len idbuf -> le_get 4 (sub b 0 4) <> WALMagic \/ 4055 < le_get 4 (sub b 4 8) ->
   exists d, Db_wal_unpack (Some b) 0x1000 (Some idbuf) = Some (d, Some idbuf) /\ Ok d = 0).
Proof.
  intros Hblk. split.
  - intros Hbad Ht. unfold Db_wal_pack. cbn [is_nil orb negb Z.eqb Pos.eqb].
    rewrite type_ok_iff by lia. destruct id as [id|]; cbn [is_nil]; [|done].
    destruct (Z.leb_spec typ 9); cbn [negb]; [|done].
    ifcase; [done|]. destruct pl as [pl|]; cbn [is_nil]; rewrite ?andb_false_r, ?andb_true_r.
    + exfalso. destruct Hbad as [?|[?|[?|[_ ?]]]]; done || lia.
    + ifcase; [done|]. exfalso. destruct Hbad as [?|[?|[?|[? _]]]]; done || lia.
  - intros Hbuf Hbad. rewrite Db_wal_unpack_eq by auto. cbv zeta.
    destruct ((_ =? WALMagic) && _) eqn:E; [exfalso; lia|].
    eexists. split; [done|]. done.
Qed.

Lemma wal_refusals_witness :
  Db_wal_pack (Some (zeros 4096)) 0x1000 (Some (zeros 16)) 10 (Some [1]) 1 = Some (Some (zeros 4096), 0).
Proof.
  apply (wal_refusals (zeros 4096) (Some (zeros 16)) 10 (Some [1]) 1 (zeros 16)); [|left; lia|lia].
  split; [reflexivity | apply bytes_ok_zeros].
Defined.

(** The tag slot: 16 bytes stored at 4080 and read back, the rest untouched. *)
Lemma Db_wal_tag_slot_eq b src dst : block_ok b -> 16 <= len src -> 16 <= len dst ->
  Db_wal_tag_slot (Some b) 0x1000 (Some src) (Some dst) =
  Some (Some (copy_at b 4080 (sub src 0 16)), Some (copy_at dst 0 (sub src 0 16)), 1).
Proof.
  intros [Hl Hb] Hs Hd. unfold Db_wal_tag_slot. cbn [is_nil orb negb Z.eqb Pos.eqb].
  rewrite Db_wal_bounds_in by lia.
  unfold wal_copy16_in, wal_copy16_out. rewrite !(room_ok _ 4080) by lia.
  rewrite copy16_eq by lia. cbn [fmap option_fmap option_map mbind option_bind].
  rewrite copy16_eq by (rewrite ?len_copy_at; lia). cbn [fmap option_fmap option_map mbind option_bind].
  by rewrite sub_copy_at_eq by (rewrite ?len_sub by lia; lia).
Qed.

End WalBlock.
