(* ===== verification/Wal.v ===== *)
(** * The write-ahead log (src/pkg/c2db/wal.go)

    The log is a device of 4 KiB blocks, a write buffer of 32 blocks (the
    quantum), and a list of pending records that one block will hold together.
    Its operations run in a state and error monad over [WAL].  A Go run-time
    panic is the error [walPanic], unbounded recursion the error [walStack].

    The seal of a block (Poly1305 under a key derived from its bytes) is the
    class [Seal]: any function of the key and the bytes with a 16-byte result.
    Of the device (device.go) the model keeps what the log observes: its blocks,
    whether it is open and whether an earlier error poisoned it; pread and pwrite
    of an address in range succeed. *)

From stdpp Require Import gmap.
From S2P Require Import Prelude PageKernel WalBlock.
Import PageKernel WalBlock.

Local Open Scope Z_scope.

Module Wal.

(** ** Records, errors, state *)

Definition walLenOff : Z := 4.
Definition walTypeOff : Z := 24.
Definition walTagOff : Z := 4080.
Definition walTagSize : Z := 16.
Definition walMaxPayload : Z := 4055.
Definition walQuantumLBAs : Z := 32.
Definition walChunkMagic : Z := 0x4332434B.
Definition walChunkHdrSize : Z := 16.
Definition walChunkMaxData : Z := walMaxPayload - walChunkHdrSize.
Definition walBatchHdr : Z := 21.
Definition LBASize : Z := 4096.

Definition RecCommitBatch : Z := 3.
Definition RecCheckpointBegin : Z := 4.
Definition RecCheckpointEnd : Z := 5.

Record Record_ := { rID : list Z; rType : Z; rPayload : list Z }.

Inductive wal_error :=
  | errWALTooLong | errWALBadTag | errWALMagic | errWALCorruptedMedian | errPayload
  | EBADF | ErrDevicePoisoned | errLength | errRange | errWALFull | errTooManyChunks
  | walPanic | walStack.

Abbreviation block := (list Z).

Record Device := { dBlocks : list block; dOpen : bool; dPoisoned : bool }.

Record WAL := {
  dev : Device; key : list Z; next : Z; lsn : Z; checkLBA : Z; hasCheck : bool;
  packDepth : Z; pending : list Record_; pendingN : Z;
  qBuf : list block; qLBA : Z; qCount : Z; synced : bool;
}.

Definition set_dev (w : WAL) x := {| dev := x; key := key w; next := next w; lsn := lsn w; checkLBA := checkLBA w; hasCheck := hasCheck w; packDepth := packDepth w; pending := pending w; pendingN := pendingN w; qBuf := qBuf w; qLBA := qLBA w; qCount := qCount w; synced := synced w |}.
Definition set_tip (w : WAL) n l := {| dev := dev w; key := key w; next := n; lsn := l; checkLBA := checkLBA w; hasCheck := hasCheck w; packDepth := packDepth w; pending := pending w; pendingN := pendingN w; qBuf := qBuf w; qLBA := qLBA w; qCount := qCount w; synced := synced w |}.
Definition set_check (w : WAL) lba has := {| dev := dev w; key := key w; next := next w; lsn := lsn w; checkLBA := lba; hasCheck := has; packDepth := packDepth w; pending := pending w; pendingN := pendingN w; qBuf := qBuf w; qLBA := qLBA w; qCount := qCount w; synced := synced w |}.
Definition set_depth (w : WAL) x := {| dev := dev w; key := key w; next := next w; lsn := lsn w; checkLBA := checkLBA w; hasCheck := hasCheck w; packDepth := x; pending := pending w; pendingN := pendingN w; qBuf := qBuf w; qLBA := qLBA w; qCount := qCount w; synced := synced w |}.
Definition set_pending (w : WAL) p n := {| dev := dev w; key := key w; next := next w; lsn := lsn w; checkLBA := checkLBA w; hasCheck := hasCheck w; packDepth := packDepth w; pending := p; pendingN := n; qBuf := qBuf w; qLBA := qLBA w; qCount := qCount w; synced := synced w |}.
Definition set_quantum (w : WAL) b l c := {| dev := dev w; key := key w; next := next w; lsn := lsn w; checkLBA := checkLBA w; hasCheck := hasCheck w; packDepth := packDepth w; pending := pending w; pendingN := pendingN w; qBuf := b; qLBA := l; qCount := c; synced := synced w |}.
Definition set_synced (w : WAL) x := {| dev := dev w; key := key w; next := next w; lsn := lsn w; checkLBA := checkLBA w; hasCheck := hasCheck w; packDepth := packDepth w; pending := pending w; pendingN := pendingN w; qBuf := qBuf w; qLBA := qLBA w; qCount := qCount w; synced := x |}.

(** ** The monad *)

Definition M (A : Type) : Type := WAL -> WAL * (wal_error + A).

Definition ret {A} (a : A) : M A := fun w => (w, inr a).
Definition fail {A} (e : wal_error) : M A := fun w => (w, inl e).
Definition bind {A B} (m : M A) (f : A -> M B) : M B := fun w =>
  match m w with (w', inl e) => (w', inl e) | (w', inr a) => f a w' end.
Definition get : M WAL := fun w => (w, inr w).
Definition modify (f : WAL -> WAL) : M unit := fun w => (f w, inr tt).
(** Code that does not change the state. *)
Definition lift {A} (r : wal_error + A) : M A := fun w => (w, r).

Declare Scope wal_scope.
Notation "x <- m ;; k" := (bind m (fun x => k)) (at level 100, m at next level, right associativity) : wal_scope.
Notation "m ;;; k" := (bind m (fun _ => k)) (at level 100, right associativity) : wal_scope.
Local Open Scope wal_scope.

(** [for i = lo; i < hi; i++ { body(i) }] with early return on error. *)
Fixpoint for_m_to (k : nat) (i : Z) (body : Z -> M unit) : M unit :=
  match k with O => ret tt | S k' => body i ;;; for_m_to k' (i + 1) body end.
Definition for_m (lo hi : Z) (body : Z -> M unit) : M unit := for_m_to (Z.to_nat (hi - lo)) lo body.
(** [for i = n; i > 0; i-- { body(i) }]. *)
Fixpoint for_down (n : nat) (body : Z -> M unit) : M unit :=
  match n with O => ret tt | S n' => body (Z.of_nat n) ;;; for_down n' body end.

(** ** The device *)

Definition maxLBA (d : Device) : Z := len (dBlocks d).

Definition checkReady (d : Device) : wal_error + unit :=
  if negb (dOpen d) then inl EBADF else if dPoisoned d then inl ErrDevicePoisoned else inr tt.

Definition xferOff (d : Device) (lba nLBA : Z) : wal_error + unit :=
  if (lba >=? maxLBA d) || (nLBA >? w64 (maxLBA d - lba)) then inl errRange else inr tt.

Definition dev_read (d : Device) (lba : Z) : wal_error + block :=
  match checkReady d with
  | inl e => inl e
  | inr _ => match xferOff d lba 1 with
             | inl e => inl e
             | inr _ => inr (default [] (dBlocks d !! Z.to_nat lba))
             end
  end.

(** A transfer of the blocks [bs]. *)
Definition dev_write (d : Device) (lba : Z) (bs : list block) : wal_error + Device :=
  match checkReady d with
  | inl e => inl e
  | inr _ =>
      if len bs =? 0 then inl errLength else
      match xferOff d lba (len bs) with
      | inl e => inl e
      | inr _ => inr {| dBlocks := list_inserts (Z.to_nat lba) bs (dBlocks d); dOpen := dOpen d; dPoisoned := dPoisoned d |}
      end
  end.

Definition Read (lba : Z) : M block := w <- get ;; lift (dev_read (dev w) lba).
Definition Write (lba : Z) (bs : list block) : M unit :=
  w <- get ;; d <- lift (dev_write (dev w) lba bs) ;; modify (fun w => set_dev w d).
Definition ready : M unit := w <- get ;; lift (checkReady (dev w)).
(** [dev.Flush]: fdatasync of an open device succeeds. *)
Definition dev_flush : M unit := ready.

(** ** Sealing *)

Class Seal := {
  walTag : list Z -> list Z -> list Z;
  walTag_len : forall k m, len (walTag k m) = 16;
  walTag_bytes : forall k m, bytes_ok (walTag k m);
}.

Section Log.
Context `{Seal}.

Definition sealWAL (b : block) (k : list Z) : block :=
  copy_at b walTagOff (walTag k (sub b walLenOff walTagOff)).
Definition verifyWAL (b : block) (k : list Z) : bool :=
  bool_decide (walTag k (sub b walLenOff walTagOff) = sub b walTagOff LBASize).

Definition walIsCheckpoint (t : Z) : bool := (t =? RecCheckpointBegin) || (t =? RecCheckpointEnd).

(** ** Packs of records in one block *)

Definition packedRecSize (r : Record_) : Z := walBatchHdr + len (rPayload r).

(** The stores into [out], a zeroed buffer of the summed sizes. *)
Fixpoint pack_into (out : list Z) (off : Z) (recs : list Record_) : list Z :=
  match recs with
  | [] => out
  | r :: recs' =>
      let out := wr out off (rType r) in
      let out := copy_at out (off + 1) (rID r) in
      let out := copy_at out (off + 17) (le_put 4 (w32 (len (rPayload r)))) in
      let off := off + walBatchHdr in
      let out := copy_at out off (rPayload r) in
      pack_into out (off + len (rPayload r)) recs'
  end.
Definition packBatch (recs : list Record_) : list Z :=
  pack_into (zeros (fold_right (fun r n => packedRecSize r + n) 0 recs)) 0 recs.

(** Every round takes at least [walBatchHdr] bytes: the length is enough fuel. *)
Fixpoint unpack_loop (fuel : nat) (payload : list Z) (out : list Record_) : option (list Record_) :=
  match fuel with
  | O => None
  | S fuel' =>
      if len payload =? 0 then Some out else
      if len payload <? walBatchHdr then None else
      let typ := rd payload 0 in
      let id := sub payload 1 17 in
      let plen := le_get 4 (sub payload 17 21) in
      let payload := sub payload walBatchHdr (len payload) in
      if w32 (len payload) <? plen then None else
      let p := sub payload 0 plen in
      let payload := sub payload plen (len payload) in
      unpack_loop fuel' payload (out ++ [{| rID := id; rType := typ; rPayload := p |}])
  end.
Definition unpackBatch (payload : list Z) : option (list Record_) :=
  unpack_loop (S (length payload)) payload [].

(** ** Writing *)

Definition flushQuantum : M unit :=
  w <- get ;;
  if qCount w =? 0 then ret tt else
  Write (qLBA w) (sub (qBuf w) 0 (qCount w)) ;;;
  modify (fun w => set_synced (set_quantum w (qBuf w) (next w) 0) false).

(** The operations below call [TruncateCheckpoint] when the log is full, and it
    calls [flushPending]: the recursive call is the argument [trunc]. *)
Definition make_room (trunc : M unit) (need : Z) : M unit :=
  w <- get ;;
  if next w + need >? maxLBA (dev w) then
    (if hasCheck w then trunc else ret tt) ;;;
    w <- get ;;
    if next w + need >? maxLBA (dev w) then fail errWALFull else ret tt
  else ret tt.

(** [Db_wal_pack] into the block [target], without the seal. *)
Definition pack_block (target : block) (r : Record_) : wal_error + block :=
  match Db_wal_pack (Some target) LBASize (Some (rID r)) (rType r) (Some (rPayload r)) (len (rPayload r)) with
  | Some (Some b, ok) => if ok =? 0 then inl errWALTooLong else inr b
  | _ => inl walPanic
  end.

Definition writeOne_ (trunc : M unit) (r : Record_) : M unit :=
  make_room trunc 1 ;;;
  modify (fun w => if qCount w =? 0 then set_quantum w (qBuf w) (next w) (qCount w) else w) ;;;
  w <- get ;;
  match idx (qBuf w) (qCount w) with
  | None => fail walPanic
  | Some target =>
      b <- lift (pack_block target r) ;;
      modify (fun w => set_synced (set_tip (set_quantum w (wr (qBuf w) (qCount w) (sealWAL b (key w))) (qLBA w) (qCount w + 1))
                                   (w64 (next w + 1)) (w64 (lsn w + 1))) false) ;;;
      w <- get ;;
      if qCount w =? walQuantumLBAs then flushQuantum else ret tt
  end.

Definition flushPending_ (trunc : M unit) : M unit :=
  w <- get ;;
  match pending w with
  | [] => ret tt
  | [r] => writeOne_ trunc r ;;; modify (fun w => set_pending w [] 0)
  | rs =>
      let r := {| rID := default [] (rID <$> last rs); rType := RecCommitBatch; rPayload := packBatch rs |} in
      writeOne_ trunc r ;;; modify (fun w => set_pending w [] 0)
  end.

(** [compactTo]: the result is what is handed to the archive writer. *)
Definition compactTo_ (trunc : M unit) (arch : bool) : M (list block) :=
  ready ;;; flushPending_ trunc ;;; flushQuantum ;;;
  w <- get ;;
  if negb (hasCheck w) then ret [] else
  let oldNext := next w in
  let src := if checkLBA w >? oldNext then oldNext else checkLBA w in
  let out := if arch then sub (dBlocks (dev w)) 0 src else [] in
  let nKeep := if src <? oldNext then oldNext - src else 0 in
  first <- (if nKeep >? 0 then b <- Read src ;; ret (walIsCheckpoint (rd b walTypeOff)) else ret false) ;;
  for_m 0 nKeep (fun i => b <- Read (src + i) ;; Write i [b]) ;;;
  nKeep <- (if negb first then
              (if nKeep >=? maxLBA (dev w) then fail errWALFull else ret tt) ;;;
              for_down (Z.to_nat nKeep) (fun i => b <- Read (i - 1) ;; Write i [b]) ;;;
              ret (nKeep + 1)
            else ret nKeep) ;;
  b <- lift (pack_block (zeros LBASize) {| rID := zeros 16; rType := RecCheckpointEnd; rPayload := le_put 8 nKeep |}) ;;
  Write 0 [sealWAL b (key w)] ;;;
  for_m nKeep oldNext (fun i => Write i [zeros LBASize]) ;;;
  dev_flush ;;;
  modify (fun w => set_check (set_tip w nKeep (lsn w)) 0 true) ;;;
  ret out.

(** [fuel] bounds the depth of the mutual recursion; depth 2 is never reached. *)
Fixpoint TruncateCheckpoint (fuel : nat) : M unit :=
  match fuel with
  | O => fail walStack
  | S fuel' => compactTo_ (TruncateCheckpoint fuel') false ;;; ret tt
  end.
Definition trunc : M unit := TruncateCheckpoint 2.
Definition compactTo (arch : bool) : M (list block) := compactTo_ trunc arch.
Definition writeOne (r : Record_) : M unit := writeOne_ trunc r.
Definition flushPending : M unit := flushPending_ trunc.

Definition chunk_payload (r : Record_) (numChunks i : Z) : list Z :=
  let totalLen := len (rPayload r) in
  let start := i * walChunkMaxData in
  let end_ := if start + walChunkMaxData >? totalLen then totalLen else start + walChunkMaxData in
  le_put 4 walChunkMagic ++ le_put 2 (w16 i) ++ le_put 2 (w16 numChunks) ++ le_put 4 (w32 totalLen) ++
    [rType r] ++ zeros 3 ++ sub (rPayload r) start end_.

Definition writeChunked (r : Record_) : M unit :=
  let totalLen := len (rPayload r) in
  let numChunks := (totalLen + walChunkMaxData - 1) / walChunkMaxData in
  if numChunks >? 0xFFFF then fail errTooManyChunks else
  make_room trunc numChunks ;;;
  for_m 0 numChunks (fun i =>
    writeOne {| rID := rID r; rType := rType r; rPayload := chunk_payload r numChunks i |}).

Definition appendPacked (r : Record_) : M unit :=
  let sz := packedRecSize r in
  if sz >? walMaxPayload then fail errWALTooLong else
  make_room trunc 1 ;;;
  w <- get ;;
  (if (0 <? len (pending w)) && (pendingN w + sz >? walMaxPayload)
   then flushPending ;;; make_room trunc 1 else ret tt) ;;;
  modify (fun w => set_pending w (pending w ++ [r]) (pendingN w + sz)).

Definition Append (r : Record_) : M unit :=
  ready ;;; make_room trunc 1 ;;;
  if walIsCheckpoint (rType r) then flushPending ;;; writeOne r else
  if len (rPayload r) >? walMaxPayload then flushPending ;;; writeChunked r else
  w <- get ;;
  if packDepth w >? 0 then appendPacked r else writeOne r.

Definition Flush : M unit :=
  ready ;;; flushPending ;;; flushQuantum ;;; dev_flush ;;; modify (fun w => set_synced w true).

Definition BeginPack : M unit := modify (fun w => set_depth w (packDepth w + 1)).
Definition leave_pack (w : WAL) : WAL := if packDepth w >? 0 then set_depth w (packDepth w - 1) else w.
Definition EndPack : M unit :=
  modify leave_pack ;;; w <- get ;; if packDepth w >? 0 then ret tt else Flush.
Definition EndPackNoFlush : M unit := modify leave_pack.
Definition SyncIfDirty : M unit :=
  w <- get ;;
  if ((pendingN w >? 0) || (qCount w >? 0)) || negb (synced w) then Flush else ret tt.
Definition DiscardPack : M unit :=
  modify (fun w =>
    let w := set_quantum (set_pending w [] 0) (qBuf w) (qLBA w) 0 in
    leave_pack (set_tip w (qLBA w) (qLBA w))).
Definition rollbackTo (initialNext : Z) : M unit :=
  modify (fun w =>
    let w := set_pending w [] 0 in
    let w := if (initialNext >=? qLBA w) && (initialNext <=? next w)
             then set_tip (set_quantum w (qBuf w) (qLBA w) (initialNext - qLBA w)) initialNext initialNext
             else w in
    leave_pack w).
Definition NeedsRecycle (w : WAL) : bool := next w >=? maxLBA (dev w) / 2.

Definition Checkpoint : M unit :=
  ready ;;;
  w <- get ;;
  let check := next w in
  Append {| rID := zeros 16; rType := RecCheckpointEnd; rPayload := le_put 8 (w64 (check + 1)) |} ;;;
  Flush ;;;
  modify (fun w => set_check w check true).

Definition Compact : M (list block) :=
  ready ;;; w <- get ;; if negb (hasCheck w) then ret [] else compactTo true.

Definition Close : M unit :=
  ready ;;;
  (fun w => match flushPending w with (w', _) => (w', inr tt) end) ;;;
  (fun w => match flushQuantum w with (w', _) => (w', inr tt) end) ;;;
  modify (fun w => set_dev w {| dBlocks := dBlocks (dev w); dOpen := false; dPoisoned := dPoisoned (dev w) |}).

(** ** Replay *)

Record chunkCollector := { origType : Z; total : Z; totalLen : Z; parts : gmap Z (list Z); count : Z }.

Record replay_st := { resumeAt : Z; chunks : gmap (list Z) chunkCollector; rout : list Record_ }.

(** [for ci < total { copy(full[written:], parts[ci]); written += len }]: a
    slice beyond the end panics. *)
Fixpoint assemble (k : nat) (ci : Z) (ps : gmap Z (list Z)) (full : list Z) (written : Z) : option (list Z) :=
  match k with
  | O => Some full
  | S k' =>
      let p := default [] (ps !! ci) in
      if written >? len full then None else
      assemble k' (ci + 1) ps (copy_at full written p) (written + len p)
  end.

Definition replay_chunk (st : replay_st) (r : Record_) : wal_error + replay_st :=
  let p := rPayload r in
  let ix := le_get 2 (sub p 4 6) in
  let data := sub p walChunkHdrSize (len p) in
  let col := default {| origType := rd p 12; total := le_get 2 (sub p 6 8); totalLen := le_get 4 (sub p 8 12);
                        parts := ∅; count := 0 |} (chunks st !! rID r) in
  let col := match parts col !! ix with
             | Some _ => col
             | None => {| origType := origType col; total := total col; totalLen := totalLen col;
                          parts := <[ix := data]> (parts col); count := w16 (count col + 1) |}
             end in
  if count col =? total col then
    match assemble (Z.to_nat (total col)) 0 (parts col) (zeros (totalLen col)) 0 with
    | None => inl walPanic
    | Some full =>
        inr {| resumeAt := resumeAt st; chunks := delete (rID r) (chunks st);
               rout := rout st ++ [{| rID := rID r; rType := origType col; rPayload := full |}] |}
    end
  else inr {| resumeAt := resumeAt st; chunks := <[rID r := col]> (chunks st); rout := rout st |}.

Definition replay_record (st : replay_st) (r : Record_) : wal_error + replay_st :=
  if rType r =? RecCommitBatch then
    match unpackBatch (rPayload r) with
    | None => inl errPayload
    | Some inner => inr {| resumeAt := resumeAt st; chunks := chunks st; rout := rout st ++ inner |}
    end
  else if (len (rPayload r) >=? walChunkHdrSize) && (le_get 4 (sub (rPayload r) 0 4) =? walChunkMagic) then
    replay_chunk st r
  else
    let out := rout st ++ [r] in
    inr {| resumeAt := if walIsCheckpoint (rType r) then len out else resumeAt st; chunks := chunks st; rout := out |}.

(** The record of a block. *)
Definition read_block (k : list Z) (b : block) : wal_error + Record_ :=
  if negb (le_get 4 (sub b 0 4) =? WALMagic) then inl errWALMagic else
  if negb (verifyWAL b k) then inl errWALBadTag else
  match Db_wal_unpack (Some b) LBASize (Some (zeros 16)) with
  | Some (d, Some id) =>
      if Ok d =? 0 then inl (if negb (Magic d =? WALMagic) then errWALMagic else errWALTooLong) else
      inr {| rID := id; rType := Typ d; rPayload := sub b Db_wal_payload_off (Db_wal_payload_off + Plen d) |}
  | _ => inl walPanic
  end.

Fixpoint replay_from (k : nat) (lba : Z) (st : replay_st) : M replay_st :=
  match k with
  | O => ret st
  | S k' =>
      b <- Read lba ;; w <- get ;;
      r <- lift (read_block (key w) b) ;;
      st <- lift (replay_record st r) ;;
      replay_from k' (lba + 1) st
  end.

Definition ReplayResumable : M (list Record_ * Z) :=
  ready ;;; flushPending ;;; flushQuantum ;;;
  w <- get ;;
  st <- replay_from (Z.to_nat (next w)) 0 {| resumeAt := 0; chunks := ∅; rout := [] |} ;;
  ret (rout st, resumeAt st).
Definition Replay : M (list Record_) := r <- ReplayResumable ;; ret r.1.

(** ** Opening *)

(** What [scanTip] and the repair accept as a block of the log. *)
Definition has_magic (b : block) : bool := le_get 4 (sub b 0 4) =? WALMagic.
Definition unpacks (b : block) : wal_error + bool :=
  match Db_wal_unpack (Some b) LBASize (Some (zeros 16)) with
  | Some (d, _) => inr (negb (Ok d =? 0))
  | None => inl walPanic
  end.

Fixpoint median_from (k : nat) (lba : Z) : M unit :=
  match k with
  | O => ret tt
  | S k' =>
      b <- Read lba ;; w <- get ;;
      (if has_magic b then
         ok <- lift (unpacks b) ;;
         if ok && verifyWAL b (key w) then fail errWALCorruptedMedian else ret tt
       else ret tt) ;;;
      median_from k' (lba + 1)
  end.
Definition checkMedianRupture (startLBA maxLBA : Z) : M unit :=
  median_from (Z.to_nat (maxLBA - startLBA)) startLBA.

Fixpoint scan_from (k : nat) (lba max : Z) : M unit :=
  match k with
  | O => ret tt
  | S k' =>
      b <- Read lba ;;
      if negb (has_magic b) then checkMedianRupture (lba + 1) max else
      ok <- lift (unpacks b) ;;
      if negb ok then checkMedianRupture (lba + 1) max else
      modify (fun w => if walIsCheckpoint (rd b walTypeOff) then set_check w lba true else w) ;;;
      modify (fun w => set_tip w (lba + 1) (lsn w)) ;;;
      scan_from k' (lba + 1) max
  end.

Definition scanTip : M unit :=
  w <- get ;;
  let max := maxLBA (dev w) in
  modify (fun w => set_check (set_tip w 0 (lsn w)) 0 false) ;;;
  scan_from (Z.to_nat max) 0 max ;;;
  modify (fun w => set_quantum (set_tip w (next w) (next w)) (qBuf w) (next w) (qCount w)).

Definition newWAL (d : Device) (k : list Z) : WAL :=
  {| dev := d; key := k; next := 0; lsn := 0; checkLBA := 0; hasCheck := false; packDepth := 0;
     pending := []; pendingN := 0; qBuf := replicate 32 (zeros LBASize); qLBA := 0; qCount := 0; synced := false |}.
Definition CreateWAL (nblocks : Z) (k : list Z) : WAL :=
  newWAL {| dBlocks := replicate (Z.to_nat nblocks) (zeros LBASize); dOpen := true; dPoisoned := false |} k.
Definition OpenWAL (d : Device) (k : list Z) : wal_error + WAL :=
  match scanTip (newWAL d k) with (w, inr _) => inr w | (_, inl e) => inl e end.

(** ** Repair *)

Record walRepairScan := {
  startLBA : Z; prefixHasCheck : bool; prefixCheckLBA : Z; downstream : bool;
  downstreamCheck : bool; downstreamCheckLBA : Z; oldTip : Z;
}.
Record WALRepairReport := {
  Repaired : bool; StartLBA : Z; DiscardedBlocks : Z; DownstreamCheckpoint : bool; DownstreamCheckLBA : Z;
  Quarantine : list block; Next : Z; HasCheck : bool; CheckLBA : Z;
}.

(** The prefix scan: the first address not accepted ([None] when all are). *)
Fixpoint repair_prefix (k : nat) (lba : Z) (has : bool) (chk : Z) : M (option Z * bool * Z) :=
  match k with
  | O => ret (None, has, chk)
  | S k' =>
      b <- Read lba ;;
      if negb (has_magic b) then ret (Some lba, has, chk) else
      ok <- lift (unpacks b) ;;
      if negb ok then ret (Some lba, has, chk) else
      let is_check := walIsCheckpoint (rd b walTypeOff) in
      repair_prefix k' (lba + 1) (has || is_check) (if is_check then lba else chk)
  end.

Fixpoint repair_suffix (k : nat) (lba : Z) (sc : walRepairScan) : M walRepairScan :=
  match k with
  | O => ret sc
  | S k' =>
      b <- Read lba ;; w <- get ;;
      if negb (has_magic b) then repair_suffix k' (lba + 1) sc else
      ok <- lift (unpacks b) ;;
      let tip := if lba + 1 >? oldTip sc then lba + 1 else oldTip sc in
      let live := ok && verifyWAL b (key w) in
      let chk := live && walIsCheckpoint (rd b walTypeOff) in
      repair_suffix k' (lba + 1)
        {| startLBA := startLBA sc; prefixHasCheck := prefixHasCheck sc; prefixCheckLBA := prefixCheckLBA sc;
           downstream := downstream sc || live; downstreamCheck := downstreamCheck sc || chk;
           downstreamCheckLBA := if chk then lba else downstreamCheckLBA sc; oldTip := tip |}
  end.

Definition analyzeRepair : M walRepairScan :=
  w <- get ;;
  let max := maxLBA (dev w) in
  p <- repair_prefix (Z.to_nat max) 0 false 0 ;;
  let '(start, has, chk) := p in
  let sc s := {| startLBA := s; prefixHasCheck := has; prefixCheckLBA := chk; downstream := false;
                 downstreamCheck := false; downstreamCheckLBA := 0; oldTip := 0 |} in
  match start with
  | None => ret (sc max)
  | Some s => repair_suffix (Z.to_nat (max - s)) s (sc s)
  end.

Definition reportFor (sc : walRepairScan) (repaired : bool) : WALRepairReport :=
  {| Repaired := repaired; StartLBA := startLBA sc; DiscardedBlocks := 0; DownstreamCheckpoint := downstreamCheck sc;
     DownstreamCheckLBA := downstreamCheckLBA sc; Quarantine := []; Next := startLBA sc;
     HasCheck := prefixHasCheck sc; CheckLBA := prefixCheckLBA sc |}.

Definition previewMedianRupture : M WALRepairReport :=
  ready ;;; sc <- analyzeRepair ;; ret (reportFor sc false).

Definition repairMedianRupture : M WALRepairReport :=
  ready ;;; sc <- analyzeRepair ;;
  if negb (downstream sc) then ret (reportFor sc false) else
  let tip := if oldTip sc <=? startLBA sc then startLBA sc + 1 else oldTip sc in
  w <- get ;;
  let quarantine := sub (dBlocks (dev w)) (startLBA sc) tip in
  for_m (startLBA sc) tip (fun lba => Write lba [zeros LBASize]) ;;;
  dev_flush ;;;
  modify (fun w => set_check (set_pending (set_quantum (set_tip w (startLBA sc) (startLBA sc)) (qBuf w) (startLBA sc) 0) [] 0)
                     (prefixCheckLBA sc) (prefixHasCheck sc)) ;;;
  ret {| Repaired := true; StartLBA := startLBA sc; DiscardedBlocks := tip - startLBA sc;
         DownstreamCheckpoint := downstreamCheck sc; DownstreamCheckLBA := downstreamCheckLBA sc;
         Quarantine := quarantine; Next := startLBA sc; HasCheck := prefixHasCheck sc; CheckLBA := prefixCheckLBA sc |}.

End Log.

End Wal.
