(* ===== verification/WalReplay.v ===== *)
(** * What the log gives back (src/pkg/c2db/wal.go)

    Records appended to a log that has room are replayed in order: from the open
    log after a flush, and from the device after it is opened again.  [wlog]
    relates the device and the quantum to the records of the blocks, [hist] adds
    the pending records and what a replay makes of the blocks. *)

From stdpp Require Import gmap.
From S2P Require Import Prelude PageKernel WalBlock Wal.
Import PageKernel WalBlock Wal.

Local Open Scope Z_scope.
Local Open Scope wal_scope.

Module WalReplay.

(** ** The monad *)

Lemma bind_ok {A B} (m : M A) (f : A -> M B) w w' a : m w = (w', inr a) -> bind m f w = f a w'.
Proof. intros E. unfold bind. by rewrite E. Qed.

Lemma for_m_to_inv (P : Z -> WAL -> Prop) k lo body w :
  P lo w ->
  (forall i w, lo <= i < lo + Z.of_nat k -> P i w -> exists w', body i w = (w', inr tt) /\ P (i + 1) w') ->
  exists w', for_m_to k lo body w = (w', inr tt) /\ P (lo + Z.of_nat k) w'.
Proof.
  revert lo w. induction k as [|k IH]; intros lo w Hw Hstep; cbn [for_m_to].
  - exists w. split; [done|]. by rewrite Z.add_0_r.
  - destruct (Hstep lo w) as (w1 & E1 & H1); [lia | done|].
    rewrite (bind_ok _ _ _ _ _ E1). destruct (IH (lo + 1) w1 H1) as (w2 & E2 & H2).
    { intros i v Hi. apply Hstep. lia. }
    exists w2. split; [done|]. by replace (lo + Z.of_nat (S k)) with (lo + 1 + Z.of_nat k) by lia.
Qed.

Lemma for_m_inv (P : Z -> WAL -> Prop) lo hi body w :
  lo <= hi -> P lo w ->
  (forall i w, lo <= i < hi -> P i w -> exists w', body i w = (w', inr tt) /\ P (i + 1) w') ->
  exists w', for_m lo hi body w = (w', inr tt) /\ P hi w'.
Proof.
  intros Hle Hlo Hstep. destruct (for_m_to_inv P (Z.to_nat (hi - lo)) lo body w Hlo) as (w' & E & Hw').
  { intros i v Hi. apply Hstep. lia. }
  exists w'. split; [done|]. by replace (lo + Z.of_nat (Z.to_nat (hi - lo))) with hi in Hw' by lia.
Qed.

Lemma inserts_split {A} (l src : list A) i : (i + length src <= length l)%nat ->
  list_inserts i src l = take i l ++ src ++ drop (i + length src) l.
Proof.
  revert i l. induction src as [|x src IH]; intros i l Hle; cbn [list_inserts app length] in *.
  - by rewrite Nat.add_0_r, take_drop.
  - rewrite (IH (S i) l) by lia. destruct (lookup_lt_is_Some_2 l i) as [y Hy]; [lia|].
    rewrite (take_S_r l i y) by done. rewrite <- app_assoc. cbn [app].
    rewrite insert_app_r_alt by (rewrite length_take; lia). rewrite length_take.
    replace (i - i `min` length l)%nat with O by lia. cbn. do 3 f_equal. f_equal. lia.
Qed.

Section Log.
Context `{Seal}.

(** ** Blocks *)

(** A record that one block holds. *)
Record raw_ok (r : Record_) : Prop := {
  raw_id : len (rID r) = 16;
  raw_idb : bytes_ok (rID r);
  raw_type : 0 <= rType r <= 9;
  raw_len : len (rPayload r) <= 4055;
  raw_bytes : bytes_ok (rPayload r);
}.

Definition sealed (k : list Z) (r : Record_) : block :=
  let m := wal_image (rID r) (rType r) (rPayload r) (zeros 16) in
  wal_image (rID r) (rType r) (rPayload r) (walTag k (sub m 4 4080)).

Lemma image_body id typ pl tag tag' : len id = 16 -> len pl <= 4055 ->
  sub (wal_image id typ pl tag) 4 4080 = sub (wal_image id typ pl tag') 4 4080.
Proof.
  intros Hid Hpl. pose proof (len_wal_head id typ pl Hid Hpl). unfold wal_image. by rewrite (sub_app_l _ tag), (sub_app_l _ tag') by lia.
Qed.

Lemma image_ok id typ pl tag : len id = 16 -> bytes_ok id -> 0 <= typ <= 9 -> len pl <= 4055 -> bytes_ok pl ->
  len tag = 16 -> bytes_ok tag -> block_ok (wal_image id typ pl tag).
Proof.
  intros Hid Hib Ht Hpl Hpb Htag Htb. split.
  - by apply (wal_image_fields id typ pl tag).
  - unfold wal_image. repeat apply bytes_ok_app; auto with c2db. repeat constructor; lia.
Qed.

Lemma sealed_ok k r : raw_ok r -> block_ok (sealed k r).
Proof. intros []. apply image_ok; auto using walTag_len, walTag_bytes. Qed.

Lemma sealWAL_image k r tag : raw_ok r -> len tag = 16 ->
  sealWAL (wal_image (rID r) (rType r) (rPayload r) tag) k = sealed k r.
Proof.
  intros [Hid _ _ Hpl _] Htag. unfold sealWAL, sealed, walTagOff, walLenOff.
  rewrite (image_body _ _ _ tag (zeros 16)) by done.
  set (t := walTag k _). assert (Ht : len t = 16) by apply walTag_len.
  pose proof (len_wal_head (rID r) (rType r) (rPayload r) Hid Hpl) as Hh.
  unfold wal_image. rewrite copy_at_app_r by lia. rewrite Hh. by rewrite copy_at_full by lia.
Qed.

Lemma pack_block_eq target r : block_ok target -> raw_ok r ->
  exists b, pack_block target r = inr b /\ forall k, sealWAL b k = sealed k r.
Proof.
  intros Ht Hr. pose proof Hr as [Hid Hib Hty Hpl Hpb]. pose proof Ht as [Hl _].
  pose proof (len_nonneg (rPayload r)).
  unfold pack_block, LBASize. rewrite Db_wal_pack_eq by (done || lia).
  rewrite (sub_all (rID r)), sub_full by lia. cbn [Z.eqb].
  eexists. split; [done|]. intros k. apply sealWAL_image; [done|]. rewrite len_sub; lia.
Qed.

Lemma sealed_verifies k r : raw_ok r -> verifyWAL (sealed k r) k = true.
Proof.
  intros [Hid _ _ Hpl _]. unfold verifyWAL, walLenOff, walTagOff, LBASize. apply bool_decide_eq_true_2.
  destruct (wal_image_fields (rID r) (rType r) (rPayload r)
    (walTag k (sub (wal_image (rID r) (rType r) (rPayload r) (zeros 16)) 4 4080)) Hid Hpl) as (_ & _ & _ & _ & _ & _ & Htag);
    [apply walTag_len|].
  unfold sealed. rewrite Htag. f_equal. by apply image_body.
Qed.

Lemma sealed_fields k r : raw_ok r ->
  has_magic (sealed k r) = true /\ rd (sealed k r) walTypeOff = rType r /\
  Db_wal_unpack (Some (sealed k r)) LBASize (Some (zeros 16)) =
    Some ({| Magic := WALMagic; dLen_ := len (rPayload r); Typ := rType r; Plen := len (rPayload r); Ok := 1 |}, Some (rID r)) /\
  sub (sealed k r) 25 (25 + len (rPayload r)) = rPayload r.
Proof.
  intros Hr. pose proof Hr as [Hid _ _ Hpl _]. pose proof (len_nonneg (rPayload r)).
  destruct (wal_image_fields (rID r) (rType r) (rPayload r)
    (walTag k (sub (wal_image (rID r) (rType r) (rPayload r) (zeros 16)) 4 4080)) Hid Hpl)
    as (Hlen & Hm & Hk & Hi & Hty & Hpay & Htag); [apply walTag_len|].
  fold (sealed k r) in *. unfold has_magic, LBASize. rewrite Hm, le_get_put. split; [done|]. split; [done|]. split; [|done].
  rewrite Db_wal_unpack_eq by (by apply sealed_ok || left; done). cbv zeta.
  rewrite Hm, Hk, Hi, Hty, !le_get_put, !Z.mod_small by (unfold WALMagic; lia).
  rewrite Z.eqb_refl, (proj2 (Z.leb_le _ 4055)) by lia. cbn [andb fmap option_fmap option_map].
  by rewrite copy_at_full by (rewrite Hid; done).
Qed.

Lemma read_block_sealed k r : raw_ok r -> read_block k (sealed k r) = inr r.
Proof.
  intros Hr. destruct (sealed_fields k r Hr) as (Hm & _ & Hu & Hp). unfold read_block. unfold has_magic in Hm.
  rewrite Hm, sealed_verifies, Hu by done. cbn [negb Ok Z.eqb Typ Plen]. change Db_wal_payload_off with 25.
  rewrite Hp. by destruct r.
Qed.

Lemma unpacks_sealed k r : raw_ok r -> unpacks (sealed k r) = inr true.
Proof. intros Hr. destruct (sealed_fields k r Hr) as (_ & _ & Hu & _). unfold unpacks. by rewrite Hu. Qed.

#[local] Opaque sealed.

(** ** The blocks of the log *)

(** [w] is an open log over a device that began as [d0], whose blocks, on the
    device and in the quantum, are the records [raws]. *)
Record wlogq (d0 : list block) (w : WAL) (raws : list Record_) : Prop := {
  wl_open : dOpen (dev w) = true /\ dPoisoned (dev w) = false;
  wl_size : length (dBlocks (dev w)) = length d0 /\ len d0 < 2 ^ 63;
  wl_next : next w = len raws /\ len raws <= len d0;
  wl_quantum : 0 <= qCount w <= 32 /\ 0 <= qLBA w /\ qLBA w + qCount w = next w;
  wl_buf : length (qBuf w) = 32%nat /\ Forall block_ok (qBuf w);
  wl_raws : Forall raw_ok raws;
  wl_blocks : take (Z.to_nat (qLBA w)) (dBlocks (dev w)) ++ take (Z.to_nat (qCount w)) (qBuf w) = map (sealed (key w)) raws;
  wl_tail : drop (Z.to_nat (next w)) (dBlocks (dev w)) = drop (Z.to_nat (next w)) d0;
}.

(** Between operations the quantum is not full. *)
Definition wlog (d0 : list block) (w : WAL) (raws : list Record_) : Prop := wlogq d0 w raws /\ qCount w < 32.

(** What a write leaves alone. *)
Definition same_log (w w' : WAL) : Prop :=
  key w' = key w /\ hasCheck w' = hasCheck w /\ checkLBA w' = checkLBA w /\ packDepth w' = packDepth w /\
  pending w' = pending w /\ pendingN w' = pendingN w.

Lemma same_log_refl w : same_log w w.
Proof. by split_and!. Qed.
Lemma same_log_trans a b c : same_log a b -> same_log b c -> same_log a c.
Proof. unfold same_log. intros. intuition congruence. Qed.
#[local] Hint Resolve same_log_refl same_log_trans : core.

Lemma wlog_ready d0 w raws : wlogq d0 w raws -> ready w = (w, inr tt).
Proof. intros [[Ho Hp] _]. unfold ready, bind, get, lift, checkReady. by rewrite Ho, Hp. Qed.

Lemma wlog_max d0 w raws : wlogq d0 w raws -> maxLBA (dev w) = len d0.
Proof. intros []. unfold maxLBA, len. by destruct wl_size0 as [-> _]. Qed.

Lemma Write_ok w lba bs : dOpen (dev w) = true -> dPoisoned (dev w) = false -> 0 <= lba -> bs <> [] ->
  lba + len bs <= maxLBA (dev w) -> maxLBA (dev w) < 2 ^ 63 ->
  Write lba bs w = (set_dev w {| dBlocks := list_inserts (Z.to_nat lba) bs (dBlocks (dev w)); dOpen := true; dPoisoned := false |}, inr tt).
Proof.
  intros Ho Hp Hlba Hne Hend Hmax. assert (0 < len bs) by (destruct bs; [done | rewrite len_cons; pose proof (len_nonneg bs); lia]).
  unfold Write, bind, get, lift, dev_write, checkReady, xferOff. rewrite Ho, Hp. cbn [negb].
  ifcase; [lia|]. unwrap. repeat (ifcase; [lia|]). done.
Qed.

Lemma Read_ok w lba : dOpen (dev w) = true -> dPoisoned (dev w) = false -> 0 <= lba < maxLBA (dev w) ->
  maxLBA (dev w) < 2 ^ 63 -> Read lba w = (w, inr (default [] (dBlocks (dev w) !! Z.to_nat lba))).
Proof.
  intros Ho Hp Hlba Hmax. unfold Read, bind, get, lift, dev_read, checkReady, xferOff. rewrite Ho, Hp. cbn [negb].
  unwrap. repeat (ifcase; [lia|]). done.
Qed.

Lemma flushQuantum_spec d0 w raws : wlogq d0 w raws ->
  exists w', flushQuantum w = (w', inr tt) /\ wlogq d0 w' raws /\ same_log w w' /\ qCount w' = 0 /\ next w' = next w.
Proof.
  intros Hw. pose proof (wlog_max _ _ _ Hw) as Hmax.
  destruct Hw as [[Ho Hp] [Hsz Hd0] [Hn Hcap] [Hc [Hq Hsum]] [Hbl Hbo] Hraws Hblocks Htail].
  unfold flushQuantum. rewrite (bind_ok _ _ w w w) by done.
  destruct (Z.eqb_spec (qCount w) 0) as [Hz|Hnz]; [exists w; split; [done|]; split; [by constructor|]; auto|].
  assert (Hlen : length (take (Z.to_nat (qCount w)) (qBuf w)) = Z.to_nat (qCount w)) by (rewrite length_take; lia).
  assert (Hsub : sub (qBuf w) 0 (qCount w) = take (Z.to_nat (qCount w)) (qBuf w)) by (unfold sub; by rewrite Z.sub_0_r).
  rewrite Hsub. erewrite bind_ok.
  2:{ apply Write_ok; try done; unfold len in *; try lia.
      intros E. rewrite E in Hlen. cbn in Hlen. lia. }
  eexists. split; [done|]. split; [|split; [by split_and!|split; done]].
  assert (Hfit : (Z.to_nat (qLBA w) + length (take (Z.to_nat (qCount w)) (qBuf w)) <= length (dBlocks (dev w)))%nat)
    by (unfold len in *; lia).
  constructor; cbn; try done; try lia.
  - by rewrite length_inserts.
  - rewrite inserts_split by done. rewrite app_nil_r, app_assoc.
    rewrite take_app_le by (rewrite length_app, Hlen, length_take; lia).
    rewrite take_ge by (rewrite length_app, Hlen, length_take; lia). done.
  - rewrite inserts_split by done. rewrite <- Htail, app_assoc, Hlen.
    rewrite drop_app_ge by (rewrite length_app, Hlen, length_take; lia).
    rewrite length_app, Hlen, length_take, drop_drop. f_equal. lia.
Qed.

Lemma make_room_ok d0 w raws trunc need : wlogq d0 w raws -> len raws + need <= len d0 ->
  make_room trunc need w = (w, inr tt).
Proof.
  intros Hw Hcap. unfold make_room. rewrite (bind_ok _ _ w w w) by done.
  rewrite (wlog_max _ _ _ Hw), (proj1 (wl_next _ _ _ Hw)). by rewrite Z.gtb_ltb, (proj2 (Z.ltb_ge _ _)) by lia.
Qed.

(** A record written is one more block. *)
Lemma writeOne_spec d0 w raws r : wlog d0 w raws -> raw_ok r -> len raws + 1 <= len d0 ->
  exists w', writeOne r w = (w', inr tt) /\ wlog d0 w' (raws ++ [r]) /\ same_log w w' /\ next w' = next w + 1.
Proof.
  intros [Hw Hc32] Hr Hcap. unfold writeOne, writeOne_. rewrite (bind_ok _ _ w w tt) by (by eapply make_room_ok).
  rewrite (bind_ok _ _ w w tt).
  2:{ unfold modify. destruct (wl_quantum _ _ _ Hw) as [_ [_ Hsum]]. destruct (Z.eqb_spec (qCount w) 0) as [E|]; [|done].
      unfold set_quantum. destruct w; cbn in *. do 2 f_equal. lia. }
  rewrite (bind_ok _ _ w w w) by done.
  destruct (id Hw) as [[Ho Hp] [Hsz Hd0] [Hn Hcapn] [Hc [Hq Hsum]] [Hbl Hbo] Hraws Hblocks Htail].
  destruct (lookup_lt_is_Some_2 (qBuf w) (Z.to_nat (qCount w))) as [target Ht]; [lia|].
  unfold idx. rewrite (proj2 (Z.leb_le 0 (qCount w))) by lia. rewrite Ht.
  destruct (pack_block_eq target r) as (b & Hb & Hseal); [by eapply Forall_lookup_1|done|].
  rewrite (bind_ok _ _ w w b) by (unfold lift; by rewrite Hb).
  set (w2 := set_synced (set_tip (set_quantum w (wr (qBuf w) (qCount w) (sealed (key w) r)) (qLBA w) (qCount w + 1))
                                   (w64 (next w + 1)) (w64 (lsn w + 1))) false).
  rewrite (bind_ok _ _ w w2 tt) by (unfold modify; by rewrite Hseal). rewrite (bind_ok _ _ w2 w2 w2) by done.
  assert (Hnext : w64 (next w + 1) = next w + 1) by (apply w64_small; lia).
  assert (Hw2 : wlogq d0 w2 (raws ++ [r])).
  { assert (Hlen : len (raws ++ [r]) = len raws + 1) by (unfold len; rewrite length_app; cbn; lia).
    constructor; cbn; rewrite ?Hnext, ?Hlen; try done; try lia.
    - split; [unfold wr; by rewrite length_insert | unfold wr; apply Forall_insert; [done | by apply sealed_ok]].
    - apply Forall_app_2; [done | by constructor; [|constructor]].
    - rewrite map_app, <- Hblocks, <- app_assoc. f_equal. unfold wr. cbn [map].
      replace (Z.to_nat (qCount w + 1)) with (S (Z.to_nat (qCount w))) by lia.
      rewrite (take_S_r _ _ (sealed (key w) r)) by (apply list_lookup_insert_eq; lia). by rewrite take_insert_ge by lia.
    - replace (Z.to_nat (next w + 1)) with (Z.to_nat (next w) + 1)%nat by lia. by rewrite <- !drop_drop, Htail. }
  change (qCount w2) with (qCount w + 1). destruct (Z.eqb_spec (qCount w + 1) walQuantumLBAs) as [Hfull|Hnot].
  - destruct (flushQuantum_spec _ _ _ Hw2) as (w3 & E & Hw3 & Hsame & Hq3 & Hn3).
    exists w3. split; [done|]. split; [split; [done|lia]|]. split; [|by rewrite Hn3].
    eapply same_log_trans; [|done]. by split_and!.
  - exists w2. split; [done|]. unfold walQuantumLBAs in Hnot. split; [split; [done|cbn; lia]|]. split; [by split_and! | done].
Qed.

(** ** Packs *)

Definition rec_bytes (r : Record_) : list Z :=
  [rType r] ++ rID r ++ le_put 4 (len (rPayload r)) ++ rPayload r.
Definition sizes (rs : list Record_) : Z := fold_right (fun r n => packedRecSize r + n) 0 rs.

Lemma len_rec_bytes r : len (rID r) = 16 -> len (rec_bytes r) = packedRecSize r.
Proof.
  intros Hid. unfold rec_bytes, packedRecSize, walBatchHdr. rewrite !len_app, len_le_put.
  change (len [rType r]) with 1. lia.
Qed.

Lemma size_pos r : 21 <= packedRecSize r.
Proof. unfold packedRecSize, walBatchHdr. pose proof (len_nonneg (rPayload r)). lia. Qed.

Lemma sizes_nonneg rs : 0 <= sizes rs.
Proof. induction rs as [|r rs IH]; cbn; [done|]. pose proof (size_pos r). unfold sizes in IH. lia. Qed.

Lemma sizes_snoc rs r : sizes (rs ++ [r]) = sizes rs + packedRecSize r.
Proof. unfold sizes. induction rs as [|a rs IH]; cbn; lia. Qed.

Lemma len_recs rs : Forall raw_ok rs -> len (concat (map rec_bytes rs)) = sizes rs.
Proof.
  induction 1 as [|r rs Hr _ IH]; [done|]. cbn [map concat]. rewrite len_app, IH, len_rec_bytes by apply Hr. done.
Qed.

Lemma pack_into_eq rs out off : Forall raw_ok rs -> 0 <= off ->
  pack_into out off rs = copy_at out off (concat (map rec_bytes rs)).
Proof.
  intros Hrs. revert out off. induction Hrs as [|r rs Hr _ IH]; intros out off Hoff; [done|].
  pose proof Hr as [Hid _ _ Hpl _]. pose proof (len_nonneg (rPayload r)).
  cbn [pack_into map concat]. unfold walBatchHdr. rewrite IH by lia. unwrap. rewrite wr_copy_at.
  unfold rec_bytes. rewrite <- !app_assoc.
  rewrite !copy_at_app by (rewrite ?len_app, ?len_le_put, ?Hid; change (len [rType r]) with 1; lia).
  done.
Qed.

Lemma packBatch_eq rs : Forall raw_ok rs -> packBatch rs = concat (map rec_bytes rs).
Proof.
  intros Hrs. unfold packBatch. rewrite pack_into_eq by (done || lia). apply copy_at_full.
  rewrite len_recs by done. rewrite len_zeros; [done | apply sizes_nonneg].
Qed.

Lemma unpack_loop_eq rs fuel out : Forall raw_ok rs -> sizes rs < 2 ^ 32 -> (length (concat (map rec_bytes rs)) < fuel)%nat ->
  unpack_loop fuel (concat (map rec_bytes rs)) out = Some (out ++ rs).
Proof.
  intros Hrs. revert fuel out. induction Hrs as [|r rs Hr Hrs IH]; intros fuel out Hsz Hf;
    (destruct fuel as [|fuel]; [lia|]); cbn [unpack_loop]; [by rewrite app_nil_r|].
  pose proof Hr as [Hid _ _ Hpl _]. pose proof (len_nonneg (rPayload r)).
  assert (Hsum : sizes (r :: rs) = packedRecSize r + sizes rs) by done. pose proof (sizes_nonneg rs). pose proof (size_pos r).
  pose proof (len_recs rs Hrs) as Hlr. pose proof (len_rec_bytes r Hid) as Hlb.
  cbn [map concat] in *. set (p := rec_bytes r ++ concat (map rec_bytes rs)) in *.
  assert (Hlp : len p = packedRecSize r + sizes rs) by (unfold p; rewrite len_app; lia).
  unfold packedRecSize, walBatchHdr in *.
  assert (Hp : p = [rType r] ++ rID r ++ le_put 4 (len (rPayload r)) ++ rPayload r ++ concat (map rec_bytes rs))
    by (unfold p, rec_bytes; by rewrite <- !app_assoc).
  pose proof (len_le_put 4 (len (rPayload r))) as Hfour. assert (Hone : len [rType r] = 1) by done.
  assert (E0 : rd p 0 = rType r) by (rewrite Hp; apply rd_cons_0).
  assert (E1 : sub p 1 17 = rID r) by (rewrite Hp, sub_skip by lia; apply sub_head; lia).
  assert (E2 : sub p 17 21 = le_put 4 (len (rPayload r))) by (rewrite Hp, !sub_skip by lia; apply sub_head; lia).
  assert (E3 : sub p 21 (len p) = rPayload r ++ concat (map rec_bytes rs)).
  { rewrite Hlp, Hp, !sub_skip by lia. apply sub_all; rewrite ?len_app; lia. }
  rewrite E0, E1, E2, E3, le_get_put. rewrite (Z.mod_small (len (rPayload r))) by lia.
  rewrite len_app. unwrap. repeat (ifcase; [lia|]).
  rewrite (sub_head (rPayload r) _ 0) by lia. rewrite (sub_skip (rPayload r)) by lia.
  rewrite (sub_all (concat (map rec_bytes rs))) by lia.
  rewrite IH; [|lia|].
  - rewrite <- app_assoc. by destruct r.
  - unfold len in *. lia.
Qed.

Lemma unpack_pack rs : Forall raw_ok rs -> sizes rs < 2 ^ 32 -> unpackBatch (packBatch rs) = Some rs.
Proof.
  intros Hrs Hsz. rewrite packBatch_eq by done. unfold unpackBatch. by rewrite unpack_loop_eq by (done || lia).
Qed.

Lemma bytes_ok_recs rs : Forall raw_ok rs -> bytes_ok (concat (map rec_bytes rs)).
Proof.
  induction 1 as [|r rs [_ Hib Ht _ Hpb] _ IH]; [constructor|]. cbn [map concat]. apply bytes_ok_app; [|done].
  unfold rec_bytes. repeat apply bytes_ok_app; auto with c2db. repeat constructor; lia.
Qed.

(** ** Replay of a list of records *)

Fixpoint replay_list (rs : list Record_) (st : replay_st) : wal_error + replay_st :=
  match rs with
  | [] => inr st
  | r :: rs' => match replay_record st r with inl e => inl e | inr st' => replay_list rs' st' end
  end.

Lemma replay_list_app a b st st' : replay_list a st = inr st' -> replay_list (a ++ b) st = replay_list b st'.
Proof.
  revert st. induction a as [|r a IH]; intros st; cbn; [by intros [= ->]|].
  destruct (replay_record st r); [done|]. apply IH.
Qed.

Lemma replay_from_eq d0 w raws k lba st : wlogq d0 w raws -> qCount w = 0 ->
  0 <= lba -> lba + Z.of_nat k = len raws ->
  replay_from k lba st w = (w, replay_list (drop (Z.to_nat lba) raws) st).
Proof.
  intros Hw Hq. pose proof (wlog_max _ _ _ Hw) as Hmax.
  destruct (id Hw) as [[Ho Hp] [Hsz Hd0] [Hn Hcap] [Hc [Hq0 Hsum]] _ Hraws Hblocks _].
  rewrite Hq in Hblocks. cbn [Z.to_nat take] in Hblocks. rewrite app_nil_r in Hblocks.
  revert lba st. induction k as [|k IH]; intros lba st Hlba Hend; cbn [replay_from].
  - unfold len in Hend. by rewrite drop_ge by lia.
  - destruct (lookup_lt_is_Some_2 raws (Z.to_nat lba)) as [r Hr]; [unfold len in Hend; lia|].
    rewrite (drop_S _ r) by done. cbn [replay_list].
    rewrite (bind_ok _ _ _ _ _ (Read_ok w lba Ho Hp ltac:(lia) ltac:(lia))).
    rewrite (bind_ok _ _ w w w) by done.
    assert (Hb : dBlocks (dev w) !! Z.to_nat lba = Some (sealed (key w) r)).
    { rewrite <- (lookup_take_lt _ (Z.to_nat (qLBA w))) by lia. rewrite Hblocks, list_lookup_fmap, Hr. done. }
    rewrite Hb. cbn [default from_option id]. rewrite (bind_ok _ _ w w r).
    2:{ unfold lift. f_equal. apply read_block_sealed. by eapply Forall_lookup_1. }
    destruct (replay_record st r) as [e|st'] eqn:E.
    + done.
    + rewrite (bind_ok _ _ w w st') by done. rewrite IH by lia.
      by replace (Z.to_nat (lba + 1)) with (S (Z.to_nat lba)) by lia.
Qed.

(** ** The history of a log *)

(** The index after the last checkpoint of [h], where a resumable replay starts. *)
Fixpoint last_check_from (i : Z) (h : list Record_) (acc : Z) : Z :=
  match h with
  | [] => acc
  | r :: h' => last_check_from (i + 1) h' (if walIsCheckpoint (rType r) then i + 1 else acc)
  end.
Definition last_check (h : list Record_) : Z := last_check_from 0 h 0.

Lemma last_check_from_app i a b acc :
  last_check_from i (a ++ b) acc = last_check_from (i + len a) b (last_check_from i a acc).
Proof.
  revert i acc. induction a as [|r a IH]; intros i acc; cbn [last_check_from app].
  - by rewrite Z.add_0_r.
  - rewrite IH, len_cons. f_equal. lia.
Qed.

Lemma last_check_none a b : Forall (fun r => walIsCheckpoint (rType r) = false) b -> last_check (a ++ b) = last_check a.
Proof.
  intros Hb. unfold last_check. rewrite last_check_from_app. generalize (0 + len a) (last_check_from 0 a 0).
  induction Hb as [|r b Hr _ IH]; intros i acc; cbn; [done|]. by rewrite Hr, IH.
Qed.

(** The payload of a record could be taken for a chunk. *)
Definition chunk_like (p : list Z) : bool := (len p >=? 16) && (le_get 4 (sub p 0 4) =? walChunkMagic).

(** A record that a replay returns as it is. *)
Definition plain (r : Record_) : Prop := raw_ok r /\ rType r <> RecCommitBatch /\ chunk_like (rPayload r) = false.
(** A record that a pack can hold. *)
Definition packable (r : Record_) : Prop :=
  plain r /\ walIsCheckpoint (rType r) = false /\ packedRecSize r <= walMaxPayload.

Lemma replay_plain st r : plain r ->
  replay_record st r = inr {| resumeAt := if walIsCheckpoint (rType r) then len (rout st ++ [r]) else resumeAt st;
                              chunks := chunks st; rout := rout st ++ [r] |}.
Proof.
  intros (_ & Hty & Hch). unfold replay_record. rewrite (proj2 (Z.eqb_neq _ _)) by done.
  unfold chunk_like in Hch. unfold walChunkHdrSize. by rewrite Hch.
Qed.

Definition st0 : replay_st := {| resumeAt := 0; chunks := ∅; rout := [] |}.

(** The history [h] of the log [w]: what its blocks replay to, and the pending records. *)
Definition hist (d0 : list block) (w : WAL) (h : list Record_) : Prop :=
  exists raws st, wlog d0 w raws /\ replay_list raws st0 = inr st /\ chunks st = ∅ /\
    resumeAt st = last_check (rout st) /\ h = rout st ++ pending w /\
    Forall packable (pending w) /\ pendingN w = sizes (pending w) /\ sizes (pending w) <= walMaxPayload.

(** The blocks used, with one for the pending records. *)
Definition used (w : WAL) : Z := next w + (if len (pending w) =? 0 then 0 else 1).

Lemma hist_pending_free d0 w raws st h : wlog d0 w raws -> replay_list raws st0 = inr st -> chunks st = ∅ ->
  resumeAt st = last_check (rout st) -> rout st = h -> pending w = [] -> pendingN w = 0 -> hist d0 w h.
Proof.
  intros Hw Hrep Hch Hres Hout Hp Hn. exists raws, st. rewrite Hp, app_nil_r, Hn. by split_and!.
Qed.

(** A record written that replays to [rs] is [rs] in the history. *)
Lemma hist_write d0 w h r rs :
  hist d0 w h -> pending w = [] -> raw_ok r -> next w + 1 <= len d0 ->
  (forall st, chunks st = ∅ -> resumeAt st = last_check (rout st) -> exists st', replay_record st r = inr st' /\
     chunks st' = ∅ /\ resumeAt st' = last_check (rout st') /\ rout st' = rout st ++ rs) ->
  exists w', writeOne r w = (w', inr tt) /\ hist d0 w' (h ++ rs) /\ same_log w w' /\ next w' = next w + 1.
Proof.
  intros (raws & st & Hw & Hrep & Hch & Hres & -> & Hp & Hn & Hs) Hpend Hr Hcap Hstep.
  pose proof (proj1 (wl_next _ _ _ (proj1 Hw))) as Hnx.
  destruct (writeOne_spec _ _ _ _ Hw Hr ltac:(lia)) as (w' & E & Hw' & Hsame & Hnx').
  destruct (Hstep st Hch Hres) as (st' & Es & Hch' & Hres' & Hout').
  exists w'. split; [done|]. split; [|done]. destruct (id Hsame) as (_ & _ & _ & _ & Hpe & Hpn).
  eapply (hist_pending_free _ _ (raws ++ [r]) st'); try done.
  - rewrite (replay_list_app _ _ _ _ Hrep). cbn. by rewrite Es.
  - by rewrite Hout', Hpend, app_nil_r.
  - by rewrite Hpe.
  - rewrite Hpn, Hn, Hpend. done.
Qed.

Lemma last_check_snoc h r : walIsCheckpoint (rType r) = true -> last_check (h ++ [r]) = len (h ++ [r]).
Proof.
  intros Hr. unfold last_check. rewrite last_check_from_app. cbn. rewrite Hr. unfold len. rewrite length_app. cbn. lia.
Qed.

Lemma plain_step st r : plain r -> chunks st = ∅ -> resumeAt st = last_check (rout st) -> exists st',
  replay_record st r = inr st' /\ chunks st' = ∅ /\ resumeAt st' = last_check (rout st') /\ rout st' = rout st ++ [r].
Proof.
  intros Hr Hch Hres. eexists. split; [by apply replay_plain|]. split_and!; [done | | done]. cbn [resumeAt rout].
  destruct (walIsCheckpoint (rType r)) eqn:E; [by rewrite last_check_snoc|].
  rewrite last_check_none; [done|]. by constructor.
Qed.

(** The pack of the pending records. *)
Definition batch (rs : list Record_) : Record_ :=
  {| rID := default [] (rID <$> last rs); rType := RecCommitBatch; rPayload := packBatch rs |}.

Lemma packable_raw rs : Forall packable rs -> Forall raw_ok rs.
Proof. intros Hrs. eapply Forall_impl; [exact Hrs|]. by intros r [[? _] _]. Qed.

Lemma batch_ok rs : rs <> [] -> Forall packable rs -> sizes rs <= walMaxPayload -> raw_ok (batch rs).
Proof.
  intros Hne Hrs Hsz. pose proof (packable_raw rs Hrs) as Hraw. unfold walMaxPayload in Hsz.
  destruct (last rs) as [r|] eqn:E; [|by apply last_None in E].
  assert (Hr : raw_ok r) by (eapply Forall_forall; [exact Hraw|]; by apply last_Some_elem_of).
  unfold batch. rewrite E, packBatch_eq by done. destruct Hr.
  split; cbn; try done; unfold RecCommitBatch; try lia; [by rewrite len_recs | by apply bytes_ok_recs].
Qed.

Lemma batch_step rs st : Forall packable rs -> sizes rs <= walMaxPayload ->
  chunks st = ∅ -> resumeAt st = last_check (rout st) -> exists st',
  replay_record st (batch rs) = inr st' /\ chunks st' = ∅ /\ resumeAt st' = last_check (rout st') /\ rout st' = rout st ++ rs.
Proof.
  intros Hrs Hsz Hch Hres. unfold replay_record, batch. cbn [rType rPayload]. rewrite Z.eqb_refl.
  unfold walMaxPayload in Hsz. rewrite unpack_pack by (first [by apply packable_raw | lia]).
  eexists. split; [done|]. split_and!; [done | | done]. cbn [resumeAt rout]. rewrite last_check_none; [done|].
  eapply Forall_impl; [exact Hrs|]. by intros r (_ & ? & _).
Qed.

(** ** The operations on a history *)


(** What keeps the history: same key, depth and checkpoint. *)
Definition same_ctl (w w' : WAL) : Prop :=
  key w' = key w /\ hasCheck w' = hasCheck w /\ checkLBA w' = checkLBA w /\ packDepth w' = packDepth w.

Lemma same_log_ctl w w' : same_log w w' -> same_ctl w w'.
Proof. unfold same_log, same_ctl. tauto. Qed.
Lemma same_ctl_trans a b c : same_ctl a b -> same_ctl b c -> same_ctl a c.
Proof. unfold same_ctl. intuition congruence. Qed.

Lemma hist_next d0 w h : hist d0 w h -> 0 <= next w <= len d0.
Proof.
  intros (raws & st & [Hw _] & _). destruct (wl_next _ _ _ Hw) as [-> ?]. pose proof (len_nonneg raws). lia.
Qed.

Lemma hist_ready d0 w h : hist d0 w h -> ready w = (w, inr tt).
Proof. intros (raws & st & [Hw _] & _). by eapply wlog_ready. Qed.

Lemma hist_room d0 w h need tr : hist d0 w h -> next w + need <= len d0 -> make_room tr need w = (w, inr tt).
Proof.
  intros (raws & st & [Hw _] & _) Hn. rewrite (proj1 (wl_next _ _ _ Hw)) in Hn. by eapply make_room_ok.
Qed.

(** The block of the pending records written, and the list cleared. *)
Lemma flush_pending_rec d0 w h r rs : hist d0 w h -> pending w = rs -> rs <> [] -> raw_ok r -> next w + 1 <= len d0 ->
  (forall st, chunks st = ∅ -> resumeAt st = last_check (rout st) -> exists st', replay_record st r = inr st' /\
     chunks st' = ∅ /\ resumeAt st' = last_check (rout st') /\ rout st' = rout st ++ rs) ->
  exists w', bind (writeOne r) (fun _ => modify (fun w => set_pending w [] 0)) w = (w', inr tt) /\ hist d0 w' h /\
    pending w' = [] /\ next w' = next w + 1 /\ same_ctl w w'.
Proof.
  intros (raws & st & Hw & Hrep & Hch & Hres & -> & Hp & Hn & Hs) Hpend Hne Hr Hcap Hstep.
  pose proof (proj1 (wl_next _ _ _ (proj1 Hw))) as Hnx.
  destruct (writeOne_spec _ _ _ _ Hw Hr ltac:(lia)) as (w' & E & Hw' & Hsame & Hnx').
  destruct (Hstep st Hch Hres) as (st' & Es & Hch' & Hres' & Hout').
  rewrite (bind_ok _ _ _ _ _ E). eexists. split; [done|]. split; [|split; [done | split; [done | by apply same_log_ctl in Hsame]]].
  eapply (hist_pending_free _ _ (raws ++ [r]) st'); try done.
  - destruct Hw' as [[] ?]. split; [by constructor | done].
  - rewrite (replay_list_app _ _ _ _ Hrep). cbn. by rewrite Es.
  - by rewrite Hout', Hpend.
Qed.

Lemma flushPending_hist d0 w h : hist d0 w h -> used w <= len d0 ->
  exists w', flushPending w = (w', inr tt) /\ hist d0 w' h /\ pending w' = [] /\ next w' = used w /\ same_ctl w w'.
Proof.
  intros Hh Hcap. unfold used in *. unfold flushPending, flushPending_. rewrite (bind_ok _ _ w w w) by done.
  destruct (id Hh) as (raws & st & _ & _ & _ & _ & _ & Hp & _ & Hs).
  destruct (pending w) as [|r [|r' rs]] eqn:E.
  - exists w. cbn [len]. change (len []) with 0. rewrite Z.add_0_r. by split_and!.
  - change (len [r] =? 0) with false in *. apply (flush_pending_rec d0 w h r [r]); try done.
    + by inversion_clear Hp as [|? ? [[? _] _] _].
    + intros st' Hch Hres. apply plain_step; [|done..]. by inversion_clear Hp as [|? ? [? _] _].
  - replace (len (r :: r' :: rs) =? 0) with false in * by (rewrite len_cons; pose proof (len_nonneg (r' :: rs)); zcase; lia).
    apply (flush_pending_rec d0 w h (batch (r :: r' :: rs)) (r :: r' :: rs)); try done.
    + by apply batch_ok.
    + intros st' Hch Hres. by apply batch_step.
Qed.

Lemma flushQuantum_hist d0 w h : hist d0 w h ->
  exists w', flushQuantum w = (w', inr tt) /\ hist d0 w' h /\ pending w' = pending w /\ next w' = next w /\
    qCount w' = 0 /\ same_ctl w w'.
Proof.
  intros (raws & st & [Hw Hq] & Hrep & Hch & Hres & -> & Hp & Hn & Hs).
  destruct (flushQuantum_spec _ _ _ Hw) as (w' & E & Hw' & Hsame & Hq' & Hnx).
  destruct (id Hsame) as (_ & _ & _ & _ & Hpe & Hpn).
  exists w'. split; [done|]. split; [|split_and!; try done; by apply same_log_ctl in Hsame].
  exists raws, st. rewrite Hpe, Hpn. split; [split; [done|lia]|]. by split_and!.
Qed.

(** ** Records longer than a block *)

Section Chunks.
Variables (r : Record_) (n : Z).
Local Abbreviation T := (len (rPayload r)).
Hypothesis Hn : n = (T + walChunkMaxData - 1) / walChunkMaxData.
Hypothesis Hn16 : n <= 0xFFFF.
Hypothesis Hlong : walMaxPayload < T.
Hypothesis Hid : len (rID r) = 16.
Hypothesis Hidb : bytes_ok (rID r).
Hypothesis Hty : 0 <= rType r <= 9 /\ rType r <> RecCommitBatch /\ walIsCheckpoint (rType r) = false.
Hypothesis Hbytes : bytes_ok (rPayload r).

Definition chunk_data (i : Z) : list Z := sub (rPayload r) (i * 4039) (Z.min ((i + 1) * 4039) T).
Definition chunk_rec (i : Z) : Record_ := {| rID := rID r; rType := rType r; rPayload := chunk_payload r n i |}.

Lemma chunk_count : 1 < n /\ (n - 1) * 4039 < T <= n * 4039 /\ T < 2 ^ 32.
Proof.
  unfold walChunkMaxData, walMaxPayload, walChunkHdrSize in *.
  pose proof (Z.div_mod (T + (4055 - 16) - 1) (4055 - 16) ltac:(lia)) as Hdm. rewrite <- Hn in Hdm.
  pose proof (Z.mod_pos_bound (T + (4055 - 16) - 1) (4055 - 16) ltac:(lia)). lia.
Qed.

Lemma chunk_payload_eq i : 0 <= i < n ->
  chunk_payload r n i = le_put 4 walChunkMagic ++ le_put 2 i ++ le_put 2 n ++ le_put 4 T ++ [rType r] ++ zeros 3 ++ chunk_data i.
Proof.
  intros Hi. pose proof chunk_count as (? & ? & ?). unfold chunk_payload, walChunkMaxData, walMaxPayload, walChunkHdrSize.
  cbv zeta. unwrap. do 6 f_equal. unfold chunk_data. f_equal. zcase; lia.
Qed.

Lemma len_chunk_data i : 0 <= i < n -> len (chunk_data i) = Z.min ((i + 1) * 4039) T - i * 4039.
Proof. intros Hi. pose proof chunk_count as (? & ? & ?). unfold chunk_data. rewrite len_sub; lia. Qed.

Lemma chunk_raw i : 0 <= i < n -> raw_ok (chunk_rec i).
Proof.
  intros Hi. pose proof (len_chunk_data i Hi) as Hl. destruct Hty as (? & _ & _).
  split; cbn [rID rType rPayload chunk_rec]; try done; rewrite chunk_payload_eq by done.
  - rewrite !len_app, !len_le_put, Hl. change (len [rType r]) with 1. change (len (zeros 3)) with 3. lia.
  - repeat apply bytes_ok_app; try apply bytes_ok_le_put; [constructor; [lia | constructor] | apply bytes_ok_zeros | by apply bytes_ok_sub].
Qed.

(** The fields the collector reads. *)
Lemma chunk_fields i : 0 <= i < n -> let p := chunk_payload r n i in
  len p = 16 + len (chunk_data i) /\ le_get 4 (sub p 0 4) = walChunkMagic /\ le_get 2 (sub p 4 6) = i /\
  le_get 2 (sub p 6 8) = n /\ le_get 4 (sub p 8 12) = T /\ rd p 12 = rType r /\ sub p 16 (len p) = chunk_data i.
Proof.
  intros Hi p. pose proof chunk_count as (? & ? & ?).
  assert (Hp : p = le_put 4 walChunkMagic ++ le_put 2 i ++ le_put 2 n ++ le_put 4 T ++ [rType r] ++ zeros 3 ++ chunk_data i)
    by (by apply chunk_payload_eq). clearbody p. subst p.
  pose proof (len_le_put 4 walChunkMagic). pose proof (len_le_put 2 i). pose proof (len_le_put 2 n). pose proof (len_le_put 4 T).
  assert (len [rType r] = 1) by done. assert (len (zeros 3) = 3) by done. pose proof (len_nonneg (chunk_data i)).
  assert (Hl : len (le_put 4 walChunkMagic ++ le_put 2 i ++ le_put 2 n ++ le_put 4 T ++ [rType r] ++ zeros 3 ++ chunk_data i)
    = 16 + len (chunk_data i)) by (rewrite !len_app; lia).
  split; [done|]. rewrite Hl. split_and!.
  - rewrite sub_head by lia. rewrite le_get_put. done.
  - rewrite sub_skip, sub_head by lia. rewrite le_get_put. apply Z.mod_small. lia.
  - rewrite !sub_skip, sub_head by lia. rewrite le_get_put. apply Z.mod_small. lia.
  - rewrite !sub_skip, sub_head by lia. rewrite le_get_put. apply Z.mod_small. lia.
  - rewrite !rd_app_r by lia. by replace (12 - _ - _ - _ - _) with 0 by lia.
  - rewrite !sub_skip by lia. apply sub_all; lia.
Qed.

(** The collector after [i] chunks. *)
Fixpoint chunk_parts (i : nat) : gmap Z (list Z) :=
  match i with O => ∅ | S i' => <[Z.of_nat i' := chunk_data (Z.of_nat i')]> (chunk_parts i') end.
Definition collector (i : nat) : chunkCollector :=
  {| origType := rType r; total := n; totalLen := T; parts := chunk_parts i; count := Z.of_nat i |}.

Lemma chunk_parts_lookup i j : 0 <= j ->
  chunk_parts i !! j = if decide (j < Z.of_nat i) then Some (chunk_data j) else None.
Proof.
  intros Hj. induction i as [|i IH]; cbn [chunk_parts]; [by rewrite decide_False by lia|].
  destruct (decide (j = Z.of_nat i)) as [->|Hne].
  - rewrite lookup_insert_eq. by rewrite decide_True by lia.
  - rewrite lookup_insert_ne by done. rewrite IH. by repeat case_decide; try lia.
Qed.

Lemma assemble_chunks k j : Z.of_nat k + j = n -> 0 <= j ->
  assemble k j (chunk_parts (Z.to_nat n)) (copy_at (zeros T) 0 (sub (rPayload r) 0 (Z.min (j * 4039) T))) (Z.min (j * 4039) T)
  = Some (rPayload r).
Proof.
  pose proof chunk_count as (? & ? & ?). revert j. induction k as [|k IH]; intros j Hk Hj; cbn [assemble].
  - replace (Z.min (j * 4039) T) with T by nia. f_equal. rewrite sub_full. apply copy_at_full. rewrite len_zeros; lia.
  - rewrite len_copy_at, len_zeros by lia. rewrite Z.gtb_ltb, (proj2 (Z.ltb_ge _ _)) by lia.
    rewrite chunk_parts_lookup by lia. rewrite decide_True by lia. cbn [default from_option id].
    pose proof (len_chunk_data j ltac:(lia)) as Hl.
    rewrite copy_at_app by (rewrite ?len_sub; lia).
    replace (sub (rPayload r) 0 (Z.min (j * 4039) T) ++ chunk_data j) with (sub (rPayload r) 0 (Z.min ((j + 1) * 4039) T)).
    + replace (Z.min (j * 4039) T + len (chunk_data j)) with (Z.min ((j + 1) * 4039) T) by lia. apply IH; lia.
    + unfold chunk_data. replace (Z.min (j * 4039) T) with (j * 4039) by lia. apply sub_split; lia.
Qed.

(** What a replay has after the first [i] chunks. *)
Definition chunk_state (h : list Record_) (i : Z) (st : replay_st) : Prop :=
  resumeAt st = last_check h /\
  if i <? n then rout st = h /\ chunks st = (if i =? 0 then ∅ else {[ rID r := collector (Z.to_nat i) ]})
  else rout st = h ++ [r] /\ chunks st = ∅.

Lemma chunk_step h i st : 0 <= i < n -> chunk_state h i st ->
  exists st', replay_record st (chunk_rec i) = inr st' /\ chunk_state h (i + 1) st'.
Proof.
  intros Hi [Hres Hst]. rewrite (proj2 (Z.ltb_lt i n)) in Hst by lia. destruct Hst as [Hout Hch].
  destruct (chunk_fields i Hi) as (Hl & Hm & Hix & Htot & Htl & Hrt & Hdata). pose proof (len_nonneg (chunk_data i)).
  pose proof chunk_count as (? & ? & ?). destruct Hty as (? & Hnb & _).
  unfold replay_record. cbn [rType rPayload chunk_rec]. rewrite (proj2 (Z.eqb_neq _ _)) by done.
  unfold walChunkHdrSize. rewrite Hm, Z.eqb_refl, Hl, Z.geb_leb, (proj2 (Z.leb_le _ _)) by lia. cbn [andb].
  unfold replay_chunk. cbn [rPayload rID chunk_rec]. unfold walChunkHdrSize. rewrite Hix, Htot, Htl, Hrt, Hdata.
  set (col0 := {| origType := rType r; total := n; totalLen := T; parts := ∅; count := 0 |}).
  assert (Hcol : default col0 (chunks st !! rID r) = collector (Z.to_nat i)).
  { rewrite Hch. destruct (Z.eqb_spec i 0) as [->|Hne]; [by rewrite lookup_empty|]. by rewrite lookup_singleton_eq. }
  rewrite Hcol. cbn [parts collector origType total totalLen count]. rewrite chunk_parts_lookup by lia.
  rewrite decide_False by lia. cbn [parts total count origType totalLen]. rewrite Z2Nat.id by lia. unwrap.
  assert (Hnext : <[i := chunk_data i]> (chunk_parts (Z.to_nat i)) = chunk_parts (Z.to_nat (i + 1))).
  { replace (Z.to_nat (i + 1)) with (S (Z.to_nat i)) by lia. cbn [chunk_parts]. by rewrite Z2Nat.id by lia. }
  rewrite Hnext. destruct (Z.eqb_spec (i + 1) n) as [Hend|Hmore].
  - rewrite Hend. pose proof (assemble_chunks (Z.to_nat n) 0 ltac:(lia) ltac:(lia)) as Has.
    replace (Z.min (0 * 4039) T) with 0 in Has by lia. rewrite sub_nil, copy_at_nil in Has. rewrite Has.
    eexists. split; [done|]. split; [done|]. rewrite Z.ltb_irrefl. cbn [rout chunks resumeAt].
    split; [rewrite Hout; by destruct r|]. rewrite Hch. case_match; [by rewrite delete_empty | by rewrite delete_singleton_eq].
  - eexists. split; [done|]. split; [done|]. rewrite (proj2 (Z.ltb_lt _ _)), (proj2 (Z.eqb_neq _ _)) by lia.
    cbn [rout chunks]. split; [done|]. rewrite Hch. unfold collector. rewrite !Z2Nat.id by lia.
    case_match; [by rewrite insert_empty|]. by rewrite insert_singleton_eq.
Qed.

Lemma chunk_start st : chunks st = ∅ -> resumeAt st = last_check (rout st) -> chunk_state (rout st) 0 st.
Proof. intros Hch Hres. pose proof chunk_count. split; [done|]. rewrite (proj2 (Z.ltb_lt 0 n)) by lia. done. Qed.

Lemma writeChunked_hist d0 w h : hist d0 w h -> pending w = [] -> next w + n <= len d0 ->
  exists w', writeChunked r w = (w', inr tt) /\ hist d0 w' (h ++ [r]) /\ pending w' = [] /\ next w' = next w + n /\ same_ctl w w'.
Proof.
  intros Hh Hpend Hcap. pose proof chunk_count as (? & ? & ?). unfold writeChunked. cbv zeta. rewrite <- Hn.
  rewrite Z.gtb_ltb, (proj2 (Z.ltb_ge _ _)) by lia. rewrite (bind_ok _ _ w w tt) by (by eapply hist_room).
  destruct (id Hh) as (raws & st & Hw & Hrep & Hch & Hres & -> & _ & HpN & _). rewrite Hpend, app_nil_r in *.
  destruct (for_m_inv (fun i v => exists raws st', wlog d0 v raws /\ replay_list raws st0 = inr st' /\
      chunk_state (rout st) i st' /\ same_log w v /\ next v = next w + i) 0 n
    (fun i => writeOne {| rID := rID r; rType := rType r; rPayload := chunk_payload r n i |}) w) as (w' & E & Hw').
  - lia.
  - exists raws, st. split_and!; try apply Hw; try done; [by apply chunk_start | lia].
  - intros i v Hi (raws' & st' & Hv & Hrep' & Hst & Hsame & Hnx).
    pose proof (proj1 (wl_next _ _ _ (proj1 Hv))).
    destruct (writeOne_spec _ _ _ (chunk_rec i) Hv (chunk_raw i Hi) ltac:(lia)) as (v' & E & Hv' & Hsame' & Hnx').
    exists v'. split; [done|]. destruct (chunk_step _ _ _ Hi Hst) as (st'' & Es & Hst'').
    exists (raws' ++ [chunk_rec i]), st''. split; [done|]. split; [|split; [done|split; [eauto|lia]]].
    rewrite (replay_list_app _ _ _ _ Hrep'). cbn [replay_list]. by rewrite Es.
  - exists w'. split; [done|]. destruct Hw' as (raws' & st' & Hv & Hrep' & [Hres' Hst] & Hsame & Hnx).
    rewrite Z.ltb_irrefl in Hst. destruct Hst as [Hout Hch']. destruct (id Hsame) as (_ & _ & _ & _ & Hpe & Hpn).
    split; [|split_and!; [by rewrite Hpe | done | by apply same_log_ctl in Hsame..]].
    eapply (hist_pending_free _ _ raws' st'); try done; [|by rewrite Hpe | by rewrite Hpn, HpN].
    rewrite Hres', Hout, last_check_none; [done|]. constructor; [by apply Hty|constructor].
Qed.
End Chunks.

(** ** Appending *)

Definition chunks_of (r : Record_) : Z := (len (rPayload r) + walChunkMaxData - 1) / walChunkMaxData.

(** A record the log takes whether or not a pack is open: legal fields, not a
    batch, and either a checkpoint of one block, or short enough for a pack (4034
    bytes), or in chunks; a payload of one block is not mistaken for a chunk. *)
Record rec_ok (r : Record_) : Prop := {
  ro_id : len (rID r) = 16 /\ bytes_ok (rID r);
  ro_type : 0 <= rType r <= 9 /\ rType r <> RecCommitBatch;
  ro_bytes : bytes_ok (rPayload r);
  ro_len : if walIsCheckpoint (rType r) then len (rPayload r) <= 4055 /\ chunk_like (rPayload r) = false
           else if len (rPayload r) <=? 4055 then len (rPayload r) <= 4034 /\ chunk_like (rPayload r) = false
           else chunks_of r <= 0xFFFF;
}.

(** The blocks a record can take. *)
Definition cost (r : Record_) : Z :=
  if walIsCheckpoint (rType r) then 1 else if len (rPayload r) <=? 4055 then 1 else chunks_of r.

Lemma cost_pos r : 1 <= cost r.
Proof.
  unfold cost, chunks_of, walChunkMaxData, walMaxPayload, walChunkHdrSize. repeat case_match; try lia.
  apply Z.leb_gt in H1. apply Z.div_le_lower_bound; lia.
Qed.

Lemma rec_ok_plain r : rec_ok r -> walIsCheckpoint (rType r) = true \/ len (rPayload r) <= 4055 -> plain r.
Proof.
  intros [[Hid Hib] [Ht Hb] Hpb Hl] Hshort. assert (len (rPayload r) <= 4055 /\ chunk_like (rPayload r) = false) as [? ?].
  { destruct (walIsCheckpoint (rType r)); [done|]. destruct Hshort as [|Hs]; [done|].
    rewrite (proj2 (Z.leb_le _ _)) in Hl by done. split; [lia | apply Hl]. }
  split; [by constructor | done].
Qed.

(** What every operation of a session keeps. *)
Definition step_ok (d0 : list block) (w : WAL) (h : list Record_) (n : Z) (m : M unit) : Prop :=
  exists w', m w = (w', inr tt) /\ hist d0 w' h /\ used w' <= used w + n /\ key w' = key w.

Lemma used_bounds w : next w <= used w <= next w + 1.
Proof. unfold used. zcase; lia. Qed.

Lemma used_nil w : pending w = [] -> used w = next w.
Proof. unfold used. intros ->. rewrite (len_nil (A:=Record_)). cbn. lia. Qed.

Lemma writeOne_hist d0 w h r : hist d0 w h -> pending w = [] -> plain r -> next w + 1 <= len d0 ->
  exists w', writeOne r w = (w', inr tt) /\ hist d0 w' (h ++ [r]) /\ pending w' = [] /\ next w' = next w + 1 /\ same_ctl w w'.
Proof.
  intros Hh Hp Hr Hcap. destruct (hist_write d0 w h r [r] Hh Hp) as (w' & E & Hh' & Hsame & Hn); [apply Hr | done | |].
  - intros st. by apply plain_step.
  - exists w'. destruct (id Hsame) as (_ & _ & _ & _ & Hpe & _). split_and!; try done; [by rewrite Hpe | by apply same_log_ctl in Hsame..].
Qed.

(** Pending records survive a write only through [flushPending]; outside packs
    a record is written directly, before those that are pending. *)
Definition in_order (w : WAL) : Prop := packDepth w > 0 \/ pending w = [].

Lemma appendPacked_hist d0 w h r : hist d0 w h -> packable r -> used w + 1 <= len d0 ->
  exists w', appendPacked r w = (w', inr tt) /\ hist d0 w' (h ++ [r]) /\ used w' <= used w + 1 /\ same_ctl w w'.
Proof.
  intros Hh Hr Hcap. pose proof (used_bounds w). pose proof Hr as (_ & _ & Hsz). unfold appendPacked.
  rewrite Z.gtb_ltb, (proj2 (Z.ltb_ge _ _)) by done.
  rewrite (bind_ok _ _ w w tt) by (eapply hist_room; [done|lia]). rewrite (bind_ok _ _ w w w) by done.
  assert (Hadd : forall v, hist d0 v h -> (pendingN v + packedRecSize r <= walMaxPayload) ->
    hist d0 (set_pending v (pending v ++ [r]) (pendingN v + packedRecSize r)) (h ++ [r])).
  { intros v (raws & st & [[] ?] & Hrep & Hch & Hres & -> & Hp & HN & Hs) Hfit. exists raws, st. cbn [pending pendingN set_pending].
    split; [split; [by constructor | done]|]. rewrite sizes_snoc, <- HN. split_and!; try done; [by rewrite app_assoc|].
    apply Forall_app_2; [done | by constructor]. }
  destruct (Z.ltb_spec 0 (len (pending w))) as [Hne|Hnil]; cbn [andb].
  - destruct (Z.gtb_spec (pendingN w + packedRecSize r) walMaxPayload) as [Hfull|Hfits].
    + destruct (flushPending_hist d0 w h Hh ltac:(lia)) as (w1 & E1 & Hh1 & Hp1 & Hn1 & Hs1).
      rewrite (bind_ok _ _ w w1 tt).
      2:{ rewrite (bind_ok _ _ _ _ _ E1). eapply hist_room; [done|lia]. }
      eexists. split; [done|]. split; [|split; [|done]].
      * apply Hadd; [done|]. destruct Hh1 as (? & ? & _ & _ & _ & _ & _ & _ & HN & _). rewrite HN, Hp1. cbn [sizes fold_right]. lia.
      * unfold used at 1. cbn [next pending set_pending]. rewrite Hp1. cbn [app]. rewrite len_single. cbn [Z.eqb]. lia.
    + rewrite (bind_ok _ _ w w tt) by done. eexists. split; [done|]. split; [by apply Hadd|]. split; [|done].
      unfold used. cbn [next pending set_pending]. zcases.
  - rewrite (bind_ok _ _ w w tt) by done. eexists. split; [done|]. assert (Hp : pending w = []).
    { apply len_nil_inv. pose proof (len_nonneg (pending w)). lia. }
    split; [|split; [|done]].
    + apply Hadd; [done|]. destruct Hh as (? & ? & _ & _ & _ & _ & _ & _ & HN & _). rewrite HN, Hp. cbn [sizes fold_right]. lia.
    + unfold used. cbn [next pending set_pending]. rewrite Hp. cbn [app]. rewrite len_single, (len_nil (A:=Record_)). cbn [Z.eqb]. lia.
Qed.

Lemma Append_hist d0 w h r : hist d0 w h -> in_order w -> rec_ok r -> used w + cost r <= len d0 ->
  exists w', Append r w = (w', inr tt) /\ hist d0 w' (h ++ [r]) /\ in_order w' /\ used w' <= used w + cost r /\
    key w' = key w /\ packDepth w' = packDepth w.
Proof.
  intros Hh Hord Hr Hcap. pose proof (used_bounds w). pose proof (cost_pos r). unfold Append.
  rewrite (bind_ok _ _ w w tt) by (by eapply hist_ready).
  rewrite (bind_ok _ _ w w tt) by (eapply hist_room; [done|lia]).
  destruct (flushPending_hist d0 w h Hh ltac:(lia)) as (w1 & E1 & Hh1 & Hp1 & Hn1 & (Hk1 & _ & _ & Hd1)).
  pose proof (rec_ok_plain r Hr) as Hplain. pose proof (ro_len r Hr) as Hl. unfold cost in *.
  destruct (walIsCheckpoint (rType r)) eqn:Ec; [|unfold walMaxPayload; destruct (Z.leb_spec (len (rPayload r)) 4055) as [Hs|Hs]].
  - rewrite (bind_ok _ _ _ _ _ E1).
    destruct (writeOne_hist d0 w1 h r Hh1 Hp1 (Hplain (or_introl eq_refl)) ltac:(lia)) as (w2 & E2 & Hh2 & Hp2 & Hn2 & (Hk2 & _ & _ & Hd2)).
    exists w2. rewrite (used_nil w2 Hp2). split_and!; try done; [by right | lia | congruence | congruence].
  - rewrite Z.gtb_ltb, (proj2 (Z.ltb_ge _ _)) by lia. rewrite (bind_ok _ _ w w w) by done.
    destruct (Z.gtb_spec (packDepth w) 0) as [Hd|Hd].
    + destruct (appendPacked_hist d0 w h r Hh) as (w2 & E2 & Hh2 & Hu2 & (Hk2 & _ & _ & Hd2)); [|lia|].
      { split; [auto|]. split; [done|]. unfold packedRecSize, walBatchHdr, walMaxPayload. lia. }
      exists w2. split_and!; try done. left. lia.
    + destruct Hord as [|Hp]; [lia|].
      destruct (writeOne_hist d0 w h r Hh Hp (Hplain (or_intror Hs)) ltac:(lia)) as (w2 & E2 & Hh2 & Hp2 & Hn2 & (Hk2 & _ & _ & Hd2)).
      exists w2. rewrite (used_nil w2 Hp2). split_and!; try done; [by right | lia].
  - rewrite Z.gtb_ltb, (proj2 (Z.ltb_lt _ _)) by lia. rewrite (bind_ok _ _ _ _ _ E1).
    destruct Hr as [[Hid Hib] [Hty Htb] Hpb _].
    destruct (writeChunked_hist r (chunks_of r) eq_refl Hl Hs Hid Hib (conj Hty (conj Htb Ec)) Hpb d0 w1 h Hh1 Hp1 ltac:(lia))
      as (w2 & E2 & Hh2 & Hp2 & Hn2 & (Hk2 & _ & _ & Hd2)).
    exists w2. rewrite (used_nil w2 Hp2). split_and!; try done; [by right | lia | congruence | congruence].
Qed.

Lemma hist_same_blocks d0 w w' h : hist d0 w h -> dev w' = dev w -> key w' = key w -> next w' = next w ->
  qBuf w' = qBuf w -> qLBA w' = qLBA w -> qCount w' = qCount w -> pending w' = pending w -> pendingN w' = pendingN w ->
  hist d0 w' h.
Proof.
  intros (raws & st & [[] ?] & Hrest) Hd Hk Hn Hb Hl Hc Hp HN. exists raws, st. rewrite Hp, HN. split; [|done].
  split; [|by rewrite Hc]. constructor; by rewrite ?Hd, ?Hk, ?Hn, ?Hb, ?Hl, ?Hc.
Qed.

Lemma Flush_hist d0 w h : hist d0 w h -> used w <= len d0 ->
  exists w', Flush w = (w', inr tt) /\ hist d0 w' h /\ pending w' = [] /\ qCount w' = 0 /\ next w' = used w /\ same_ctl w w'.
Proof.
  intros Hh Hcap. unfold Flush. rewrite (bind_ok _ _ w w tt) by (by eapply hist_ready).
  destruct (flushPending_hist d0 w h Hh Hcap) as (w1 & E1 & Hh1 & Hp1 & Hn1 & Hs1). rewrite (bind_ok _ _ _ _ _ E1).
  destruct (flushQuantum_hist d0 w1 h Hh1) as (w2 & E2 & Hh2 & Hp2 & Hn2 & Hq2 & Hs2). rewrite (bind_ok _ _ _ _ _ E2).
  rewrite (bind_ok _ _ w2 w2 tt) by (by eapply hist_ready). eexists. split; [done|].
  split; [by apply (hist_same_blocks d0 w2)|]. cbn [pending qCount next set_synced].
  split_and!; [congruence | done | congruence | by eapply same_ctl_trans in Hs2; [|exact Hs1]..].
Qed.

Lemma ReplayResumable_hist d0 w h : hist d0 w h -> used w <= len d0 ->
  exists w', ReplayResumable w = (w', inr (h, last_check h)) /\ hist d0 w' h.
Proof.
  intros Hh Hcap. unfold ReplayResumable. rewrite (bind_ok _ _ w w tt) by (by eapply hist_ready).
  destruct (flushPending_hist d0 w h Hh Hcap) as (w1 & E1 & Hh1 & Hp1 & _). rewrite (bind_ok _ _ _ _ _ E1).
  destruct (flushQuantum_hist d0 w1 h Hh1) as (w2 & E2 & Hh2 & Hp2 & _ & Hq2 & _). rewrite (bind_ok _ _ _ _ _ E2).
  rewrite (bind_ok _ _ w2 w2 w2) by done.
  destruct (id Hh2) as (raws & st & [Hw _] & Hrep & _ & Hres & -> & _). rewrite Hp2, Hp1, app_nil_r in *.
  pose proof (proj1 (wl_next _ _ _ Hw)) as Hn. pose proof (len_nonneg raws).
  rewrite (bind_ok _ _ w2 w2 st).
  2:{ rewrite (replay_from_eq d0 w2 raws) by (done || lia). change (drop (Z.to_nat 0) raws) with raws. f_equal. exact Hrep. }
  exists w2. split; [unfold ret; by rewrite Hres | done].
Qed.

(** ** Sessions *)

Inductive wal_op := OAppend (r : Record_) | OBegin | OEnd | OFlush | OSync.

Definition run_op (o : wal_op) : M unit :=
  match o with
  | OAppend r => Append r
  | OBegin => BeginPack
  | OEnd => EndPack
  | OFlush => Flush
  | OSync => SyncIfDirty
  end.
Fixpoint run (ops : list wal_op) : M unit :=
  match ops with [] => ret tt | o :: ops' => run_op o ;;; run ops' end.

Definition op_rec (o : wal_op) : list Record_ := match o with OAppend r => [r] | _ => [] end.
Definition op_cost (o : wal_op) : Z := match o with OAppend r => cost r | _ => 0 end.
Definition op_ok (o : wal_op) : Prop := match o with OAppend r => rec_ok r | _ => True end.
Definition costs (ops : list wal_op) : Z := fold_right (fun o n => op_cost o + n) 0 ops.

Lemma costs_nonneg ops : 0 <= costs ops.
Proof. induction ops as [|[r| | | |] ops IH]; cbn; try done. pose proof (cost_pos r). unfold costs in IH. lia. Qed.

Lemma run_op_hist d0 w h o : hist d0 w h -> in_order w -> 0 <= packDepth w -> op_ok o -> used w + op_cost o <= len d0 ->
  exists w', run_op o w = (w', inr tt) /\ hist d0 w' (h ++ op_rec o) /\ in_order w' /\ 0 <= packDepth w' /\
    used w' <= used w + op_cost o /\ key w' = key w.
Proof.
  intros Hh Hord Hd Ho Hcap.
  assert (Hflush : forall v, hist d0 v h -> used v <= len d0 -> 0 <= packDepth v -> exists w', Flush v = (w', inr tt) /\
    hist d0 w' (h ++ []) /\ in_order w' /\ 0 <= packDepth w' /\ used w' <= used v /\ key w' = key v).
  { intros v Hv Hc Hd'. destruct (Flush_hist d0 v h Hv Hc) as (w' & E & Hh' & Hp & _ & Hn & (Hk & _ & _ & Hdp)).
    exists w'. rewrite app_nil_r, (used_nil w' Hp). split_and!; try done; [by right | lia | lia]. }
  destruct o as [r| | | |]; cbn [run_op op_rec op_cost op_ok] in *.
  - destruct (Append_hist d0 w h r Hh Hord Ho Hcap) as (w' & E & Hh' & Ho' & Hu & Hk & Hdp). exists w'. split_and!; try done. lia.
  - eexists. split; [done|]. rewrite app_nil_r. split; [by apply (hist_same_blocks d0 w)|]. split; [left; cbn; lia|].
    split_and!; cbn; try done; [lia | unfold used; cbn; lia].
  - unfold EndPack. set (v := leave_pack w). rewrite (bind_ok _ _ w v tt) by done. rewrite (bind_ok _ _ v v v) by done.
    assert (Hv : hist d0 v h /\ used v = used w /\ key v = key w /\ 0 <= packDepth v).
    { unfold v, leave_pack. destruct (Z.gtb_spec (packDepth w) 0); [|done].
      split; [by apply (hist_same_blocks d0 w)|]. split_and!; try done. cbn. lia. }
    destruct Hv as (Hhv & Huv & Hkv & Hdv). destruct (Z.gtb_spec (packDepth v) 0) as [Hd'|Hd'].
    + exists v. rewrite app_nil_r. split_and!; try done; [left; lia | lia].
    + destruct (Hflush v Hhv ltac:(lia) Hdv) as (w' & E & Hh' & Ho' & Hdp & Hu & Hk). exists w'.
      split_and!; try done; [lia | congruence].
  - destruct (Hflush w Hh ltac:(lia) Hd) as (w' & E & Hh' & Ho' & Hdp & Hu & Hk). exists w'. split_and!; try done. lia.
  - unfold SyncIfDirty. rewrite (bind_ok _ _ w w w) by done. destruct (_ || negb (synced w)).
    + destruct (Hflush w Hh ltac:(lia) Hd) as (w' & E & Hh' & Ho' & Hdp & Hu & Hk). exists w'. split_and!; try done. lia.
    + exists w. rewrite app_nil_r. split_and!; try done. lia.
Qed.

Lemma run_hist d0 ops w h : hist d0 w h -> in_order w -> 0 <= packDepth w -> Forall op_ok ops -> used w + costs ops <= len d0 ->
  exists w', run ops w = (w', inr tt) /\ hist d0 w' (h ++ concat (map op_rec ops)) /\ used w' <= used w + costs ops /\ key w' = key w.
Proof.
  intros Hh Hord Hd Hops. revert w h Hh Hord Hd. induction Hops as [|o ops Ho _ IH]; intros w h Hh Hord Hd Hcap; cbn [run map concat].
  - exists w. rewrite app_nil_r. split_and!; try done. cbn. lia.
  - pose proof (costs_nonneg ops). assert (Hc : costs (o :: ops) = op_cost o + costs ops) by done.
    destruct (run_op_hist d0 w h o Hh Hord Hd Ho ltac:(lia)) as (w1 & E1 & Hh1 & Ho1 & Hd1 & Hu1 & Hk1).
    rewrite (bind_ok _ _ _ _ _ E1). destruct (IH w1 _ Hh1 Ho1 Hd1 ltac:(lia)) as (w2 & E2 & Hh2 & Hu2 & Hk2).
    exists w2. rewrite app_assoc. split_and!; try done; [lia | congruence].
Qed.

(** ** Opening a device *)

(** The scan of a device whose first blocks are [raws] and whose other blocks
    are not blocks of a log. *)
Definition scanned (d : Device) (k : list Z) (raws : list Record_) : Prop :=
  dOpen d = true /\ dPoisoned d = false /\ maxLBA d < 2 ^ 63 /\ len raws <= maxLBA d /\ Forall raw_ok raws /\
  take (length raws) (dBlocks d) = map (sealed k) raws /\
  Forall (fun b => has_magic b = false) (drop (length raws) (dBlocks d)).

Lemma scanned_in d k raws i r : scanned d k raws -> 0 <= i -> raws !! Z.to_nat i = Some r ->
  i < maxLBA d /\ dBlocks d !! Z.to_nat i = Some (sealed k r) /\ raw_ok r.
Proof.
  intros (_ & _ & _ & Hcap & Hraws & Htake & _) Hi Hr. pose proof (lookup_lt_Some _ _ _ Hr).
  split_and!; [unfold len in *; lia | | by eapply Forall_lookup_1].
  rewrite <- (lookup_take_lt _ (length raws)) by lia. by rewrite Htake, list_lookup_fmap, Hr.
Qed.

Lemma scanned_out d k raws i : scanned d k raws -> len raws <= i < maxLBA d ->
  exists b, dBlocks d !! Z.to_nat i = Some b /\ has_magic b = false.
Proof.
  intros (_ & _ & _ & _ & _ & _ & Hrest) Hi. unfold len, maxLBA, len in *.
  destruct (lookup_lt_is_Some_2 (dBlocks d) (Z.to_nat i)) as [b Hb]; [lia|]. exists b. split; [done|].
  apply (Forall_lookup_1 _ _ (Z.to_nat i - length raws)%nat b Hrest). rewrite lookup_drop. rewrite <- Hb. f_equal. lia.
Qed.

Lemma median_none k raws n lba w : scanned (dev w) k raws -> len raws <= lba -> lba + Z.of_nat n = maxLBA (dev w) ->
  median_from n lba w = (w, inr tt).
Proof.
  intros Hs. pose proof Hs as (Ho & Hp & Hmax & _). pose proof (len_nonneg raws).
  revert lba. induction n as [|n IH]; intros lba Hlba Hend; cbn [median_from]; [done|].
  destruct (scanned_out _ _ _ lba Hs ltac:(lia)) as (b & Hb & Hm).
  rewrite (bind_ok _ _ _ _ _ (Read_ok w lba Ho Hp ltac:(lia) Hmax)). rewrite (bind_ok _ _ w w w) by done.
  rewrite Hb. cbn [default from_option id]. rewrite Hm. rewrite (bind_ok _ _ w w tt) by done. apply IH; lia.
Qed.

(** The fields a scan changes are the tip and the checkpoint. *)
Definition rescanned (w w' : WAL) : Prop :=
  dev w' = dev w /\ key w' = key w /\ packDepth w' = packDepth w /\ pending w' = pending w /\ pendingN w' = pendingN w /\
  qBuf w' = qBuf w /\ qLBA w' = qLBA w /\ qCount w' = qCount w.

Lemma scan_from_eq raws n lba w : scanned (dev w) (key w) raws -> next w = lba -> 0 <= lba <= len raws ->
  lba + Z.of_nat n = maxLBA (dev w) ->
  exists w', scan_from n lba (maxLBA (dev w)) w = (w', inr tt) /\ rescanned w w' /\ next w' = len raws.
Proof.
  revert lba w. induction n as [|n IH]; intros lba w Hs Hn Hlba Hend; cbn [scan_from].
  - exists w. split; [done|]. split; [by split_and!|]. destruct Hs as (_ & _ & _ & ? & _). lia.
  - pose proof Hs as (Ho & Hp & Hmax & Hcap & _).
    rewrite (bind_ok _ _ _ _ _ (Read_ok w lba Ho Hp ltac:(lia) Hmax)).
    destruct (decide (lba = len raws)) as [->|Hne].
    + destruct (scanned_out _ _ _ (len raws) Hs ltac:(lia)) as (b & Hb & Hm). rewrite Hb. cbn [default from_option id].
      rewrite Hm. cbn [negb]. unfold checkMedianRupture. rewrite (median_none (key w) raws) by (done || lia).
      exists w. by split_and!.
    + destruct (lookup_lt_is_Some_2 raws (Z.to_nat lba)) as [r Hr]; [unfold len in *; lia|].
      destruct (scanned_in _ _ _ lba r Hs ltac:(lia) Hr) as (Hlt & Hb & Hrok). rewrite Hb. cbn [default from_option id].
      destruct (sealed_fields (key w) r Hrok) as (Hm & _ & _ & _). rewrite Hm. cbn [negb].
      rewrite (bind_ok _ _ w w true) by (unfold lift; by rewrite unpacks_sealed). cbn [negb].
      set (w1 := if walIsCheckpoint (rd (sealed (key w) r) walTypeOff) then set_check w lba true else w).
      rewrite (bind_ok _ _ w w1 tt) by done.
      assert (Hw1 : rescanned w w1) by (unfold w1; case_match; by split_and!).
      rewrite (bind_ok _ _ w1 (set_tip w1 (lba + 1) (lsn w1)) tt) by done.
      destruct Hw1 as (Hd & Hk & Hrest).
      destruct (IH (lba + 1) (set_tip w1 (lba + 1) (lsn w1))) as (w2 & E & Hw2 & Hn2).
      * cbn. by rewrite Hd, Hk.
      * done.
      * lia.
      * cbn. rewrite Hd. lia.
      * cbn [dev set_tip] in E. rewrite Hd in E. exists w2. split; [done|]. split; [|done].
        destruct Hw2 as (? & ? & ? & ? & ? & ? & ? & ?), Hrest as (? & ? & ? & ? & ? & ?). cbn in *. split_and!; congruence.
Qed.

Lemma OpenWAL_eq d k raws : scanned d k raws ->
  exists w, OpenWAL d k = inr w /\ dev w = d /\ key w = k /\ next w = len raws /\ qLBA w = len raws /\ qCount w = 0 /\
    pending w = [] /\ pendingN w = 0 /\ qBuf w = replicate 32 (zeros LBASize).
Proof.
  intros Hs. unfold OpenWAL, scanTip. set (w0 := newWAL d k). rewrite (bind_ok _ _ w0 w0 w0) by done.
  set (w1 := set_check (set_tip w0 0 (lsn w0)) 0 false). rewrite (bind_ok _ _ w0 w1 tt) by done.
  pose proof (len_nonneg raws).
  destruct (scan_from_eq raws (Z.to_nat (maxLBA d)) 0 w1) as (w2 & E & (Hd & Hk & _ & Hp & HN & Hb & _ & Hc) & Hn);
    [done | done | lia | cbn; unfold maxLBA, len; lia |].
  change (maxLBA (dev w1)) with (maxLBA (dev w0)) in E. change (dev w0) with d in *. rewrite (bind_ok _ _ _ _ _ E).
  eexists. split; [done|]. cbn. split_and!; first [congruence | etrans; [eassumption | reflexivity]].
Qed.

Lemma zeros_block : block_ok (zeros LBASize).
Proof. split; [by rewrite len_zeros | apply bytes_ok_zeros]. Qed.

Lemma no_magic_zeros : has_magic (zeros LBASize) = false.
Proof. done. Qed.

(** A flushed log whose device had no blocks of a log opens on the same history. *)
Lemma reopen_hist d0 w h : hist d0 w h -> pending w = [] -> qCount w = 0 -> Forall (fun b => has_magic b = false) d0 ->
  exists w', OpenWAL (dev w) (key w) = inr w' /\ hist d0 w' h /\ pending w' = [] /\ next w' = next w.
Proof.
  intros (raws & st & [Hw _] & Hrep & Hch & Hres & -> & _ & _ & _) Hp Hq Hd0.
  destruct (id Hw) as [[Ho Hpo] [Hsz Hd] [Hn Hcap] [_ [_ Hsum]] _ Hraws Hblocks Htail].
  rewrite Hq in *. cbn [Z.to_nat take] in Hblocks. rewrite app_nil_r in Hblocks.
  rewrite Z.add_0_r in Hsum. rewrite Hsum, Hn in Hblocks. rewrite Hn in Htail. pose proof (wlog_max _ _ _ Hw) as Hmax.
  assert (Hlen : Z.to_nat (len raws) = length raws) by (unfold len; lia). rewrite Hlen in *.
  destruct (OpenWAL_eq (dev w) (key w) raws) as (w' & E & Hdev & Hkey & Hn' & Hl' & Hc' & Hp' & HN' & Hb').
  { split_and!; try done; [lia | lia |]. rewrite Htail. by apply Forall_drop. }
  exists w'. split; [done|]. split; [|split; [done | congruence]].
  eapply (hist_pending_free _ _ raws st); try done; [|by rewrite Hp, app_nil_r].
  pose proof (len_nonneg raws). split; [|lia]. constructor; rewrite ?Hdev, ?Hkey, ?Hn', ?Hl', ?Hc', ?Hb'; try done; try lia.
  - split; [done|]. apply Forall_replicate, zeros_block.
  - rewrite Hlen. cbn [Z.to_nat take]. by rewrite app_nil_r.
  - by rewrite Hlen.
Qed.

(** ** The property *)

(** C1: what a session logged is what a replay gives, from the open log and after
    a reopening.  On a fresh log, for every sequence of appends (of records in one
    block, in packs, or in chunks), nested packs and flushes that fits the device and
    whose records satisfy [rec_ok], every operation succeeds; after a flush,
    [ReplayResumable] returns the appended records in their order with the index
    after the last checkpoint; and [OpenWAL] of the device accepts it, finds the same
    tip, and replays the same.
    [rec_ok] leaves out: payloads of 16 to 4055 bytes that begin with the chunk
    magic C2CK (they are logged, and misread as chunks), payloads of 4035 to 4055
    bytes that are not checkpoints (an append to a pack fails on them), checkpoints
    longer than 4055 bytes, payloads of more than 65535 chunks, and records of type
    [RecCommitBatch], the type of a pack itself. *)
Theorem session_replayed n k ops :
  0 <= n < 2 ^ 63 -> Forall op_ok ops -> costs ops <= n ->
  let h := concat (map op_rec ops) in
  exists w1 w2 w3 w4,
    (run ops ;;; Flush) (CreateWAL n k) = (w1, inr tt) /\
    ReplayResumable w1 = (w2, inr (h, last_check h)) /\
    OpenWAL (dev w1) k = inr w3 /\ next w3 = next w1 /\
    ReplayResumable w3 = (w4, inr (h, last_check h)).
Proof.
  intros Hn Hops Hcost h. set (d0 := replicate (Z.to_nat n) (zeros LBASize)).
  assert (Hlen : len d0 = n) by (unfold d0, len; rewrite length_replicate; lia).
  assert (Hinit : hist d0 (CreateWAL n k) []).
  { eapply (hist_pending_free _ _ [] st0); try done. split; [|cbn; lia].
    constructor; cbn; try done; try lia; 
      [split; [done|lia] | split; [done|]; change (0 <= len d0); lia | split; [done|]; apply (Forall_replicate block_ok 32), zeros_block]. }
  destruct (run_hist d0 ops (CreateWAL n k) [] Hinit) as (wa & Ea & Ha & Hua & Hka);
    [by right | done | done | rewrite (used_nil (CreateWAL n k) eq_refl); cbn; lia |].
  rewrite (used_nil (CreateWAL n k) eq_refl) in Hua. cbn [next CreateWAL newWAL app] in Hua, Ha. fold h in Ha.
  destruct (Flush_hist d0 wa h Ha ltac:(lia)) as (w1 & E1 & H1 & Hp1 & Hq1 & Hn1 & (Hk1 & _)).
  assert (Hu1 : used w1 <= len d0) by (rewrite (used_nil w1 Hp1); lia).
  destruct (ReplayResumable_hist d0 w1 h H1 Hu1) as (w2 & E2 & _).
  destruct (reopen_hist d0 w1 h H1 Hp1 Hq1) as (w3 & E3 & H3 & Hp3 & Hn3).
  { apply Forall_replicate, no_magic_zeros. }
  destruct (ReplayResumable_hist d0 w3 h H3) as (w4 & E4 & _).
  { rewrite (used_nil w3 Hp3), Hn3, <- (used_nil w1 Hp1). done. }
  exists w1, w2, w3, w4. rewrite (bind_ok _ _ _ _ _ Ea). split_and!; try done.
  rewrite <- E3. f_equal. rewrite Hk1, Hka. done.
Qed.

End Log.

(** A seal for examples: the sum of the bytes. *)
Definition sum_seal : Seal.
Proof.
  refine {| walTag := fun k m => le_put 16 (fold_right Z.add 0 m) |}; intros; [apply len_le_put | apply bytes_ok_le_put].
Defined.

Definition put_rec (key : Z) (pl : list Z) : Record_ := {| rID := zeros 15 ++ [key]; rType := 1; rPayload := pl |}.

Lemma put_rec_ok b pl : 0 <= b < 256 -> bytes_ok pl -> len pl <= 4034 -> chunk_like pl = false -> rec_ok (put_rec b pl).
Proof.
  intros Hb Hpl Hl Hc. split; cbn [rID rType rPayload put_rec].
  - split; [done|]. apply bytes_ok_app; [apply bytes_ok_zeros | by constructor; [|constructor]].
  - split; [lia | done].
  - done.
  - change (walIsCheckpoint 1) with false. cbv iota. rewrite (proj2 (Z.leb_le _ _)) by lia. done.
Qed.

(** A pack of two records, a record of two chunks, and a third record. *)
Lemma session_replayed_witness :
  let ops := [OBegin; OAppend (put_rec 1 [5]); OAppend (put_rec 2 [6; 7]); OEnd;
              OAppend (put_rec 3 (zeros 5000)); OAppend (put_rec 4 [])] in
  let h := [put_rec 1 [5]; put_rec 2 [6; 7]; put_rec 3 (zeros 5000); put_rec 4 []] in
  exists w1 w2 w3 w4,
    (bind (run (H:=sum_seal) ops) (fun _ => Flush (H:=sum_seal))) (CreateWAL 8 (zeros 32)) = (w1, inr tt) /\
    ReplayResumable (H:=sum_seal) w1 = (w2, inr (h, 0)) /\
    OpenWAL (H:=sum_seal) (dev w1) (zeros 32) = inr w3 /\ next w3 = next w1 /\
    ReplayResumable (H:=sum_seal) w3 = (w4, inr (h, 0)).
Proof.
  apply (session_replayed (H:=sum_seal) 8 (zeros 32)
    [OBegin; OAppend (put_rec 1 [5]); OAppend (put_rec 2 [6; 7]); OEnd; OAppend (put_rec 3 (zeros 5000)); OAppend (put_rec 4 [])]).
  - lia.
  - constructor; [exact I|].
    constructor; [apply put_rec_ok; [lia | repeat constructor; lia | discriminate | reflexivity]|].
    constructor; [apply put_rec_ok; [lia | repeat constructor; lia | discriminate | reflexivity]|].
    constructor; [exact I|].
    constructor.
    { split; [split; [reflexivity | apply bytes_ok_app; [apply bytes_ok_zeros | repeat constructor; lia]]
             | split; [cbn; lia | discriminate] | apply bytes_ok_zeros | discriminate]. }
    constructor; [apply put_rec_ok; [lia | constructor | discriminate | reflexivity] | constructor].
  - discriminate.
Defined.

End WalReplay.
