(* ===== verification/WalRepair.v ===== *)
(** * Holes in the log (src/pkg/c2db/wal.go)

    A block that is not a block of the log, with a sealed block behind it, is a
    median rupture: [OpenWAL] refuses the log, and [repairMedianRupture] cuts it at
    the hole, hands over what it discards, and leaves a log that opens. *)

From S2P Require Import Prelude PageKernel WalBlock Wal WalReplay.
Import PageKernel WalBlock Wal WalReplay.

Local Open Scope Z_scope.

Module WalRepair.

Section Log.
Context `{Seal}.

(** A sealed block of the log under the key [k]. *)
Definition live (k : list Z) (b : block) : Prop := has_magic b = true /\ unpacks b = inr true /\ verifyWAL b k = true.

(** An open device of well-sized blocks: the records [raws], a block that is not
    one of the log, and behind it a live one. *)
Record holed (d : Device) (k : list Z) (raws : list Record_) : Prop := {
  ho_open : dOpen d = true /\ dPoisoned d = false;
  ho_max : maxLBA d < 2 ^ 63;
  ho_blocks : Forall block_ok (dBlocks d);
  ho_raws : Forall raw_ok raws;
  ho_prefix : take (length raws) (dBlocks d) = map (sealed k) raws;
  ho_hole : exists b, dBlocks d !! length raws = Some b /\ has_magic b = false;
  ho_live : exists j b, (length raws < j)%nat /\ dBlocks d !! j = Some b /\ live k b;
}.

Lemma sealed_live k r : raw_ok r -> live k (sealed k r).
Proof. intros Hr. split; [by apply sealed_fields | split; [by apply unpacks_sealed | by apply sealed_verifies]]. Qed.

Lemma unpacks_total b : block_ok b -> exists ok, unpacks b = inr ok.
Proof.
  intros Hb. unfold unpacks, LBASize. rewrite Db_wal_unpack_eq by (done || left; done). cbv zeta.
  destruct (_ && _); eexists; done.
Qed.

Section Holed.
Variables (d : Device) (k : list Z) (raws : list Record_).
Hypothesis Hd : holed d k raws.

Lemma holed_read w lba : dev w = d -> 0 <= lba < maxLBA d -> exists b,
  Read lba w = (w, inr b) /\ dBlocks d !! Z.to_nat lba = Some b /\ block_ok b.
Proof.
  intros <- Hlba. destruct Hd as [[Ho Hp] Hmax Hbl _ _ _ _]. unfold maxLBA, len in *.
  destruct (lookup_lt_is_Some_2 (dBlocks (dev w)) (Z.to_nat lba)) as [b Hb]; [lia|].
  exists b. split_and!; [| done | by eapply Forall_lookup_1].
  rewrite Read_ok by (done || unfold maxLBA, len; lia). by rewrite Hb.
Qed.

Lemma holed_len : len raws < maxLBA d.
Proof. destruct Hd as [_ _ _ _ _ (b & Hb & _) _]. apply lookup_lt_Some in Hb. unfold maxLBA, len. lia. Qed.

Lemma holed_prefix i r : raws !! i = Some r -> dBlocks d !! i = Some (sealed k r) /\ raw_ok r.
Proof.
  intros Hr. pose proof (lookup_lt_Some _ _ _ Hr). destruct Hd as [_ _ _ Hraws Hpre _ _].
  split; [|by eapply Forall_lookup_1]. rewrite <- (lookup_take_lt _ (length raws)) by done.
  by rewrite Hpre, list_lookup_fmap, Hr.
Qed.

(** The probe behind the hole finds the first live block. *)
Lemma median_found w n lba : dev w = d -> key w = k -> 0 <= lba -> lba + Z.of_nat n = maxLBA d ->
  (exists j b, (Z.to_nat lba <= j)%nat /\ dBlocks d !! j = Some b /\ live k b) ->
  median_from n lba w = (w, inl errWALCorruptedMedian).
Proof.
  intros Hdev Hkey. revert lba. induction n as [|n IH]; intros lba Hlba Hend (j & b & Hj & Hb & Hlive).
  - apply lookup_lt_Some in Hb. unfold maxLBA, len in Hend. lia.
  - cbn [median_from]. destruct (holed_read w lba Hdev ltac:(lia)) as (c & Hrd & Hc & Hcok).
    rewrite (bind_ok _ _ _ _ _ Hrd). rewrite (bind_ok _ _ w w w) by done. rewrite Hkey.
    assert (Hskip : ~ live k c -> exists j b, (Z.to_nat (lba + 1) <= j)%nat /\ dBlocks d !! j = Some b /\ live k b).
    { intros Hdead. exists j, b. split_and!; try done. destruct (decide (j = Z.to_nat lba)) as [->|]; [|lia].
      rewrite Hb in Hc. injection Hc as ->. done. }
    destruct (has_magic c) eqn:Em.
    2:{ rewrite (bind_ok _ _ w w tt) by done. apply IH; [lia | lia |]. apply Hskip. unfold live. rewrite Em. by intros [? _]. }
    destruct (unpacks_total c Hcok) as [ok Hok]. destruct (ok && verifyWAL c k) eqn:Ev.
    + unfold bind at 1. rewrite (bind_ok _ _ w w ok) by (unfold lift; by rewrite Hok). by rewrite Ev.
    + rewrite (bind_ok _ _ w w tt).
      2:{ rewrite (bind_ok _ _ w w ok) by (unfold lift; by rewrite Hok). by rewrite Ev. }
      apply IH; [lia | lia |]. apply Hskip. unfold live. rewrite Hok. intros (_ & [= ->] & Hv). by rewrite Hv in Ev.
Qed.

Lemma scan_holed w n lba : dev w = d -> key w = k -> 0 <= lba <= len raws -> lba + Z.of_nat n = maxLBA d ->
  exists w', scan_from n lba (maxLBA d) w = (w', inl errWALCorruptedMedian).
Proof.
  revert lba w. induction n as [|n IH]; intros lba w Hdev Hkey Hlba Hend; [pose proof holed_len; lia|].
  cbn [scan_from]. pose proof holed_len. destruct (holed_read w lba Hdev ltac:(lia)) as (c & Hrd & Hc & Hcok).
  rewrite (bind_ok _ _ _ _ _ Hrd). destruct (decide (lba = len raws)) as [->|Hne].
  - destruct Hd as [_ _ _ _ _ (b & Hb & Hm) (j & bj & Hj & Hbj & Hlive)].
    replace (Z.to_nat (len raws)) with (length raws) in Hc by (unfold len; lia). rewrite Hb in Hc. injection Hc as <-.
    rewrite Hm. cbn [negb]. exists w. unfold checkMedianRupture.
    apply median_found; try done; [unfold len; lia | lia |]. exists j, bj. split_and!; try done. unfold len. lia.
  - destruct (lookup_lt_is_Some_2 raws (Z.to_nat lba)) as [r Hr]; [unfold len in *; lia|].
    destruct (holed_prefix _ _ Hr) as [Hb Hrok]. rewrite Hb in Hc. injection Hc as <-.
    destruct (sealed_live k r Hrok) as (Hm & Hu & _). rewrite Hm. cbn [negb].
    rewrite (bind_ok _ _ w w true) by (unfold lift; by rewrite Hu). cbn [negb].
    set (w1 := if walIsCheckpoint (rd (sealed k r) walTypeOff) then set_check w lba true else w).
    rewrite (bind_ok _ _ w w1 tt) by done. rewrite (bind_ok _ _ w1 (set_tip w1 (lba + 1) (lsn w1)) tt) by done.
    apply IH; [| | lia | lia]; cbn; unfold w1; by case_match.
Qed.

(** ** The repair *)

Lemma prefix_holed w n lba has chk : dev w = d -> 0 <= lba <= len raws -> lba + Z.of_nat n = maxLBA d ->
  exists has' chk', repair_prefix n lba has chk w = (w, inr (Some (len raws), has', chk')).
Proof.
  intros Hdev. revert lba has chk. induction n as [|n IH]; intros lba has chk Hlba Hend; [pose proof holed_len; lia|].
  cbn [repair_prefix]. pose proof holed_len. destruct (holed_read w lba Hdev ltac:(lia)) as (c & Hrd & Hc & Hcok).
  rewrite (bind_ok _ _ _ _ _ Hrd). destruct (decide (lba = len raws)) as [->|Hne].
  - destruct (ho_hole _ _ _ Hd) as (b & Hb & Hm).
    replace (Z.to_nat (len raws)) with (length raws) in Hc by (unfold len; lia). rewrite Hb in Hc. injection Hc as <-.
    rewrite Hm. cbn [negb]. by exists has, chk.
  - destruct (lookup_lt_is_Some_2 raws (Z.to_nat lba)) as [r Hr]; [unfold len in *; lia|].
    destruct (holed_prefix _ _ Hr) as [Hb Hrok]. rewrite Hb in Hc. injection Hc as <-.
    destruct (sealed_live k r Hrok) as (Hm & Hu & _). rewrite Hm. cbn [negb].
    rewrite (bind_ok _ _ w w true) by (unfold lift; by rewrite Hu). cbn [negb]. apply IH; lia.
Qed.

(** The suffix scan: a live block is noticed, and the tip is the one the scan started
    with or just behind the last block with the magic. *)
Definition suffix_from (lba : Z) (sc sc' : walRepairScan) : Prop :=
  startLBA sc' = startLBA sc /\ prefixHasCheck sc' = prefixHasCheck sc /\ prefixCheckLBA sc' = prefixCheckLBA sc /\
  oldTip sc <= oldTip sc' <= maxLBA d /\
  (downstream sc = true -> downstream sc' = true) /\
  (oldTip sc' = oldTip sc \/
    exists j b, lba <= Z.of_nat j /\ dBlocks d !! j = Some b /\ has_magic b = true /\ oldTip sc' = Z.of_nat j + 1) /\
  forall j b, lba <= Z.of_nat j -> dBlocks d !! j = Some b ->
    (has_magic b = true -> Z.of_nat j + 1 <= oldTip sc') /\ (live k b -> downstream sc' = true).

Lemma suffix_holed w n lba sc : dev w = d -> key w = k -> 0 <= lba -> lba + Z.of_nat n = maxLBA d -> oldTip sc <= maxLBA d ->
  exists sc', repair_suffix n lba sc w = (w, inr sc') /\ suffix_from lba sc sc'.
Proof.
  intros Hdev Hkey. revert lba sc. induction n as [|n IH]; intros lba sc Hlba Hend Htip; cbn [repair_suffix].
  - exists sc. split; [done|]. split_and!; try done; try lia. intros j b Hj Hb. apply lookup_lt_Some in Hb. unfold maxLBA, len in Hend. lia.
  - destruct (holed_read w lba Hdev ltac:(lia)) as (c & Hrd & Hc & Hcok).
    rewrite (bind_ok _ _ _ _ _ Hrd). rewrite (bind_ok _ _ w w w) by done. rewrite Hkey.
    assert (Hsplit : forall j b, lba <= Z.of_nat j -> dBlocks d !! j = Some b -> lba + 1 <= Z.of_nat j \/ (Z.of_nat j = lba /\ b = c)).
    { intros j b Hj Hb. destruct (Z.eq_dec (Z.of_nat j) lba) as [<-|]; [|lia]. right. rewrite Nat2Z.id, Hb in Hc. by injection Hc as ->. }
    destruct (has_magic c) eqn:Em; cbn [negb].
    + destruct (unpacks_total c Hcok) as [ok Hok]. rewrite (bind_ok _ _ w w ok) by (unfold lift; by rewrite Hok).
      cbv zeta. match goal with |- context [repair_suffix n (lba + 1) ?s] =>
        destruct (IH (lba + 1) s ltac:(lia) ltac:(lia)) as (sc' & E & (Hs1 & Hs2 & Hs3 & Hs4 & Hs5 & Hst & Hs6)) end.
      { cbn [oldTip]. zcase; lia. }
      cbn [startLBA prefixHasCheck prefixCheckLBA oldTip downstream] in *.
      assert (Htip' : oldTip sc <= oldTip sc' /\ lba + 1 <= oldTip sc') by (revert Hs4; zcase; lia).
      exists sc'. split; [done|]. split_and!; try done; try lia.
      * intros Hds. apply Hs5. by rewrite Hds.
      * destruct Hst as [Et|(j & b & Hj & Hb & Hm & Et)]; [|right; exists j, b; split_and!; try done; lia].
        revert Et. zcase; intros Et; [|by left]. right. exists (Z.to_nat lba), c. split_and!; [lia | done | done | lia].
      * intros j b Hj Hb. destruct (Hsplit j b Hj Hb) as [|[<- ->]]; [by apply Hs6|]. split; [lia|].
        intros (_ & Hu & Hv). apply Hs5. rewrite Hok in Hu. injection Hu as ->. rewrite Hv. by rewrite orb_true_r.
    + destruct (IH (lba + 1) sc ltac:(lia) ltac:(lia) Htip) as (sc' & E & (Hs1 & Hs2 & Hs3 & Hs4 & Hs5 & Hst & Hs6)).
      exists sc'. split; [done|]. split_and!; try done; try lia.
      { destruct Hst as [|(j & b & Hj & Hbm)]; [by left|]. right. exists j, b. split; [lia | done]. }
      intros j b Hj Hb. destruct (Hsplit j b Hj Hb) as [|[<- ->]]; [by apply Hs6|]. unfold live. rewrite Em. split; [done|]. by intros [? _].
Qed.

(** [lba] is the address of the last block of the device with the magic. *)
Definition last_block (lba : Z) : Prop :=
  (exists b, dBlocks d !! Z.to_nat lba = Some b /\ has_magic b = true) /\
  forall j b, lba < Z.of_nat j -> dBlocks d !! j = Some b -> has_magic b = false.

Lemma analyze_holed w : dev w = d -> key w = k ->
  exists sc, analyzeRepair w = (w, inr sc) /\ startLBA sc = len raws /\ downstream sc = true /\
    len raws + 2 <= oldTip sc <= maxLBA d /\ last_block (oldTip sc - 1).
Proof.
  intros Hdev Hkey. unfold analyzeRepair. rewrite (bind_ok _ _ w w w) by done. rewrite Hdev.
  pose proof holed_len. pose proof (len_nonneg raws). assert (0 <= maxLBA d) by (unfold maxLBA, len; lia).
  destruct (prefix_holed w (Z.to_nat (maxLBA d)) 0 false 0 Hdev ltac:(lia) ltac:(lia)) as (has & chk & E).
  rewrite (bind_ok _ _ _ _ _ E). cbv beta iota zeta.
  match goal with |- context [repair_suffix ?n ?l ?s w] =>
    destruct (suffix_holed w n l s Hdev Hkey ltac:(lia) ltac:(lia)) as (sc & Es & (Hs1 & _ & _ & Hs4 & _ & Hst & Hs6)) end.
  { cbn [oldTip]. lia. }
  cbn [startLBA oldTip] in Hs1, Hst. destruct (ho_live _ _ _ Hd) as (j & b & Hj & Hb & Hl). destruct (id Hl) as (Hm & _).
  destruct (Hs6 j b ltac:(unfold len; lia) Hb) as [Htip Hdown]. specialize (Htip Hm). specialize (Hdown Hl).
  assert (len raws < Z.of_nat j) by (unfold len; lia).
  exists sc. split; [done|]. split; [done|]. split; [done|]. split; [lia|].
  destruct Hst as [?|(jt & bt & Hjt & Hbt & Hmt & Et)]; [lia|]. split.
  - exists bt. split; [|done]. by replace (Z.to_nat (oldTip sc - 1)) with jt by lia.
  - intros i c Hi Hc. destruct (has_magic c) eqn:Ec; [|done]. destruct (Hs6 i c ltac:(lia) Hc) as [H' _]. specialize (H' Ec). lia.
Qed.

(** The blocks with those in [[lo, i)] cleared. *)
Definition cleared (lo i : Z) (v : WAL) (w : WAL) : Prop :=
  key v = key w /\ dOpen (dev v) = true /\ dPoisoned (dev v) = false /\
  length (dBlocks (dev v)) = length (dBlocks d) /\
  forall j, dBlocks (dev v) !! j = if decide (lo <= Z.of_nat j < i /\ (j < length (dBlocks d))%nat)
                                   then Some (zeros LBASize) else dBlocks d !! j.

Lemma clear_holed w lo hi : dev w = d -> 0 <= lo <= hi -> hi <= maxLBA d ->
  exists w', for_m lo hi (fun lba => Write lba [zeros LBASize]) w = (w', inr tt) /\ cleared lo hi w' w.
Proof.
  intros Hdev Hlo Hhi. destruct Hd as [[Ho Hp] Hmax _ _ _ _ _].
  apply (for_m_inv (fun i v => cleared lo i v w)); [lia | |].
  - split_and!; rewrite ?Hdev; try done. intros j. by rewrite decide_False by lia.
  - intros i v Hi (Hk & Hvo & Hvp & Hvl & Hvb). assert (Hvm : maxLBA (dev v) = maxLBA d) by (unfold maxLBA, len; by rewrite Hvl).
    eexists. split; [apply Write_ok; try done; [lia | change (len [zeros LBASize]) with 1; lia | lia]|].
    split_and!; try done; cbn [dev set_dev dBlocks]; [by rewrite length_inserts|].
    intros j. cbn [list_inserts]. unfold maxLBA, len in *.
    destruct (decide (j = Z.to_nat i)) as [->|Hne].
    + rewrite list_lookup_insert_eq by lia. by rewrite decide_True by lia.
    + rewrite list_lookup_insert_ne by done. rewrite Hvb. repeat case_decide; try done; lia.
Qed.

(** The cleared device, block by block. *)
Lemma cleared_blocks lo i v w : cleared lo i v w -> 0 <= lo <= i -> i <= maxLBA d ->
  dBlocks (dev v) = take (Z.to_nat lo) (dBlocks d) ++ replicate (Z.to_nat (i - lo)) (zeros LBASize) ++ drop (Z.to_nat i) (dBlocks d).
Proof.
  intros (_ & _ & _ & Hl & Hb) Hlo Hi. unfold maxLBA, len in Hi. apply list_eq. intros j. rewrite Hb.
  destruct (decide (j < Z.to_nat lo)%nat).
  { rewrite decide_False by lia. rewrite lookup_app_l by (rewrite length_take; lia). by rewrite lookup_take_lt. }
  rewrite lookup_app_r by (rewrite length_take; lia). rewrite length_take, Nat.min_l by lia.
  destruct (decide (j < Z.to_nat i)%nat).
  - rewrite decide_True by lia. rewrite lookup_app_l by (rewrite length_replicate; lia). by rewrite lookup_replicate_2 by lia.
  - rewrite decide_False by lia. rewrite lookup_app_r by (rewrite length_replicate; lia). rewrite length_replicate, lookup_drop. f_equal. lia.
Qed.

End Holed.

(** C3: a log with a hole does not open.  When the blocks before an address are
    records, the block there is not a block of the log, and a sealed block lies
    behind it, [OpenWAL] reports [errWALCorruptedMedian]. *)
Theorem median_rupture_refused d k raws : holed d k raws -> OpenWAL d k = inl errWALCorruptedMedian.
Proof.
  intros Hd. unfold OpenWAL, scanTip. set (w0 := newWAL d k). rewrite (bind_ok _ _ w0 w0 w0) by done.
  set (w1 := set_check (set_tip w0 0 (lsn w0)) 0 false). rewrite (bind_ok _ _ w0 w1 tt) by done.
  destruct (scan_holed d k raws Hd w1 (Z.to_nat (maxLBA d)) 0) as [w' E];
    [done | done | pose proof (len_nonneg raws); lia | unfold maxLBA, len; lia |].
  change (maxLBA (dev w0)) with (maxLBA d). unfold bind. by rewrite E.
Qed.

(** C2: the repair cuts the log at the hole.  On a log with a hole and a sealed block
    behind it, [repairMedianRupture] reports the address of the hole and discards
    exactly the blocks from the hole to the last block of the device with the magic,
    at least two: [DiscardedBlocks] is their number, [Quarantine] is their content,
    and on the repaired device they are zero while every other block is as it was.
    The records before the hole are among these, and the repaired device opens, with
    its tip at the hole. *)
Theorem repair_cuts_hole d k raws : holed d k raws ->
  exists w' rep w3, repairMedianRupture (newWAL d k) = (w', inr rep) /\
    Repaired rep = true /\ StartLBA rep = len raws /\ next w' = len raws /\
    2 <= DiscardedBlocks rep /\ last_block d (len raws + DiscardedBlocks rep - 1) /\
    Quarantine rep = sub (dBlocks d) (len raws) (len raws + DiscardedBlocks rep) /\
    dBlocks (dev w') = take (length raws) (dBlocks d) ++ replicate (Z.to_nat (DiscardedBlocks rep)) (zeros LBASize) ++
                       drop (Z.to_nat (len raws + DiscardedBlocks rep)) (dBlocks d) /\
    take (length raws) (dBlocks (dev w')) = map (sealed k) raws /\
    OpenWAL (dev w') k = inr w3 /\ next w3 = len raws.
Proof.
  intros Hd. unfold repairMedianRupture. set (w0 := newWAL d k). pose proof (holed_len d k raws Hd) as Hlen.
  pose proof (len_nonneg raws). destruct (id Hd) as [[Ho Hp] Hmax Hbl Hraws Hpre (bh & Hbh & Hmh) _].
  rewrite (bind_ok _ _ w0 w0 tt) by (unfold ready, bind, get, lift, checkReady; cbn; by rewrite Ho, Hp).
  destruct (analyze_holed d k raws Hd w0 eq_refl eq_refl) as (sc & E & Hs & Hds & Hot & Hlast).
  rewrite (bind_ok _ _ _ _ _ E). rewrite Hds. cbn [negb]. cbv zeta. rewrite Hs.
  destruct (Z.leb_spec (oldTip sc) (len raws)); [lia|]. set (tip := oldTip sc) in *.
  rewrite (bind_ok _ _ w0 w0 w0) by done.
  destruct (clear_holed d k raws Hd w0 (len raws) tip eq_refl ltac:(lia) ltac:(lia)) as (w1 & Ec & Hcl).
  rewrite (bind_ok _ _ _ _ _ Ec). pose proof (cleared_blocks d _ _ _ _ Hcl ltac:(lia) ltac:(lia)) as Hb1.
  destruct Hcl as (Hk1 & Ho1 & Hp1 & Hl1 & _).
  rewrite (bind_ok _ _ w1 w1 tt) by (unfold dev_flush, ready, bind, get, lift, checkReady; by rewrite Ho1, Hp1).
  match goal with |- context [modify ?f] => rewrite (bind_ok _ _ w1 (f w1) tt) by done end.
  replace (Z.to_nat (len raws)) with (length raws) in Hb1 by (unfold len; lia).
  assert (Htake : take (length raws) (dBlocks (dev w1)) = map (sealed k) raws).
  { rewrite Hb1, take_app_le by (rewrite length_take; unfold maxLBA, len in *; lia). by rewrite take_take, Nat.min_id. }
  assert (Hm1 : maxLBA (dev w1) = maxLBA d) by (unfold maxLBA, len; by rewrite Hl1).
  destruct (OpenWAL_eq (dev w1) k raws) as (w3 & E3 & _ & _ & Hn3 & _).
  { split_and!; try done; [lia | lia |]. rewrite Hb1, drop_app_ge by (rewrite length_take; lia). rewrite length_take.
    rewrite Nat.min_l by (unfold maxLBA, len in *; lia). rewrite Nat.sub_diag, drop_0. apply Forall_app. split.
    - apply Forall_replicate. apply no_magic_zeros.
    - apply Forall_lookup_2. intros j b Hb. rewrite lookup_drop in Hb. apply (proj2 Hlast) in Hb; [done | lia]. }
  eexists _, _, w3. split; [done|]. cbn [Repaired StartLBA DiscardedBlocks Quarantine]. replace (len raws + (tip - len raws)) with tip by lia.
  split_and!; try done. lia.
Qed.

(** A log of two records whose first block was lost. *)
Definition holed_device : Device :=
  {| dBlocks := [zeros LBASize; sealed (zeros 32) (put_rec 1 [5]); zeros LBASize]; dOpen := true; dPoisoned := false |}.

Lemma holed_example : holed holed_device (zeros 32) [].
Proof.
  assert (Hr : raw_ok (put_rec 1 [5])).
  { split; cbn; try lia; [done | apply bytes_ok_app; [apply (bytes_ok_zeros 15)|] | done |]; constructor; by try lia. }
  split; try done.
  - constructor; [apply zeros_block|]. constructor; [by apply sealed_ok|]. constructor; [apply zeros_block | constructor].
  - exists (zeros LBASize). split; [done | apply no_magic_zeros].
  - exists 1%nat, (sealed (zeros 32) (put_rec 1 [5])). split_and!; [cbn; lia | done | by apply sealed_live].
Qed.

End Log.

Lemma median_rupture_refused_witness :
  OpenWAL (H:=sum_seal) (holed_device (H:=sum_seal)) (zeros 32) = inl errWALCorruptedMedian.
Proof. apply (median_rupture_refused (H:=sum_seal) holed_device (zeros 32) []). apply holed_example. Defined.

Lemma repair_cuts_hole_witness :
  let d := holed_device (H:=sum_seal) in
  exists w' rep w3, repairMedianRupture (H:=sum_seal) (newWAL d (zeros 32)) = (w', inr rep) /\
    Repaired rep = true /\ StartLBA rep = 0 /\ next w' = 0 /\
    2 <= DiscardedBlocks rep /\ last_block d (0 + DiscardedBlocks rep - 1) /\
    Quarantine rep = sub (dBlocks d) 0 (0 + DiscardedBlocks rep) /\
    dBlocks (dev w') = [] ++ replicate (Z.to_nat (DiscardedBlocks rep)) (zeros LBASize) ++
                       drop (Z.to_nat (0 + DiscardedBlocks rep)) (dBlocks d) /\
    take 0 (dBlocks (dev w')) = [] /\
    OpenWAL (H:=sum_seal) (dev w') (zeros 32) = inr w3 /\ next w3 = 0.
Proof. apply (repair_cuts_hole (H:=sum_seal) holed_device (zeros 32) []). apply holed_example. Defined.

End WalRepair.
