(* ===== verification/TxLog.v ===== *)
(** * The transaction event log (src/pkg/c2db/txnlog.go)

    The codec is a 64-byte little-endian header, the key and the payload, under
    a CRC-32C; the log is a directory of bounded append-only segments.  The
    directory is a map from file names to contents; the outcome of each system
    call is an argument of the operations, so their error paths are covered. *)

From Stdlib Require Import String.
From stdpp Require Import gmap sorting.
From S2P Require Import Prelude Bytes Crc.
Import Bytes.

Local Open Scope Z_scope.

Module TxLog.

(** ** Constants *)

Definition TxLogMagic : Z := 0x434C4F47.
Definition versionSchema : Z := 1.
Definition txnEventHeaderSize : Z := 64.
Definition txnEventMaxKey : Z := 65536.
Definition txnEventMaxPayload : Z := Z.shiftl 1 24.
Definition DefaultTxLogSegmentBytes : Z := Z.shiftl 64 20.
Definition NumShards : Z := 1024.

Definition offMagic : Z := 0.
Definition offSchema : Z := 4.
Definition offKind : Z := 6.
Definition offFlags : Z := 7.
Definition offShard : Z := 8.
Definition offReserved : Z := 10.
Definition offSeq : Z := 12.
Definition offTimestamp : Z := 20.
Definition offVersion : Z := 28.
Definition offWatermark : Z := 44.
Definition offKeyLen : Z := 52.
Definition offPayloadLen : Z := 56.
Definition offCRC : Z := 60.
Definition szVersion : Z := 16.

Definition EventMutation : Z := 1.
Definition EventRefusal : Z := 5.

(** [func (k EventKind) Valid] *)
Definition KindValid (k : Z) : bool := (k >=? EventMutation) && (k <=? EventRefusal).

Inductive txlog_error :=
| errTxLogShort | errTxLogMagic | errTxLogSchema | errTxLogKind
| errTxLogRange | errTxLogCRC | errTxLogClosed | errIO.

#[export] Instance txlog_error_eq_dec : EqDecision txlog_error.
Proof. solve_decision. Defined.

Record TxnEvent := {
  Kind : Z; Shard : Z; Seq : Z; Timestamp : Z; VersionID : list Z;
  Watermark : Z; Key : list Z; Payload : list Z
}.

(** [crc32.Update(crc, castagnoli, p)] *)
Definition crc_update (crc : Z) (p : list Z) : Z := Crc.not32 (Crc.crc_bytes (Crc.not32 crc) p).

(** ** The codec *)

Definition EncodeTxnEvent (ev : TxnEvent) : txlog_error + list Z :=
  if negb (KindValid (Kind ev)) then inl errTxLogKind else
  if Shard ev >=? NumShards then inl errTxLogRange else
  if len (Key ev) >? txnEventMaxKey then inl errTxLogRange else
  if len (Payload ev) >? txnEventMaxPayload then inl errTxLogRange else
  let hdr := zeros txnEventHeaderSize in
  let hdr := copy_at hdr offMagic (le_put 4 TxLogMagic) in
  let hdr := copy_at hdr offSchema (le_put 2 versionSchema) in
  let hdr := wr hdr offKind (w8 (Kind ev)) in
  let hdr := wr hdr offFlags 0 in
  let hdr := copy_at hdr offShard (le_put 2 (Shard ev)) in
  let hdr := copy_at hdr offReserved (le_put 2 0) in
  let hdr := copy_at hdr offSeq (le_put 8 (Seq ev)) in
  let hdr := copy_at hdr offTimestamp (le_put 8 (Timestamp ev)) in
  let hdr := copy_at hdr offVersion (VersionID ev) in
  let hdr := copy_at hdr offWatermark (le_put 8 (Watermark ev)) in
  let hdr := copy_at hdr offKeyLen (le_put 4 (w32 (len (Key ev)))) in
  let hdr := copy_at hdr offPayloadLen (le_put 4 (w32 (len (Payload ev)))) in
  let crc := Crc.checksum (sub hdr 0 offCRC) in
  let crc := crc_update crc (Key ev) in
  let crc := crc_update crc (Payload ev) in
  let hdr := copy_at hdr offCRC (le_put 4 crc) in
  inr (hdr ++ Key ev ++ Payload ev).

(** [binary.LittleEndian.UintN(buf[off:])] *)
Definition u16 (buf : list Z) (off : Z) : Z := le_get 2 (sub buf off (off + 2)).
Definition u32 (buf : list Z) (off : Z) : Z := le_get 4 (sub buf off (off + 4)).
Definition u64 (buf : list Z) (off : Z) : Z := le_get 8 (sub buf off (off + 8)).

(** The event and the number of bytes consumed. *)
Definition DecodeTxnEvent (buf : list Z) : txlog_error + TxnEvent * Z :=
  if len buf <? txnEventHeaderSize then inl errTxLogShort else
  if negb (u32 buf offMagic =? TxLogMagic) then inl errTxLogMagic else
  if negb (u16 buf offSchema =? versionSchema) then inl errTxLogSchema else
  let kind := rd buf offKind in
  if negb (KindValid kind) then inl errTxLogKind else
  let keyLen := u32 buf offKeyLen in
  let payloadLen := u32 buf offPayloadLen in
  if (keyLen <? 0) || (payloadLen <? 0) || (keyLen >? txnEventMaxKey)
     || (payloadLen >? txnEventMaxPayload) then inl errTxLogRange else
  let total := txnEventHeaderSize + keyLen + payloadLen in
  if len buf <? total then inl errTxLogShort else
  let key := sub buf txnEventHeaderSize (txnEventHeaderSize + keyLen) in
  let payload := sub buf (txnEventHeaderSize + keyLen) total in
  let crc := Crc.checksum (sub buf 0 offCRC) in
  let crc := crc_update crc key in
  let crc := crc_update crc payload in
  if negb (crc =? u32 buf offCRC) then inl errTxLogCRC else
  inr ({| Kind := kind; Shard := u16 buf offShard; Seq := u64 buf offSeq;
          Timestamp := u64 buf offTimestamp;
          VersionID := sub buf offVersion (offVersion + szVersion);
          Watermark := u64 buf offWatermark; Key := key; Payload := payload |}, total).

(** ** Reading a segment

    [for off < len(data)]; every decoded record consumes at least 64 bytes, so
    [len(data)] rounds are enough fuel ([read_segment_fuel]). *)

Fixpoint read_segment (fuel : nat) (data : list Z) (off : Z) (out : list TxnEvent)
    : option (txlog_error + list TxnEvent) :=
  match fuel with
  | O => None
  | S fuel' =>
      if off <? len data then
        match DecodeTxnEvent (sub data off (len data)) with
        | inl err => Some (inl err)
        | inr (ev, n) => read_segment fuel' data (off + n) (out ++ [ev])
        end
      else Some (inr out)
  end.

Definition ReadTxLogSegment (data : list Z) : option (txlog_error + list TxnEvent) :=
  read_segment (S (length data)) data 0 [].

(** ** Segment names *)

Definition txLogSegPrefix : list Z := str "txnlog-"%string.
Definition txLogSegSuffix : list Z := str ".seg"%string.

(** [fmt.Sprintf("%0kd", n)] for an [n] of at most [k] digits. *)
Fixpoint pad_dec (k : nat) (n : Z) : list Z :=
  match k with
  | O => []
  | S k' => pad_dec k' (n / 10) ++ [48 + n `mod` 10]
  end.

(** [%08d] is wider than 8 only for the 9- and 10-digit values of a [uint32]. *)
Definition dec_width (n : Z) : nat :=
  if n <? 10 ^ 8 then 8%nat else if n <? 10 ^ 9 then 9%nat else 10%nat.

Definition txLogSegmentName (idx : Z) : list Z :=
  txLogSegPrefix ++ pad_dec (dec_width idx) idx ++ txLogSegSuffix.

(** [strconv.ParseUint(s, 10, 32)] on a non-empty string: [None] on any error. *)
Fixpoint parse_digits (s : list Z) (n : Z) : option Z :=
  match s with
  | [] => Some n
  | c :: s' =>
      if (48 <=? c) && (c <=? 57) then
        let n1 := n * 10 + (c - 48) in
        if n1 >? 2 ^ 32 - 1 then None else parse_digits s' n1
      else None
  end.

Definition parseTxLogSegmentName (name : list Z) : option Z :=
  if negb (HasPrefix name txLogSegPrefix) || negb (HasSuffix name txLogSegSuffix) then None else
  let mid := sub name (len txLogSegPrefix) (len name - len txLogSegSuffix) in
  match mid with
  | [] => None
  | _ => parse_digits mid 0
  end.

(** ** The writer

    [files] is the directory: the regular files and their contents.  A handle
    is the name of the open file and whether it is still open. *)

Abbreviation files := (gmap (list Z) (list Z)).

Record TxLog := {
  maxSegmentBytes : Z; f : option (list Z * bool); segIndex : Z; segCount : Z;
  curBytes : Z; totalBytes : Z; seq : Z; closed : bool
}.

(** [l.f != nil] *)
Definition has_file (l : TxLog) : bool := match f l with Some _ => true | None => false end.

(** The outcome of the system calls of one operation: [io_write] is the number
    of bytes a failing [Write] got through, [None] when it succeeds. *)
Record io := { io_sync : bool; io_close : bool; io_open : bool; io_stat : bool; io_write : option Z }.
Definition io_ok : io :=
  {| io_sync := true; io_close := true; io_open := true; io_stat := true; io_write := None |}.

(** The log with its handle and its position replaced. *)
Definition set_f (l : TxLog) (h : option (list Z * bool)) : TxLog :=
  {| maxSegmentBytes := maxSegmentBytes l; f := h; segIndex := segIndex l; segCount := segCount l;
     curBytes := curBytes l; totalBytes := totalBytes l; seq := seq l; closed := closed l |}.
Definition set_segIndex (l : TxLog) (i : Z) : TxLog :=
  {| maxSegmentBytes := maxSegmentBytes l; f := f l; segIndex := i; segCount := segCount l;
     curBytes := curBytes l; totalBytes := totalBytes l; seq := seq l; closed := closed l |}.
Definition set_seq (l : TxLog) (s : Z) : TxLog :=
  {| maxSegmentBytes := maxSegmentBytes l; f := f l; segIndex := segIndex l; segCount := segCount l;
     curBytes := curBytes l; totalBytes := totalBytes l; seq := s; closed := closed l |}.
Definition opened (l : TxLog) (name : list Z) (cur : Z) : TxLog :=
  {| maxSegmentBytes := maxSegmentBytes l; f := Some (name, true); segIndex := segIndex l;
     segCount := segCount l + 1; curBytes := cur; totalBytes := totalBytes l;
     seq := seq l; closed := closed l |}.
Definition wrote (l : TxLog) (n : Z) : TxLog :=
  {| maxSegmentBytes := maxSegmentBytes l; f := f l; segIndex := segIndex l; segCount := segCount l;
     curBytes := curBytes l + n; totalBytes := totalBytes l + n; seq := seq l; closed := closed l |}.
Definition set_Seq (ev : TxnEvent) (s : Z) : TxnEvent :=
  {| Kind := Kind ev; Shard := Shard ev; Seq := s; Timestamp := Timestamp ev;
     VersionID := VersionID ev; Watermark := Watermark ev; Key := Key ev; Payload := Payload ev |}.

Definition openSegment (l : TxLog) (fs : files) (o : io) : TxLog * files * option txlog_error :=
  let name := txLogSegmentName (segIndex l) in
  if negb (io_open o) then (l, fs, Some errIO) else
  let data := default [] (fs !! name) in
  let fs := <[name := data]> fs in
  if negb (io_stat o) then (l, fs, Some errIO) else
  (opened l name (len data), fs, None).

Definition rotate (l : TxLog) (o : io) : TxLog * option txlog_error :=
  match f l with
  | Some (name, is_open) =>
      if negb (is_open && io_sync o) then (set_f l (Some (name, false)), Some errIO) else
      if negb (io_close o) then (set_f l (Some (name, false)), Some errIO) else
      (set_segIndex (set_f l None) (w32 (segIndex l + 1)), None)
  | None => (set_segIndex l (w32 (segIndex l + 1)), None)
  end.

(** [l.f.Write(rec)] on a handle opened with [O_APPEND]. *)
Definition write_rec (l : TxLog) (fs : files) (o : io) (rec : list Z)
    : TxLog * files * option txlog_error :=
  match f l with
  | Some (name, true) =>
      let data := default [] (fs !! name) in
      match io_write o with
      | None => (wrote l (len rec), <[name := data ++ rec]> fs, None)
      | Some k => (l, <[name := data ++ take (Z.to_nat k) rec]> fs, Some errIO)
      end
  | _ => (l, fs, Some errIO)
  end.

Definition Emit (l : TxLog) (fs : files) (o : io) (ev : TxnEvent)
    : TxLog * files * option txlog_error :=
  if closed l then (l, fs, Some errTxLogClosed) else
  let '(l, ev) :=
    if Seq ev =? 0 then (set_seq l (w64 (seq l + 1)), set_Seq ev (w64 (seq l + 1)))
    else if Seq ev >? seq l then (set_seq l (Seq ev), ev) else (l, ev) in
  match EncodeTxnEvent ev with
  | inl err => (l, fs, Some err)
  | inr rec =>
      let need := len rec in
      let '(l, e) :=
        if has_file l && (curBytes l >? 0) && (curBytes l + need >? maxSegmentBytes l)
        then rotate l o else (l, None) in
      match e with
      | Some err => (l, fs, Some err)
      | None =>
          let '(l, fs, e) := if negb (has_file l) then openSegment l fs o else (l, fs, None) in
          match e with
          | Some err => (l, fs, Some err)
          | None => write_rec l fs o rec
          end
      end
  end.

Definition Sync (l : TxLog) (o : io) : option txlog_error :=
  match f l with
  | None => None
  | Some (_, is_open) => if is_open && io_sync o then None else Some errIO
  end.

Definition set_closed (l : TxLog) (h : option (list Z * bool)) : TxLog :=
  {| maxSegmentBytes := maxSegmentBytes l; f := h; segIndex := segIndex l; segCount := segCount l;
     curBytes := curBytes l; totalBytes := totalBytes l; seq := seq l; closed := true |}.

Definition Close (l : TxLog) (o : io) : TxLog * option txlog_error :=
  if closed l then (l, None) else
  match f l with
  | None => (set_closed l None, None)
  | Some (name, is_open) =>
      if negb (is_open && io_sync o) then (set_closed l (Some (name, false)), Some errIO)
      else (set_closed l None, if io_close o then None else Some errIO)
  end.

(** ** Opening and reading a directory *)

(** The entries that are segments: index and contents. *)
Definition segments (fs : files) : list (Z * list Z) :=
  omap (fun '(name, data) => (fun i => (i, data)) <$> parseTxLogSegmentName name) (map_to_list fs).

(** [OpenTxLog]: resume in the segment of highest index, which must exist under
    its canonical name; [seq] is that of its last event, if it can be read. *)
Definition OpenTxLog (fs : files) (maxSeg : Z) : txlog_error + TxLog :=
  let maxSeg := if maxSeg <=? 0 then DefaultTxLogSegmentBytes else maxSeg in
  let segs := segments fs in
  let total := foldr (fun s a => len s.2 + a) 0 segs in
  let l := {| maxSegmentBytes := maxSeg; f := None; segIndex := 0; segCount := len segs;
              curBytes := 0; totalBytes := total; seq := 0; closed := false |} in
  match segs with
  | [] => inr l
  | _ =>
      let highest := foldr (fun s a => Z.max s.1 a) 0 segs in
      let name := txLogSegmentName highest in
      match fs !! name with
      | None => inl errIO
      | Some data =>
          let s := match ReadTxLogSegment data with
                   | Some (inr evs) => match list.last evs with Some ev => Seq ev | None => 0 end
                   | _ => 0
                   end in
          inr {| maxSegmentBytes := maxSeg; f := Some (name, true); segIndex := highest;
                 segCount := len segs; curBytes := len data; totalBytes := total;
                 seq := s; closed := false |}
      end
  end.

Definition seg_le (a b : Z * list Z) : Prop := a.1 <= b.1.
#[export] Instance seg_le_dec a b : Decision (seg_le a b).
Proof. unfold seg_le. apply _. Defined.

(** The loop of [ReadTxLogDir] over the sorted segments. *)
Fixpoint read_segs (segs : list (Z * list Z)) (out : list TxnEvent)
    : option (txlog_error + list TxnEvent) :=
  match segs with
  | [] => Some (inr out)
  | (_, data) :: segs' =>
      r ← ReadTxLogSegment data;
      match r with
      | inl err => Some (inl err)
      | inr evs => read_segs segs' (out ++ evs)
      end
  end.

Definition ReadTxLogDir (fs : files) : option (txlog_error + list TxnEvent) :=
  read_segs (merge_sort seg_le (segments fs)) [].

(** ** Facts on the codec *)

Ltac tx_consts := unfold offMagic, offSchema, offKind, offFlags, offShard, offReserved, offSeq,
  offTimestamp, offVersion, offWatermark, offKeyLen, offPayloadLen, offCRC, szVersion,
  txnEventHeaderSize in *.

(** The fields of an event are in the range of their Go types. *)
Record event_ok (ev : TxnEvent) : Prop := {
  ok_shard : 0 <= Shard ev < 2 ^ 16;
  ok_kind : 0 <= Kind ev < 2 ^ 8;
  ok_seq : 0 <= Seq ev < 2 ^ 64;
  ok_ts : 0 <= Timestamp ev < 2 ^ 64;
  ok_wm : 0 <= Watermark ev < 2 ^ 64;
  ok_vid : len (VersionID ev) = 16 /\ bytes_ok (VersionID ev);
  ok_key : bytes_ok (Key ev);
  ok_pay : bytes_ok (Payload ev);
}.

(** What [EncodeTxnEvent] accepts. *)
Definition encodable (ev : TxnEvent) : bool :=
  KindValid (Kind ev) && (Shard ev <? NumShards) &&
  (len (Key ev) <=? txnEventMaxKey) && (len (Payload ev) <=? txnEventMaxPayload).

(** The sixty covered header bytes. *)
Definition header60 (ev : TxnEvent) : list Z :=
  le_put 4 TxLogMagic ++ le_put 2 versionSchema ++ [Kind ev] ++ [0] ++
  le_put 2 (Shard ev) ++ le_put 2 0 ++ le_put 8 (Seq ev) ++ le_put 8 (Timestamp ev) ++
  VersionID ev ++ le_put 8 (Watermark ev) ++
  le_put 4 (len (Key ev)) ++ le_put 4 (len (Payload ev)).

Definition record (ev : TxnEvent) : list Z :=
  header60 ev ++ le_put 4 (Crc.checksum (header60 ev ++ Key ev ++ Payload ev)) ++
  Key ev ++ Payload ev.

Lemma len_header60 ev : event_ok ev -> len (header60 ev) = 60.
Proof.
  intros H. destruct (ok_vid _ H) as [Hv _]. unfold header60.
  rewrite !len_app, !len_le_put, Hv. done.
Qed.

Lemma bytes_ok_header60 ev : event_ok ev -> bytes_ok (header60 ev).
Proof.
  intros H. destruct (ok_vid _ H) as [_ Hv]. pose proof (ok_kind _ H). unfold header60.
  repeat apply bytes_ok_app; auto with c2db; repeat constructor; lia.
Qed.

Lemma not32_invol c : Crc.not32 (Crc.not32 c) = c.
Proof. unfold Crc.not32. by rewrite Z.lxor_assoc, Z.lxor_nilpotent, Z.lxor_0_r. Qed.

Lemma crc_update_chain l k m :
  crc_update (crc_update (Crc.checksum l) k) m = Crc.checksum (l ++ k ++ m).
Proof.
  unfold crc_update, Crc.checksum. by rewrite !not32_invol, !Crc.crc_bytes_app.
Qed.

Lemma EncodeTxnEvent_eq ev : event_ok ev ->
  EncodeTxnEvent ev = if encodable ev then inr (record ev) else
    if negb (KindValid (Kind ev)) then inl errTxLogKind else inl errTxLogRange.
Proof.
  intros H. pose proof (len_header60 ev H) as H60. pose proof (ok_kind _ H) as Hk.
  destruct (ok_vid _ H) as [Hv _].
  unfold EncodeTxnEvent, encodable. destruct (KindValid (Kind ev)); cbn [negb andb]; [|done].
  rewrite Z.geb_leb, Z.leb_antisym. destruct (Z.ltb_spec (Shard ev) NumShards); cbn [negb andb]; [|done].
  rewrite !Z.gtb_ltb, !Z.ltb_antisym.
  destruct (Z.leb_spec (len (Key ev)) txnEventMaxKey); cbn [negb andb]; [|done].
  destruct (Z.leb_spec (len (Payload ev)) txnEventMaxPayload); cbn [negb andb]; [|done].
  unfold txnEventMaxKey, txnEventMaxPayload in *. rewrite Z.shiftl_mul_pow2 in * by lia.
  pose proof (len_nonneg (Key ev)). pose proof (len_nonneg (Payload ev)).
  unwrap. tx_consts. rewrite !wr_copy_at.
  rewrite !copy_at_app by (rewrite ?len_app, ?len_le_put, ?Hv; done).
  match goal with |- context [sub (copy_at (zeros 64) 0 ?h) 0 60] => change h with (header60 ev) end.
  rewrite sub_copy_at_eq by (rewrite ?len_zeros, ?H60; lia). rewrite crc_update_chain.
  unfold record. rewrite copy_at_full.
  - unfold header60. by rewrite <- !app_assoc.
  - rewrite !len_app, !len_le_put, Hv. done.
Qed.

Lemma bytes_ok_record ev : event_ok ev -> bytes_ok (record ev).
Proof.
  intros H. unfold record. apply bytes_ok_app; [by apply bytes_ok_header60|].
  apply bytes_ok_app; [auto with c2db|]. apply bytes_ok_app; apply H.
Qed.

Lemma len_record ev : event_ok ev ->
  len (record ev) = 64 + len (Key ev) + len (Payload ev).
Proof. intros H. unfold record. rewrite !len_app, len_header60, len_le_put by done. lia. Qed.

Lemma checksum_record_bound ev : event_ok ev ->
  0 <= Crc.checksum (header60 ev ++ Key ev ++ Payload ev) < 2 ^ 32.
Proof.
  intros H. apply Crc.checksum_bound. apply bytes_ok_app; [by apply bytes_ok_header60|].
  apply bytes_ok_app; apply H.
Qed.

(** Where the fields of a record are. *)
Lemma record_fields ev rest : event_ok ev ->
  let b := record ev ++ rest in
  sub b 0 60 = header60 ev /\
  sub b 60 64 = le_put 4 (Crc.checksum (header60 ev ++ Key ev ++ Payload ev)) /\
  sub b 64 (64 + len (Key ev)) = Key ev /\
  sub b (64 + len (Key ev)) (64 + len (Key ev) + len (Payload ev)) = Payload ev.
Proof.
  intros H b. pose proof (len_header60 ev H). pose proof (len_nonneg (Key ev)).
  pose proof (len_nonneg (Payload ev)).
  pose proof (len_le_put 4 (Crc.checksum (header60 ev ++ Key ev ++ Payload ev))).
  unfold b, record. rewrite <- !app_assoc. split_and!;
    rewrite ?sub_skip by lia; apply sub_head; lia.
Qed.

Lemma header60_fields ev : event_ok ev ->
  let h := header60 ev in
  sub h 0 4 = le_put 4 TxLogMagic /\ sub h 4 6 = le_put 2 versionSchema /\
  rd h 6 = Kind ev /\ sub h 8 10 = le_put 2 (Shard ev) /\ sub h 12 20 = le_put 8 (Seq ev) /\
  sub h 20 28 = le_put 8 (Timestamp ev) /\ sub h 28 44 = VersionID ev /\
  sub h 44 52 = le_put 8 (Watermark ev) /\ sub h 52 56 = le_put 4 (len (Key ev)) /\
  sub h 56 60 = le_put 4 (len (Payload ev)).
Proof.
  intros H h. destruct (ok_vid _ H) as [Hv _]. unfold h, header60.
  assert (H1 : forall x : Z, len [x] = 1) by done.
  pose proof (fun n v => len_le_put n v) as Hl.
  split_and!; rewrite ?sub_skip by (rewrite ?Hl, ?H1, ?Hv; lia); rewrite ?Hl, ?H1, ?Hv;
    try (apply sub_head; rewrite ?Hl, ?Hv; lia).
  - rewrite !rd_app_r by (rewrite ?Hl; lia). by rewrite !Hl.
  - apply sub_all; rewrite ?Hl; lia.
Qed.

Lemma DecodeTxnEvent_record ev rest : event_ok ev -> encodable ev = true ->
  DecodeTxnEvent (record ev ++ rest) = inr (ev, len (record ev)).
Proof.
  intros H Henc. pose proof (len_record ev H) as Hlen.
  pose proof (len_nonneg (Key ev)). pose proof (len_nonneg (Payload ev)). pose proof (len_nonneg rest).
  destruct (record_fields ev rest H) as (Hh & Hc & Hk & Hp).
  destruct (header60_fields ev H) as (Hmag & Hsch & Hkind & Hsh & Hsq & Hts & Hvid & Hwm & Hkl & Hpl).
  set (b := record ev ++ rest) in *.
  assert (Hb : len b = 64 + len (Key ev) + len (Payload ev) + len rest)
    by (unfold b; rewrite len_app; lia).
  assert (Hin : forall x y, 0 <= x <= y -> y <= 60 -> sub b x y = sub (header60 ev) x y).
  { intros x y Hx Hy. rewrite <- Hh, sub_sub by lia. done. }
  assert (Hrd : rd b 6 = Kind ev).
  { rewrite <- Hkind, <- Hh. by rewrite rd_sub by lia. }
  pose proof (checksum_record_bound ev H) as Hcb.
  unfold encodable, txnEventMaxKey, txnEventMaxPayload in Henc.
  rewrite Z.shiftl_mul_pow2 in Henc by lia.
  destruct H as [Ok1 Ok2 Ok3 Ok4 Ok5 Ok6 Ok7 Ok8].
  unfold DecodeTxnEvent, u16, u32, u64. tx_consts. zlit. ifcase; [lia|].
  rewrite (Hin 0 4), (Hin 4 6), (Hin 8 10), (Hin 12 20), (Hin 20 28), (Hin 28 44), (Hin 44 52),
    (Hin 52 56), (Hin 56 60), Hrd by lia. rewrite Hmag, Hsch, Hsh, Hsq, Hts, Hvid, Hwm, Hkl, Hpl.
  rewrite !le_get_put, !Z.mod_small by (unfold TxLogMagic, versionSchema; lia).
  rewrite !Z.eqb_refl. cbn [negb]. destruct (KindValid (Kind ev)); [|done]. cbn [negb].
  unfold txnEventMaxKey, txnEventMaxPayload. rewrite Z.shiftl_mul_pow2 by lia.
  repeat (ifcase; [lia|]).
  rewrite Hh, Hk, Hp, crc_update_chain, Hc, le_get_put.
  rewrite Z.mod_small by exact Hcb. rewrite Z.eqb_refl. cbn [negb].
  rewrite Hlen. clear. by destruct ev.
Qed.

(** ** What an accepted record satisfies *)

Lemma DecodeTxnEvent_inv buf ev n :
  DecodeTxnEvent buf = inr (ev, n) ->
  n = 64 + u32 buf 52 + u32 buf 56 /\ n <= len buf /\
  0 <= u32 buf 52 /\ 0 <= u32 buf 56 /\ Key ev = sub buf 64 (64 + u32 buf 52) /\
  Payload ev = sub buf (64 + u32 buf 52) n /\
  Crc.checksum (sub buf 0 60 ++ sub buf 64 n) = u32 buf 60.
Proof.
  unfold DecodeTxnEvent. tx_consts. cbv zeta.
  set (kl := u32 buf 52). set (pl := u32 buf 56).
  repeat (ifcase; cbn [negb orb]; try done).
  intros [= <- <-]. cbn [Key Payload].
  assert (0 <= kl /\ 0 <= pl) as [??] by lia. split_and!; try done; try lia.
  rewrite (sub_split buf 64 (64 + kl)) by lia. rewrite <- crc_update_chain. lia.
Qed.

(** ** Segments *)

Lemma read_segment_total fuel data off out :
  0 <= off <= len data -> len data - off < Z.of_nat fuel -> is_Some (read_segment fuel data off out).
Proof.
  revert off out. induction fuel as [|fuel IH]; intros off out Hoff Hf; cbn [read_segment].
  - lia.
  - ifcase; [|eauto]. destruct (DecodeTxnEvent _) as [err|[ev n]] eqn:E; [eauto|].
    apply DecodeTxnEvent_inv in E as (-> & Hle & ? & ? & _).
    rewrite len_sub in Hle by lia. apply IH; lia.
Qed.

Lemma ReadTxLogSegment_total data : is_Some (ReadTxLogSegment data).
Proof. apply read_segment_total; unfold len; lia. Qed.

Definition event_good (ev : TxnEvent) : Prop := event_ok ev /\ encodable ev = true.

(** The bytes of a segment. *)
Definition seg_bytes (evs : list TxnEvent) : list Z := concat (map record evs).

Lemma seg_bytes_snoc evs ev : seg_bytes (evs ++ [ev]) = seg_bytes evs ++ record ev.
Proof. unfold seg_bytes. rewrite map_app, concat_app. cbn. by rewrite app_nil_r. Qed.

Lemma len_record_pos ev : event_ok ev -> 64 <= len (record ev).
Proof. intros H. rewrite len_record by done. pose proof (len_nonneg (Key ev)). pose proof (len_nonneg (Payload ev)). lia. Qed.

(** Reading past whole records. *)
Lemma read_segment_records evs fuel pre tail out :
  Forall event_good evs -> (length (seg_bytes evs) <= fuel)%nat ->
  exists k, read_segment fuel (pre ++ seg_bytes evs ++ tail) (len pre) out =
    read_segment (fuel - k) (pre ++ seg_bytes evs ++ tail) (len pre + len (seg_bytes evs)) (out ++ evs)
    /\ (k <= length (seg_bytes evs))%nat.
Proof.
  intros Hg. revert fuel pre out. induction Hg as [|ev evs [Hok Henc] _ IH]; intros fuel pre out Hf.
  - exists O. change (len (seg_bytes [])) with 0. by rewrite Nat.sub_0_r, Z.add_0_r, app_nil_r.
  - change (seg_bytes (ev :: evs)) with (record ev ++ seg_bytes evs) in *.
    pose proof (len_record_pos ev Hok) as H64. rewrite length_app in Hf.
    destruct fuel as [|fuel]; [unfold len in *; lia|]. cbn [read_segment].
    rewrite !len_app. pose proof (len_nonneg (seg_bytes evs)). pose proof (len_nonneg tail).
    ifcase; [|lia]. rewrite sub_skip by lia. rewrite Z.sub_diag.
    rewrite sub_all by (rewrite ?len_app; lia). rewrite <- app_assoc.
    rewrite DecodeTxnEvent_record by done.
    destruct (IH fuel (pre ++ record ev) (out ++ [ev])) as (k & Heq & Hk); [unfold len in *; lia|].
    exists (S k). split; [|rewrite length_app; unfold len in *; lia].
    rewrite <- !app_assoc, !len_app, <- !Z.add_assoc in Heq. cbn [app] in Heq.
    exact Heq.
Qed.

Lemma ReadTxLogSegment_records evs :
  Forall event_good evs -> ReadTxLogSegment (seg_bytes evs) = Some (inr evs).
Proof.
  intros Hg. unfold ReadTxLogSegment.
  destruct (read_segment_records evs (S (length (seg_bytes evs))) [] [] [] Hg) as (k & Heq & Hk); [lia|].
  cbn [app] in Heq. rewrite app_nil_r in Heq. change (len []) with 0 in Heq. rewrite Heq.
  replace (S (length (seg_bytes evs)) - k)%nat with (S (length (seg_bytes evs) - k)) by lia.
  cbn [read_segment]. ifcase; [lia | done].
Qed.

(** ** Properties of the codec *)

(** C22: an event encoded is the event decoded.  For every event with fields in
    the range of their types, [EncodeTxnEvent] either refuses it (unknown kind,
    shard, key or payload too big) or produces bytes from which
    [DecodeTxnEvent], whatever follows them, returns exactly that event and
    consumes exactly those bytes. *)
Theorem encode_decode ev rest :
  event_ok ev ->
  (encodable ev = false -> exists err, EncodeTxnEvent ev = inl err) /\
  (encodable ev = true -> exists buf, EncodeTxnEvent ev = inr buf /\
     DecodeTxnEvent (buf ++ rest) = inr (ev, len buf) /\ bytes_ok buf /\
     len buf = 64 + len (Key ev) + len (Payload ev)).
Proof.
  intros H. rewrite EncodeTxnEvent_eq by done. split; intros Henc; rewrite ?Henc.
  - destruct (negb _); eauto.
  - exists (record ev). split_and!; [done | | by apply bytes_ok_record | by apply len_record].
    by apply DecodeTxnEvent_record.
Qed.

Definition ev1 : TxnEvent :=
  {| Kind := 1; Shard := 7; Seq := 42; Timestamp := 5; VersionID := zeros 16;
     Watermark := 3; Key := [107; 49]; Payload := [1; 2; 3] |}.
Lemma ev1_ok : event_ok ev1.
Proof.
  split; cbn; try lia; try split; try done; try (repeat constructor; lia).
Qed.

Lemma encode_decode_witness :
  exists buf, EncodeTxnEvent ev1 = inr buf /\ DecodeTxnEvent (buf ++ [9]) = inr (ev1, len buf).
Proof.
  destruct (proj2 (encode_decode ev1 [9] ev1_ok) eq_refl) as (buf & He & Hd & _).
  exists buf. split; [exact He | exact Hd].
Defined.

(** C19: damage of a record is detected outside its length and checksum fields.
    Overwriting at most four consecutive bytes of a record with different ones, all
    in the header before the two length fields (bytes 0 to 51) or all in the key and
    the payload (from byte 64 on), makes [DecodeTxnEvent] fail.  Nothing is said of
    damage that touches bytes 52 to 63, the two lengths and the checksum. *)
Theorem burst_rejected ev rest a w :
  event_ok ev -> encodable ev = true ->
  let r := record ev ++ rest in
  Crc.burst r (copy_at r a w) a w ->
  a + len w <= 52 \/ (64 <= a /\ a + len w <= len (record ev)) ->
  copy_at r a w <> r -> bytes_ok rest ->
  exists err, DecodeTxnEvent (copy_at r a w) = inl err.
Proof.
  intros Hok Henc r (_ & Hw & Ha & Hend & H4) Hwhere Hne Hrest.
  destruct (DecodeTxnEvent (copy_at r a w)) as [err|[ev' n']] eqn:Hd; [eauto|]. exfalso. apply Hne.
  pose proof (DecodeTxnEvent_record ev rest Hok Henc) as Hr. fold r in Hr.
  apply DecodeTxnEvent_inv in Hr as (Hn & Hle & Hk0 & Hp0 & _ & _ & Hcrc).
  apply DecodeTxnEvent_inv in Hd as (Hn' & Hle' & _ & _ & _ & _ & Hcrc').
  assert (Hbr : bytes_ok r) by (unfold r; auto using bytes_ok_app, bytes_ok_record).
  pose proof (len_nonneg w). set (n := len (record ev)) in *.
  rewrite len_copy_at in Hle'. unfold u32 in *.
  change (52 + 4) with 56 in *; change (56 + 4) with 60 in *; change (60 + 4) with 64 in *.
  rewrite !sub_copy_at_ne in Hn' by lia. rewrite <- Hn in Hn'. subst n'.
  rewrite (sub_copy_at_ne r a w 60 64) in Hcrc' by lia. rewrite <- Hcrc in Hcrc'.
  apply bytes_ext; [by rewrite len_copy_at|]. rewrite len_copy_at. intros i Hi.
  destruct (decide (a <= i < a + len w)) as [Hin|]; [|by rewrite rd_copy_at_out by lia].
  set (m := sub r 0 60 ++ sub r 64 n) in *.
  assert (Hl1 : len (sub r 0 60) = 60) by (rewrite len_sub; lia).
  assert (Hl2 : len (sub r 64 n) = n - 64) by (rewrite len_sub; lia).
  assert (exists a', sub (copy_at r a w) 0 60 ++ sub (copy_at r a w) 64 n = copy_at m a' w /\
    0 <= a' /\ a' + len w <= n - 4 /\ rd m (a' + (i - a)) = rd r i) as (a' & Hm & Ha' & Hend' & Hrd).
  { destruct Hwhere as [Hhdr|[Hbody Hbend]].
    - exists a. rewrite sub_copy_at_in, (sub_copy_at_ne r a w 64 n), Z.sub_0_r by lia.
      unfold m. rewrite copy_at_app_l, rd_app_l, rd_sub by lia. split_and!; try done; try lia.
      f_equal. lia.
    - exists (a - 4). rewrite (sub_copy_at_ne r a w 0 60), sub_copy_at_in by lia.
      unfold m. rewrite copy_at_app_r, rd_app_r, rd_sub by lia. rewrite Hl1.
      split_and!; try lia; [|f_equal; lia]. do 2 f_equal. lia. }
  rewrite Hm in Hcrc'. assert (len m = n - 4) by (unfold m; rewrite len_app; lia).
  apply (Crc.checksum_burst_at m (copy_at m a' w) a' w) in Hcrc';
    [|unfold m; auto with c2db | by split_and!; try lia].
  apply (f_equal (fun l => rd l (a' + (i - a)))) in Hcrc'.
  rewrite rd_copy_at_in, Hrd in Hcrc' by lia. rewrite rd_copy_at_in by lia.
  rewrite <- Hcrc'. f_equal. lia.
Qed.

(** The first byte of the key, 107, becomes 200. *)
Lemma burst_rejected_witness :
  exists err, DecodeTxnEvent (copy_at (record ev1 ++ []) 64 [200]) = inl err.
Proof.
  assert (Hlen : len (record ev1) = 69) by (rewrite (len_record _ ev1_ok); reflexivity).
  apply (burst_rejected ev1 [] 64 [200]).
  - exact ev1_ok.
  - reflexivity.
  - split_and!; [reflexivity | repeat constructor; lia | lia | rewrite app_nil_r, Hlen; discriminate | cbn; lia].
  - right. rewrite Hlen. split; discriminate.
  - intros Heq. apply (f_equal (fun l => rd l 64)) in Heq.
    rewrite (rd_copy_at_in (record ev1 ++ []) 64 [200] 64) in Heq
      by (rewrite ?app_nil_r, ?Hlen; change (len [200]) with 1; lia).
    destruct (record_fields ev1 [] ev1_ok) as (_ & _ & Hk & _).
    apply (f_equal (fun l => rd l 0)) in Hk. change (len (Key ev1)) with 2 in Hk.
    rewrite rd_sub in Hk by (rewrite ?app_nil_r, ?Hlen; lia).
    change (64 + 0) with 64 in Hk. rewrite Hk in Heq. discriminate Heq.
  - constructor.
Defined.

(** ** Segment names *)

Lemma length_pad_dec k n : length (pad_dec k n) = k.
Proof. revert n. induction k as [|k IH]; intros n; cbn; [done|]. rewrite length_app, IH. cbn. lia. Qed.

Lemma parse_digits_app s c n m :
  parse_digits s n = Some m -> 48 <= c <= 57 -> m * 10 + (c - 48) <= 2 ^ 32 - 1 ->
  parse_digits (s ++ [c]) n = Some (m * 10 + (c - 48)).
Proof.
  revert n. induction s as [|d s IH]; intros n Hp Hc Hm; cbn [parse_digits app] in *.
  - injection Hp as ->. rewrite (proj2 (Z.leb_le 48 c)), (proj2 (Z.leb_le c 57)) by lia. cbn [andb].
    ifcase; [lia | done].
  - destruct ((48 <=? d) && (d <=? 57)); [|done].
    destruct (n * 10 + (d - 48) >? 2 ^ 32 - 1); [done|]. by apply IH.
Qed.

Lemma parse_pad_dec k n :
  0 <= n < 2 ^ 32 -> n < 10 ^ Z.of_nat k -> parse_digits (pad_dec k n) 0 = Some n.
Proof.
  revert n. induction k as [|k IH]; intros n Hn Hk.
  - change (10 ^ Z.of_nat 0) with 1 in Hk. cbn. f_equal. lia.
  - cbn [pad_dec]. replace (Z.of_nat (S k)) with (1 + Z.of_nat k) in Hk by lia.
    rewrite Z.pow_add_r in Hk by lia. change (10 ^ 1) with 10 in Hk.
    assert (Hdiv : n = 10 * (n / 10) + n `mod` 10) by (apply Z.div_mod; lia).
    assert (0 <= n `mod` 10 < 10) by (apply Z.mod_pos_bound; lia).
    rewrite (parse_digits_app _ _ _ (n / 10)); [f_equal; lia | apply IH; lia | lia | lia].
Qed.

Lemma dec_width_enough n : 0 <= n < 2 ^ 32 -> n < 10 ^ Z.of_nat (dec_width n) /\ (0 < dec_width n)%nat.
Proof. intros. unfold dec_width. zcases; (split; [|lia]);
  match goal with |- _ < ?p => let r := eval vm_compute in p in change p with r end; lia. Qed.

Lemma parse_name idx :
  0 <= idx < 2 ^ 32 -> parseTxLogSegmentName (txLogSegmentName idx) = Some idx.
Proof.
  intros Hidx. destruct (dec_width_enough idx Hidx) as [Hw Hpos].
  unfold parseTxLogSegmentName, txLogSegmentName. set (d := pad_dec (dec_width idx) idx).
  assert (Hd : len d = Z.of_nat (dec_width idx)) by (unfold d, len; by rewrite length_pad_dec).
  assert (Hpre : HasPrefix (txLogSegPrefix ++ d ++ txLogSegSuffix) txLogSegPrefix = true).
  { unfold HasPrefix. apply bool_decide_eq_true. apply take_app_length. }
  assert (Hlen : len (txLogSegPrefix ++ d ++ txLogSegSuffix) = 11 + len d).
  { rewrite !len_app. change (len txLogSegPrefix) with 7. change (len txLogSegSuffix) with 4. lia. }
  assert (H7 : len txLogSegPrefix = 7) by done. assert (H4 : len txLogSegSuffix = 4) by done.
  assert (Hsuf : HasSuffix (txLogSegPrefix ++ d ++ txLogSegSuffix) txLogSegSuffix = true).
  { unfold HasSuffix. rewrite Hlen, H4. rewrite (proj2 (Z.leb_le 4 _)) by lia. cbn [andb].
    apply bool_decide_eq_true. rewrite !sub_skip by lia. apply sub_all; lia. }
  rewrite Hpre, Hsuf, Hlen, H7, H4. cbn [negb orb].
  rewrite sub_skip, sub_head by lia.
  assert (Hparse : parse_digits d 0 = Some idx) by (by apply parse_pad_dec).
  clearbody d. destruct d as [|c d']; [change (len []) with 0 in Hd; lia | done].
Qed.

(** C30: segment names parse back.  For every [uint32] index the name
    [txLogSegmentName] builds is recognised by [parseTxLogSegmentName] and gives
    that index, so distinct segments never share a file. *)
Theorem segment_name_roundtrip idx :
  0 <= idx < 2 ^ 32 -> parseTxLogSegmentName (txLogSegmentName idx) = Some idx.
Proof. apply parse_name. Qed.

Lemma segment_name_roundtrip_witness :
  parseTxLogSegmentName (str "txnlog-00000042.seg"%string) = Some 42.
Proof. exact (segment_name_roundtrip 42 ltac:(lia)). Defined.

Lemma name_inj i j : 0 <= i < 2 ^ 32 -> 0 <= j < 2 ^ 32 ->
  txLogSegmentName i = txLogSegmentName j -> i = j.
Proof. intros Hi Hj H. apply (f_equal parseTxLogSegmentName) in H. rewrite !parse_name in H by done. congruence. Qed.

(** ** The directory of a list of segments *)

Fixpoint entries_from (i : Z) (segs : list (list TxnEvent)) : list (list Z * list Z) :=
  match segs with
  | [] => []
  | s :: segs' => (txLogSegmentName i, seg_bytes s) :: entries_from (i + 1) segs'
  end.
Fixpoint indexed_from (i : Z) (segs : list (list TxnEvent)) : list (Z * list Z) :=
  match segs with
  | [] => []
  | s :: segs' => (i, seg_bytes s) :: indexed_from (i + 1) segs'
  end.

Definition disk (segs : list (list TxnEvent)) : files := list_to_map (entries_from 0 segs).

Lemma entries_from_app i a b :
  entries_from i (a ++ b) = entries_from i a ++ entries_from (i + len a) b.
Proof.
  revert i. induction a as [|s a IH]; intros i; cbn [app entries_from].
  - by rewrite Z.add_0_r.
  - rewrite IH, len_cons. cbn. by rewrite Z.add_assoc.
Qed.

Lemma entries_from_names i segs nm :
  nm ∈ (entries_from i segs).*1 -> exists j, nm = txLogSegmentName j /\ i <= j < i + len segs.
Proof.
  revert i. induction segs as [|s segs IH]; intros i; cbn [entries_from fmap list_fmap fst].
  - by intros ?%not_elem_of_nil.
  - rewrite len_cons. pose proof (len_nonneg segs).
    intros [->|Hin]%elem_of_cons; [exists i; split; [done | lia]|].
    apply IH in Hin as (j & -> & Hj). exists j. split; [done | lia].
Qed.

Lemma entries_from_NoDup i segs :
  0 <= i -> i + len segs <= 2 ^ 32 -> NoDup (entries_from i segs).*1.
Proof.
  revert i. induction segs as [|s segs IH]; intros i Hi Hlen; cbn; [constructor|].
  rewrite len_cons in Hlen. pose proof (len_nonneg segs). constructor; [|apply IH; lia].
  intros (j & Hj & Hr)%entries_from_names. apply name_inj in Hj; lia.
Qed.

Lemma segments_entries i segs :
  0 <= i -> i + len segs <= 2 ^ 32 ->
  omap (fun '(name, data) => (fun i => (i, data)) <$> parseTxLogSegmentName name) (entries_from i segs)
  = indexed_from i segs.
Proof.
  revert i. induction segs as [|s segs IH]; intros i Hi Hlen; [done|].
  rewrite len_cons in Hlen. pose proof (len_nonneg segs).
  cbn [entries_from indexed_from]. cbn [omap list_omap]. rewrite parse_name by lia.
  cbn [fmap option_fmap option_map]. f_equal. apply IH; lia.
Qed.

Lemma segments_disk segs : len segs <= 2 ^ 32 -> segments (disk segs) ≡ₚ indexed_from 0 segs.
Proof.
  intros Hlen. unfold segments. rewrite <- segments_entries by lia.
  f_equiv. unfold disk. apply map_to_list_to_map, entries_from_NoDup; lia.
Qed.

Lemma indexed_from_Forall i segs : Forall (fun x => i <= x.1) (indexed_from i segs).
Proof.
  revert i. induction segs as [|s segs IH]; intros i; cbn; constructor; cbn; [lia|].
  eapply Forall_impl; [apply IH|]. cbn. lia.
Qed.

Lemma indexed_from_sorted i segs : StronglySorted seg_le (indexed_from i segs).
Proof.
  revert i. induction segs as [|s segs IH]; intros i; cbn; constructor; [apply IH|].
  eapply Forall_impl; [apply indexed_from_Forall|]. unfold seg_le. cbn. lia.
Qed.

Lemma indexed_from_inj i segs x y :
  x ∈ indexed_from i segs -> y ∈ indexed_from i segs -> x.1 = y.1 -> x = y.
Proof.
  revert i. induction segs as [|s segs IH]; intros i; cbn [indexed_from].
  - by intros ?%not_elem_of_nil.
  - pose proof (indexed_from_Forall (i + 1) segs) as Hall. rewrite Forall_forall in Hall.
    intros [->|Hx]%elem_of_cons [->|Hy]%elem_of_cons He; cbn in *; try done.
    + apply Hall in Hy. lia.
    + apply Hall in Hx. lia.
    + eauto.
Qed.

#[local] Instance seg_le_trans : Transitive seg_le.
Proof. intros x y z. unfold seg_le. lia. Qed.
#[local] Instance seg_le_total : Total seg_le.
Proof. intros x y. unfold seg_le. lia. Qed.

(** The sort of [ReadTxLogDir] gives the segments in order. *)
Lemma sorted_disk segs : len segs <= 2 ^ 32 ->
  merge_sort seg_le (segments (disk segs)) = indexed_from 0 segs.
Proof.
  intros Hlen. pose proof (segments_disk segs Hlen) as Hp.
  assert (Hp' : merge_sort seg_le (segments (disk segs)) ≡ₚ indexed_from 0 segs)
    by (by rewrite merge_sort_Permutation).
  apply (StronglySorted_unique_strong seg_le); [| apply StronglySorted_merge_sort; apply _ |
    apply indexed_from_sorted | done].
  intros x y Hx Hy Hxy Hyx. rewrite Hp' in Hx.
  eapply indexed_from_inj; eauto. unfold seg_le in *. lia.
Qed.

Lemma read_segs_indexed i segs out :
  Forall (Forall event_good) segs ->
  read_segs (indexed_from i segs) out = Some (inr (out ++ concat segs)).
Proof.
  intros Hg. revert i out. induction Hg as [|s segs Hs _ IH]; intros i out;
    cbn [indexed_from read_segs concat].
  - by rewrite app_nil_r.
  - rewrite ReadTxLogSegment_records by done. cbn [mbind option_bind].
    by rewrite IH, <- app_assoc.
Qed.

Lemma ReadTxLogDir_disk segs :
  Forall (Forall event_good) segs -> len segs <= 2 ^ 32 ->
  ReadTxLogDir (disk segs) = Some (inr (concat segs)).
Proof. intros Hg Hlen. unfold ReadTxLogDir. rewrite sorted_disk by done. by rewrite read_segs_indexed. Qed.

(** Growing the directory. *)
Lemma disk_snoc segs s : len segs < 2 ^ 32 ->
  disk (segs ++ [s]) = <[txLogSegmentName (len segs) := seg_bytes s]> (disk segs).
Proof.
  intros Hlen. unfold disk. rewrite entries_from_app. cbn [entries_from].
  apply list_to_map_snoc. intros (j & Hj & Hr)%entries_from_names.
  pose proof (len_nonneg segs). apply name_inj in Hj; lia.
Qed.

Lemma disk_fresh segs : len segs < 2 ^ 32 -> disk segs !! txLogSegmentName (len segs) = None.
Proof.
  intros Hlen. apply not_elem_of_list_to_map_1. intros (j & Hj & Hr)%entries_from_names.
  pose proof (len_nonneg segs). apply name_inj in Hj; lia.
Qed.

(** ** The invariant of the writer *)

(** [segs] are the events of each segment of the directory; the current segment
    is the last, and only a segment of one event can exceed the bound. *)
Record log_inv (l : TxLog) (fs : files) (segs : list (list TxnEvent)) : Prop := {
  inv_fs : fs = disk segs;
  inv_open : closed l = false;
  inv_events : Forall (Forall event_good) segs;
  inv_bound : Forall (fun s => len (seg_bytes s) <= maxSegmentBytes l \/ (length s <= 1)%nat) segs;
  inv_seq : 0 <= seq l < 2 ^ 64;
  inv_cur : (segs = [] /\ f l = None /\ segIndex l = 0) \/
    (exists init cur, segs = init ++ [cur] /\ f l = Some (txLogSegmentName (len init), true) /\
       segIndex l = len init /\ curBytes l = len (seg_bytes cur));
}.

(** The sequence number an event is given. *)
Definition stamp (l : TxLog) (ev : TxnEvent) : TxnEvent :=
  if Seq ev =? 0 then set_Seq ev (w64 (seq l + 1)) else ev.
Definition next_seq (l : TxLog) (ev : TxnEvent) : Z :=
  if Seq ev =? 0 then w64 (seq l + 1) else if Seq ev >? seq l then Seq ev else seq l.

Lemma stamp_ok l ev : event_ok ev -> event_ok (stamp l ev).
Proof.
  intros H. unfold stamp. ifcase; [|done]. destruct H. split; cbn; try done. apply w64_bound.
Qed.
Lemma stamp_encodable l ev : encodable (stamp l ev) = encodable ev.
Proof. unfold stamp. by ifcase. Qed.
Lemma next_seq_range l ev : event_ok ev -> 0 <= seq l < 2 ^ 64 -> 0 <= next_seq l ev < 2 ^ 64.
Proof. intros H Hl. pose proof (ok_seq _ H). unfold next_seq. pose proof (w64_bound (seq l + 1)). zcases. Qed.

(** The writer positioned in the segment [cur] that follows [init]. *)
Definition at_segment (l : TxLog) (fs : files) (init : list (list TxnEvent)) (cur : list TxnEvent) : Prop :=
  fs = disk (init ++ [cur]) /\ f l = Some (txLogSegmentName (len init), true) /\
  segIndex l = len init /\ curBytes l = len (seg_bytes cur).

Lemma open_fresh l segs :
  f l = None -> segIndex l = len segs -> len segs < 2 ^ 32 ->
  openSegment l (disk segs) io_ok = (opened l (txLogSegmentName (len segs)) 0, disk (segs ++ [[]]), None).
Proof.
  intros Hf Hi Hlen. unfold openSegment. cbn [io_open io_stat io_ok negb].
  rewrite Hi, disk_fresh, disk_snoc by done. done.
Qed.

Lemma write_current l fs init cur ev :
  at_segment l fs init cur -> len init < 2 ^ 32 ->
  write_rec l fs io_ok (record ev) =
    (wrote l (len (record ev)), disk (init ++ [cur ++ [ev]]), None) /\
  at_segment (wrote l (len (record ev))) (disk (init ++ [cur ++ [ev]])) init (cur ++ [ev]).
Proof.
  intros (-> & Hf & Hi & Hc) Hlen. unfold write_rec. rewrite Hf. cbn [io_write io_ok].
  rewrite !disk_snoc by done. rewrite lookup_insert_eq, insert_insert_eq. cbn [default from_option].
  unfold id. rewrite <- seg_bytes_snoc. split; [done|]. unfold at_segment. rewrite disk_snoc by done.
  cbn [f segIndex curBytes wrote]. rewrite seg_bytes_snoc, len_app. auto with lia.
Qed.

Lemma rotate_ok l name : f l = Some (name, true) -> 0 <= segIndex l < 2 ^ 32 - 1 ->
  rotate l io_ok = (set_segIndex (set_f l None) (segIndex l + 1), None).
Proof. intros Hf Hi. unfold rotate. rewrite Hf. cbn. unwrap. done. Qed.

Lemma at_segment_inv l fs init cur :
  at_segment l fs init cur -> closed l = false -> 0 <= seq l < 2 ^ 64 ->
  Forall (Forall event_good) (init ++ [cur]) ->
  Forall (fun s => len (seg_bytes s) <= maxSegmentBytes l \/ (length s <= 1)%nat) (init ++ [cur]) ->
  log_inv l fs (init ++ [cur]).
Proof. intros (-> & Hf & Hi & Hc) Hcl Hseq Hg Hb. split; try done. right. eauto 10. Qed.

Lemma seg_bytes_nonempty cur : Forall event_good cur -> len (seg_bytes cur) <= 0 -> cur = [].
Proof.
  intros [|ev evs [Hok _] _]; [done|]. intros Hlen. exfalso.
  change (seg_bytes (ev :: evs)) with (record ev ++ seg_bytes evs) in Hlen.
  rewrite len_app in Hlen. pose proof (len_record_pos ev Hok). pose proof (len_nonneg (seg_bytes evs)). lia.
Qed.

(** What [Emit] does before it writes: the state positioned in a segment that
    can take the record. *)
Definition position (l : TxLog) (fs : files) (need : Z) : TxLog * files :=
  let l2 := if has_file l && (curBytes l >? 0) && (curBytes l + need >? maxSegmentBytes l)
            then (rotate l io_ok).1 else l in
  if negb (has_file l2) then ((openSegment l2 fs io_ok).1.1, (openSegment l2 fs io_ok).1.2) else (l2, fs).

Lemma position_spec l fs segs need :
  log_inv l fs segs -> len segs + 1 < 2 ^ 32 ->
  exists init cur, at_segment (position l fs need).1 (position l fs need).2 init cur /\
    concat (init ++ [cur]) = concat segs /\ len (init ++ [cur]) <= len segs + 1 /\
    Forall (Forall event_good) (init ++ [cur]) /\
    Forall (fun s => len (seg_bytes s) <= maxSegmentBytes l \/ (length s <= 1)%nat) (init ++ [cur]) /\
    (cur = [] \/ len (seg_bytes cur) + need <= maxSegmentBytes l) /\
    closed (position l fs need).1 = false /\ seq (position l fs need).1 = seq l /\
    maxSegmentBytes (position l fs need).1 = maxSegmentBytes l.
Proof.
  intros [Hfs Hcl Hg Hb Hseq Hcur] Hlen. pose proof (len_nonneg segs). unfold position. subst fs.
  destruct Hcur as [(-> & Hf & Hi)|(init & cur & -> & Hf & Hi & Hc)].
  - assert (Hh : has_file l = false) by (unfold has_file; by rewrite Hf).
    rewrite Hh. cbn [andb]. rewrite Hh. cbn [negb].
    rewrite (open_fresh l []) by done. cbn [fst snd].
    exists [], []. split_and!; try done.
    * by repeat constructor.
    * constructor; [right; cbn; lia | done].
    * by left.
  - assert (Hh : has_file l = true) by (unfold has_file; by rewrite Hf).
    rewrite Hh. cbn [andb].
    rewrite len_app in *. change (len [cur]) with 1 in *. pose proof (len_nonneg init).
    destruct ((curBytes l >? 0) && (curBytes l + need >? maxSegmentBytes l)) eqn:Er.
    + rewrite (rotate_ok l _ Hf) by lia. cbn [fst has_file f set_segIndex set_f negb].
      rewrite (open_fresh _ (init ++ [cur])) by
        (rewrite ?len_app; change (len [cur]) with 1; cbn [segIndex set_segIndex]; done || lia).
      cbn [fst snd]. exists (init ++ [cur]), []. split_and!; try done.
      * unfold at_segment. split_and!; try done. cbn. rewrite len_app. change (len [cur]) with 1. lia.
      * rewrite concat_app. cbn. by rewrite app_nil_r.
      * rewrite !len_app. change (len [cur]) with 1. change (len [[]]) with 1. lia.
      * apply Forall_app_2; [done | by repeat constructor].
      * apply Forall_app_2; [done|]. constructor; [right; cbn; lia | done].
      * by left.
    + rewrite Hh. cbn [fst snd negb].
      exists init, cur. split_and!; try done; [rewrite len_app; change (len [cur]) with 1; lia|].
      rewrite Hc in Er. destruct (Z.leb_spec (len (seg_bytes cur)) 0) as [Hz|].
      * left. apply seg_bytes_nonempty; [|done]. by apply Forall_snoc_inv in Hg as [_ Hg].
      * right. lia.
Qed.

Lemma Emit_eq l fs segs ev : log_inv l fs segs -> len segs + 1 < 2 ^ 32 -> event_ok ev ->
  let l1 := set_seq l (next_seq l ev) in
  Emit l fs io_ok ev =
  if encodable ev then
    let '(l3, fs3) := position l1 fs (len (record (stamp l ev))) in
    write_rec l3 fs3 io_ok (record (stamp l ev))
  else (l1, fs, Some (if negb (KindValid (Kind ev)) then errTxLogKind else errTxLogRange)).
Proof.
  intros Hinv Hlen Hok l1. unfold Emit. rewrite (inv_open _ _ _ Hinv).
  assert (Hstamp : (if Seq ev =? 0 then (set_seq l (w64 (seq l + 1)), set_Seq ev (w64 (seq l + 1)))
    else if Seq ev >? seq l then (set_seq l (Seq ev), ev) else (l, ev)) = (l1, stamp l ev)).
  { unfold l1, stamp, next_seq. ifcase; [done|]. ifcase; [done|]. by destruct l. }
  rewrite Hstamp. rewrite EncodeTxnEvent_eq, stamp_encodable by (by apply stamp_ok).
  destruct (encodable ev).
  2:{ unfold stamp. destruct (Seq ev =? 0); by destruct (negb _). }
  unfold position. change (has_file l1) with (has_file l).
  assert (Hrot : has_file l = true -> rotate l1 io_ok = (set_segIndex (set_f l1 None) (segIndex l + 1), None)).
  { intros Hh. destruct (inv_cur _ _ _ Hinv) as [(-> & Hf & Hi)|(init & cur & -> & Hf & Hi & Hc)].
    { unfold has_file in Hh. by rewrite Hf in Hh. }
    rewrite len_app in Hlen. change (len [cur]) with 1 in Hlen. pose proof (len_nonneg init).
    by rewrite (rotate_ok l1 _ Hf) by (cbn; lia). }
  destruct (has_file l) eqn:Hh; cbn [andb].
  - rewrite Hrot by done. destruct (_ && _); [done|]. change (has_file l1) with (has_file l). by rewrite Hh.
  - change (has_file l1) with (has_file l). by rewrite Hh.
Qed.

(** One accepted event extends the log by one event; a refused one leaves the
    directory alone. *)
Lemma Emit_step l fs segs ev : log_inv l fs segs -> len segs + 1 < 2 ^ 32 -> event_ok ev ->
  exists segs', log_inv (Emit l fs io_ok ev).1.1 (Emit l fs io_ok ev).1.2 segs' /\
    len segs' <= len segs + 1 /\ seq (Emit l fs io_ok ev).1.1 = next_seq l ev /\
    maxSegmentBytes (Emit l fs io_ok ev).1.1 = maxSegmentBytes l /\
    match (Emit l fs io_ok ev).2 with
    | None => encodable ev = true /\ concat segs' = concat segs ++ [stamp l ev]
    | Some _ => encodable ev = false /\ segs' = segs /\ (Emit l fs io_ok ev).1.2 = fs
    end.
Proof.
  intros Hinv Hlen Hok. rewrite (Emit_eq l fs segs) by done.
  pose proof (next_seq_range l ev Hok (inv_seq _ _ _ Hinv)) as Hns.
  set (l1 := set_seq l (next_seq l ev)).
  assert (Hinv1 : log_inv l1 fs segs) by (destruct Hinv; by split).
  destruct (encodable ev) eqn:Henc.
  2:{ exists segs. cbn [fst snd]. split_and!; try done. lia. }
  destruct (position_spec l1 fs segs (len (record (stamp l ev))) Hinv1 Hlen)
    as (init & cur & Hat & Hcat & Hlen' & Hg & Hb & Hfit & Hcl & Hseq & Hmax).
  destruct (position l1 fs (len (record (stamp l ev)))) as [l3 fs3]. cbn [fst snd] in *.
  rewrite len_app in Hlen'. change (len [cur]) with 1 in Hlen'.
  destruct (write_current l3 fs3 init cur (stamp l ev) Hat) as [-> Hat']; [lia|]. cbn [fst snd].
  assert (Hev : event_good (stamp l ev)) by (split; [by apply stamp_ok | by rewrite stamp_encodable]).
  apply Forall_snoc_inv in Hg as [Hg1 Hg2].
  apply Forall_snoc_inv in Hb as [Hb1 _].
  exists (init ++ [cur ++ [stamp l ev]]). split_and!.
  - apply at_segment_inv; try done.
    + cbn. rewrite Hseq. apply Hns.
    + by apply Forall_snoc_intro, Forall_snoc_intro.
    + cbn [maxSegmentBytes wrote]. rewrite Hmax. apply Forall_snoc_intro; [done|].
      destruct Hfit as [->|Hfit]; [right; cbn; lia|].
      left. rewrite seg_bytes_snoc, len_app. lia.
  - rewrite len_app. change (len [_]) with 1. lia.
  - cbn. done.
  - cbn. by rewrite Hmax.
  - done.
  - rewrite concat_app in *. cbn [concat] in *. rewrite app_nil_r in *. by rewrite app_assoc, Hcat.
Qed.

(** ** Reopening *)

Lemma highest_spec (xs : list (Z * list Z)) h :
  (forall x, x ∈ xs -> 0 <= x.1 <= h) -> (exists x, x ∈ xs /\ x.1 = h) ->
  foldr (fun s a => Z.max s.1 a) 0 xs = h.
Proof.
  intros Hall (x & Hx & Hxh).
  assert (Hle : foldr (fun s a => Z.max s.1 a) 0 xs <= h).
  { assert (0 <= h) by (specialize (Hall x Hx); lia). clear Hx Hxh x.
    induction xs as [|y ys IH]; cbn; [done|].
    assert (0 <= y.1 <= h) by (apply Hall; constructor).
    assert (foldr (fun s a => Z.max s.1 a) 0 ys <= h) by (apply IH; intros; apply Hall; by constructor). lia. }
  assert (Hge : forall y, y ∈ xs -> y.1 <= foldr (fun s a => Z.max s.1 a) 0 xs).
  { clear. induction xs as [|z zs IH]; intros y; [by intros ?%not_elem_of_nil|].
    cbn [foldr]. intros [->|Hy]%elem_of_cons; [lia|]. apply IH in Hy. lia. }
  specialize (Hge x Hx). lia.
Qed.

Lemma indexed_from_range i segs x : x ∈ indexed_from i segs -> i <= x.1 < i + len segs.
Proof.
  revert i. induction segs as [|s segs IH]; intros i; cbn [indexed_from]; [by intros ?%not_elem_of_nil|].
  rewrite len_cons. pose proof (len_nonneg segs).
  intros [->|Hx]%elem_of_cons; cbn; [lia|]. apply IH in Hx. lia.
Qed.

Lemma indexed_from_snoc i segs s :
  indexed_from i (segs ++ [s]) = indexed_from i segs ++ [(i + len segs, seg_bytes s)].
Proof.
  revert i. induction segs as [|x segs IH]; intros i; cbn [app indexed_from].
  - by rewrite Z.add_0_r.
  - rewrite IH, len_cons. cbn. by rewrite Z.add_assoc.
Qed.

(** Opening a well-formed directory resumes at the end of its last segment. *)
Lemma OpenTxLog_disk segs m :
  0 < m -> len segs <= 2 ^ 32 -> Forall (Forall event_good) segs ->
  Forall (fun s => len (seg_bytes s) <= m \/ (length s <= 1)%nat) segs ->
  exists l, OpenTxLog (disk segs) m = inr l /\ log_inv l (disk segs) segs /\ maxSegmentBytes l = m /\
    seq l = match list.last segs with
            | Some cur => match list.last cur with Some ev => Seq ev | None => 0 end
            | None => 0
            end.
Proof.
  intros Hm Hlen Hg Hb. unfold OpenTxLog. rewrite (proj2 (Z.leb_gt m 0)) by lia.
  pose proof (segments_disk segs Hlen) as Hp.
  destruct (segs) as [|s0 segs0 _] using rev_ind.
  - eexists. split; [reflexivity|]. split; [|done]. split; try done. by left.
  - rename segs0 into init, s0 into cur. rewrite len_app in Hlen. change (len [cur]) with 1 in Hlen.
    pose proof (len_nonneg init). rewrite indexed_from_snoc, Z.add_0_l in Hp.
    assert (Hh : foldr (fun s a => Z.max s.1 a) 0 (segments (disk (init ++ [cur]))) = len init).
    { apply highest_spec.
      - intros x Hx. rewrite Hp in Hx. apply elem_of_app in Hx as [Hx|Hx%list_elem_of_singleton].
        + apply indexed_from_range in Hx. lia.
        + subst x. cbn. lia.
      - exists (len init, seg_bytes cur). split; [|done]. rewrite Hp. apply elem_of_app. right. by constructor. }
    destruct (segments (disk (init ++ [cur]))) as [|x xs] eqn:Exs.
    { exfalso. apply Permutation_nil_l in Hp. by destruct (indexed_from 0 init). }
    rewrite <- Exs in *. rewrite Hh. rewrite disk_snoc, lookup_insert_eq by lia. rewrite <- disk_snoc by lia.
    apply Forall_snoc_inv in Hg as Hg'. destruct Hg' as [_ Hcur].
    rewrite ReadTxLogSegment_records by done. eexists. split; [done|]. split; [|split; [done|]].
    + split; try done; cbn [seq].
      * destruct (list.last cur) as [ev|] eqn:El; [|lia].
        apply list.last_Some_elem_of in El. rewrite Forall_forall in Hcur. apply Hcur in El as [El _]. apply El.
      * right. exists init, cur. split_and!; done.
    + cbn [seq]. by rewrite last_snoc.
Qed.

(** ** Runs of the writer *)

(** A sequence of [Emit] calls, with the events (as stamped) that were accepted. *)
Fixpoint emit_all (l : TxLog) (fs : files) (evs : list TxnEvent) : TxLog * files * list TxnEvent :=
  match evs with
  | [] => (l, fs, [])
  | ev :: evs' =>
      let '(l', fs', e) := Emit l fs io_ok ev in
      let '(l2, fs2, acc) := emit_all l' fs' evs' in
      (l2, fs2, match e with None => stamp l ev :: acc | Some _ => acc end)
  end.

Lemma emit_all_step l fs segs evs :
  log_inv l fs segs -> Forall event_ok evs -> len segs + len evs < 2 ^ 32 ->
  exists segs', log_inv (emit_all l fs evs).1.1 (emit_all l fs evs).1.2 segs' /\
    len segs' <= len segs + len evs /\
    maxSegmentBytes (emit_all l fs evs).1.1 = maxSegmentBytes l /\
    concat segs' = concat segs ++ (emit_all l fs evs).2.
Proof.
  revert l fs segs. induction evs as [|ev evs IH]; intros l fs segs Hinv Hok Hlen.
  - exists segs. cbn. rewrite app_nil_r. change (len []) with 0. split_and!; auto with lia.
  - rewrite len_cons in *. pose proof (len_nonneg evs). inversion_clear Hok as [|? ? Hev Hevs].
    destruct (Emit_step l fs segs ev Hinv ltac:(lia) Hev) as (segs1 & Hinv1 & Hlen1 & _ & Hmax1 & Hres).
    cbn [emit_all]. destruct (Emit l fs io_ok ev) as [[l1 fs1] e]. cbn [fst snd] in *.
    destruct (IH l1 fs1 segs1 Hinv1 Hevs ltac:(lia)) as (segs2 & Hinv2 & Hlen2 & Hmax2 & Hcat2).
    destruct (emit_all l1 fs1 evs) as [[l2 fs2] acc]. cbn [fst snd] in *.
    exists segs2. split_and!; [done | lia | congruence |].
    destruct e as [err|]; destruct Hres as (_ & Hres).
    + destruct Hres as [-> _]. done.
    + by rewrite Hcat2, Hres, <- app_assoc.
Qed.

(** C4: the log gives back what it was given, across rotations and reopening.
    From an empty directory, emit any events, reopen the directory, emit more:
    [ReadTxLogDir] then returns exactly the accepted events of both sessions, as
    stamped and in the order of the calls.  (Fewer than 2^32 events, so that
    segment indices do not wrap.) *)
Theorem log_read_back m evs1 evs2 :
  0 < m -> Forall event_ok evs1 -> Forall event_ok evs2 -> len evs1 + len evs2 < 2 ^ 32 ->
  exists l1, OpenTxLog ∅ m = inr l1 /\
    let '(_, fs1, acc1) := emit_all l1 ∅ evs1 in
    exists l2, OpenTxLog fs1 m = inr l2 /\
      let '(_, fs2, acc2) := emit_all l2 fs1 evs2 in
      ReadTxLogDir fs2 = Some (inr (acc1 ++ acc2)).
Proof.
  intros Hm H1 H2 Hlen. pose proof (len_nonneg evs1). pose proof (len_nonneg evs2).
  destruct (OpenTxLog_disk [] m Hm) as (l1 & Ho1 & Hinv1 & Hm1 & _); [by cbn | constructor..|].
  exists l1. split; [exact Ho1|]. change (disk []) with (∅ : files) in *.
  destruct (emit_all_step l1 ∅ [] evs1 Hinv1 H1) as (segs1 & Hinv1' & Hlen1 & Hm1' & Hc1);
    [change (len (@nil (list TxnEvent))) with 0; lia|].
  destruct (emit_all l1 ∅ evs1) as [[l1' fs1] acc1]. cbn [fst snd concat app] in *.
  change (len (@nil (list TxnEvent))) with 0 in Hlen1.
  destruct Hinv1' as [Hfs1 _ Hg1 Hb1 _ _]. rewrite Hm1', Hm1 in Hb1. subst fs1.
  destruct (OpenTxLog_disk segs1 m Hm ltac:(lia) Hg1 Hb1) as (l2 & Ho2 & Hinv2 & Hm2 & _).
  exists l2. split; [done|].
  destruct (emit_all_step l2 (disk segs1) segs1 evs2 Hinv2 H2 ltac:(lia)) as (segs2 & Hinv2' & Hlen2 & _ & Hc2).
  destruct (emit_all l2 (disk segs1) evs2) as [[l2' fs2] acc2]. cbn [fst snd] in *.
  rewrite (inv_fs _ _ _ Hinv2'), ReadTxLogDir_disk by (apply Hinv2' || lia). by rewrite Hc2, Hc1.
Qed.

Lemma log_read_back_witness :
  exists l1, OpenTxLog ∅ 150 = inr l1 /\
    let '(_, fs1, acc1) := emit_all l1 ∅ [ev1; ev1; set_Seq ev1 0] in
    exists l2, OpenTxLog fs1 150 = inr l2 /\
      let '(_, fs2, acc2) := emit_all l2 fs1 [set_Seq ev1 0] in
      ReadTxLogDir fs2 = Some (inr (acc1 ++ acc2)).
Proof.
  assert (H0 : event_ok (set_Seq ev1 0)) by (destruct ev1_ok; split; cbn; auto; lia).
  apply (log_read_back 150 [ev1; ev1; set_Seq ev1 0] [set_Seq ev1 0]); [lia | | | done].
  - exact (Forall_cons_2 _ _ _ ev1_ok (Forall_cons_2 _ _ _ ev1_ok (Forall_cons_2 _ _ _ H0 (Forall_nil_2 _)))).
  - exact (Forall_cons_2 _ _ _ H0 (Forall_nil_2 _)).
Defined.





(** C31: a torn tail hides the segment.  If the last record of a segment was cut
    short by a crash, [ReadTxLogSegment] returns an error and none of the intact
    events before it, so [OpenTxLog] restarts the sequence at 0. *)
Theorem torn_tail_unreadable evs ev k :
  Forall event_good evs -> event_good ev -> 0 < k < len (record ev) ->
  ReadTxLogSegment (seg_bytes evs ++ sub (record ev) 0 k) = Some (inl errTxLogShort) /\
  (forall m, 0 < m -> exists l,
     OpenTxLog {[ txLogSegmentName 0 := seg_bytes evs ++ sub (record ev) 0 k ]} m = inr l /\ seq l = 0).
Proof.
  intros Hg [Hok Henc] Hk. set (tail := sub (record ev) 0 k).
  assert (Htail : len tail = k) by (unfold tail; rewrite len_sub; lia).
  assert (Hread : ReadTxLogSegment (seg_bytes evs ++ tail) = Some (inl errTxLogShort)).
  { unfold ReadTxLogSegment.
    destruct (read_segment_records evs (S (length (seg_bytes evs ++ tail))) [] tail [] Hg) as (j & Heq & Hj);
      [rewrite length_app; lia|].
    change (len []) with 0 in Heq. cbn [app] in Heq. rewrite Heq, Z.add_0_l.
    rewrite length_app in *. unfold len in Htail.
    replace (S (length (seg_bytes evs) + length tail) - j)%nat with
      (S (length (seg_bytes evs) + length tail - j)) by lia.
    cbn [read_segment]. rewrite len_app. pose proof (len_nonneg tail). unfold len in H.
    rewrite (proj2 (Z.ltb_lt _ _)) by (unfold len; lia).
    rewrite sub_skip, Z.sub_diag, sub_all by (unfold len; lia).
    assert (Hdec : DecodeTxnEvent tail = inl errTxLogShort); [|by rewrite Hdec].
    pose proof (DecodeTxnEvent_record ev [] Hok Henc) as Hd. rewrite app_nil_r in Hd.
    pose proof Hd as Hinv. apply DecodeTxnEvent_inv in Hinv as (Hn & _ & Hk0 & Hp0 & _).
    fold (len tail) in Htail.
    unfold DecodeTxnEvent in Hd |- *. rewrite Htail.
    destruct (Z.ltb_spec k txnEventHeaderSize) as [|Hk64]; [done|].
    assert (Hsub : forall x y, 0 <= x <= y -> y <= 64 -> sub tail x y = sub (record ev) x y).
    { intros x y Hx Hy. unfold tail. rewrite sub_sub by (tx_consts; lia). done. }
    assert (Hrd : rd tail 6 = rd (record ev) 6) by (unfold tail; rewrite rd_sub by (tx_consts; lia); done).
    unfold u32, u16 in *. tx_consts. cbv zeta in Hd |- *.
    change (0 + 4) with 4 in *; change (4 + 2) with 6 in *; change (52 + 4) with 56 in *;
      change (56 + 4) with 60 in *.
    rewrite !Hsub, Hrd by lia.
    rewrite (proj2 (Z.ltb_ge (len (record ev)) 64)) in Hd by lia.
    repeat (case_match; [done|]). exfalso. lia. }
  split; [done|]. intros m Hm. unfold OpenTxLog.
  assert (Hseg : segments {[ txLogSegmentName 0 := seg_bytes evs ++ tail ]} = [(0, seg_bytes evs ++ tail)]).
  { unfold segments. rewrite map_to_list_singleton. cbn [omap list_omap]. by rewrite parse_name by lia. }
  rewrite Hseg. cbn [foldr fst]. rewrite Z.max_id, lookup_singleton_eq, Hread.
  eexists. split; [done|]. done.
Qed.

Lemma torn_tail_unreadable_witness :
  ReadTxLogSegment (seg_bytes [ev1] ++ sub (record ev1) 0 10) = Some (inl errTxLogShort).
Proof.
  assert (Hg : event_good ev1) by (split; [exact ev1_ok | reflexivity]).
  refine (proj1 (torn_tail_unreadable [ev1] ev1 10 (Forall_cons_2 _ _ _ Hg (Forall_nil_2 _)) Hg _)).
  vm_compute. split; reflexivity.
Defined.

End TxLog.
