(* ===== verification/Cell.v ===== *)
(** * Leaf values (src/pkg/c2db/overflow.go)

    A leaf stores a value inline behind a zero byte, or as a descriptor of 13
    bytes: the kind 1, the total length and the first page of a chain. *)

From S2P Require Import Prelude.

Local Open Scope Z_scope.

Module Cell.

Definition cellKindInline : Z := 0.
Definition cellKindOverflow : Z := 1.
Definition OverflowDescLen : Z := 13.

(** Total length and head page of an overflow descriptor. *)
Definition isOverflowDescriptor (rawVal : list Z) : option (Z * Z) :=
  if (len rawVal =? OverflowDescLen) && (rd rawVal 0 =? cellKindOverflow)
  then Some (le_get 4 (sub rawVal 1 5), le_get 8 (sub rawVal 5 13))
  else None.

Definition OverflowChunkCapacity : Z := 0x4000 - 64.

(** How many pages hold [n] bytes. *)
Definition chunk_pages (n : Z) : Z := w64 (w64 (n + OverflowChunkCapacity) - 1) / OverflowChunkCapacity.

Definition checkOverflowDesc (rawVal : list Z) : bool * Z * Z :=
  match isOverflowDescriptor rawVal with
  | Some (tLen, hPage) => (true, hPage, chunk_pages tLen)
  | None => (false, 0, 0)
  end.

End Cell.
