(* ===== verification/Query.v ===== *)
(** * The query builder (src/pkg/c2db/query.go)

    A query runs over a cursor, of which it relies only on the interface
    [CursorOps]; the interface's laws [CursorLaws] say that the cursor moves
    over a fixed list of entries in strictly ascending key order.  The engine's
    result is then an expression on that list ([iterate_spec]). *)

From Stdlib Require Import String.
From S2P Require Import Prelude Bytes Cell.
Import Bytes Cell.

Local Open Scope Z_scope.

Module Query.

(** ** Cursors *)

(** An entry of the snapshot: key, raw leaf cell, decoded value. *)
Record entry := { eKey : list Z; eRaw : list Z; eVal : list Z }.

(** The methods of [Cursor] that the query uses: the moves return the key they
    land on, [None] when they fail. *)
Class CursorOps (C : Type) := {
  First : C -> C * option (list Z);
  Last : C -> C * option (list Z);
  Seek : list Z -> C -> C * option (list Z);
  Next : C -> C * option (list Z);
  Prev : C -> C * option (list Z);
  RawValue : C -> list Z;
  Value : C -> list Z;
}.

(** The index of the first entry whose key is at or above [k]. *)
Fixpoint seek_idx (es : list entry) (k : list Z) : nat :=
  match es with
  | [] => O
  | e :: es' => if Compare (eKey e) k <? 0 then S (seek_idx es' k) else O
  end.

Definition key_at (es : list entry) (i : nat) : option (list Z) := eKey <$> (es !! i).

(** [c] is on entry [i] of the snapshot [es] (moves that fail promise nothing
    about where they leave the cursor). *)
Class CursorLaws {C : Type} `{CursorOps C} (over : C -> list entry -> Prop)
    (on : C -> list entry -> nat -> Prop) := {
  on_over c es i : on c es i -> over c es;
  on_lt c es i : on c es i -> (i < length es)%nat;
  First_law c es : over c es ->
    (First c).2 = key_at es 0%nat /\ over (First c).1 es /\ (es <> [] -> on (First c).1 es 0%nat);
  Last_law c es : over c es ->
    (Last c).2 = key_at es (length es - 1)%nat /\ over (Last c).1 es /\
    (es <> [] -> on (Last c).1 es (length es - 1)%nat);
  Seek_law c es k : over c es ->
    (Seek k c).2 = key_at es (seek_idx es k) /\ over (Seek k c).1 es /\
    ((seek_idx es k < length es)%nat -> on (Seek k c).1 es (seek_idx es k));
  Next_law c es i : on c es i ->
    (Next c).2 = key_at es (S i) /\ over (Next c).1 es /\
    ((S i < length es)%nat -> on (Next c).1 es (S i));
  Prev_law c es i : on c es i ->
    (Prev c).2 = match i with O => None | S j => key_at es j end /\ over (Prev c).1 es /\
    (i <> O -> on (Prev c).1 es (i - 1)%nat);
  RawValue_law c es i e : on c es i -> es !! i = Some e -> RawValue c = eRaw e;
  Value_law c es i e : on c es i -> es !! i = Some e -> Value c = eVal e;
}.

(** ** The query *)

Record Query := {
  prefix : list Z; start : list Z; end_ : list Z; reverse : bool;
  offset : Z; limit : Z;
  keyPreds : list (list Z -> bool);
  rawPreds : list (list Z -> bool);
  allPreds : list (list Z -> list Z -> bool)
}.

Definition newQuery : Query :=
  {| prefix := []; start := []; end_ := []; reverse := false; offset := 0; limit := -1;
     keyPreds := []; rawPreds := []; allPreds := [] |}.

(** [for i := len(end)-1; i >= 0; i--]: the last byte below 0xFF is bumped and
    the bytes after it dropped; [None] (nil) when there is none. *)
Fixpoint bump (l : list Z) (i : nat) : option (list Z) :=
  match i with
  | O => None
  | S i' =>
      if rd l (Z.of_nat i') <? 0xFF
      then Some (sub (wr l (Z.of_nat i') (w8 (rd l (Z.of_nat i') + 1))) 0 (Z.of_nat i' + 1))
      else bump l i'
  end.
Definition prefixUpperBound (prefix : list Z) : option (list Z) :=
  if len prefix =? 0 then None else bump prefix (length prefix).

(** The builder methods; the code only ever tests [len(end) > 0], so a nil and
    an empty bound are both the empty list here. *)
Definition Prefix (q : Query) (p : list Z) : Query :=
  {| prefix := p; start := p; end_ := default [] (prefixUpperBound p); reverse := reverse q;
     offset := offset q; limit := limit q; keyPreds := keyPreds q; rawPreds := rawPreds q;
     allPreds := allPreds q |}.
Definition Range (q : Query) (s e : list Z) : Query :=
  {| prefix := prefix q; start := s; end_ := e; reverse := reverse q; offset := offset q;
     limit := limit q; keyPreds := keyPreds q; rawPreds := rawPreds q; allPreds := allPreds q |}.
Definition Where (q : Query) (ps : list (list Z -> list Z -> bool)) : Query :=
  {| prefix := prefix q; start := start q; end_ := end_ q; reverse := reverse q; offset := offset q;
     limit := limit q; keyPreds := keyPreds q; rawPreds := rawPreds q; allPreds := allPreds q ++ ps |}.
Definition WhereKey (q : Query) (ps : list (list Z -> bool)) : Query :=
  {| prefix := prefix q; start := start q; end_ := end_ q; reverse := reverse q; offset := offset q;
     limit := limit q; keyPreds := keyPreds q ++ ps; rawPreds := rawPreds q; allPreds := allPreds q |}.
Definition WhereRawVal (q : Query) (ps : list (list Z -> bool)) : Query :=
  {| prefix := prefix q; start := start q; end_ := end_ q; reverse := reverse q; offset := offset q;
     limit := limit q; keyPreds := keyPreds q; rawPreds := rawPreds q ++ ps; allPreds := allPreds q |}.
Definition Limit (q : Query) (n : Z) : Query :=
  {| prefix := prefix q; start := start q; end_ := end_ q; reverse := reverse q; offset := offset q;
     limit := n; keyPreds := keyPreds q; rawPreds := rawPreds q; allPreds := allPreds q |}.
Definition Offset (q : Query) (n : Z) : Query :=
  {| prefix := prefix q; start := start q; end_ := end_ q; reverse := reverse q; offset := n;
     limit := limit q; keyPreds := keyPreds q; rawPreds := rawPreds q; allPreds := allPreds q |}.
Definition Reverse (q : Query) : Query :=
  {| prefix := prefix q; start := start q; end_ := end_ q; reverse := true; offset := offset q;
     limit := limit q; keyPreds := keyPreds q; rawPreds := rawPreds q; allPreds := allPreds q |}.

(** ** Predicate factories *)

Definition KeyPrefix (p : list Z) : list Z -> bool := fun k => HasPrefix k p.
Definition KeySuffix (p : list Z) : list Z -> bool := fun k => HasSuffix k p.
Definition KeyContains (p : list Z) : list Z -> bool := fun k => Contains k p.
Definition KeyBetween (s e : list Z) : list Z -> bool := fun k =>
  if (len s >? 0) && (Compare k s <? 0) then false else
  if (len e >? 0) && (Compare k e >=? 0) then false else true.
Definition ValContains (p : list Z) : list Z -> list Z -> bool := fun _ v => Contains v p.
Definition ValHasPrefix (p : list Z) : list Z -> list Z -> bool := fun _ v => HasPrefix v p.
Definition ValHasSuffix (p : list Z) : list Z -> list Z -> bool := fun _ v => HasSuffix v p.

Definition raw_length (rawVal : list Z) : Z :=
  match isOverflowDescriptor rawVal with
  | Some (tLen, _) => tLen
  | None =>
      let l := len rawVal in
      if (l >? 0) && (rd rawVal 0 =? cellKindInline) then l - 1 else l
  end.
Definition ValMinLength (minLen : Z) : list Z -> bool := fun rawVal => raw_length rawVal >=? minLen.
Definition ValMaxLength (maxLen : Z) : list Z -> bool := fun rawVal => raw_length rawVal <=? maxLen.

(** ** The JSON field scanner

    The code's index [i] is the suffix [json[i:]] here. *)

Definition is_ws (c : Z) : bool := (c =? 32) || (c =? 9) || (c =? 13) || (c =? 10).

Fixpoint skip_ws (s : list Z) : list Z :=
  match s with
  | c :: s' => if is_ws c then skip_ws s' else s
  | [] => []
  end.

(** The value from its opening quote on: [acc] is [json[startVal:j]]. *)
Fixpoint scan_value (s : list Z) (esc : bool) (acc : list Z) : option (list Z) :=
  match s with
  | [] => None
  | c :: s' =>
      if esc then scan_value s' false (acc ++ [c])
      else if c =? 92 then scan_value s' true (acc ++ [c])
      else if c =? 34 then Some acc
      else scan_value s' false (acc ++ [c])
  end.

(** The answer is [None] for [found = false]; the outer [None] is fuel. *)
Fixpoint extract (fuel : nat) (fBytes s : list Z) (inString escaped : bool)
    : option (option (list Z)) :=
  match fuel with
  | O => None
  | S fuel' =>
      match s with
      | [] => Some None
      | c :: s' =>
          if inString then
            if escaped then extract fuel' fBytes s' true false
            else if c =? 92 then extract fuel' fBytes s' true true
            else if c =? 34 then extract fuel' fBytes s' false escaped
            else extract fuel' fBytes s' true escaped
          else if negb (c =? 34) then extract fuel' fBytes s' false escaped
          else if (len fBytes <=? len s) && Equal (sub s 0 (len fBytes)) fBytes then
            let t := drop (length fBytes) s in
            match skip_ws t with
            | 58 :: t1 =>
                match skip_ws t1 with
                | 34 :: t2 => Some (scan_value t2 false [])
                | _ => Some None
                end
            | _ => extract fuel' fBytes t false escaped
            end
          else extract fuel' fBytes s' true escaped
      end
  end.

Definition fastExtractJSONField (json field : list Z) : option (option (list Z)) :=
  extract (S (length json)) ([34] ++ field ++ [34]) json false false.

(** [val, found := fastExtractJSONField(v, field)] *)
Definition json_field (v field : list Z) : option (list Z) :=
  match fastExtractJSONField v field with Some r => r | None => None end.
Definition ValJSONFieldString (field expected : list Z) : list Z -> list Z -> bool := fun _ v =>
  match json_field v field with None => false | Some val => Equal val expected end.
Definition ValJSONFieldContains (field s : list Z) : list Z -> list Z -> bool := fun _ v =>
  match json_field v field with None => false | Some val => Contains val s end.

(** ** The engine *)

Section Engine.
Context {C Y : Type} `{CursorOps C}.

Definition advance (q : Query) (c : C) : C * option (list Z) :=
  if negb (reverse q) then Next c else Prev c.

(** The first position. *)
Definition position (q : Query) (c : C) : C * option (list Z) :=
  if negb (reverse q) then
    if len (start q) =? 0 then First c else Seek (start q) c
  else
    if len (end_ q) =? 0 then Last c else
    let '(c, k) := Seek (end_ q) c in
    match k with
    | None => Last c
    | Some k => if Compare k (end_ q) >=? 0 then Prev c else (c, Some k)
    end.

Definition out_of_range (q : Query) (k : list Z) : bool :=
  if negb (reverse q) then (len (end_ q) >? 0) && (Compare k (end_ q) >=? 0)
  else (len (start q) >? 0) && (Compare k (start q) <? 0).

(** [for ok { ... }], with the callback's own state [y] threaded through;
    [yield] answers whether to go on.  [resolve] asks for the value even
    without value predicates.  [None] is exhausted fuel. *)
Fixpoint iterate_loop (fuel : nat) (q : Query) (resolve : bool)
    (yield : list Z -> list Z -> Y -> Y * bool)
    (c : C) (k : option (list Z)) (matched yielded : Z) (y : Y) : option Y :=
  match fuel with
  | O => None
  | S fuel' =>
      match k with
      | None => Some y
      | Some k =>
          if out_of_range q k then Some y else
          let skip matched :=
            let '(c, k) := advance q c in
            iterate_loop fuel' q resolve yield c k matched yielded y in
          if negb (forallb (fun kp => kp k) (keyPreds q)) then skip matched else
          let rawVal := RawValue c in
          if negb (forallb (fun rp => rp rawVal) (rawPreds q)) then skip matched else
          let v := if (len (allPreds q) >? 0) || resolve then Value c else [] in
          if negb (forallb (fun ap => ap k v) (allPreds q)) then skip matched else
          let matched := matched + 1 in
          if matched <=? offset q then skip matched else
          let '(y, go_on) := yield k v y in
          if negb go_on then Some y else
          let yielded := yielded + 1 in
          if (limit q >? 0) && (yielded >=? limit q) then Some y else
          let '(c, k) := advance q c in
          iterate_loop fuel' q resolve yield c k matched yielded y
      end
  end.

Definition iterate (fuel : nat) (q : Query) (resolve : bool)
    (yield : list Z -> list Z -> Y -> Y * bool) (c : C) (y : Y) : option Y :=
  let '(c, k) := position q c in
  iterate_loop fuel q resolve yield c k 0 0 y.
End Engine.

(** ** Terminal operations *)

Section Terminals.
Context {C : Type} `{CursorOps C}.
Context (fuel : nat) (q : Query) (c : C).

Definition Count : option Z :=
  iterate fuel q false (fun _ _ count => (count + 1, true)) c 0.

(** The found entry; [None] inside is [ErrNotFound]. *)
Definition QFirst : option (option (list Z * list Z)) :=
  iterate fuel q true (fun k v _ => (Some (k, v), false)) c None.

Definition Collect : option (list (list Z * list Z)) :=
  iterate fuel q true (fun k v results => (results ++ [(k, v)], true)) c [].

Definition CollectKeys : option (list (list Z)) :=
  iterate fuel q false (fun k _ keys => (keys ++ [k], true)) c [].

(** [Scan], [ScanKeys]: [fn] is a callback with state. *)
Definition Scan {Y} (fn : list Z -> list Z -> Y -> Y * bool) (y : Y) : option Y :=
  iterate fuel q true fn c y.
Definition ScanKeys {Y} (fn : list Z -> Y -> Y * bool) (y : Y) : option Y :=
  iterate fuel q false (fun k _ y => fn k y) c y.

(** [Project]: a mapper error ([None]) stops the scan and is dropped. *)
Definition Project {Y} (mapper : list Z -> list Z -> option (list Z))
    (consumer : list Z -> Y -> Y * bool) (y : Y) : option Y :=
  iterate fuel q true (fun k v y =>
    match mapper k v with
    | None => (y, false)
    | Some proj => consumer proj y
    end) c y.
End Terminals.

(** ** The specification *)

(** The entries in scan order, then range, predicates, offset and limit. *)
Definition in_range (q : Query) (e : entry) : bool :=
  ((len (start q) =? 0) || (Compare (eKey e) (start q) >=? 0)) &&
  ((len (end_ q) =? 0) || (Compare (eKey e) (end_ q) <? 0)).

Definition passes (q : Query) (e : entry) : bool :=
  forallb (fun kp => kp (eKey e)) (keyPreds q) &&
  forallb (fun rp => rp (eRaw e)) (rawPreds q) &&
  forallb (fun ap => ap (eKey e) (eVal e)) (allPreds q).

Definition scan_order (q : Query) (es : list entry) : list entry :=
  if reverse q then rev es else es.

Definition limited {A} (n : Z) (l : list A) : list A := if n >? 0 then take (Z.to_nat n) l else l.

Definition answer (q : Query) (es : list entry) : list entry :=
  limited (limit q)
    (drop (Z.to_nat (offset q))
      (List.filter (passes q) (List.filter (in_range q) (scan_order q es)))).

(** Feeding a list to a callback until it declines. *)
Fixpoint feed {Y} (yield : list Z -> list Z -> Y -> Y * bool) (l : list (list Z * list Z)) (y : Y) : Y :=
  match l with
  | [] => y
  | (k, v) :: l' => let '(y, go_on) := yield k v y in if go_on then feed yield l' y else y
  end.

(** What the callback sees of an entry: the value only when it is resolved. *)
Definition shown (q : Query) (resolve : bool) (e : entry) : list Z * list Z :=
  (eKey e, if (len (allPreds q) >? 0) || resolve then eVal e else []).

Definition sorted_entries (es : list entry) : Prop :=
  StronglySorted (fun a b => blt (eKey a) (eKey b)) es.

(** ** The loop against the specification *)

Section Spec.
Context {C : Type} {over : C -> list entry -> Prop} {on : C -> list entry -> nat -> Prop}
  `{HL : CursorLaws C over on}.
Context {Y : Type} (yield : list Z -> list Z -> Y -> Y * bool).

(** The entries from position [i] on, in scan order. *)
Definition remaining (q : Query) (es : list entry) (i : nat) : list entry :=
  if reverse q then rev (take (S i) es) else drop i es.

(** The cursor has returned [k] and [rem] is what the scan has left. *)
Definition at_rem (q : Query) (c : C) (k : option (list Z)) (es rem : list entry) : Prop :=
  over c es /\
  match rem with
  | [] => k = None
  | e :: _ => k = Some (eKey e) /\ exists i, on c es i /\ es !! i = Some e /\ rem = remaining q es i
  end.

Lemma at_rem_index q c es i e :
  on c es i -> es !! i = Some e -> at_rem q c (Some (eKey e)) es (remaining q es i).
Proof.
  intros Hon He. split; [by eapply on_over|].
  assert (Hrem : exists t, remaining q es i = e :: t).
  { unfold remaining. destruct (reverse q).
    - rewrite (take_S_r _ _ e), rev_unit by done. eauto.
    - rewrite (drop_S _ e) by done. eauto. }
  destruct Hrem as [t Ht]. rewrite Ht. split; [done|]. exists i. by rewrite Ht.
Qed.

Lemma key_at_lookup es i : key_at es i = match es !! i with Some e => Some (eKey e) | None => None end.
Proof. unfold key_at. by destruct (es !! i). Qed.

Lemma advance_spec q c es e rem :
  at_rem q c (Some (eKey e)) es (e :: rem) ->
  at_rem q (advance q c).1 (advance q c).2 es rem.
Proof.
  intros (Hov & _ & i & Hon & He & Hrem). pose proof (on_lt c es i Hon) as Hi.
  unfold advance. unfold remaining in Hrem. destruct (reverse q) eqn:Er; cbn [negb].
  - destruct (Prev_law c es i Hon) as (Hk & Hov' & Hnext).
    rewrite (take_S_r _ _ e), rev_unit in Hrem by done. injection Hrem as Hrem.
    destruct i as [|j]; [rewrite Hrem, Hk; done|].
    destruct (lookup_lt_is_Some_2 es j) as [e' Ej]; [lia|].
    rewrite Hk, key_at_lookup, Ej.
    replace (S j - 1)%nat with j in Hnext by lia.
    pose proof (at_rem_index q _ es j e' (Hnext ltac:(done)) Ej) as Hat.
    unfold remaining in Hat. rewrite Er in Hat. by rewrite Hrem.
  - destruct (Next_law c es i Hon) as (Hk & Hov' & Hnext).
    rewrite (drop_S _ e) in Hrem by done. injection Hrem as Hrem.
    rewrite Hk, key_at_lookup. destruct (es !! S i) as [e'|] eqn:Ej.
    + pose proof (lookup_lt_Some _ _ _ Ej) as Hlt.
      pose proof (at_rem_index q _ es (S i) e' (Hnext Hlt) Ej) as Hat.
      unfold remaining in Hat. rewrite Er in Hat. by rewrite Hrem.
    + apply lookup_ge_None in Ej. rewrite Hrem, drop_ge by done. done.
Qed.

(** The prefix of the scan before the range is left. *)
Fixpoint until_out (q : Query) (rem : list entry) : list entry :=
  match rem with
  | [] => []
  | e :: rem' => if out_of_range q (eKey e) then [] else e :: until_out q rem'
  end.

(** What is left to answer after [matched] matches and [yielded] results. *)
Definition rest_answer (q : Query) (l : list entry) (matched yielded : Z) : list entry :=
  let l := drop (Z.to_nat (offset q - matched)) (List.filter (passes q) l) in
  if limit q >? 0 then take (Z.to_nat (limit q - yielded)) l else l.

Lemma rest_answer_skip q e l matched yielded :
  passes q e = false -> rest_answer q (e :: l) matched yielded = rest_answer q l matched yielded.
Proof. intros Hps. unfold rest_answer. cbn. by rewrite Hps. Qed.

Lemma rest_answer_offset q e l matched yielded :
  passes q e = true -> 0 <= matched -> matched + 1 <= offset q ->
  rest_answer q (e :: l) matched yielded = rest_answer q l (matched + 1) yielded.
Proof.
  intros Hps Hm Ho. unfold rest_answer. cbn. rewrite Hps.
  replace (Z.to_nat (offset q - matched)) with (S (Z.to_nat (offset q - (matched + 1)))) by lia. done.
Qed.

Lemma rest_answer_take q e l matched yielded :
  passes q e = true -> offset q < matched + 1 -> ((limit q >? 0) = true -> yielded < limit q) ->
  rest_answer q (e :: l) matched yielded = e :: rest_answer q l (matched + 1) (yielded + 1).
Proof.
  intros Hps Ho Hy. unfold rest_answer. cbn. rewrite Hps.
  replace (Z.to_nat (offset q - matched)) with O by lia.
  replace (Z.to_nat (offset q - (matched + 1))) with O by lia. cbn.
  destruct (limit q >? 0); [|done]. specialize (Hy eq_refl).
  by replace (Z.to_nat (limit q - yielded)) with (S (Z.to_nat (limit q - (yielded + 1)))) by lia.
Qed.

Lemma rest_answer_full q l matched yielded :
  (limit q >? 0) && (yielded >=? limit q) = true -> rest_answer q l matched yielded = [].
Proof.
  intros [Hl Hy]%andb_true_iff. unfold rest_answer. rewrite Hl.
  by replace (Z.to_nat (limit q - yielded)) with O by lia.
Qed.

Lemma iterate_loop_spec q resolve es fuel : forall c k rem matched yielded y,
  at_rem q c k es rem -> (length rem < fuel)%nat ->
  0 <= matched -> ((limit q >? 0) = true -> yielded < limit q) ->
  iterate_loop fuel q resolve yield c k matched yielded y =
  Some (feed yield (map (shown q resolve) (rest_answer q (until_out q rem) matched yielded)) y).
Proof.
  induction fuel as [|fuel IH]; intros c k rem matched yielded y Hat Hf Hm Hy; [lia|].
  assert (Hnil : forall m n, rest_answer q [] m n = []).
  { intros. unfold rest_answer. cbn. rewrite drop_nil, take_nil. by destruct (_ >? _). }
  cbn [iterate_loop]. destruct rem as [|e rem].
  { destruct Hat as [_ ->]. cbn [until_out]. by rewrite Hnil. }
  pose proof Hat as (_ & -> & i & Hon & He & _). cbn [until_out length] in *.
  destruct (out_of_range q (eKey e)); [by rewrite Hnil|].
  pose proof (advance_spec q c es e rem Hat) as Hnext.
  destruct (advance q c) as [c' k']. cbn [fst snd] in Hnext.
  rewrite (RawValue_law c es i e Hon He), (Value_law c es i e Hon He).
  assert (Hp : passes q e = forallb (fun kp => kp (eKey e)) (keyPreds q) &&
    forallb (fun rp => rp (eRaw e)) (rawPreds q) &&
    forallb (fun ap => ap (eKey e) (if (len (allPreds q) >? 0) || resolve then eVal e else [])) (allPreds q)).
  { unfold passes. f_equal. destruct (allPreds q) as [|p ps]; [done|].
    rewrite len_cons. pose proof (len_nonneg ps). rewrite (proj2 (Z.gtb_lt _ 0)) by lia. done. }
  destruct (forallb _ (keyPreds q)) eqn:Ek; cbn [negb andb] in *.
  2:{ rewrite rest_answer_skip by done. apply IH; [done | lia | done | done]. }
  destruct (forallb _ (rawPreds q)) eqn:Er; cbn [negb andb] in *.
  2:{ rewrite rest_answer_skip by done. apply IH; [done | lia | done | done]. }
  destruct (forallb _ (allPreds q)) eqn:Ea; cbn [negb] in *.
  2:{ rewrite rest_answer_skip by done. apply IH; [done | lia | done | done]. }
  destruct (Z.leb_spec (matched + 1) (offset q)).
  { rewrite rest_answer_offset by done. apply IH; [done | lia | lia | done]. }
  rewrite rest_answer_take by (done || lia). cbn [map feed].
  change (shown q resolve e) with (eKey e, if (len (allPreds q) >? 0) || resolve then eVal e else []).
  cbv beta iota. destruct (yield _ _ y) as [y' go_on]. destruct go_on; cbn [negb]; [|done].
  destruct ((limit q >? 0) && (yielded + 1 >=? limit q)) eqn:Elim.
  { by rewrite rest_answer_full by done. }
  apply IH; [done | lia | lia |]. intros Hl. rewrite Hl in Elim. cbn in Elim. lia.
Qed.
(** ** The first position *)

Lemma at_rem_drop q es c i :
  reverse q = false -> over c es -> ((i < length es)%nat -> on c es i) ->
  at_rem q c (key_at es i) es (drop i es).
Proof.
  intros Er Hov Hon. rewrite key_at_lookup. destruct (es !! i) as [e|] eqn:Ei.
  - pose proof (at_rem_index q c es i e (Hon (lookup_lt_Some _ _ _ Ei)) Ei) as Hat.
    unfold remaining in Hat. by rewrite Er in Hat.
  - apply lookup_ge_None in Ei. rewrite drop_ge by done. done.
Qed.

Lemma at_rem_rev q es c i :
  reverse q = true -> over c es -> (i <= length es)%nat -> (i <> O -> on c es (i - 1)) ->
  at_rem q c (match i with O => None | S j => key_at es j end) es (rev (take i es)).
Proof.
  intros Er Hov Hi Hon. destruct i as [|j]; [done|].
  destruct (lookup_lt_is_Some_2 es j) as [e Ej]; [lia|]. rewrite key_at_lookup, Ej.
  replace (S j - 1)%nat with j in Hon by lia.
  pose proof (at_rem_index q c es j e (Hon ltac:(done)) Ej) as Hat.
  unfold remaining in Hat. by rewrite Er in Hat.
Qed.

Lemma seek_idx_le es k : (seek_idx es k <= length es)%nat.
Proof. induction es as [|e es IH]; cbn; [lia|]. case_match; lia. Qed.

Lemma seek_idx_ge es k e : es !! seek_idx es k = Some e -> 0 <= Compare (eKey e) k.
Proof.
  induction es as [|e' es IH]; cbn [seek_idx]; [done|].
  destruct (Z.ltb_spec (Compare (eKey e') k) 0); [apply IH|]. by intros [= ->].
Qed.

(** The entries the scan starts from. *)
Definition scan_list (q : Query) (es : list entry) : list entry :=
  if reverse q then
    rev (if len (end_ q) =? 0 then es else take (seek_idx es (end_ q)) es)
  else if len (start q) =? 0 then es else drop (seek_idx es (start q)) es.

Lemma query_position_spec q c es : over c es ->
  at_rem q (position q c).1 (position q c).2 es (scan_list q es).
Proof.
  intros Hov. unfold position, scan_list. destruct (reverse q) eqn:Er; cbn [negb].
  - assert (Hlast : forall c, over c es -> at_rem q (Last c).1 (Last c).2 es (rev es)).
    { intros d Hd. destruct (Last_law d es Hd) as (Hk & Hov' & Hon).
      rewrite <- (firstn_all es) at 2.
      assert (Hkey : (Last d).2 = match length es with O => None | S j => key_at es j end).
      { rewrite Hk. destruct es as [|e es']; [done|]. cbn [length]. by rewrite Nat.sub_1_r. }
      rewrite Hkey. apply at_rem_rev; [done | done | lia |]. intros Hne. apply Hon. by destruct es. }
    destruct (len (end_ q) =? 0); [by apply Hlast|].
    destruct (Seek_law c es (end_ q) Hov) as (Hk & Hov' & Hon).
    destruct (Seek (end_ q) c) as [d k]. cbn [fst snd] in *. subst k.
    rewrite key_at_lookup. pose proof (seek_idx_le es (end_ q)) as Hle.
    destruct (es !! seek_idx es (end_ q)) as [e|] eqn:Ee.
    + pose proof (seek_idx_ge _ _ _ Ee) as Hge. rewrite (proj2 (Z.geb_le _ _)) by lia.
      pose proof (lookup_lt_Some _ _ _ Ee) as Hlt. specialize (Hon Hlt).
      destruct (Prev_law d es _ Hon) as (Hp & Hov2 & Hon2). rewrite Hp.
      by apply at_rem_rev.
    + apply lookup_ge_None in Ee. rewrite take_ge by done. by apply Hlast.
  - destruct (len (start q) =? 0).
    + destruct (First_law c es Hov) as (Hk & Hov' & Hon). rewrite Hk.
      rewrite <- (drop_0 es) at 2. apply at_rem_drop; [done | done |].
      intros Hlt. apply Hon. intros ->. cbn in Hlt. lia.
    + destruct (Seek_law c es (start q) Hov) as (Hk & Hov' & Hon). rewrite Hk.
      by apply at_rem_drop.
Qed.

(** ** Sorted snapshots *)

Lemma seek_split es k : sorted_entries es ->
  Forall (fun e => Compare (eKey e) k < 0) (take (seek_idx es k) es) /\
  Forall (fun e => 0 <= Compare (eKey e) k) (drop (seek_idx es k) es).
Proof.
  intros Hs. induction Hs as [|e es Hs IH Hall]; cbn [seek_idx]; [split; constructor|].
  destruct (Z.ltb_spec (Compare (eKey e) k) 0) as [Hlt|Hge].
  - cbn. destruct IH. split; [by constructor | done].
  - split; [constructor|]. cbn. constructor; [done|].
    eapply Forall_impl; [exact Hall|]. intros b Hb. cbn in Hb.
    destruct (Z.lt_ge_cases (Compare (eKey b) k) 0) as [Hc|]; [|done].
    pose proof (blt_trans _ _ _ Hb Hc) as Hbad. unfold blt in Hbad. lia.
Qed.

Lemma until_out_filter q rem :
  StronglySorted (fun a b => out_of_range q (eKey a) = true -> out_of_range q (eKey b) = true) rem ->
  until_out q rem = List.filter (fun e => negb (out_of_range q (eKey e))) rem.
Proof.
  intros Hs. induction Hs as [|e rem Hs IH Hall]; cbn [until_out List.filter]; [done|].
  destruct (out_of_range q (eKey e)) eqn:Eo; cbn [negb]; [|by rewrite IH].
  clear IH Hs. induction Hall as [|b rem Hb Hall IH]; cbn; [done|].
  rewrite Hb by done. cbn. done.
Qed.

Lemma out_of_range_mono q es : sorted_entries es ->
  StronglySorted (fun a b => out_of_range q (eKey a) = true -> out_of_range q (eKey b) = true)
    (if reverse q then rev es else es).
Proof.
  intros Hs. unfold out_of_range. destruct (reverse q); cbn [negb].
  - eapply StronglySorted_imp; [|by apply StronglySorted_rev]. cbn. intros a b Hba.
    intros [Hl Ha]%andb_true_iff. rewrite Hl. cbn.
    assert (blt (eKey b) (start q)) as Hb by (eapply blt_trans; [done|]; unfold blt; lia).
    unfold blt in Hb. lia.
  - eapply StronglySorted_imp; [|done]. cbn. intros a b Hab.
    intros [Hl Ha]%andb_true_iff. rewrite Hl. cbn.
    rewrite Z.geb_le in Ha. rewrite Z.geb_le.
    destruct (Z.lt_ge_cases (Compare (eKey b) (end_ q)) 0) as [Hc|]; [|done].
    pose proof (blt_trans _ _ _ Hab Hc) as Hbad. unfold blt in Hbad. lia.
Qed.

(** The visited entries are those in range, in scan order. *)
Lemma scan_filter q es : sorted_entries es ->
  until_out q (scan_list q es) = List.filter (in_range q) (scan_order q es).
Proof.
  intros Hs. rewrite until_out_filter.
  - unfold scan_list, scan_order, out_of_range, in_range. destruct (reverse q); cbn [negb].
    + rewrite !filter_rev'. f_equal. destruct (Z.eqb_spec (len (end_ q)) 0) as [He|He].
      * apply filter_same, Forall_forall. intros e _. cbn [orb]. rewrite andb_true_r.
        pose proof (len_nonneg (start q)). zcases.
      * destruct (seek_split es (end_ q) Hs) as [Hlo Hhi].
        match goal with |- _ = List.filter ?p es =>
          rewrite <- (f_equal (List.filter p) (take_drop (seek_idx es (end_ q)) es)) end.
        rewrite List.filter_app.
        rewrite (filter_none _ (drop _ es)), app_nil_r.
        -- apply filter_same. eapply Forall_impl; [exact Hlo|]. intros e Hlt. cbn in Hlt.
           pose proof (len_nonneg (start q)). cbn [orb]. zcases.
        -- eapply Forall_impl; [exact Hhi|]. intros e Hge. cbn in Hge. cbn [orb]. zcases.
    + destruct (Z.eqb_spec (len (start q)) 0) as [He|He].
      * apply filter_same, Forall_forall. intros e _. cbn [orb andb].
        pose proof (len_nonneg (end_ q)). zcases.
      * destruct (seek_split es (start q) Hs) as [Hlo Hhi].
        match goal with |- _ = List.filter ?p es =>
          rewrite <- (f_equal (List.filter p) (take_drop (seek_idx es (start q)) es)) end.
        rewrite List.filter_app.
        rewrite (filter_none _ (take _ es)); cbn [app].
        -- apply filter_same. eapply Forall_impl; [exact Hhi|]. intros e Hge. cbn in Hge.
           pose proof (len_nonneg (end_ q)). cbn [orb]. zcases.
        -- eapply Forall_impl; [exact Hlo|]. intros e Hlt. cbn in Hlt. cbn [orb]. zcases.
  - unfold scan_list. destruct (reverse q) eqn:Er.
    + pose proof (out_of_range_mono q (if len (end_ q) =? 0 then es else take (seek_idx es (end_ q)) es)) as Hm.
      rewrite Er in Hm. apply Hm. destruct (_ =? 0); [done|]. unfold sorted_entries in *.
      rewrite <- (take_drop (seek_idx es (end_ q)) es) in Hs. by eapply StronglySorted_app_1_l.
    + pose proof (out_of_range_mono q (if len (start q) =? 0 then es else drop (seek_idx es (start q)) es)) as Hm.
      rewrite Er in Hm. apply Hm. destruct (_ =? 0); [done|]. unfold sorted_entries in *.
      rewrite <- (take_drop (seek_idx es (start q)) es) in Hs. by eapply StronglySorted_app_1_r.
Qed.

Lemma scan_list_length q es : (length (scan_list q es) <= length es)%nat.
Proof.
  unfold scan_list. destruct (reverse q); rewrite ?length_rev; case_match; [lia | | lia |].
  - rewrite length_take. lia.
  - rewrite length_drop. lia.
Qed.

Lemma iterate_spec q resolve es c fuel y :
  over c es -> sorted_entries es -> (length es < fuel)%nat ->
  iterate fuel q resolve yield c y = Some (feed yield (map (shown q resolve) (answer q es)) y).
Proof.
  intros Hov Hs Hf. unfold iterate. pose proof (query_position_spec q c es Hov) as Hat.
  destruct (position q c) as [d k]. cbn [fst snd] in Hat.
  pose proof (scan_list_length q es).
  rewrite (iterate_loop_spec q resolve es fuel d k (scan_list q es)); [| done | lia | lia | lia].
  rewrite scan_filter by done. unfold rest_answer, answer, limited. by rewrite !Z.sub_0_r.
Qed.
End Spec.

(** ** The prefix bound *)

Fixpoint upper (p : list Z) : option (list Z) :=
  match p with
  | [] => None
  | x :: p' =>
      match upper p' with
      | Some u => Some (x :: u)
      | None => if x <? 0xFF then Some [x + 1] else None
      end
  end.

Lemma upper_snoc q x : upper (q ++ [x]) = if x <? 0xFF then Some (q ++ [x + 1]) else upper q.
Proof.
  induction q as [|y q IH]; cbn [app upper]; [by destruct (x <? 0xFF)|].
  rewrite IH. by destruct (x <? 0xFF).
Qed.

Lemma bump_upper l i : bytes_ok l -> (i <= length l)%nat -> bump l i = upper (take i l).
Proof.
  intros Hl. induction i as [|i IH]; intros Hi; [done|]. cbn [bump].
  destruct (lookup_lt_is_Some_2 l i) as [x Hx]; [lia|].
  rewrite (take_S_r _ _ x), upper_snoc by done.
  assert (Hrd : rd l (Z.of_nat i) = x) by (unfold rd; by rewrite Nat2Z.id, Hx).
  rewrite Hrd. destruct (Z.ltb_spec x 0xFF); [|apply IH; lia]. f_equal.
  assert (0 <= x) by (rewrite <- Hrd; by apply rd_bound).
  unwrap. unfold sub, wr. rewrite Nat2Z.id. change (Z.to_nat 0) with O. rewrite drop_0.
  replace (Z.to_nat (Z.of_nat i + 1 - 0)) with (S i) by lia.
  rewrite (take_S_r _ _ (x + 1)) by (apply list_lookup_insert_eq; lia).
  by rewrite take_insert_ge by lia.
Qed.

Lemma prefixUpperBound_upper p : bytes_ok p -> prefixUpperBound p = upper p.
Proof.
  intros Hp. unfold prefixUpperBound. destruct (Z.eqb_spec (len p) 0) as [H0|].
  - destruct p; [done|]. rewrite len_cons in H0. pose proof (len_nonneg p). lia.
  - rewrite bump_upper by done. by rewrite firstn_all.
Qed.

Lemma upper_none p : bytes_ok p -> upper p = None ->
  forall k, bytes_ok k -> 0 <= Compare k p -> HasPrefix k p = true.
Proof.
  intros Hp. induction Hp as [|x p Hx Hp IH]; intros Hu k Hk Hge; [by rewrite HasPrefix_nil|].
  cbn in Hu. destruct (upper p); [done|]. destruct (Z.ltb_spec x 0xFF); [done|].
  destruct Hk as [|y k Hy Hk]; cbn in Hge; [lia|].
  destruct (Z.ltb_spec y x); [lia|]. assert (x = y) as -> by lia. rewrite Z.ltb_irrefl in Hge.
  rewrite HasPrefix_cons, Z.eqb_refl. by apply IH.
Qed.

Lemma upper_some p u : bytes_ok p -> upper p = Some u ->
  forall k, bytes_ok k -> (0 <= Compare k p /\ Compare k u < 0 <-> HasPrefix k p = true).
Proof.
  intros Hp. revert u. induction Hp as [|x p Hx Hp IH]; intros u Hu k Hk; [done|]. cbn in Hu.
  assert (Hpref : forall y k', HasPrefix (y :: k') (x :: p) = true <-> y = x /\ HasPrefix k' p = true)
    by (intros; rewrite HasPrefix_cons, andb_true_iff, Z.eqb_eq; done).
  destruct (upper p) as [u'|] eqn:Eu; [|destruct (Z.ltb_spec x 0xFF); [|done]]; injection Hu as <-.
  - destruct Hk as [|y k Hy Hk]; [rewrite HasPrefix_nil_l; cbn; split; [lia | done]|].
    rewrite Hpref, <- (IH u' eq_refl k Hk). cbn. zcases.
  - destruct Hk as [|y k Hy Hk]; [rewrite HasPrefix_nil_l; cbn; split; [lia | done]|].
    rewrite Hpref. cbn. split.
    + intros [Hge Hlt]. destruct (Z.ltb_spec y x); [lia|]. destruct (Z.ltb_spec x y).
      * exfalso. destruct (Z.ltb_spec y (x + 1)); [lia|]. destruct (Z.ltb_spec (x + 1) y); [lia|].
        by destruct k; cbn in Hlt.
      * split; [lia|]. by apply upper_none.
    + intros [-> Hpk]. apply HasPrefix_ge in Hpk. zcases.
Qed.

(** The bound of a prefix is exact.  A key is in [[p, prefixUpperBound p)]
    (or at or above [p] when there is no bound, which happens exactly for
    all-0xFF and empty prefixes) if and only if it starts with [p]. *)
Theorem prefix_bound_exact p k :
  bytes_ok p -> bytes_ok k ->
  (HasPrefix k p = true <->
   0 <= Compare k p /\
   match prefixUpperBound p with Some ub => Compare k ub < 0 | None => True end) /\
  (prefixUpperBound p = None <-> Forall (fun b => b = 0xFF) p).
Proof.
  intros Hp Hk. rewrite prefixUpperBound_upper by done. split.
  - destruct (upper p) as [u|] eqn:Eu.
    + by rewrite (upper_some p u).
    + split; [|intros [? _]; by apply upper_none]. intros H. split; [by apply HasPrefix_ge | done].
  - induction Hp as [|x p Hx Hp IH]; cbn; [split; [constructor | done]|].
    destruct (upper p) as [u|].
    + split; [done|]. intros Hall. inversion_clear Hall as [|? ? _ Hall'].
      by apply IH in Hall'.
    + destruct (Z.ltb_spec x 0xFF); split; try done.
      * intros Hall. inversion_clear Hall. lia.
      * intros _. constructor; [lia | by apply IH].
Qed.

Lemma prefix_bound_exact_witness :
  HasPrefix [1; 255; 9] [1; 255] = true /\ prefixUpperBound [1; 255] = Some [2] /\
  0 <= Compare [1; 255; 9] [1; 255].
Proof.
  split; [reflexivity|]. split; [reflexivity|].
  apply (proj1 (prefix_bound_exact [1; 255] [1; 255; 9] ltac:(repeat constructor; lia)
    ltac:(repeat constructor; lia))). reflexivity.
Defined.

(** ** The terminal operations *)

Section Terminal_specs.
Context {C : Type} {over : C -> list entry -> Prop} {on : C -> list entry -> nat -> Prop}
  `{HL : CursorLaws C over on}.

Lemma feed_collect {A} (g : list Z -> list Z -> A) l acc :
  feed (fun k v r => (r ++ [g k v], true)) l acc = acc ++ map (fun '(k, v) => g k v) l.
Proof.
  revert acc. induction l as [|[k v] l IH]; intros acc; cbn; [by rewrite app_nil_r|].
  by rewrite IH, <- app_assoc.
Qed.

Lemma feed_count l n : feed (fun _ _ c => (c + 1, true)) l n = n + len l.
Proof.
  revert n. induction l as [|[k v] l IH]; intros n; cbn [feed]; [change (len []) with 0; lia|].
  rewrite IH, len_cons. lia.
Qed.

(** C11: a query returns what its builder describes.  Over any cursor that
    satisfies the interface, on a snapshot in ascending key order, with enough
    rounds for every entry: [Collect] returns the entries in range that pass
    all predicates, in scan order, after [offset] of them and at most [limit]
    ([limit <= 0] is no limit); [CollectKeys] their keys, [Count] their number
    and [First] the first of them or [ErrNotFound]. *)
Theorem query_answers q c es fuel :
  over c es -> sorted_entries es -> (length es < fuel)%nat ->
  Collect fuel q c = Some (map (fun e => (eKey e, eVal e)) (answer q es)) /\
  CollectKeys fuel q c = Some (map eKey (answer q es)) /\
  Count fuel q c = Some (len (answer q es)) /\
  QFirst fuel q c = Some (match answer q es with [] => None | e :: _ => Some (eKey e, eVal e) end).
Proof.
  intros Hov Hs Hf. unfold Collect, CollectKeys, Count, QFirst.
  assert (Hshow : forall e, shown q true e = (eKey e, eVal e)) by (intros; unfold shown; by rewrite orb_true_r).
  split_and!; rewrite (iterate_spec _ q _ es) by done.
  - rewrite (feed_collect (fun k v => (k, v))). cbn [app]. rewrite map_map. f_equal.
    apply map_ext. intros e. by rewrite Hshow.
  - rewrite (feed_collect (fun k _ => k)). cbn [app]. by rewrite map_map.
  - rewrite feed_count. unfold len. by rewrite length_map.
  - destruct (answer q es) as [|e l]; [done|]. cbn [map]. rewrite Hshow. done.
Qed.
End Terminal_specs.

(** ** A cursor over a list, the model of the interface *)

Record list_cursor := { lc_entries : list entry; lc_pos : nat }.

Definition lc_move (c : list_cursor) (i : nat) : list_cursor * option (list Z) :=
  ({| lc_entries := lc_entries c; lc_pos := i |}, key_at (lc_entries c) i).

#[export] Instance list_cursor_ops : CursorOps list_cursor := {
  First c := lc_move c 0;
  Last c := lc_move c (length (lc_entries c) - 1);
  Seek k c := lc_move c (seek_idx (lc_entries c) k);
  Next c := lc_move c (S (lc_pos c));
  Prev c := match lc_pos c with O => (c, None) | S j => lc_move c j end;
  RawValue c := match lc_entries c !! lc_pos c with Some e => eRaw e | None => [] end;
  Value c := match lc_entries c !! lc_pos c with Some e => eVal e | None => [] end;
}.

Definition lc_over (c : list_cursor) (es : list entry) : Prop := lc_entries c = es.
Definition lc_on (c : list_cursor) (es : list entry) (i : nat) : Prop :=
  lc_entries c = es /\ lc_pos c = i /\ (i < length es)%nat.

#[export] Instance list_cursor_laws : CursorLaws lc_over lc_on.
Proof.
  split; unfold lc_over, lc_on.
  - intros c es i (? & _). done.
  - intros c es i (_ & _ & ?). done.
  - intros c es <-. cbn. split_and!; try done. intros Hne. split_and!; try done.
    destruct (lc_entries c); [done | cbn; lia].
  - intros c es <-. cbn. split_and!; try done. intros Hne. split_and!; try done.
    destruct (lc_entries c); [done | cbn; lia].
  - intros c es k <-. cbn. done.
  - intros c es i (<- & <- & Hlt). cbn. done.
  - intros c es i (<- & <- & Hlt). cbn. destruct (lc_pos c) as [|j] eqn:Ep; [done|]. cbn.
    split_and!; try done. intros _. split_and!; try done; lia.
  - intros c es i e (<- & <- & Hlt) He. cbn. by rewrite He.
  - intros c es i e (<- & <- & Hlt) He. cbn. by rewrite He.
Qed.

Definition demo_entries : list entry :=
  [ {| eKey := [1]; eRaw := [0; 10]; eVal := [10] |};
    {| eKey := [2; 1]; eRaw := [0; 21]; eVal := [21] |};
    {| eKey := [2; 7]; eRaw := [0; 27]; eVal := [27] |};
    {| eKey := [3]; eRaw := [0; 30]; eVal := [30] |} ].

Lemma query_answers_witness :
  Collect 5 (Limit (Reverse (Prefix newQuery [2])) 1) {| lc_entries := demo_entries; lc_pos := 0 |}
  = Some [([2; 7], [27])].
Proof.
  refine (proj1 (query_answers (Limit (Reverse (Prefix newQuery [2])) 1)
    {| lc_entries := demo_entries; lc_pos := 0 |} demo_entries 5 _ _ _)).
  - reflexivity.
  - repeat constructor.
  - cbn. lia.
Defined.

(** ** The scanner on flat documents *)

(** Strings without quotes or escapes, and white space. *)
Definition plain (s : list Z) : Prop := Forall (fun c => c <> 34 /\ c <> 92) s.
Definition white (s : list Z) : Prop := Forall (fun c => is_ws c = true) s.

Record field := { fKey : list Z; fVal : list Z; fPre : list Z; fPost : list Z }.
Definition field_ok (f : field) : Prop :=
  plain (fKey f) /\ plain (fVal f) /\ white (fPre f) /\ white (fPost f).

#[export] Instance plain_dec s : Decision (plain s).
Proof. unfold plain. apply _. Defined.
#[export] Instance field_ok_dec f : Decision (field_ok f).
Proof. unfold field_ok, white. apply _. Defined.

Definition quote (s : list Z) : list Z := [34] ++ s ++ [34].
Definition render_field (f : field) : list Z :=
  quote (fKey f) ++ fPre f ++ [58] ++ fPost f ++ quote (fVal f).
(** The fields separated by commas, then the closing brace. *)
Fixpoint render_fields (fs : list field) : list Z :=
  match fs with
  | [] => [125]
  | [f] => render_field f ++ [125]
  | f :: fs' => render_field f ++ [44] ++ render_fields fs'
  end.
Definition render (fs : list field) : list Z := [123] ++ render_fields fs.

Fixpoint assoc (fs : list field) (k : list Z) : option (list Z) :=
  match fs with
  | [] => None
  | f :: fs' => if bool_decide (fKey f = k) then Some (fVal f) else assoc fs' k
  end.

(** The scan of [s] is the scan of its suffix [t]. *)
Definition scans_to (fB s t : list Z) (b : bool) : Prop :=
  forall n, (length s < n)%nat ->
  exists m, (length t < m)%nat /\ extract n fB s b false = extract m fB t false false.

Lemma scans_to_trans fB s t u b :
  scans_to fB s t b -> scans_to fB t u false -> scans_to fB s u b.
Proof.
  intros H1 H2 n Hn. destruct (H1 n Hn) as (m & Hm & ->). destruct (H2 m Hm) as (k & Hk & ->). eauto.
Qed.

Lemma scan_in_string fB s t : plain s -> scans_to fB (s ++ 34 :: t) t true.
Proof.
  induction 1 as [|c s [H1 H2] Hs IH]; intros [|n] Hn; cbn in Hn; try lia; cbn [app extract].
  - cbn [Z.eqb Pos.eqb]. exists n. split; [lia | done].
  - destruct (Z.eqb_spec c 92); [done|]. destruct (Z.eqb_spec c 34); [done|]. apply IH. lia.
Qed.

Lemma scan_other fB c t : c <> 34 -> scans_to fB (c :: t) t false.
Proof.
  intros Hc [|n] Hn; cbn in Hn; [lia|]. cbn [extract].
  destruct (Z.eqb_spec c 34); [done|]. cbn [negb]. exists n. split; [lia | done].
Qed.

Lemma scan_white fB w t : white w -> scans_to fB (w ++ t) t false.
Proof.
  induction 1 as [|c w Hc _ IH]; [intros n Hn; eauto|]. cbn [app].
  eapply scans_to_trans; [apply scan_other|exact IH]. intros ->. done.
Qed.

Lemma skip_ws_white w c t : white w -> is_ws c = false -> skip_ws (w ++ c :: t) = c :: t.
Proof. intros Hw Hc. induction Hw as [|d w Hd _ IH]; cbn; [by rewrite Hc|]. by rewrite Hd. Qed.

Lemma scan_value_plain v t acc : plain v -> scan_value (v ++ 34 :: t) false acc = Some (acc ++ v).
Proof.
  intros Hv. revert acc. induction Hv as [|c v [H1 H2] _ IH]; intros acc; cbn [app scan_value].
  - by rewrite app_nil_r.
  - destruct (Z.eqb_spec c 92); [done|]. destruct (Z.eqb_spec c 34); [done|].
    by rewrite IH, <- app_assoc.
Qed.

(** A quoted string starts with the quoted field exactly when it is it. *)
Lemma quoted_match s t k : plain s -> plain k ->
  (len (quote k) <=? len (quote s ++ t)) && Equal (sub (quote s ++ t) 0 (len (quote k))) (quote k) = true <->
  s = k.
Proof.
  intros Hs Hk. unfold Equal. split.
  - intros [Hl He]%andb_true_iff. apply Z.leb_le in Hl. apply bool_decide_eq_true in He.
    assert (Hp : HasPrefix (quote s ++ t) (quote k) = true).
    { unfold HasPrefix. apply bool_decide_eq_true. rewrite <- He at 2.
      unfold sub, len. rewrite Z.sub_0_r, Nat2Z.id. done. }
    unfold quote in Hp. cbn [app] in Hp. rewrite HasPrefix_cons in Hp. cbn [Z.eqb Pos.eqb andb] in Hp.
    clear Hl He. revert s Hs Hp. induction Hk as [|c k [Hc1 Hc2] Hk IH]; intros s Hs Hp.
    + destruct Hs as [|d s [Hd _] _]; [done|]. cbn [app] in Hp.
      rewrite HasPrefix_cons in Hp. destruct (Z.eqb_spec d 34); [done | done].
    + destruct Hs as [|d s [Hd _] Hs]; cbn [app] in Hp; rewrite HasPrefix_cons in Hp.
      * destruct (Z.eqb_spec 34 c); [congruence | done].
      * apply andb_true_iff in Hp as [->%Z.eqb_eq Hp]. f_equal. by apply IH.
  - intros ->. rewrite len_app. pose proof (len_nonneg t). rewrite (proj2 (Z.leb_le _ _)) by lia.
    cbn [andb]. apply bool_decide_eq_true. by apply sub_head.
Qed.

Lemma drop_quote s t : drop (length (quote s)) (quote s ++ t) = t.
Proof. apply drop_app_length. Qed.

(** A string that is not the field in key position is skipped. *)
Lemma scan_string fB s t k :
  fB = quote k -> plain s -> plain k ->
  (s = k -> forall t1, skip_ws t <> 58 :: t1) ->
  scans_to fB (quote s ++ t) t false.
Proof.
  intros -> Hs Hk Hcolon [|n] Hn; [lia|].
  pose proof (quoted_match s t k Hs Hk) as Hm.
  change (quote s ++ t) with (34 :: (s ++ [34]) ++ t) in *. cbn [extract].
  change (negb (34 =? 34)) with false. cbn iota. change (34 :: (s ++ [34]) ++ t) with (quote s ++ t) in *.
  destruct ((len (quote k) <=? len (quote s ++ t)) && _).
  - assert (s = k) as -> by (by apply Hm). rewrite drop_quote. specialize (Hcolon eq_refl).
    exists n. split; [unfold quote in Hn; rewrite !length_app in Hn; cbn in Hn; lia|].
    destruct (skip_ws t) as [|c t1]; [done|]. destruct (Z.eqb_spec c 58) as [->|Hne].
    + by specialize (Hcolon t1).
    + destruct c as [|p|p]; try done. repeat (destruct p as [p|p|]; try done).
  - rewrite <- app_assoc. cbn [app].
    apply (scan_in_string (quote k) s t Hs n). unfold quote in Hn. rewrite !length_app in *. cbn in *. lia.
Qed.

(** The field in key position is found. *)
Lemma scan_found f t n : field_ok f -> (length (render_field f ++ t) < n)%nat ->
  extract n (quote (fKey f)) (render_field f ++ t) false false = Some (Some (fVal f)).
Proof.
  intros (Hk & Hv & Hw1 & Hw2) Hn. destruct n as [|n]; [lia|].
  unfold render_field. rewrite <- !app_assoc.
  set (u := fPre f ++ [58] ++ fPost f ++ quote (fVal f) ++ t).
  pose proof (quoted_match (fKey f) u (fKey f) Hk Hk) as Hm.
  change (quote (fKey f) ++ u) with (34 :: (fKey f ++ [34]) ++ u) at 1. cbn [extract].
  change (negb (34 =? 34)) with false. cbn iota.
  change (34 :: (fKey f ++ [34]) ++ u) with (quote (fKey f) ++ u).
  rewrite (proj2 Hm) by done. rewrite drop_quote. unfold u at 1. cbn [app].
  rewrite skip_ws_white by done. unfold quote at 1. cbn [app]. rewrite <- app_assoc.
  rewrite skip_ws_white by done. cbn [app]. by rewrite scan_value_plain.
Qed.

Lemma scan_field f t k : field_ok f -> plain k -> fKey f <> k ->
  (forall t1, skip_ws t <> 58 :: t1) ->
  scans_to (quote k) (render_field f ++ t) t false.
Proof.
  intros (Hkey & Hv & Hw1 & Hw2) Hk Hne Ht. unfold render_field. rewrite <- !app_assoc.
  eapply scans_to_trans; [apply (scan_string _ _ _ k); try done|].
  eapply scans_to_trans; [by apply scan_white|]. cbn [app].
  eapply scans_to_trans; [by apply scan_other|].
  eapply scans_to_trans; [by apply scan_white|].
  by apply (scan_string _ _ _ k).
Qed.

Lemma render_fields_cons f fs : exists c t, (c = 44 \/ c = 125) /\
  render_fields (f :: fs) = render_field f ++ c :: t /\ (fs <> [] -> t = render_fields fs) /\
  (fs = [] -> t = []).
Proof. destruct fs as [|g fs]; [exists 125, [] | exists 44, (render_fields (g :: fs))]; naive_solver. Qed.

Lemma extract_render fs k n :
  Forall field_ok fs -> plain k -> (length (render_fields fs) < n)%nat ->
  extract n (quote k) (render_fields fs) false false = Some (assoc fs k).
Proof.
  intros Hfs Hk. revert n. induction Hfs as [|f fs Hf Hfs IH]; intros n Hn.
  - destruct n as [|[|n]]; cbn in Hn; try lia. done.
  - destruct (render_fields_cons f fs) as (c & t & Hc & Heq & Ht1 & Ht2). rewrite Heq in *.
    cbn [assoc]. case_bool_decide as Ekey.
    + subst k. by apply scan_found.
    + destruct (scan_field f (c :: t) k Hf Hk Ekey) with (n := n) as (m & Hm & ->);
        [intros t1; destruct Hc as [->| ->]; done | done |].
      assert (Hc34 : c <> 34) by (destruct Hc; lia).
      destruct (scan_other (quote k) c t Hc34 m Hm) as (m' & Hm' & ->).
      destruct fs as [|g fs].
      * rewrite Ht2 in * by done. destruct m'; [cbn in Hm'; lia | done].
      * rewrite Ht1 in * by done. by apply IH.
Qed.

(** C29: the JSON scanner finds the field.  On a flat object of string fields
    (keys and values without quotes or escapes, any white space around the
    colons, a key's text free to occur as a value), [fastExtractJSONField]
    terminates and returns the value of the first field with that name, or
    reports that there is none. *)
Theorem json_extract_flat fs k :
  Forall field_ok fs -> plain k -> fastExtractJSONField (render fs) k = Some (assoc fs k).
Proof.
  intros Hfs Hk. unfold fastExtractJSONField, render. change ([34] ++ k ++ [34]) with (quote k).
  destruct (scan_other (quote k) 123 (render_fields fs) ltac:(lia) (S (length ([123] ++ render_fields fs))))
    as (m & Hm & Heq); [cbn; lia|]. change (123 :: render_fields fs) with ([123] ++ render_fields fs) in Heq.
  rewrite Heq. by apply extract_render.
Qed.

Definition demo_fields : list field :=
  [ {| fKey := str "a"%string; fVal := str "b"%string; fPre := []; fPost := [32] |};
    {| fKey := str "b"%string; fVal := str "c"%string; fPre := []; fPost := [] |} ].

Lemma json_extract_flat_witness :
  fastExtractJSONField (render demo_fields) (str "b"%string) = Some (Some (str "c"%string)).
Proof.
  apply (json_extract_flat demo_fields (str "b"%string)); apply (bool_decide_unpack _); vm_compute; exact I.
Defined.

End Query.
