(* ===== verification/BtMem.v ===== *)
(** * B-tree memory accessors (src/pkg/c2db/db_btree_gen.go)

    The guarded reads and writes of the B-tree kernel, its byte copies and its
    key comparisons, and what they are on a well-sized buffer: fields, windows
    and the lexicographic order.  A store or load that Go's index check would
    refuse is a panic, the [None] result. *)

From S2P Require Import Prelude Bytes PageKernel.
Import PageKernel.

Local Open Scope Z_scope.

Module BtMem.

Definition bt_bounds (page : slice) (n addr len_ : Z) : Z :=
  let n := clamp page n in
  let len_ := clamp page len_ in
  if is_nil page then 0 else
  if negb (n =? 0x4000) then 0 else
  if (addr <? n) && (len_ <=? w64 (n - addr)) then 1 else 0.

Definition bt_read8 (page : slice) (n addr : Z) : Z :=
  let n := clamp page n in
  match page with
  | None => 0
  | Some p => if room n addr 1 then rd p addr else 0
  end.

Definition bt_read16 (page : slice) (n addr : Z) : Z :=
  let n := clamp page n in
  match page with
  | None => 0
  | Some p =>
      if room n addr 2
      then Z.lor (rd p addr) (w16 (Z.shiftl (rd p (w64 (addr + 1))) 8))
      else 0
  end.

Definition bt_read64 (page : slice) (n addr : Z) : Z :=
  let n := clamp page n in
  match page with
  | None => 0
  | Some p =>
      if room n addr 8
      then Z.lor (Z.lor (Z.lor (Z.lor (Z.lor (Z.lor (Z.lor (rd p addr)
             (w64 (Z.shiftl (rd p (w64 (addr + 1))) 8)))
             (w64 (Z.shiftl (rd p (w64 (addr + 2))) 16)))
             (w64 (Z.shiftl (rd p (w64 (addr + 3))) 24)))
             (w64 (Z.shiftl (rd p (w64 (addr + 4))) 32)))
             (w64 (Z.shiftl (rd p (w64 (addr + 5))) 40)))
             (w64 (Z.shiftl (rd p (w64 (addr + 6))) 48)))
             (w64 (Z.shiftl (rd p (w64 (addr + 7))) 56))
      else 0
  end.

Definition bt_write8 (page : slice) (n addr val : Z) : slice :=
  let n := clamp page n in
  match page with
  | None => None
  | Some p => Some (if room n addr 1 then wr p addr val else p)
  end.

Definition bt_write16 (page : slice) (n addr val : Z) : slice :=
  let n := clamp page n in
  match page with
  | None => None
  | Some p => Some (
      if room n addr 2 then
        let p := wr p addr (w8 (Z.land val 0xff)) in
        wr p (w64 (addr + 1)) (w8 (Z.land (Z.shiftr val 8) 0xff))
      else p)
  end.

Definition bt_write32 (page : slice) (n addr val : Z) : slice :=
  let n := clamp page n in
  match page with
  | None => None
  | Some p => Some (
      if room n addr 4 then
        let p := wr p addr (w8 (Z.land val 0xff)) in
        let p := wr p (w64 (addr + 1)) (w8 (Z.land (Z.shiftr val 8) 0xff)) in
        let p := wr p (w64 (addr + 2)) (w8 (Z.land (Z.shiftr val 16) 0xff)) in
        wr p (w64 (addr + 3)) (w8 (Z.land (Z.shiftr val 24) 0xff))
      else p)
  end.

Definition bt_write64 (page : slice) (n addr val : Z) : slice :=
  let n := clamp page n in
  match page with
  | None => None
  | Some p => Some (
      if room n addr 8 then
        let p := wr p addr (w8 (Z.land val 0xff)) in
        let p := wr p (w64 (addr + 1)) (w8 (Z.land (Z.shiftr val 8) 0xff)) in
        let p := wr p (w64 (addr + 2)) (w8 (Z.land (Z.shiftr val 16) 0xff)) in
        let p := wr p (w64 (addr + 3)) (w8 (Z.land (Z.shiftr val 24) 0xff)) in
        let p := wr p (w64 (addr + 4)) (w8 (Z.land (Z.shiftr val 32) 0xff)) in
        let p := wr p (w64 (addr + 5)) (w8 (Z.land (Z.shiftr val 40) 0xff)) in
        let p := wr p (w64 (addr + 6)) (w8 (Z.land (Z.shiftr val 48) 0xff)) in
        wr p (w64 (addr + 7)) (w8 (Z.land (Z.shiftr val 56) 0xff))
      else p)
  end.

(** The guard [(a < n) && (i < (n - a))] of the copy loops. *)
Definition within (n a i : Z) : bool := (a <? n) && (i <? w64 (n - a)).

Definition bt_copy_bytes (dst : slice) (dn doff : Z) (src : slice) (sn soff len_ : Z) : option slice :=
  match dst, src with
  | Some d, Some s =>
      Some <$> no_ret (for_range 0 len_ (fun v7 d =>
        if within dn doff v7 && within sn soff v7 then
          x ← idx s (w64 (soff + v7)); d' ← upd d (w64 (doff + v7)) x; Some (Next d')
        else Some (Next d)) d)
  | _, _ => Some dst
  end.

(** [copy(dirty[:n], pub[:n])]: slicing beyond the length panics. *)
Definition bt_cow (pub dirty : slice) (n : Z) : option slice :=
  match pub, dirty with
  | Some p, Some d =>
      if n =? 0 then Some dirty else
      if (n <=? len p) && (n <=? len d) then Some (Some (copy_at d 0 (sub p 0 n))) else None
  | _, _ => Some dirty
  end.

Definition bt_copy_in (page : slice) (n addr : Z) (src : slice) (len_ : Z) : option slice :=
  match page, src with
  | Some p, Some s =>
      Some <$> no_ret (for_range 0 len_ (fun v5 p =>
        if within n addr v5 then
          x ← idx s v5; p' ← upd p (w64 (addr + v5)) x; Some (Next p')
        else Some (Next p)) p)
  | _, _ => Some page
  end.

Definition bt_copy_out (page : slice) (n addr : Z) (dst : slice) (len_ : Z) : option slice :=
  match page, dst with
  | Some p, Some d =>
      Some <$> no_ret (for_range 0 len_ (fun v5 d =>
        if within n addr v5 then
          x ← idx p (w64 (addr + v5)); d' ← upd d v5 x; Some (Next d')
        else Some (Next d)) d)
  | _, _ => Some dst
  end.

Definition bt_keyeq (page : slice) (n koff klen : Z) (key : slice) : option Z :=
  match page, key with
  | Some p, Some k =>
      r ← for_range 0 klen (fun v5 (_ : unit) =>
            let v14 := w64 (koff + v5) in
            if room n v14 1 then
              x ← idx p v14; y ← idx k v5;
              if negb (x =? y) then Some (Ret 0) else Some (Next tt)
            else Some (Ret 0)) tt;
      Some (match r with inr v => v | inl _ => 1 end)
  | _, _ => Some 0
  end.

(** The tail of the three comparisons. *)
Definition cmp_len (alen blen : Z) : Z :=
  if alen <? blen then -1 else if alen >? blen then 1 else 0.

Definition bt_keycmp (a : slice) (alen : Z) (b : slice) (blen : Z) : option Z :=
  let alen := clamp a alen in
  let blen := clamp b blen in
  let v4 := if blen <? alen then blen else alen in
  r ← for_range 0 v4 (fun v5 (_ : unit) =>
        v6 ← (match a with Some a => idx a v5 | None => Some 0 end);
        v7 ← (match b with Some b => idx b v5 | None => Some 0 end);
        if v6 <? v7 then Some (Ret (-1)) else
        if v6 >? v7 then Some (Ret 1) else Some (Next tt)) tt;
  Some (match r with inr v => v | inl _ => cmp_len alen blen end).

Definition bt_keycmp_at (page : slice) (n aoff alen : Z) (b : slice) (blen : Z) : option Z :=
  let blen := clamp b blen in
  let v6 := if blen <? alen then blen else alen in
  r ← for_range 0 v6 (fun v7 (_ : unit) =>
        v8 ← (match page with
              | Some p => if within n aoff v7 then idx p (w64 (aoff + v7)) else Some 0
              | None => Some 0 end);
        v9 ← (match b with Some b => idx b v7 | None => Some 0 end);
        if v8 <? v9 then Some (Ret (-1)) else
        if v8 >? v9 then Some (Ret 1) else Some (Next tt)) tt;
  Some (match r with inr v => v | inl _ => cmp_len alen blen end).

Definition bt_keycmp_pp (page : slice) (n aoff alen boff blen : Z) : option Z :=
  let n := clamp page n in
  let alen := clamp page alen in
  let blen := clamp page blen in
  let v6 := if blen <? alen then blen else alen in
  r ← for_range 0 v6 (fun v7 (_ : unit) =>
        v8 ← (match page with
              | Some p => if within n aoff v7 then idx p (w64 (aoff + v7)) else Some 0
              | None => Some 0 end);
        v9 ← (match page with
              | Some p => if within n boff v7 then idx p (w64 (boff + v7)) else Some 0
              | None => Some 0 end);
        if v8 <? v9 then Some (Ret (-1)) else
        if v8 >? v9 then Some (Ret 1) else Some (Next tt)) tt;
  Some (match r with inr v => v | inl _ => cmp_len alen blen end).

Definition bt_keyhas_prefix (page : slice) (n koff klen : Z) (prefix : slice) (plen : Z) : option Z :=
  if plen =? 0 then Some 1 else
  match page, prefix with
  | Some p, Some q =>
      if klen <? plen then Some 0 else
      r ← for_range 0 plen (fun v6 (_ : unit) =>
            let v18 := w64 (koff + v6) in
            if room n v18 1 then
              x ← idx p v18; y ← idx q v6;
              if negb (x =? y) then Some (Ret 0) else Some (Next tt)
            else Some (Ret 0)) tt;
      Some (match r with inr v => v | inl _ => 1 end)
  | _, _ => Some 0
  end.

(** ** The scalar accessors are those of the page kernel *)

Lemma bt_read8_db : bt_read8 = db_read8. Proof. done. Qed.
Lemma bt_read64_db : bt_read64 = db_read64. Proof. done. Qed.
Lemma bt_write8_db : bt_write8 = db_write8. Proof. done. Qed.
Lemma bt_write16_db : bt_write16 = db_write16. Proof. done. Qed.
Lemma bt_write32_db : bt_write32 = db_write32. Proof. done. Qed.
Lemma bt_write64_db : bt_write64 = db_write64. Proof. done. Qed.
Lemma bt_bounds_db : bt_bounds = Db_page_bounds. Proof. done. Qed.

(** [bt_read16] is the two-byte read that [db_read16] is not. *)
Lemma bt_read16_eq p n a : bytes_ok p -> n <= len p < 2 ^ 63 -> 0 <= a -> a + 2 <= n ->
  bt_read16 (Some p) n a = le_get 2 (sub p a (a + 2)).
Proof.
  intros Hp Hn Ha Hend. unfold bt_read16. rewrite clamp_le, room_ok by lia. unwrap.
  rewrite !le_get_sub_S by lia. cbn [le_get]. zlit.
  pose proof (rd_bound p a Hp). pose proof (rd_bound p (a + 1) Hp).
  rewrite Z.shiftl_mul_pow2 by lia. unwrap. rewrite <- Z.shiftl_mul_pow2 by lia. lor_sum. lia.
Qed.

(** ** Copies *)

Lemma within_ok n a i : 0 <= a -> 0 <= i -> a + i < n < 2 ^ 64 -> within n a i = true.
Proof. intros. unfold within. unwrap. zcases. Qed.

Lemma bt_copy_in_eq p n a s k :
  0 <= a -> 0 <= k <= len s -> a + k <= n -> n <= len p < 2 ^ 63 ->
  bt_copy_in (Some p) n a (Some s) k = Some (Some (copy_at p a (sub s 0 k))).
Proof.
  intros Ha Hk Hn Hl. unfold bt_copy_in.
  rewrite (for_range_ext _ _ _ (fun i d => x ← idx s i; d' ← upd d (a + i) x; Some (Next d'))).
  - by rewrite copy_loop by lia.
  - intros i t Hi. rewrite within_ok by lia. by unwrap.
Qed.

Lemma bt_copy_out_eq p n a d k :
  0 <= a -> 0 <= k <= len d -> a + k <= n -> n <= len p < 2 ^ 63 ->
  bt_copy_out (Some p) n a (Some d) k = Some (Some (copy_at d 0 (sub p a (a + k)))).
Proof.
  intros Ha Hk Hn Hl. unfold bt_copy_out.
  rewrite (for_range_ext _ _ _ (fun i d => x ← idx (sub p a (a + k)) i; d' ← upd d (0 + i) x; Some (Next d'))).
  - rewrite copy_loop by (rewrite ?len_sub by lia; lia). cbn. do 3 f_equal.
    rewrite sub_sub by lia. f_equal; lia.
  - intros i t Hi. rewrite within_ok by lia. unwrap.
    rewrite !idx_rd by (rewrite ?len_sub by lia; lia). by rewrite rd_sub by lia.
Qed.

Lemma bt_cow_eq p d : len p = 0x4000 -> len d = 0x4000 -> bt_cow (Some p) (Some d) 0x4000 = Some (Some p).
Proof.
  intros Hp Hd. unfold bt_cow. rewrite Hp, Hd. cbn [Z.eqb Z.leb Z.compare Pos.compare Pos.compare_cont andb].
  rewrite sub_all by (rewrite ?Hp; done). by rewrite copy_at_full by lia.
Qed.

(** ** Comparisons *)

Lemma bt_keyeq_eq p n a klen k :
  0 <= a -> klen = len k -> a + klen <= n -> n <= len p < 2 ^ 63 ->
  bt_keyeq (Some p) n a klen (Some k) = Some (if bool_decide (sub p a (a + klen) = k) then 1 else 0).
Proof.
  intros Ha -> Hn Hl. unfold bt_keyeq. pose proof (len_nonneg k).
  destruct (for_range_inv (S:=unit) (R:=Z)
    (fun i _ => forall j, 0 <= j < i -> rd p (a + j) = rd k j)
    (fun r => match r with inl _ => sub p a (a + len k) = k
                         | inr v => v = 0 /\ sub p a (a + len k) <> k end)
    0 (len k) (fun v5 _ =>
            if room n (w64 (a + v5)) 1 then
              x ← idx p (w64 (a + v5)); y ← idx k v5;
              if negb (x =? y) then Some (Ret 0) else Some (Next tt)
            else Some (Ret 0)) tt) as (r & Hr & HQ); [lia | intros; lia | | |].
  - intros i t Hi Hinv. unwrap. rewrite room_ok by lia. rewrite !idx_rd by lia. cbn.
    destruct (Z.eqb_spec (rd p (a + i)) (rd k i)) as [E|E]; cbn.
    + intros j Hj. destruct (Z.eq_dec j i) as [->|]; [done | apply Hinv; lia].
    + split; [done|]. intros Heq. apply E. rewrite <- Heq, rd_sub by lia. done.
  - intros t Hinv. apply bytes_ext; [rewrite len_sub; lia|]. intros i. rewrite len_sub by lia. intros Hi.
    rewrite rd_sub by lia. apply Hinv. lia.
  - rewrite Hr. cbn. destruct r as [t|v]; [by rewrite bool_decide_eq_true_2|].
    destruct HQ as [-> HQ]. by rewrite bool_decide_eq_false_2.
Qed.

(** The comparison loop over two byte readers. *)
Definition cmp_loop (f g : Z -> option Z) (k : Z) : option (unit + Z) :=
  for_range 0 k (fun i (_ : unit) =>
    x ← f i; y ← g i;
    if x <? y then Some (Ret (-1)) else if x >? y then Some (Ret 1) else Some (Next tt)) tt.

Lemma cmp_loop_Compare f g a b :
  (forall i, 0 <= i < Z.min (len a) (len b) -> f i = Some (rd a i) /\ g i = Some (rd b i)) ->
  exists r, cmp_loop f g (Z.min (len a) (len b)) = Some r /\
    match r with inr v => v | inl _ => cmp_len (len a) (len b) end = Bytes.Compare a b.
Proof.
  intros Hfg. unfold cmp_loop, for_range. rewrite Z.sub_0_r.
  assert (Hgen : forall n i a b, 0 <= i -> n = Z.to_nat (Z.min (len a) (len b)) ->
    (forall j, 0 <= j < Z.min (len a) (len b) -> f (i + j) = Some (rd a j) /\ g (i + j) = Some (rd b j)) ->
    exists r, for_to n i (fun i (_ : unit) => x ← f i; y ← g i;
      if x <? y then Some (Ret (-1)) else if x >? y then Some (Ret 1) else Some (Next tt)) tt = Some r /\
      match r with inr v => v | inl _ => cmp_len (len a) (len b) end = Bytes.Compare a b).
  { clear. induction n as [|n IH]; intros i a b Hi Hn Hfg.
    - exists (inl tt). split; [done|]. destruct a as [|x a], b as [|y b]; cbn [Bytes.Compare]; rewrite ?len_cons in *;
        try pose proof (len_nonneg a); try pose proof (len_nonneg b); change (@len Z []) with 0 in *; unfold cmp_len; zcases; done.
    - destruct a as [|x a]; [change (len []) with 0 in Hn; pose proof (len_nonneg b); lia|].
      destruct b as [|y b]; [change (len []) with 0 in Hn; rewrite len_cons in Hn; pose proof (len_nonneg a); lia|].
      rewrite !len_cons in *. pose proof (len_nonneg a). pose proof (len_nonneg b).
      destruct (Hfg 0 ltac:(lia)) as [Hf Hg]. rewrite Z.add_0_r in Hf, Hg. cbn [for_to].
      rewrite Hf, Hg. rewrite !rd_cons_0. cbn [mbind option_bind Bytes.Compare].
      destruct (Z.ltb_spec x y); [eexists; split; done|].
      rewrite Z.gtb_ltb. destruct (Z.ltb_spec y x); [eexists; split; done|].
      destruct (IH (i + 1) a b) as (r & Hr & Hv); [lia | lia | |].
      { intros j Hj. destruct (Hfg (1 + j) ltac:(lia)) as [Hf' Hg'].
        rewrite rd_cons_S in Hf', Hg' by lia.
        replace (1 + j - 1) with j in * by lia. by rewrite <- Z.add_assoc. }
      exists r. split; [done|]. rewrite <- Hv. destruct r; [|done]. unfold cmp_len. zcases; done. }
  apply Hgen; [lia | done | done].
Qed.

Lemma bt_keycmp_at_eq p n a alen b :
  0 <= a -> 0 <= alen -> a + alen <= n -> n <= len p < 2 ^ 63 ->
  bt_keycmp_at (Some p) n a alen (Some b) (len b) = Some (Bytes.Compare (sub p a (a + alen)) b).
Proof.
  intros Ha Hal Hn Hl. unfold bt_keycmp_at.
  replace (clamp (Some b) (len b)) with (len b) by (unfold clamp, slen; cbn; zcase; done).
  pose proof (len_nonneg b).
  assert (Hlen : len (sub p a (a + alen)) = alen) by (rewrite len_sub; lia).
  destruct (cmp_loop_Compare
    (fun v7 => if within n a v7 then idx p (w64 (a + v7)) else Some 0)
    (fun v7 => idx b v7) (sub p a (a + alen)) b) as (r & Hr & Hv).
  { intros i Hi. rewrite within_ok by lia. unwrap. rewrite !idx_rd by lia. by rewrite rd_sub by lia. }
  rewrite Hlen in *. unfold cmp_loop in Hr.
  replace (if len b <? alen then len b else alen) with (Z.min alen (len b)) by (zcase; lia).
  rewrite Hr. cbn. by rewrite Hv.
Qed.

Lemma bt_keycmp_pp_eq p n a b k :
  n <= len p < 2 ^ 63 -> 0 <= a -> 0 <= b -> 0 <= k -> a + k <= n -> b + k <= n ->
  bt_keycmp_pp (Some p) n a k b k = Some (Bytes.Compare (sub p a (a + k)) (sub p b (b + k))).
Proof.
  intros Hl Ha Hb Hk Hak Hbk. unfold bt_keycmp_pp.
  replace (clamp (Some p) n) with n by (unfold clamp, slen; cbn; zcase; lia).
  replace (clamp (Some p) k) with k by (unfold clamp, slen; cbn; zcase; lia).
  assert (Hla : len (sub p a (a + k)) = k) by (rewrite len_sub; lia).
  assert (Hlb : len (sub p b (b + k)) = k) by (rewrite len_sub; lia).
  destruct (cmp_loop_Compare
    (fun v7 => if within n a v7 then idx p (w64 (a + v7)) else Some 0)
    (fun v7 => if within n b v7 then idx p (w64 (b + v7)) else Some 0)
    (sub p a (a + k)) (sub p b (b + k))) as (r & Hr & Hv).
  { intros i Hi. rewrite !within_ok by lia. unwrap. rewrite !idx_rd by lia. by rewrite !rd_sub by lia. }
  rewrite Hla, Hlb in *. unfold cmp_loop in Hr. rewrite Z.min_id in Hr.
  rewrite Z.ltb_irrefl, Hr. cbn. by rewrite Hv.
Qed.

End BtMem.
