(* ===== verification/BtLeaf.v ===== *)
(** * B-tree leaves on one page (src/pkg/c2db/db_btree_gen.go)

    A leaf is a 16 KiB page: type byte at 20, slot count at 22, end of the slot
    array at 24, start of the cell area at 26, two-byte slots from 64 upwards,
    cells from the end downwards.  A cell is two 16-bit lengths, the key, a
    16-byte version id in a versioned leaf, and the value.  [rep] relates a page
    to the list of its cells; the operations refine operations on that list. *)

From S2P Require Import Prelude Bytes PageKernel BtMem.
Import PageKernel BtMem.

Local Open Scope Z_scope.

Module BtLeaf.

Record Db_bt_state_t := { Nkeys : Z; Ok : Z; Copied : Z }.
Record Db_bt_get_t := { Len : Z; Walked : Z; Found : Z; Fallback : Z }.

(** ** Search *)

Definition bt_find (page : slice) (n : Z) (key : slice) (klen : Z) : option Z :=
  let v11 := bt_read16 page n 22 in
  r ← for_range 0 v11 (fun v5 (_ : unit) =>
        let v16 := (64 +% (v5 *% 2))%u64 in
        if bt_bounds page n v16 2 =? 0 then Some (Ret v11) else
        let v21 := bt_read16 page n v16 in
        if negb (bt_bounds page n v21 4 =? 0) then
          if bt_read16 page n v21 =? klen then
            e ← bt_keyeq page n (w64 (v21 + 4)) klen key;
            if negb (e =? 0) then Some (Ret v5) else Some (Next tt)
          else Some (Next tt)
        else Some (Next tt)) tt;
  Some (match r with inr v => v | inl _ => v11 end).

(** ** Initialisation *)

Definition Db_bt_leaf_init (page : slice) (n : Z) : slice * Db_bt_state_t :=
  let v2 := {| Nkeys := 0; Ok := 0; Copied := 0 |} in
  if is_nil page || negb (n =? 0x4000) then (page, v2) else
  if bt_bounds page n 20 1 =? 0 then (page, v2) else
  if bt_bounds page n 22 6 =? 0 then (page, v2) else
  let page := bt_write8 page n 20 1 in
  let page := bt_write16 page n 22 0 in
  let page := bt_write16 page n 24 64 in
  let page := bt_write16 page n 26 0x4000 in
  (page, {| Nkeys := 0; Ok := 1; Copied := 0 |}).

(** ** The unversioned leaf *)

Definition Db_bt_insert (pub dirty : slice) (n : Z) (key : slice) (klen : Z) (val : slice) (vlen : Z)
    : option (slice * Db_bt_state_t) :=
  let v8 nk cp := {| Nkeys := nk; Ok := 0; Copied := cp |} in
  if (is_nil pub || is_nil dirty) || negb (n =? 0x4000) then Some (dirty, v8 0 0) else
  dirty ← bt_cow pub dirty n;
  if ((klen =? 0) || (klen >? 0xffff)) || (vlen >? 0xffff) then Some (dirty, v8 0 1) else
  if is_nil key then Some (dirty, v8 0 1) else
  if (vlen >? 0) && is_nil val then Some (dirty, v8 0 1) else
  if negb (bt_read8 dirty n 20 =? 1) then Some (dirty, v8 0 1) else
  let v9 := bt_read16 dirty n 22 in
  let v57 := bt_read16 dirty n 24 in
  let v60 := bt_read16 dirty n 26 in
  if v57 <? 64 then Some (dirty, v8 v9 1) else
  if v60 >? n then Some (dirty, v8 v9 1) else
  if v57 >? v60 then Some (dirty, v8 v9 1) else
  let v64 := w64 (4 + klen + vlen) in
  v66 ← bt_find dirty n key klen;
  if (negb (v66 <? v9)) && ((v57 >=? n) || (2 >? w64 (n - v57))) then Some (dirty, v8 v9 1) else
  let v13 := if v66 <? v9 then v57 else w64 (v57 + 2) in
  let v18 := if v66 <? v9 then v66 else v9 in
  if v64 >? v60 then Some (dirty, v8 v9 1) else
  let v71 := w64 (v60 - v64) in
  if v13 >? v71 then Some (dirty, v8 v9 1) else
  let v75 := (64 +% (v18 *% 2))%u64 in
  if bt_bounds dirty n v71 v64 =? 0 then Some (dirty, v8 v9 1) else
  if bt_bounds dirty n v75 2 =? 0 then Some (dirty, v8 v9 1) else
  let dirty := bt_write16 dirty n v71 (w16 klen) in
  let dirty := bt_write16 dirty n (w64 (v71 + 2)) (w16 vlen) in
  dirty ← bt_copy_in dirty n (w64 (v71 + 4)) key klen;
  dirty ← (if vlen >? 0 then bt_copy_in dirty n (w64 (v71 + 4 + klen)) val vlen else Some dirty);
  let dirty := bt_write16 dirty n v75 (w16 v71) in
  let '(dirty, v9) :=
    if v66 >=? v9 then
      let v9 := w64 (v9 + 1) in
      let dirty := bt_write16 dirty n 22 (w16 v9) in
      let dirty := bt_write16 dirty n 24 (w16 v13) in
      (dirty, v9)
    else (dirty, v9) in
  let dirty := bt_write16 dirty n 26 (w16 v71) in
  Some (dirty, {| Nkeys := v9; Ok := 1; Copied := 1 |}).

Definition get0 : Db_bt_get_t := {| Len := 0; Walked := 0; Found := 0; Fallback := 0 |}.

(** The result and the new contents of [out]. *)
Definition Db_bt_get (page : slice) (n : Z) (key : slice) (klen : Z) (out : slice) (outn : Z)
    : option (Db_bt_get_t * slice) :=
  if is_nil page || negb (n =? 0x4000) then Some (get0, out) else
  if (is_nil key || (klen =? 0)) || (klen >? 0xffff) then Some (get0, out) else
  if negb (bt_read8 page n 20 =? 1) then Some (get0, out) else
  v43 ← bt_find page n key klen;
  if v43 >=? bt_read16 page n 22 then Some (get0, out) else
  let v47 := (64 +% (v43 *% 2))%u64 in
  if bt_bounds page n v47 2 =? 0 then Some (get0, out) else
  let v54 := bt_read16 page n v47 in
  if bt_bounds page n v54 4 =? 0 then Some (get0, out) else
  let v60 := bt_read16 page n v54 in
  let v64 := bt_read16 page n (w64 (v54 + 2)) in
  if negb (v60 =? klen) then Some (get0, out) else
  if bt_bounds page n v54 (w64 (4 + v60 + v64)) =? 0 then Some (get0, out) else
  let v13 := if v64 >? outn then outn else v64 in
  out ← (if negb (is_nil out) && (v13 >? 0)
         then bt_copy_out page n (w64 (v54 + 4 + v60)) out v13 else Some out);
  Some ({| Len := v64; Walked := 0; Found := 1; Fallback := 0 |}, out).

(** ** Cells and slots *)

Record cell := { cKey : list Z; cId : list Z; cVal : list Z }.

Definition cell_bytes (c : cell) : list Z :=
  le_put 2 (len (cKey c)) ++ le_put 2 (len (cVal c)) ++ cKey c ++ cId c ++ cVal c.
Definition clen (c : cell) : Z := 4 + len (cKey c) + len (cId c) + len (cVal c).

Definition cell_at (p : list Z) (off : Z) (c : cell) : Prop :=
  off + clen c <= 0x4000 /\ sub p off (off + clen c) = cell_bytes c.

(** A 16-bit field. *)
Definition fld (p : list Z) (a : Z) : Z := le_get 2 (sub p a (a + 2)).
Definition slot_addr (i : Z) : Z := 64 + i * 2.

(** The slots of [p] address the cells [cs], all of them at [hi] or above. *)
Definition cells_ok (idl : Z) (p : list Z) (cs : list cell) (hi : Z) : Prop :=
  forall i c, 0 <= i -> cs !! Z.to_nat i = Some c ->
    hi <= fld p (slot_addr i) /\ cell_at p (fld p (slot_addr i)) c /\ len (cId c) = idl.

(** [p] is a page of type [ty] that holds the cells [cs], with ids of [idl]
    bytes, and free space between the end of the slots and [hi]. *)
Record node (ty idl : Z) (p : list Z) (cs : list cell) (hi : Z) : Prop := {
  rep_page : page_ok p;
  rep_leaf : rd p 20 = ty;
  rep_nslots : fld p 22 = len cs;
  rep_lo : fld p 24 = slot_addr (len cs);
  rep_hi : fld p 26 = hi;
  rep_room : slot_addr (len cs) <= hi <= 0x4000;
  rep_cells : cells_ok idl p cs hi;
}.

(** A leaf is a page of type 1. *)
Abbreviation rep := (node 1).

Lemma len_cell_bytes c : len (cell_bytes c) = clen c.
Proof. unfold cell_bytes, clen. rewrite !len_app, !len_le_put. lia. Qed.

Lemma clen_pos c : 4 <= clen c.
Proof.
  unfold clen. pose proof (len_nonneg (cKey c)). pose proof (len_nonneg (cId c)).
  pose proof (len_nonneg (cVal c)). lia.
Qed.

Lemma fld_put p a b v : page_ok p -> 0 <= a -> a + 2 <= 0x4000 -> b = a -> 0 <= v < 65536 ->
  fld (copy_at p a (le_put 2 v)) b = v.
Proof. intros [Hl _] Ha Hend -> Hv. unfold fld. rewrite field_put_get by lia. by apply Z.mod_small. Qed.

Lemma fld_out p a src b : page_ok p -> 0 <= a -> 0 <= b -> b + 2 <= 0x4000 ->
  (b + 2 <= a \/ a + len src <= b) -> fld (copy_at p a src) b = fld p b.
Proof. intros [Hl _] Ha Hb Hend Hout. unfold fld. by rewrite sub_copy_at_ne by lia. Qed.

Lemma fld_bound p a : page_ok p -> 0 <= fld p a < 65536.
Proof. intros [_ Hb]. unfold fld. apply (le_get_sub_bound 2 p a (a + 2) Hb). Qed.

Lemma bt_read16_fld p a : page_ok p -> 0 <= a -> a + 2 <= 0x4000 -> bt_read16 (Some p) 0x4000 a = fld p a.
Proof. intros [Hl Hb] Ha Hend. apply bt_read16_eq; [done | lia..]. Qed.

Lemma bt_bounds_ok p a k : page_ok p -> 0 <= a < 0x4000 -> 0 <= k -> a + k <= 0x4000 ->
  (bt_bounds (Some p) 0x4000 a k =? 0) = false.
Proof. intros [Hl _] Ha Hk Hend. rewrite bt_bounds_db. apply Db_page_bounds_in; lia. Qed.

(** What the code reads of a cell. *)
Lemma cell_fields p off c : page_ok p -> 0 <= off -> cell_at p off c ->
  let k := off + 4 in let i := k + len (cKey c) in let v := i + len (cId c) in
  fld p off = len (cKey c) /\ fld p (off + 2) = len (cVal c) /\
  sub p k i = cKey c /\ sub p i v = cId c /\ sub p v (v + len (cVal c)) = cVal c.
Proof.
  intros [Hl Hb] Hoff [Hend Hsub] k i v. pose proof (len_nonneg (cKey c)).
  pose proof (len_nonneg (cId c)). pose proof (len_nonneg (cVal c)).
  assert (Hw : forall a b x y, a = off + x -> b = off + y -> 0 <= x <= y -> y <= clen c ->
    sub p a b = sub (cell_bytes c) x y).
  { intros a b x y -> -> Hx Hy. rewrite <- Hsub, sub_sub by lia. done. }
  unfold clen in *. pose proof (len_le_put 2 (len (cKey c))). pose proof (len_le_put 2 (len (cVal c))).
  remember (len (cKey c)) as kl eqn:Ekl. remember (len (cId c)) as il eqn:Eil.
  remember (len (cVal c)) as vl eqn:Evl.
  unfold fld. subst v i k.
  rewrite (Hw off (off + 2) 0 2), (Hw (off + 2) (off + 2 + 2) 2 4), (Hw (off + 4) (off + 4 + kl) 4 (4 + kl)),
    (Hw (off + 4 + kl) (off + 4 + kl + il) (4 + kl) (4 + kl + il)),
    (Hw (off + 4 + kl + il) (off + 4 + kl + il + vl) (4 + kl + il) (4 + kl + il + vl)) by lia.
  unfold cell_bytes. rewrite <- Ekl, <- Evl. split_and!; rewrite ?sub_skip by lia; first [rewrite sub_head by lia | rewrite sub_all by lia];
    try done; rewrite le_get_put; apply Z.mod_small; change (8 * Z.of_nat 2) with 16; lia.
Qed.

Lemma cell_at_out p a src off c : page_ok p -> 0 <= a -> 0 <= off ->
  (off + clen c <= a \/ a + len src <= off) -> cell_at p off c -> cell_at (copy_at p a src) off c.
Proof.
  intros [Hl _] Ha Hoff Hout [Hend Hsub]. pose proof (clen_pos c). split; [done|].
  by rewrite sub_copy_at_ne by lia.
Qed.

Lemma cell_at_put p off c : page_ok p -> 0 <= off -> off + clen c <= 0x4000 ->
  cell_at (copy_at p off (cell_bytes c)) off c.
Proof.
  intros [Hl _] Hoff Hend. split; [done|]. apply sub_copy_at_eq; rewrite ?len_cell_bytes; lia.
Qed.

(** ** Search *)

(** The index of the first cell with key [k], or the number of cells. *)
Fixpoint find_idx (cs : list cell) (k : list Z) : nat :=
  match cs with
  | [] => O
  | c :: cs' => if bool_decide (cKey c = k) then O else S (find_idx cs' k)
  end.

Lemma find_idx_spec cs k i :
  (forall j c, (j < i)%nat -> cs !! j = Some c -> cKey c <> k) ->
  (i = length cs \/ exists c, cs !! i = Some c /\ cKey c = k) -> find_idx cs k = i.
Proof.
  revert i. induction cs as [|c cs IH]; intros i Hbefore Hat; cbn.
  - destruct Hat as [->|(c & Hc & _)]; done.
  - case_bool_decide as Ek.
    + destruct i as [|i]; [done|]. exfalso. by eapply (Hbefore O c); [lia|..].
    + destruct i as [|i]; [destruct Hat as [?|(c' & [= <-] & ?)]; done|]. f_equal. apply IH.
      * intros j c' Hj Hc'. by apply (Hbefore (S j) c'); [lia|].
      * destruct Hat as [Hlen|Hat]; [left; by injection Hlen|]. by right.
Qed.

Lemma find_idx_le cs k : (find_idx cs k <= length cs)%nat.
Proof. induction cs as [|c cs IH]; cbn; [lia|]. case_bool_decide; lia. Qed.

Lemma slot_u64 i : 0 <= i < 65536 -> (64 +% (i *% 2))%u64 = slot_addr i.
Proof. intros. unfold slot_addr. by unwrap. Qed.

Section Rep.
Context {ty idl : Z} {p : list Z} {cs : list cell} {hi : Z}.
Hypothesis Hrep : node ty idl p cs hi.

Lemma rep_count : len cs <= 8160.
Proof. pose proof (rep_room _ _ _ _ _ Hrep). unfold slot_addr in *. lia. Qed.

(** The [i]-th cell as the code addresses it. *)
Lemma rep_cell i c : 0 <= i -> cs !! Z.to_nat i = Some c ->
  let off := fld p (slot_addr i) in
  i < len cs /\ slot_addr i + 2 <= hi /\ 64 <= off /\ off + clen c <= 0x4000 /\ hi <= off /\
  cell_at p off c /\ len (cId c) = idl.
Proof.
  intros Hi Hc off. destruct (rep_cells _ _ _ _ _ Hrep i c Hi Hc) as (Hhi & Hat & Hid).
  pose proof (rep_room _ _ _ _ _ Hrep). apply lookup_lt_Some in Hc. unfold len, slot_addr in *.
  split_and!; try done; try lia. apply Hat.
Qed.

Lemma rep_lookup i : 0 <= i < len cs -> exists c, cs !! Z.to_nat i = Some c.
Proof. intros Hi. apply lookup_lt_is_Some_2. unfold len in Hi. lia. Qed.

Lemma rep_read_nslots : bt_read16 (Some p) 0x4000 22 = len cs.
Proof. rewrite bt_read16_fld by (apply Hrep || lia). apply Hrep. Qed.

(** Every read the operations make of the [i]-th cell. *)
Lemma rep_open i c : 0 <= i -> cs !! Z.to_nat i = Some c -> exists off,
  (64 +% (i *% 2))%u64 = slot_addr i /\ (bt_bounds (Some p) 0x4000 (slot_addr i) 2 =? 0) = false /\
  bt_read16 (Some p) 0x4000 (slot_addr i) = off /\
  64 <= off /\ off + (4 + len (cKey c) + idl + len (cVal c)) <= 0x4000 /\ hi <= off /\
  (forall m, 0 <= m <= 4 + len (cKey c) + idl + len (cVal c) -> (bt_bounds (Some p) 0x4000 off m =? 0) = false) /\
  bt_read16 (Some p) 0x4000 off = len (cKey c) /\ bt_read16 (Some p) 0x4000 (off + 2) = len (cVal c) /\
  sub p (off + 4) (off + 4 + len (cKey c)) = cKey c /\
  sub p (off + 4 + len (cKey c)) (off + 4 + len (cKey c) + idl) = cId c /\
  sub p (off + 4 + len (cKey c) + idl) (off + 4 + len (cKey c) + idl + len (cVal c)) = cVal c /\
  len (cId c) = idl /\ 0 <= len (cKey c) /\ 0 <= idl /\ 0 <= len (cVal c) /\ cell_at p off c.
Proof.
  intros Hi Hc. pose proof (rep_page _ _ _ _ _ Hrep) as Hp. pose proof rep_count.
  destruct (rep_cell i c Hi Hc) as (Hn & Hs & Hoff & Hend & Hhi & Hat & <-).
  exists (fld p (slot_addr i)). pose proof (rep_room _ _ _ _ _ Hrep).
  destruct (cell_fields p (fld p (slot_addr i)) c Hp ltac:(lia) Hat) as (Hk & Hv & Hkey & Hid & Hval).
  pose proof (len_nonneg (cKey c)). pose proof (len_nonneg (cId c)). pose proof (len_nonneg (cVal c)).
  assert (slot_addr i = 64 + i * 2) by done. unfold clen in Hend.
  split_and!; try done; try lia.
  - apply slot_u64. lia.
  - apply bt_bounds_ok; [done | lia..].
  - apply bt_read16_fld; [done | lia..].
  - intros m Hm. apply bt_bounds_ok; [done | lia..].
  - rewrite bt_read16_fld by (done || lia). done.
  - rewrite bt_read16_fld by (done || lia). done.
Qed.

Lemma bt_find_eq k : bt_find (Some p) 0x4000 (Some k) (len k) = Some (Z.of_nat (find_idx cs k)).
Proof.
  destruct (rep_page _ _ _ _ _ Hrep) as [Hl Hb]. pose proof rep_count as Hcnt. pose proof (len_nonneg cs).
  unfold bt_find. rewrite rep_read_nslots.
  match goal with |- context [for_range 0 (len cs) ?body tt] =>
    destruct (for_range_inv (S:=unit) (R:=Z)
      (fun i _ => forall j c, (j < Z.to_nat i)%nat -> cs !! j = Some c -> cKey c <> k)
      (fun r => match r with inl _ => len cs | inr v => v end = Z.of_nat (find_idx cs k))
      0 (len cs) body tt) as (r & Hr & HQ); [lia | intros; lia | | |] end.
  - intros i t Hi Hinv. cbv zeta. destruct (rep_lookup i Hi) as [c Hc].
    destruct (rep_open i c ltac:(lia) Hc) as (off & -> & -> & -> & ? & ? & _ & Hbd & -> & _ & Hkey & _ & _ & _ & ? & ? & ? & _).
    rewrite Hbd by lia. cbn [negb].
    assert (Hnext : cKey c <> k -> forall j c', (j < Z.to_nat (i + 1))%nat -> cs !! j = Some c' -> cKey c' <> k).
    { intros Hne j c' Hj Hc'. destruct (decide (j = Z.to_nat i)) as [->|]; [congruence|].
      apply (Hinv j c'); [lia | done]. }
    destruct (Z.eqb_spec (len (cKey c)) (len k)) as [El|El]; [|apply Hnext; congruence].
    unwrap. rewrite <- El, bt_keyeq_eq, Hkey by lia. cbn [mbind option_bind].
    case_bool_decide as Ek; cbn [Z.eqb negb]; [|by apply Hnext].
    rewrite (find_idx_spec cs k (Z.to_nat i)); [lia | done |]. right. eauto.
  - intros t Hinv. rewrite (find_idx_spec cs k (length cs)); [done | | by left].
    intros j c Hj. apply Hinv. unfold len. lia.
  - rewrite Hr. cbn [mbind option_bind]. by rewrite HQ.
Qed.
End Rep.

(** ** Initialisation and the free space *)

Lemma bt_write16_eq p a v : page_ok p -> 0 <= a -> a + 2 <= 0x4000 ->
  bt_write16 (Some p) 0x4000 a v = Some (copy_at p a (le_put 2 v)).
Proof. intros [Hl _] Ha Hend. rewrite bt_write16_db. apply db_write16_eq; lia. Qed.

Lemma page_ok_put p a n v : page_ok p -> page_ok (copy_at p a (le_put n v)).
Proof. intros Hp. apply page_ok_copy_at; [done | apply bytes_ok_le_put]. Qed.
#[local] Hint Resolve page_ok_put page_ok_copy_at : c2db.

(** A page with the three header fields set. *)
Definition set_hdr (p : list Z) (cnt lo hi : Z) : list Z :=
  copy_at (copy_at (copy_at p 22 (le_put 2 cnt)) 24 (le_put 2 lo)) 26 (le_put 2 hi).

Lemma set_hdr_ok p cnt lo hi : page_ok p -> page_ok (set_hdr p cnt lo hi).
Proof. intros. unfold set_hdr. auto with c2db. Qed.

Lemma set_hdr_out p cnt lo hi a : page_ok p -> 0 <= a -> a + 2 <= 0x4000 -> a + 2 <= 22 \/ 28 <= a ->
  fld (set_hdr p cnt lo hi) a = fld p a.
Proof.
  intros. unfold set_hdr. rewrite !fld_out by (rewrite ?len_le_put; auto with c2db lia). done.
Qed.

Lemma set_hdr_cell p cnt lo hi off c : page_ok p -> 28 <= off ->
  cell_at p off c -> cell_at (set_hdr p cnt lo hi) off c.
Proof.
  intros. unfold set_hdr. repeat (apply cell_at_out; [by auto with c2db | lia | lia | rewrite len_le_put; lia|]). done.
Qed.

Lemma set_hdr_rd p cnt lo hi a : 0 <= a < 22 -> rd (set_hdr p cnt lo hi) a = rd p a.
Proof. intros. unfold set_hdr. by rewrite !rd_copy_at_out by (rewrite ?len_le_put; lia). Qed.

(** The page after a store: header fields for [cs'] over slots that address the
    cells [cs']. *)
Lemma rep_set_hdr ty idl p cs' hi : page_ok p -> rd p 20 = ty -> slot_addr (len cs') <= hi <= 0x4000 ->
  cells_ok idl p cs' hi -> node ty idl (set_hdr p (len cs') (slot_addr (len cs')) hi) cs' hi.
Proof.
  intros Hp Hleaf Hroom Hcells. pose proof (len_nonneg cs'). unfold slot_addr in Hroom.
  split; [by apply set_hdr_ok | by rewrite set_hdr_rd by lia | | | | done |].
  - unfold set_hdr. rewrite !fld_out by (rewrite ?len_le_put; auto with c2db lia).
    apply fld_put; [auto with c2db | lia..].
  - unfold set_hdr, slot_addr. rewrite fld_out by (rewrite ?len_le_put; auto with c2db lia).
    apply fld_put; [auto with c2db | lia..].
  - unfold set_hdr. apply fld_put; [auto with c2db | lia..].
  - intros i c Hi Hc. destruct (Hcells i c Hi Hc) as (Hhi & Hat & Hid).
    apply lookup_lt_Some in Hc. unfold len, slot_addr in *.
    rewrite set_hdr_out by (done || lia). split_and!; [done | | done]. apply set_hdr_cell; [done | lia | done].
Qed.

Lemma leaf_init_empty idl p : page_ok p ->
  exists p', Db_bt_leaf_init (Some p) 0x4000 = (Some p', {| Nkeys := 0; Ok := 1; Copied := 0 |}) /\
    rep idl p' [] 0x4000.
Proof.
  intros Hp. unfold Db_bt_leaf_init. cbn [is_nil orb negb Z.eqb Pos.eqb].
  rewrite !bt_bounds_ok by (done || lia). rewrite bt_write8_db, db_write8_eq by (destruct Hp; lia).
  assert (Hp1 : page_ok (wr p 20 1)) by (destruct Hp; split; [by rewrite len_wr | by apply bytes_ok_wr]).
  rewrite !bt_write16_eq by (auto with c2db lia).
  eexists. split; [done|]. apply (rep_set_hdr 1 idl (wr p 20 1) [] 0x4000); [done | | |].
  - apply rd_wr_eq. destruct Hp. lia.
  - unfold slot_addr. change (len []) with 0. lia.
  - intros i c _ Hc. done.
Qed.

(** ** Writing a cell *)

Lemma bytes_ok_cell c : bytes_ok (cKey c) -> bytes_ok (cId c) -> bytes_ok (cVal c) -> bytes_ok (cell_bytes c).
Proof. intros. unfold cell_bytes. auto using bytes_ok_app, bytes_ok_le_put. Qed.

(** The five stores of a cell, as one copy. *)
Lemma cell_stores p off c :
  0 <= off -> len p = 0x4000 ->
  copy_at (copy_at (copy_at (copy_at (copy_at p off (le_put 2 (len (cKey c)))) (off + 2) (le_put 2 (len (cVal c))))
    (off + 4) (cKey c)) (off + 4 + len (cKey c)) (cId c)) (off + 4 + len (cKey c) + len (cId c)) (cVal c)
  = copy_at p off (cell_bytes c).
Proof.
  intros Hoff Hl. pose proof (len_nonneg (cKey c)). pose proof (len_nonneg (cId c)).
  unfold cell_bytes. rewrite !copy_at_app by (rewrite ?len_app, ?len_le_put; lia). done.
Qed.

Lemma bt_copy_in_all p a s : page_ok p -> 0 <= a -> a + len s <= 0x4000 ->
  bt_copy_in (Some p) 0x4000 a (Some s) (len s) = Some (Some (copy_at p a s)).
Proof.
  intros [Hl _] Ha Hend. pose proof (len_nonneg s). rewrite bt_copy_in_eq by lia. by rewrite sub_full.
Qed.

(** The value is copied when it is not empty. *)
Lemma bt_copy_in_val p a s : page_ok p -> 0 <= a -> a + len s <= 0x4000 ->
  (if len s >? 0 then bt_copy_in (Some p) 0x4000 a (Some s) (len s) else Some (Some p)) = Some (Some (copy_at p a s)).
Proof.
  intros Hp Ha Hend. pose proof (len_nonneg s). zcase; [by apply bt_copy_in_all|].
  destruct s; [done|]. rewrite len_cons in *. pose proof (len_nonneg s). lia.
Qed.

(** The stores of a cell without an id, as the insertion makes them. *)
Lemma bt_cell_stores {B} p off key val (k : slice -> option B) :
  page_ok p -> bytes_ok key -> bytes_ok val -> 0 <= off -> off + (4 + len key + len val) <= 0x4000 ->
  bt_copy_in (bt_write16 (bt_write16 (Some p) 0x4000 off (len key)) 0x4000 (off + 2) (len val))
      0x4000 (off + 4) (Some key) (len key) ≫= (fun d =>
    (if len val >? 0 then bt_copy_in d 0x4000 (off + 4 + len key) (Some val) (len val) else Some d) ≫= k)
  = k (Some (copy_at p off (cell_bytes {| cKey := key; cId := []; cVal := val |}))).
Proof.
  intros Hp Hkey Hval Hoff Hend. pose proof (len_nonneg key). pose proof (len_nonneg val).
  rewrite !bt_write16_eq by (auto with c2db; lia).
  rewrite bt_copy_in_all by (auto with c2db; lia). cbn [mbind option_bind].
  rewrite bt_copy_in_val by (auto 10 with c2db; lia). cbn [mbind option_bind].
  rewrite <- (cell_stores p off) by (destruct Hp; done). cbn [cKey cId cVal].
  change (len []) with 0. by rewrite Z.add_0_r.
Qed.

(** ** Slots *)

Lemma fld_ext p q a : page_ok p -> page_ok q -> 0 <= a -> a + 2 <= 0x4000 ->
  rd p a = rd q a -> rd p (a + 1) = rd q (a + 1) -> fld p a = fld q a.
Proof.
  intros [Hp _] [Hq _] Ha Hend H0 H1. unfold fld. rewrite !le_get_sub_S by lia. cbn [le_get]. by rewrite H0, H1.
Qed.

Lemma cell_at_ext p q off c : page_ok p -> page_ok q -> 0 <= off ->
  (forall a, off <= a < off + clen c -> rd q a = rd p a) -> cell_at p off c -> cell_at q off c.
Proof.
  intros [Hp _] [Hq _] Hoff Hext [Hend Hsub]. pose proof (clen_pos c). split; [done|]. rewrite <- Hsub.
  apply bytes_ext; rewrite !len_sub by lia; [done|]. intros i Hi. rewrite !rd_sub by lia. apply Hext. lia.
Qed.

(** The cells with [c] inserted at [i]. *)
Definition insert_at {A} (i : nat) (x : A) (l : list A) : list A := take i l ++ x :: drop i l.

Lemma insert_at_lookup {A} (i : nat) (x : A) l j : (i <= length l)%nat ->
  insert_at i x l !! j = if decide (j < i)%nat then l !! j else if decide (j = i) then Some x else l !! (j - 1)%nat.
Proof.
  intros Hi. unfold insert_at. destruct (decide (j < i)%nat).
  - rewrite lookup_app_l by (rewrite length_take; lia). by rewrite lookup_take_lt.
  - rewrite lookup_app_r by (rewrite length_take; lia). rewrite length_take.
    destruct (decide (j = i)) as [->|]; [by replace (i - i `min` length l)%nat with O by lia|].
    replace (j - i `min` length l)%nat with (S (j - i - 1))%nat by lia.
    change (drop i l !! (j - i - 1)%nat = l !! (j - 1)%nat). rewrite lookup_drop. f_equal. lia.
Qed.

Lemma len_insert_at {A} i (x : A) l : len (insert_at i x l) = len l + 1.
Proof. unfold insert_at, len. rewrite length_app, length_take. cbn. rewrite length_drop. lia. Qed.

(** A cell stored in the free space leaves the others alone. *)
Lemma cells_store idl p cs hi c lo :
  page_ok p -> cells_ok idl p cs hi -> slot_addr (len cs) <= lo -> 64 <= lo -> lo + clen c = hi -> hi <= 0x4000 ->
  bytes_ok (cell_bytes c) ->
  let q := copy_at p lo (cell_bytes c) in
  page_ok q /\ cells_ok idl q cs lo /\ cell_at q lo c /\ (forall a, 0 <= a < lo -> rd q a = rd p a) /\
  (forall a, 0 <= a -> a + 2 <= lo -> fld q a = fld p a).
Proof.
  intros Hp Hcells Hlo Hlo' Hhi Hend Hc q. pose proof (clen_pos c). subst q.
  split; [by apply page_ok_copy_at|]. split; [|split; [|split]].
  - intros i d Hi Hd. destruct (Hcells i d Hi Hd) as (Hhi' & Hat & Hid). destruct Hat as [He Hs].
    pose proof (clen_pos d).
    apply lookup_lt_Some in Hd. unfold len, slot_addr in *. rewrite fld_out by (done || lia).
    split_and!; [lia | | done]. apply cell_at_out; [done | lia | lia | rewrite len_cell_bytes; lia | done].
  - apply cell_at_put; [done | lia..].
  - intros a Ha. by rewrite rd_copy_at_out by lia.
  - intros a Ha Hb. apply fld_out; [done | lia..].
Qed.

(** A cell addressed by the slot array, seen from a page with other slots. *)
Lemma cell_slots_frame p q off c hi :
  page_ok p -> page_ok q -> (forall a, hi <= a < 0x4000 -> rd q a = rd p a) -> 0 <= hi <= off ->
  cell_at p off c -> cell_at q off c.
Proof. intros Hp Hq Hext Hoff Hat. apply (cell_at_ext p); [done | done | lia | | done]. intros. apply Hext. destruct Hat. lia. Qed.

Lemma cells_slot_update idl p cs c lo k :
  page_ok p -> cells_ok idl p cs lo -> cell_at p lo c -> len (cId c) = idl ->
  0 <= k < len cs -> slot_addr (len cs) <= lo <= 0x4000 ->
  cells_ok idl (copy_at p (slot_addr k) (le_put 2 lo)) (<[Z.to_nat k := c]> cs) lo.
Proof.
  intros Hp Hcells Hat Hid Hk Hlo i d Hi Hd. unfold slot_addr, len in *.
  assert (Hq : page_ok (copy_at p (64 + k * 2) (le_put 2 lo))) by auto with c2db.
  assert (Hframe : forall a, lo <= a < 0x4000 -> rd (copy_at p (64 + k * 2) (le_put 2 lo)) a = rd p a).
  { intros a Ha. by rewrite rd_copy_at_out by (rewrite ?len_le_put; lia). }
  apply list_lookup_insert_Some in Hd as [(Heq & <- & Hlt)|(Hne & Hd)].
  - rewrite fld_put by (done || lia).
    split_and!; [done | | done]. by apply (cell_slots_frame p _ _ _ lo); [..|lia|].
  - pose proof (lookup_lt_Some _ _ _ Hd). rewrite fld_out by (done || rewrite ?len_le_put; lia).
    destruct (Hcells i d Hi Hd) as (Hhi & Hatd & Hidd). unfold slot_addr in *.
    split_and!; [done | | done]. by apply (cell_slots_frame p _ _ _ lo); [..|lia|].
Qed.

Lemma cells_slot_insert idl p q cs c lo k :
  page_ok p -> page_ok q -> cells_ok idl p cs lo -> cell_at p lo c -> len (cId c) = idl ->
  0 <= k <= len cs -> slot_addr (len cs + 1) <= lo <= 0x4000 ->
  (forall a, 0 <= a < 0x4000 -> a < slot_addr k \/ slot_addr (len cs + 1) <= a -> rd q a = rd p a) ->
  fld q (slot_addr k) = lo ->
  (forall j, k < j <= len cs -> fld q (slot_addr j) = fld p (slot_addr (j - 1))) ->
  cells_ok idl q (insert_at (Z.to_nat k) c cs) lo.
Proof.
  intros Hp Hq Hcells Hat Hid Hk Hlo Hframe Hslot Hshift i d Hi Hd.
  assert (Hfr : forall a, lo <= a < 0x4000 -> rd q a = rd p a) by (intros; apply Hframe; unfold slot_addr in *; lia).
  assert (0 <= lo) by (unfold slot_addr, len in *; lia).
  unfold len in *. rewrite insert_at_lookup in Hd by lia.
  destruct (decide (Z.to_nat i < Z.to_nat k)%nat); [|destruct (decide (Z.to_nat i = Z.to_nat k))].
  - destruct (Hcells i d Hi Hd) as (Hhi & Hatd & Hidd).
    assert (fld q (slot_addr i) = fld p (slot_addr i)) as ->.
    { unfold slot_addr in *. apply fld_ext; [done | done | lia | lia | apply Hframe; lia | apply Hframe; lia]. }
    split_and!; [done | | done]. by apply (cell_slots_frame p _ _ _ lo).
  - injection Hd as ->. assert (i = k) as -> by lia. rewrite Hslot.
    split_and!; [done | | done]. by apply (cell_slots_frame p _ _ _ lo).
  - pose proof (lookup_lt_Some _ _ _ Hd). rewrite Hshift by lia.
    replace (Z.to_nat i - 1)%nat with (Z.to_nat (i - 1)) in Hd by lia.
    destruct (Hcells (i - 1) d ltac:(lia) Hd) as (Hhi & Hatd & Hidd).
    split_and!; [done | | done]. by apply (cell_slots_frame p _ _ _ lo).
Qed.

(** The header rewritten over a page whose count and slot end are already right. *)
Lemma rep_set_hi idl p cs hi : page_ok p -> rd p 20 = 1 -> fld p 22 = len cs -> fld p 24 = slot_addr (len cs) ->
  slot_addr (len cs) <= hi <= 0x4000 -> cells_ok idl p cs hi -> rep idl (copy_at p 26 (le_put 2 hi)) cs hi.
Proof.
  intros Hp Hleaf Hn Hlo Hroom Hcells. pose proof (len_nonneg cs). unfold slot_addr in Hroom.
  split; [auto with c2db | by rewrite rd_copy_at_out by lia | | | | done |].
  - by rewrite fld_out by (done || lia).
  - by rewrite fld_out by (done || lia).
  - apply fld_put; [done | lia..].
  - intros i c Hi Hc. destruct (Hcells i c Hi Hc) as (Hhi & Hat & Hid).
    apply lookup_lt_Some in Hc. unfold len, slot_addr in *.
    rewrite fld_out by (done || rewrite ?len_le_put; lia). split_and!; [done | | done].
    apply cell_at_out; [done | lia | lia | rewrite len_le_put; lia | done].
Qed.

(** ** The unversioned leaf is a map *)

Definition leaf_lookup (cs : list cell) (k : list Z) : option (list Z) := cVal <$> cs !! find_idx cs k.
Definition upsert (cs : list cell) (c : cell) : list cell :=
  let i := find_idx cs (cKey c) in if (i <? length cs)%nat then <[i := c]> cs else insert_at i c cs.

Lemma find_idx_upsert cs c k :
  find_idx (upsert cs c) k =
    if bool_decide (k = cKey c) then find_idx cs k
    else if (find_idx cs k <? length cs)%nat then find_idx cs k else length (upsert cs c).
Proof.
  assert (HltS : forall a b, (S a <? S b)%nat = (a <? b)%nat) by done.
  unfold upsert. induction cs as [|d cs IH]; cbn [find_idx length].
  - cbn. repeat case_bool_decide; congruence.
  - pose proof (find_idx_le cs k). destruct (bool_decide_reflect (cKey d = cKey c)) as [Ed|Ed].
    + cbn. repeat case_bool_decide; try congruence.
      destruct (Nat.leb_spec (S (find_idx cs k)) (length cs)); lia.
    + rewrite !HltS. change (<[S (find_idx cs (cKey c)) := c]> (d :: cs)) with (d :: <[find_idx cs (cKey c) := c]> cs).
      change (insert_at (S (find_idx cs (cKey c))) c (d :: cs)) with (d :: insert_at (find_idx cs (cKey c)) c cs).
      destruct (find_idx cs (cKey c) <? length cs)%nat; cbn [find_idx length]; rewrite IH;
        repeat case_bool_decide; try congruence; rewrite ?HltS; by destruct (find_idx cs k <? length cs)%nat.
Qed.

Lemma upsert_lookup cs c k :
  leaf_lookup (upsert cs c) k = if bool_decide (k = cKey c) then Some (cVal c) else leaf_lookup cs k.
Proof.
  unfold leaf_lookup. rewrite find_idx_upsert. unfold upsert. pose proof (find_idx_le cs (cKey c)) as Hle.
  pose proof (find_idx_le cs k) as Hlek.
  case_bool_decide as Ek; [subst k|].
  - destruct (Nat.ltb_spec (find_idx cs (cKey c)) (length cs)).
    + by rewrite list_lookup_insert_eq by done.
    + rewrite insert_at_lookup by done. by rewrite decide_False, decide_True by lia.
  - assert (find_idx cs k <> find_idx cs (cKey c) \/ length cs <= find_idx cs k)%nat as Hne.
    { clear -Ek. induction cs as [|d cs IH]; cbn; [lia|]. repeat case_bool_decide; subst; try congruence; lia. }
    destruct (Nat.ltb_spec (find_idx cs k) (length cs)) as [Hlt|Hge].
    + destruct (Nat.ltb_spec (find_idx cs (cKey c)) (length cs)).
      * rewrite list_lookup_insert_ne by lia. done.
      * rewrite insert_at_lookup by done. by rewrite decide_True by lia.
    + rewrite (lookup_ge_None_2 cs) by lia. cbn. rewrite lookup_ge_None_2; [done|lia].
Qed.

Lemma len_upsert cs c :
  len (upsert cs c) = if (find_idx cs (cKey c) <? length cs)%nat then len cs else len cs + 1.
Proof. unfold upsert. case_match; [unfold len; by rewrite length_insert | apply len_insert_at]. Qed.

(** The page [Db_bt_insert] leaves when the cell fits. *)
Definition insert_page (pub : list Z) (cs : list cell) (hi : Z) (c : cell) : list Z :=
  let i := find_idx cs (cKey c) in
  let lo := hi - clen c in
  let q := copy_at (copy_at pub lo (cell_bytes c)) (slot_addr (Z.of_nat i)) (le_put 2 lo) in
  if (i <? length cs)%nat then copy_at q 26 (le_put 2 lo)
  else set_hdr q (len cs + 1) (slot_addr (len cs + 1)) lo.

Lemma insert_page_rep pub cs hi c :
  rep 0 pub cs hi -> bytes_ok (cell_bytes c) -> len (cId c) = 0 ->
  slot_addr (len (upsert cs c)) + clen c <= hi -> rep 0 (insert_page pub cs hi c) (upsert cs c) (hi - clen c).
Proof.
  intros Hrep Hb Hid Hfit. pose proof (rep_page _ _ _ _ _ Hrep) as Hp. pose proof (rep_room _ _ _ _ _ Hrep) as Hroom.
  pose proof (len_nonneg cs). pose proof (find_idx_le cs (cKey c)) as Hle. pose proof (clen_pos c).
  rewrite len_upsert in Hfit. pose proof (len_upsert cs c) as Hlen. unfold insert_page, upsert in *. clear Hlen.
  set (i := find_idx cs (cKey c)) in *. assert (slot_addr 0 <= slot_addr (len cs)) by (unfold slot_addr; lia).
  assert (Hlo : slot_addr (len cs) + clen c <= hi) by (unfold slot_addr in *; destruct (i <? length cs)%nat; lia).
  destruct (cells_store 0 pub cs hi c (hi - clen c)) as (Hq & Hcells & Hat & Hrd & Hfl);
    [done | apply Hrep | lia | unfold slot_addr in *; lia | lia | lia | done |].
  set (q := copy_at pub (hi - clen c) (cell_bytes c)) in *.
  assert (Hleaf : rd q 20 = 1) by (rewrite Hrd by (unfold slot_addr in *; lia); apply Hrep).
  pose proof (page_ok_put q (slot_addr (Z.of_nat i)) 2 (hi - clen c) Hq) as Hq2.
  assert (Hleaf2 : rd (copy_at q (slot_addr (Z.of_nat i)) (le_put 2 (hi - clen c))) 20 = 1)
    by (rewrite rd_copy_at_out by (unfold slot_addr; lia); done).
  destruct (Nat.ltb_spec i (length cs)) as [Hlt|Hge].
  - assert (Hlen' : len (<[i := c]> cs) = len cs) by (unfold len; by rewrite length_insert).
    assert (Hi : slot_addr (Z.of_nat i) <= slot_addr (len cs)) by (unfold slot_addr, len; lia). unfold slot_addr in *.
    apply rep_set_hi; unfold slot_addr; rewrite ?Hlen'; try done; [| | lia |].
    + rewrite fld_out, Hfl by (done || lia). apply Hrep.
    + rewrite fld_out, Hfl by (done || lia). apply Hrep.
    + rewrite <- (Nat2Z.id i) at 2. apply cells_slot_update; try done; unfold len, slot_addr in *; lia.
  - assert (i = length cs) as Hi by lia. rewrite <- (len_insert_at i c).
    apply rep_set_hdr; [done | done | rewrite len_insert_at; lia |].
    rewrite <- (Nat2Z.id i) at 2.
    apply (cells_slot_insert _ q); try done; [unfold len; lia | lia | | |].
    + intros a Ha Hside. apply rd_copy_at_out; [unfold slot_addr; lia | lia|]. rewrite len_le_put. unfold slot_addr, len in *. lia.
    + apply fld_put; [done | unfold slot_addr in *; lia | unfold slot_addr, len in *; lia | done | unfold slot_addr in *; lia].
    + intros j Hj. unfold len in *. lia.
Qed.

Lemma Db_bt_insert_eq pub d key val cs hi :
  rep 0 pub cs hi -> page_ok d -> bytes_ok key -> bytes_ok val -> 0 < len key <= 0xffff -> len val <= 0xffff ->
  let c := {| cKey := key; cId := []; cVal := val |} in
  let n' := len (upsert cs c) in
  Db_bt_insert (Some pub) (Some d) 0x4000 (Some key) (len key) (Some val) (len val) =
  if slot_addr n' + clen c <=? hi
  then Some (Some (insert_page pub cs hi c), {| Nkeys := n'; Ok := 1; Copied := 1 |})
  else Some (Some pub, {| Nkeys := len cs; Ok := 0; Copied := 1 |}).
Proof.
  intros Hrep Hd Hkey Hval Hk Hv c n'. pose proof (rep_page _ _ _ _ _ Hrep) as Hp. pose proof (rep_room _ _ _ _ _ Hrep) as Hroom.
  pose proof (rep_count Hrep). pose proof (len_nonneg cs). pose proof (len_nonneg val).
  assert (Hn' : n' = if (find_idx cs key <? length cs)%nat then len cs else len cs + 1) by apply len_upsert.
  assert (Hclen : clen c = 4 + len key + len val) by (unfold clen; cbn; change (len []) with 0; lia).
  pose proof (find_idx_le cs key) as Hfi.
  assert (Hlt : (Z.of_nat (find_idx cs key) <? len cs) = (find_idx cs key <? length cs)%nat)
    by (unfold len; destruct (Nat.ltb_spec (find_idx cs key) (length cs)); zcase; lia).
  assert (Hcb : bytes_ok (cell_bytes c)) by (apply bytes_ok_cell; [done | constructor | done]).
  unfold Db_bt_insert. cbn [is_nil orb negb Z.eqb Pos.eqb].
  rewrite bt_cow_eq by (apply Hp || apply Hd). cbn [mbind option_bind].
  replace (bt_read8 (Some pub) 0x4000 20) with 1 by
    (rewrite bt_read8_db, db_read8_eq by (destruct Hp; lia); symmetry; apply Hrep).
  cbn [Z.eqb Pos.eqb negb]. rewrite andb_false_r, !bt_read16_fld by (done || lia).
  rewrite (rep_nslots _ _ _ _ _ Hrep), (rep_lo _ _ _ _ _ Hrep), (rep_hi _ _ _ _ _ Hrep).
  rewrite (bt_find_eq Hrep). cbn [mbind option_bind]. rewrite Hlt.
  replace (Z.of_nat (find_idx cs key) >=? len cs) with (negb (find_idx cs key <? length cs)%nat)
    by (rewrite <- Hlt, Z.geb_leb, Z.leb_antisym; done).
  unfold slot_addr in *. rewrite (w64_small (4 + _ + _)), <- Hclen by lia.
  repeat (ifcase; [lia|]).
  assert (Hmax : len cs * 2 + 64 <= 0x4000) by lia.
  destruct (Nat.ltb_spec (find_idx cs key) (length cs)) as [Hi|Hi]; cbn [negb andb];
    destruct (Z.leb_spec (64 + n' * 2 + clen c) hi) as [Hfit|Hfull].
  2,4: unwrap; repeat (ifcase; try done; try lia; unwrap).
  all: unwrap; repeat (ifcase; [lia|]); unwrap; rewrite !bt_bounds_ok by (done || lia).
  all: rewrite bt_cell_stores by (done || lia); fold c; rewrite ?bt_write16_eq by (auto 10 with c2db; lia).
  all: unfold insert_page; change (cKey c) with key; rewrite Hn'; do 2 f_equal.
  - by rewrite (proj2 (Nat.ltb_lt _ _)).
  - rewrite (proj2 (Nat.ltb_ge _ _)) by lia. replace (Z.of_nat (find_idx cs key)) with (len cs) by (unfold len; lia).
    unfold set_hdr, slot_addr. by replace (64 + (len cs + 1) * 2) with (64 + len cs * 2 + 2) by lia.
Qed.

(** ** Reading *)

Lemma find_idx_key cs k c : cs !! find_idx cs k = Some c -> cKey c = k.
Proof.
  induction cs as [|d cs IH]; cbn; [done|]. case_bool_decide; [by intros [= <-]|]. done.
Qed.

(** The outcome of a lookup, and [out] with as much of the value as fits. *)
Definition get_result (v : option (list Z)) (out : list Z) : option (Db_bt_get_t * slice) :=
  match v with
  | None => Some (get0, Some out)
  | Some v => Some ({| Len := len v; Walked := 0; Found := 1; Fallback := 0 |},
                    Some (copy_at out 0 (sub v 0 (Z.min (len v) (len out)))))
  end.

(** The copy of a value of [vl] bytes at [off] into [out]. *)
Lemma copy_value p n off v out :
  n <= len p < 2 ^ 63 -> 0 <= off -> off + len v <= n -> sub p off (off + len v) = v -> len out < 2 ^ 64 ->
  let k := if len v >? len out then len out else len v in
  (if k >? 0 then bt_copy_out (Some p) n off (Some out) k else Some (Some out))
  = Some (Some (copy_at out 0 (sub v 0 (Z.min (len v) (len out))))).
Proof.
  intros Hl Hoff Hend Hsub Hout k. pose proof (len_nonneg v). pose proof (len_nonneg out).
  replace (Z.min (len v) (len out)) with k by (subst k; zcase; lia).
  assert (0 <= k <= len out /\ k <= len v) as [Hk Hkv] by (subst k; zcase; lia). clearbody k.
  zcase.
  - rewrite bt_copy_out_eq by lia. do 3 f_equal. rewrite <- Hsub. by rewrite sub_sub, Z.add_0_r by lia.
  - by replace k with 0 by lia.
Qed.

Lemma Db_bt_get_eq p cs hi key out :
  rep 0 p cs hi -> 0 < len key <= 0xffff -> len out < 2 ^ 64 ->
  Db_bt_get (Some p) 0x4000 (Some key) (len key) (Some out) (len out) = get_result (leaf_lookup cs key) out.
Proof.
  intros Hrep Hk Hout. pose proof (rep_page _ _ _ _ _ Hrep) as Hp. pose proof (rep_count Hrep).
  pose proof (find_idx_le cs key) as Hle.
  unfold Db_bt_get. cbn [is_nil orb negb Z.eqb Pos.eqb]. repeat (ifcase; [lia|]).
  replace (bt_read8 (Some p) 0x4000 20) with 1 by
    (rewrite bt_read8_db, db_read8_eq by (destruct Hp; lia); symmetry; apply Hrep).
  cbn [Z.eqb Pos.eqb negb]. rewrite (bt_find_eq Hrep). cbn [mbind option_bind].
  rewrite (rep_read_nslots Hrep). unfold leaf_lookup.
  destruct (cs !! find_idx cs key) as [c|] eqn:Hc; cbn [fmap option_fmap option_map].
  2:{ apply lookup_ge_None_1 in Hc. ifcase; [done | unfold len in *; lia]. }
  pose proof (find_idx_key _ _ _ Hc) as Ekey. pose proof (lookup_lt_Some _ _ _ Hc).
  ifcase; [unfold len in *; lia|].
  rewrite <- (Nat2Z.id (find_idx cs key)) in Hc.
  destruct (rep_open Hrep (Z.of_nat (find_idx cs key)) c ltac:(lia) Hc) as (off & -> & -> & -> & ? & ? & _ & Hbd & Hkl & Hvl & _ & _ & Hval & _ & ? & ? & ? & _).
  rewrite Hbd by lia. rewrite Hkl. unwrap. rewrite Hvl. rewrite Ekey, Z.eqb_refl. cbn [negb].
  rewrite Ekey in *. unwrap. rewrite Hbd by lia. rewrite !Z.add_0_r in Hval.
  rewrite (copy_value p 0x4000 (off + 4 + len key) (cVal c) out) by (done || (destruct Hp; lia)). done.
Qed.

(** ** Properties *)

(** C10: on a leaf with room, [Db_bt_insert] reports success and leaves on the
    dirty page the map of the published one with [key] bound to [val]: reading
    any key [k'] from it finds [val] if [k'] is [key], and otherwise what the
    published page had. *)
Theorem leaf_put_get pub d key val cs hi :
  rep 0 pub cs hi -> page_ok d -> bytes_ok key -> bytes_ok val -> 0 < len key <= 0xffff -> len val <= 0xffff ->
  let cs' := upsert cs {| cKey := key; cId := []; cVal := val |} in
  slot_addr (len cs') + (4 + len key + len val) <= hi ->
  exists p', Db_bt_insert (Some pub) (Some d) 0x4000 (Some key) (len key) (Some val) (len val)
      = Some (Some p', {| Nkeys := len cs'; Ok := 1; Copied := 1 |}) /\
    rep 0 p' cs' (hi - (4 + len key + len val)) /\
    forall k' out, 0 < len k' <= 0xffff -> len out < 2 ^ 64 ->
      Db_bt_get (Some p') 0x4000 (Some k') (len k') (Some out) (len out)
      = get_result (if bool_decide (k' = key) then Some val else leaf_lookup cs k') out.
Proof.
  intros Hrep Hd Hkey Hval Hk Hv cs' Hfit. set (c := {| cKey := key; cId := []; cVal := val |}) in *.
  assert (Hclen : clen c = 4 + len key + len val) by (unfold clen; cbn; change (len []) with 0; lia).
  rewrite <- Hclen in *. pose proof (Db_bt_insert_eq pub d key val cs hi Hrep Hd Hkey Hval Hk Hv) as Hins.
  cbv zeta in Hins. rewrite (proj2 (Z.leb_le _ _)) in Hins by done.
  assert (Hrep' : rep 0 (insert_page pub cs hi c) cs' (hi - clen c)).
  { apply insert_page_rep; [done | by apply bytes_ok_cell; [|constructor|] | done | done]. }
  eexists. split; [exact Hins|]. split; [done|]. intros k' out Hk' Hout.
  rewrite (Db_bt_get_eq _ _ _ _ _ Hrep') by done. unfold cs'. by rewrite upsert_lookup.
Qed.

(** Arithmetic and lengths of small literal inputs. *)
Ltac small := vm_compute; repeat split; first [reflexivity | intro; discriminate].

(** An empty leaf. *)
Definition leaf0 : list Z := set_hdr (wr (zeros 0x4000) 20 1) 0 64 0x4000.
Lemma leaf0_rep idl : rep idl leaf0 [] 0x4000.
Proof.
  assert (Hz : len (zeros 0x4000) = 0x4000) by (apply len_zeros; lia).
  apply (rep_set_hdr 1 idl (wr (zeros 0x4000) 20 1) [] 0x4000).
  - split; [by rewrite len_wr | apply bytes_ok_wr; [apply bytes_ok_zeros | lia]].
  - apply rd_wr_eq. lia.
  - unfold slot_addr. change (len []) with 0. lia.
  - intros i c _ Hc. done.
Qed.

Lemma leaf_put_get_witness :
  exists p', Db_bt_insert (Some leaf0) (Some leaf0) 0x4000 (Some [7]) 1 (Some [1; 2]) 2
      = Some (Some p', {| Nkeys := 1; Ok := 1; Copied := 1 |}) /\
    rep 0 p' [{| cKey := [7]; cId := []; cVal := [1; 2] |}] 16377 /\
    forall k' out, 0 < len k' <= 0xffff -> len out < 2 ^ 64 ->
      Db_bt_get (Some p') 0x4000 (Some k') (len k') (Some out) (len out)
      = get_result (if bool_decide (k' = [7]) then Some [1; 2] else None) out.
Proof.
  apply (leaf_put_get leaf0 leaf0 [7] [1; 2] [] 0x4000).
  - apply leaf0_rep.
  - apply (rep_page _ _ _ _ _ (leaf0_rep 0)).
  - repeat constructor; lia.
  - repeat constructor; lia.
  - small.
  - small.
  - small.
Defined.

(** When the cell does not fit between the slots and the cells,
    [Db_bt_insert] reports failure, and the dirty page is the published page
    unchanged. *)
Theorem leaf_full_refused pub d key val cs hi :
  rep 0 pub cs hi -> page_ok d -> bytes_ok key -> bytes_ok val -> 0 < len key <= 0xffff -> len val <= 0xffff ->
  hi < slot_addr (len (upsert cs {| cKey := key; cId := []; cVal := val |})) + (4 + len key + len val) ->
  Db_bt_insert (Some pub) (Some d) 0x4000 (Some key) (len key) (Some val) (len val)
    = Some (Some pub, {| Nkeys := len cs; Ok := 0; Copied := 1 |}).
Proof.
  intros Hrep Hd Hkey Hval Hk Hv Hfull. rewrite (Db_bt_insert_eq pub d key val cs hi) by done.
  rewrite (proj2 (Z.leb_gt _ _)); [done|]. unfold clen. cbn [cKey cId cVal]. change (len []) with 0. lia.
Qed.

Lemma leaf_full_refused_witness :
  Db_bt_insert (Some leaf0) (Some leaf0) 0x4000 (Some [7]) (len [7]) (Some (zeros 16314)) (len (zeros 16314))
    = Some (Some leaf0, {| Nkeys := 0; Ok := 0; Copied := 1 |}).
Proof.
  apply (leaf_full_refused leaf0 leaf0 [7] (zeros 16314) [] 0x4000).
  - apply leaf0_rep.
  - apply (rep_page _ _ _ _ _ (leaf0_rep 0)).
  - repeat constructor; lia.
  - apply bytes_ok_zeros.
  - small.
  - rewrite len_zeros; lia.
  - rewrite len_zeros by lia. change (len [7]) with 1. rewrite len_upsert. unfold slot_addr. cbn. change (len []) with 0. lia.
Defined.

End BtLeaf.
