(* ===== verification/BtVersion.v ===== *)
(** * Versioned B-tree leaves (src/pkg/c2db/db_btree_gen.go)

    In a versioned leaf the cells are ordered by key and then by 16-byte version
    id.  [ver_pos] is the insertion point the code searches for; insertion keeps
    the order, a read as of a snapshot returns the newest version that is not
    younger, and the collection keeps exactly the versions from the minimum on. *)

From stdpp Require Import sorting.
From S2P Require Import Prelude Bytes PageKernel BtMem BtLeaf.
Import Bytes PageKernel BtMem BtLeaf.

Local Open Scope Z_scope.

Module BtVersion.

(** ** Search and slot insertion *)

Definition bt_find_ver_pos (page : slice) (n : Z) (key : slice) (klen : Z) (id16 : slice) : option Z :=
  let v13 := bt_read16 page n 22 in
  r ← for_range 0 v13 (fun v6 (_ : unit) =>
        let v18 := (64 +% (v6 *% 2))%u64 in
        if bt_bounds page n v18 2 =? 0 then Some (Ret v6) else
        let v23 := bt_read16 page n v18 in
        if bt_bounds page n v23 4 =? 0 then Some (Ret v6) else
        let v27 := bt_read16 page n v23 in
        if bt_bounds page n v23 (w64 (4 + v27 + 16)) =? 0 then Some (Ret v6) else
        v10 ← bt_keycmp_at page n (w64 (v23 + 4)) v27 key klen;
        if v10 >? 0 then Some (Ret v6) else
        if v10 =? 0 then
          v10 ← bt_keycmp_at page n (w64 (v23 + 4 + v27)) 16 id16 16;
          if v10 >? 0 then Some (Ret v6) else Some (Next tt)
        else Some (Next tt)) tt;
  Some (match r with inr v => v | inl _ => v13 end).

(** [for v5 > pos { ... v5 = v6 }]: the inner loop leaves [v6 = v5 - 1], or 0. *)
Fixpoint shift_slots (fuel : nat) (page : slice) (n pos v5 : Z) : option slice :=
  match fuel with
  | O => None
  | S fuel' =>
      if v5 >? pos then
        let v6 := for_pure 0 v5 (fun v7 _ => v7) 0 in
        let v9 := (64 +% (v5 *% 2))%u64 in
        let page := bt_write16 page n v9 (bt_read16 page n (64 +% (v6 *% 2))%u64) in
        shift_slots fuel' page n pos v6
      else Some page
  end.
Definition bt_slot_insert (page : slice) (n pos nslots cell_off : Z) : option slice :=
  let n := clamp page n in
  page ← shift_slots (S (Z.to_nat nslots)) page n pos nslots;
  Some (bt_write16 page n (64 +% (pos *% 2))%u64 cell_off).

(** ** The versioned leaf *)

Definition Db_bt_insert_ver (pub dirty : slice) (n : Z) (key : slice) (klen : Z) (id16 : slice)
    (val : slice) (vlen : Z) : option (slice * Db_bt_state_t) :=
  let v8 nk cp := {| Nkeys := nk; Ok := 0; Copied := cp |} in
  if (is_nil pub || is_nil dirty) || negb (n =? 0x4000) then Some (dirty, v8 0 0) else
  dirty ← bt_cow pub dirty n;
  if ((klen =? 0) || (klen >? 0xffff)) || (vlen >? 0xffff) then Some (dirty, v8 0 1) else
  if is_nil key || is_nil id16 then Some (dirty, v8 0 1) else
  if (vlen >? 0) && is_nil val then Some (dirty, v8 0 1) else
  if negb (bt_read8 dirty n 20 =? 1) then Some (dirty, v8 0 1) else
  let v9 := bt_read16 dirty n 22 in
  let v57 := bt_read16 dirty n 24 in
  let v60 := bt_read16 dirty n 26 in
  if v57 <? 64 then Some (dirty, v8 v9 1) else
  if v60 >? n then Some (dirty, v8 v9 1) else
  if v57 >? v60 then Some (dirty, v8 v9 1) else
  let v66 := w64 (4 + klen + 16 + vlen) in
  if v57 >=? n then Some (dirty, v8 v9 1) else
  if 2 >? w64 (n - v57) then Some (dirty, v8 v9 1) else
  let v70 := w64 (v57 + 2) in
  if v66 >? v60 then Some (dirty, v8 v9 1) else
  let v71 := w64 (v60 - v66) in
  if v70 >? v71 then Some (dirty, v8 v9 1) else
  if bt_bounds dirty n v71 v66 =? 0 then Some (dirty, v8 v9 1) else
  v16 ← bt_find_ver_pos dirty n key klen id16;
  let v16 := if v16 >? v9 then v9 else v16 in
  let dirty := bt_write16 dirty n v71 (w16 klen) in
  let dirty := bt_write16 dirty n (w64 (v71 + 2)) (w16 vlen) in
  let v82 := w64 (v71 + 4) in
  dirty ← bt_copy_in dirty n v82 key klen;
  dirty ← bt_copy_in dirty n (w64 (v82 + klen)) id16 16;
  dirty ← (if vlen >? 0 then bt_copy_in dirty n (w64 (v71 + 4 + klen + 16)) val vlen else Some dirty);
  let v96 := w16 v71 in
  dirty ← bt_slot_insert dirty n v16 v9 v96;
  let v9 := w64 (v9 + 1) in
  let dirty := bt_write16 dirty n 22 (w16 v9) in
  let dirty := bt_write16 dirty n 24 (w16 v70) in
  let dirty := bt_write16 dirty n 26 v96 in
  Some (dirty, {| Nkeys := v9; Ok := 1; Copied := 1 |}).

(** The loop state: the best cell so far and the offset of its id. *)
Definition Db_bt_get_as_of (page : slice) (n : Z) (key : slice) (klen : Z) (snap16 : slice)
    (out : slice) (outn : Z) : option (Db_bt_get_t * slice) :=
  if is_nil page || negb (n =? 0x4000) then Some (get0, out) else
  if ((is_nil key || is_nil snap16) || (klen =? 0)) || (klen >? 0xffff) then Some (get0, out) else
  if negb (bt_read8 page n 20 =? 1) then Some (get0, out) else
  r ← for_range 0 (bt_read16 page n 22) (fun v9 (best : option (Z * Z)) =>
        let v58 := (64 +% (v9 *% 2))%u64 in
        if bt_bounds page n v58 2 =? 0 then Some (Ret tt) else
        let v65 := bt_read16 page n v58 in
        if bt_bounds page n v65 4 =? 0 then Some (Ret tt) else
        let v15 := bt_read16 page n v65 in
        let v16 := bt_read16 page n (w64 (v65 + 2)) in
        if bt_bounds page n v65 (w64 (4 + v15 + 16 + v16)) =? 0 then Some (Ret tt) else
        c ← bt_keycmp_at page n (w64 (v65 + 4)) v15 key klen;
        if c =? 0 then
          v20 ← bt_keycmp_at page n (w64 (v65 + 4 + v15)) 16 snap16 16;
          if v20 <=? 0 then
            match best with
            | None => Some (Next (Some (v65, w64 (v65 + 4 + v15))))
            | Some (_, v13) =>
                v20 ← bt_keycmp_pp page n (w64 (v65 + 4 + v15)) 16 v13 16;
                if v20 >? 0 then Some (Next (Some (v65, w64 (v65 + 4 + v15)))) else Some (Next best)
            end
          else Some (Next best)
        else Some (Next best)) None;
  match r with
  | inr _ => Some (get0, out)
  | inl None => Some (get0, out)
  | inl (Some (v12, _)) =>
      let v15 := bt_read16 page n v12 in
      let v16 := bt_read16 page n (w64 (v12 + 2)) in
      let v14 := if v16 >? outn then outn else v16 in
      out ← (if negb (is_nil out) && (v14 >? 0)
             then bt_copy_out page n (w64 (v12 + 4 + v15 + 16)) out v14 else Some out);
      Some ({| Len := v16; Walked := 0; Found := 1; Fallback := 0 |}, out)
  end.

(** [for v6 = v7; v6 < nslots(dirty); v6++]: the count is read again each round;
    it is 16 bits wide, so 65536 rounds are enough fuel. *)
Definition Db_bt_gc_before (pub dirty : slice) (n : Z) (min_id16 : slice)
    : option (slice * Db_bt_state_t) :=
  let v4 cp := {| Nkeys := 0; Ok := 0; Copied := cp |} in
  if (is_nil pub || is_nil dirty) || negb (n =? 0x4000) then Some (dirty, v4 0) else
  if is_nil min_id16 then Some (dirty, v4 0) else
  dirty ← bt_cow pub dirty n;
  if negb (bt_read8 dirty n 20 =? 1) then Some (dirty, v4 1) else
  r ← for_range 0 65536 (fun v6 '(dirty, v7) =>
        if negb (v6 <? bt_read16 dirty n 22) then Some (Stop (dirty, v7)) else
        let v41 := (64 +% (v6 *% 2))%u64 in
        if bt_bounds dirty n v41 2 =? 0 then Some (Ret dirty) else
        let v45 := bt_read16 dirty n v41 in
        if bt_bounds dirty n v45 4 =? 0 then Some (Ret dirty) else
        let v50 := bt_read16 dirty n v45 in
        if bt_bounds dirty n v45 (w64 (4 + v50 + 16)) =? 0 then Some (Ret dirty) else
        c ← bt_keycmp_at dirty n (w64 (v45 + 4 + v50)) 16 min_id16 16;
        if c >=? 0 then
          let dirty := if negb (v7 =? v6) then bt_write16 dirty n (64 +% (v7 *% 2))%u64 v45 else dirty in
          Some (Next (dirty, w64 (v7 + 1)))
        else Some (Next (dirty, v7))) (dirty, 0);
  match r with
  | inr dirty => Some (dirty, v4 1)
  | inl (dirty, v7) =>
      let dirty := bt_write16 dirty n 22 (w16 v7) in
      let dirty := bt_write16 dirty n 24 (w16 (64 +% (v7 *% 2))%u64) in
      Some (dirty, {| Nkeys := v7; Ok := 1; Copied := 1 |})
  end.

(** ** Inserting a slot *)

Lemma last_index v5 : 0 < v5 -> for_pure 0 v5 (fun v7 _ => v7) 0 = v5 - 1.
Proof.
  intros. apply (for_pure_inv (fun i s => 0 < i -> s = i - 1) 0 v5 (fun v7 _ => v7) 0); [lia | lia | | lia].
  intros. lia.
Qed.

(** [q] is [p] with the slots from [i] upwards moved one place up, as far as slot [m]. *)
Definition shifted (p q : list Z) (i m : Z) : Prop :=
  page_ok q /\ (forall a, 0 <= a < 0x4000 -> a < slot_addr (i + 1) \/ slot_addr (m + 1) <= a -> rd q a = rd p a) /\
  (forall j, i < j <= m -> fld q (slot_addr j) = fld p (slot_addr (j - 1))).

Lemma shift_slots_eq fuel p pos v5 m :
  0 <= pos <= v5 -> v5 <= m -> (Z.to_nat (v5 - pos) < fuel)%nat -> slot_addr (m + 1) <= 0x4000 ->
  forall q, page_ok p -> shifted p q v5 m ->
  exists q', shift_slots fuel (Some q) 0x4000 pos v5 = Some (Some q') /\ shifted p q' pos m.
Proof.
  revert v5. induction fuel as [|fuel IH]; intros v5 Hpos Hm Hfuel Hend q Hp (Hq & Hout & Hin); [lia|].
  cbn [shift_slots]. rewrite Z.gtb_ltb. unfold slot_addr in Hend.
  destruct (Z.ltb_spec pos v5) as [Hlt|Hge].
  2:{ assert (v5 = pos) as -> by lia. exists q. done. }
  rewrite last_index by lia. rewrite !slot_u64 by lia. unfold slot_addr at 1 2.
  rewrite bt_read16_fld by (done || lia). rewrite bt_write16_eq by (done || lia).
  apply IH; [lia | lia | lia | done | done |]. unfold shifted, slot_addr in *. split; [by apply page_ok_put|]. split.
  - intros a Ha Hside. rewrite rd_copy_at_out by (rewrite ?len_le_put; lia). apply Hout; lia.
  - intros j Hj. pose proof (fld_bound q (64 + (v5 - 1) * 2) Hq).
    destruct (Z.eq_dec j v5) as [->|Hne].
    + rewrite fld_put by (done || lia). apply fld_ext; [done | done | lia | lia | apply Hout; lia | apply Hout; lia].
    + rewrite fld_out by (done || rewrite ?len_le_put; lia). apply Hin. lia.
Qed.

Lemma bt_slot_insert_eq p pos n off :
  page_ok p -> 0 <= pos <= n -> slot_addr (n + 1) <= 0x4000 -> 0 <= off < 65536 ->
  exists q, bt_slot_insert (Some p) 0x4000 pos n off = Some (Some q) /\ page_ok q /\
    (forall a, 0 <= a < 0x4000 -> a < slot_addr pos \/ slot_addr (n + 1) <= a -> rd q a = rd p a) /\
    fld q (slot_addr pos) = off /\
    (forall j, pos < j <= n -> fld q (slot_addr j) = fld p (slot_addr (j - 1))).
Proof.
  intros Hp Hpos Hend Hoff. unfold bt_slot_insert. unfold slot_addr in Hend.
  rewrite clamp_le by (destruct Hp; lia).
  destruct (shift_slots_eq (S (Z.to_nat n)) p pos n n) with (q := p) as (q & -> & Hq & Hout & Hin);
    [lia | lia | lia | done | done | split_and!; [done | done | intros; lia] |].
  cbn [mbind option_bind]. rewrite slot_u64 by lia. unfold slot_addr at 1.
  rewrite bt_write16_eq by (done || lia). unfold slot_addr in *.
  eexists. split; [done|]. split; [by apply page_ok_put|]. split; [|split].
  - intros a Ha Hside. rewrite rd_copy_at_out by (rewrite ?len_le_put; lia). apply Hout; lia.
  - apply fld_put; [done | lia..].
  - intros j Hj. rewrite fld_out by (done || rewrite ?len_le_put; lia). by apply Hin.
Qed.

#[local] Hint Resolve page_ok_put page_ok_copy_at bytes_ok_cell : c2db.

(** ** The order of versions *)

(** [c] is after the version [id] of [key]. *)
Definition ver_after (c : cell) (key id : list Z) : bool :=
  (Compare (cKey c) key >? 0) || ((Compare (cKey c) key =? 0) && (Compare (cId c) id >? 0)).
Definition ver_le (c d : cell) : Prop := ver_after c (cKey d) (cId d) = false.

Fixpoint ver_pos (cs : list cell) (key id : list Z) : nat :=
  match cs with
  | [] => O
  | c :: cs' => if ver_after c key id then O else S (ver_pos cs' key id)
  end.

Lemma ver_le_spec c d :
  ver_le c d <-> blt (cKey c) (cKey d) \/ (cKey c = cKey d /\ Compare (cId c) (cId d) <= 0).
Proof.
  unfold ver_le, ver_after, blt. rewrite <- Compare_eq.
  destruct (Compare_range (cKey c) (cKey d)) as [->|[->| ->]]; cbn; zcases; intuition (congruence || lia).
Qed.

Lemma ver_after_le c d : ver_after d (cKey c) (cId c) = true -> ver_le c d.
Proof.
  unfold ver_after. rewrite ver_le_spec, <- Compare_eq. unfold blt.
  rewrite (Compare_antisym (cKey d) (cKey c)), (Compare_antisym (cId d) (cId c)).
  zcases; intros; try done; lia.
Qed.

Lemma ver_le_trans a b c : ver_le a b -> ver_le b c -> ver_le a c.
Proof.
  rewrite !ver_le_spec. intros [Hab|[-> Hab]] [Hbc|[<- Hbc]]; auto.
  - left. by eapply blt_trans.
  - right. split; [done|]. rewrite (Compare_antisym (cId c) (cId a)) in *.
    destruct (Z.le_gt_cases 0 (Compare (cId c) (cId a))) as [|Hlt]; [lia|]. exfalso.
    assert (Hcb : blt (cId c) (cId b)).
    { eapply blt_ge_trans; [exact Hlt|]. rewrite Compare_antisym. lia. }
    unfold blt in Hcb. rewrite Compare_antisym in Hcb. lia.
Qed.

Lemma ver_pos_le cs key id : (ver_pos cs key id <= length cs)%nat.
Proof. induction cs as [|c cs IH]; cbn; [lia|]. case_match; lia. Qed.

Lemma ver_pos_spec cs key id i :
  (forall j c, (j < i)%nat -> cs !! j = Some c -> ver_after c key id = false) ->
  (i = length cs \/ exists c, cs !! i = Some c /\ ver_after c key id = true) -> ver_pos cs key id = i.
Proof.
  revert i. induction cs as [|c cs IH]; intros i Hbefore Hat; cbn.
  - destruct Hat as [->|(c & Hc & _)]; done.
  - destruct i as [|i].
    + destruct Hat as [?|(c' & [= <-] & ->)]; done.
    + rewrite (Hbefore O c) by (done || lia). f_equal. apply IH.
      * intros j c' Hj Hc'. by apply (Hbefore (S j) c'); [lia|].
      * destruct Hat as [Hlen|Hat]; [left; by injection Hlen | by right].
Qed.

(** Inserting at [ver_pos] keeps the cells ordered. *)
Lemma ver_insert_sorted cs c :
  StronglySorted ver_le cs -> StronglySorted ver_le (insert_at (ver_pos cs (cKey c) (cId c)) c cs).
Proof.
  induction 1 as [|d cs Hs IH Hall]; [by repeat constructor|]. cbn [ver_pos].
  destruct (ver_after d (cKey c) (cId c)) eqn:Ed.
  - constructor; [by constructor|]. constructor; [by apply ver_after_le|].
    eapply Forall_impl; [exact Hall|]. intros e He. eapply ver_le_trans; [by apply ver_after_le | done].
  - change (insert_at (S (ver_pos cs (cKey c) (cId c))) c (d :: cs))
      with (d :: insert_at (ver_pos cs (cKey c) (cId c)) c cs).
    constructor; [done|]. unfold insert_at. apply Forall_app_2; [by apply Forall_take|].
    constructor; [done | by apply Forall_drop].
Qed.

Lemma insert_at_perm {A} i (x : A) l : insert_at i x l ≡ₚ x :: l.
Proof. unfold insert_at. rewrite <- Permutation_middle. by rewrite take_drop. Qed.

(** The comparison of an id of the page with an id of the caller. *)
Lemma bt_keycmp_id p a id : page_ok p -> len id = 16 -> 0 <= a -> a + 16 <= 0x4000 ->
  bt_keycmp_at (Some p) 0x4000 a 16 (Some id) 16 = Some (Compare (sub p a (a + 16)) id).
Proof. intros [Hl _] Hid Ha Hend. rewrite <- Hid at 2. apply bt_keycmp_at_eq; lia. Qed.

Section Rep.
Context {p : list Z} {cs : list cell} {hi : Z}.
Hypothesis Hrep : rep 16 p cs hi.

Lemma bt_find_ver_pos_eq key id : len id = 16 ->
  bt_find_ver_pos (Some p) 0x4000 (Some key) (len key) (Some id) = Some (Z.of_nat (ver_pos cs key id)).
Proof.
  intros Hid. destruct (rep_page _ _ _ _ _ Hrep) as [Hl Hb]. pose proof (rep_count Hrep). pose proof (len_nonneg cs).
  unfold bt_find_ver_pos. rewrite (rep_read_nslots Hrep).
  match goal with |- context [for_range 0 (len cs) ?body tt] =>
    destruct (for_range_inv (S:=unit) (R:=Z)
      (fun i _ => forall j c, (j < Z.to_nat i)%nat -> cs !! j = Some c -> ver_after c key id = false)
      (fun r => match r with inl _ => len cs | inr v => v end = Z.of_nat (ver_pos cs key id))
      0 (len cs) body tt) as (r & Hr & HQ); [lia | intros; lia | | |] end.
  - intros i t Hi Hinv. cbv zeta. destruct (rep_lookup i Hi) as [c Hc].
    destruct (rep_open Hrep i c ltac:(lia) Hc) as (off & -> & -> & -> & ? & ? & _ & Hbd & -> & _ & Hkey & Hidc & _ & Hl16 & ? & _ & ? & _).
    rewrite !Hbd by lia. unwrap. rewrite Hbd by lia.
    rewrite bt_keycmp_at_eq, Hkey by lia. cbn [mbind option_bind].
    assert (Hnext : ver_after c key id = false ->
      forall j c', (j < Z.to_nat (i + 1))%nat -> cs !! j = Some c' -> ver_after c' key id = false).
    { intros Hne j c' Hj Hc'. destruct (decide (j = Z.to_nat i)) as [->|]; [congruence|].
      apply (Hinv j c'); [lia | done]. }
    assert (Hret : ver_after c key id = true -> i = Z.of_nat (ver_pos cs key id)).
    { intros Hafter. rewrite (ver_pos_spec cs key id (Z.to_nat i)); [lia | done | right; eauto]. }
    unfold ver_after in Hnext, Hret.
    destruct (Compare (cKey c) key >? 0); [by apply Hret|]. cbn [orb] in *.
    destruct (Compare (cKey c) key =? 0); [|by apply Hnext].
    rewrite bt_keycmp_id, Hidc by (apply Hrep || lia). cbn [mbind option_bind andb] in *.
    destruct (Compare (cId c) id >? 0); [by apply Hret | by apply Hnext].
  - intros t Hinv. rewrite (ver_pos_spec cs key id (length cs)); [done | | by left].
    intros j c Hj. apply Hinv. unfold len. lia.
  - rewrite Hr. cbn [mbind option_bind]. by rewrite HQ.
Qed.
End Rep.

(** ** Insertion *)

(** The stores of a cell with its id. *)
Lemma bt_ver_stores {B} p off key id val (k : slice -> option B) :
  page_ok p -> bytes_ok key -> bytes_ok id -> bytes_ok val -> len id = 16 ->
  0 <= off -> off + (4 + len key + 16 + len val) <= 0x4000 ->
  bt_copy_in (bt_write16 (bt_write16 (Some p) 0x4000 off (len key)) 0x4000 (off + 2) (len val))
      0x4000 (off + 4) (Some key) (len key) ≫= (fun d =>
    bt_copy_in d 0x4000 (off + 4 + len key) (Some id) 16 ≫= (fun d =>
    (if len val >? 0 then bt_copy_in d 0x4000 (off + 4 + len key + 16) (Some val) (len val) else Some d) ≫= k))
  = k (Some (copy_at p off (cell_bytes {| cKey := key; cId := id; cVal := val |}))).
Proof.
  intros Hp Hkey Hidb Hval Hid Hoff Hend. pose proof (len_nonneg key). pose proof (len_nonneg val).
  rewrite !bt_write16_eq by (auto with c2db; lia).
  rewrite bt_copy_in_all by (auto with c2db; lia). cbn [mbind option_bind]. rewrite <- Hid at 1.
  rewrite bt_copy_in_all by (auto 10 with c2db; lia). cbn [mbind option_bind].
  rewrite bt_copy_in_val by (auto 10 with c2db; lia). cbn [mbind option_bind].
  rewrite <- (cell_stores p off) by (destruct Hp; done). cbn [cKey cId cVal]. by rewrite Hid.
Qed.

Lemma slot_insert_rep ty idl p cs hi c k :
  node ty idl p cs hi -> bytes_ok (cell_bytes c) -> len (cId c) = idl -> (k <= length cs)%nat ->
  slot_addr (len cs + 1) + clen c <= hi ->
  exists q, bt_slot_insert (Some (copy_at p (hi - clen c) (cell_bytes c))) 0x4000 (Z.of_nat k) (len cs) (hi - clen c)
      = Some (Some q) /\ page_ok q /\
    (forall a, 0 <= a < 64 -> rd q a = rd p a) /\
    node ty idl (set_hdr q (len cs + 1) (slot_addr (len cs + 1)) (hi - clen c)) (insert_at k c cs) (hi - clen c).
Proof.
  intros Hrep Hb Hid Hk Hfit. pose proof (rep_page _ _ _ _ _ Hrep) as Hp. pose proof (rep_room _ _ _ _ _ Hrep) as Hroom.
  pose proof (len_nonneg cs). pose proof (clen_pos c). unfold slot_addr in Hfit, Hroom.
  destruct (cells_store idl p cs hi c (hi - clen c)) as (Hq & Hcells & Hat & Hrd & Hfl);
    [done | apply Hrep | unfold slot_addr; lia | lia | lia | lia | done |].
  destruct (bt_slot_insert_eq _ (Z.of_nat k) (len cs) (hi - clen c) Hq) as (q & Hins & Hq' & Hframe & Hslot & Hshift);
    [unfold len; lia | unfold slot_addr; lia | lia |].
  exists q. split; [done|]. split; [done|]. split.
  { intros a Ha. rewrite Hframe by (unfold slot_addr, len; lia). apply Hrd. lia. }
  rewrite <- (len_insert_at k c).
  apply rep_set_hdr; [done | | unfold slot_addr; rewrite len_insert_at; lia |].
  - rewrite Hframe by (unfold slot_addr; lia). rewrite Hrd by lia. apply Hrep.
  - rewrite <- (Nat2Z.id k). apply (cells_slot_insert idl (copy_at p (hi - clen c) (cell_bytes c))); try done; unfold slot_addr, len in *; lia.
Qed.

Lemma Db_bt_insert_ver_eq pub d key id val cs hi :
  rep 16 pub cs hi -> page_ok d -> bytes_ok key -> bytes_ok id -> bytes_ok val -> len id = 16 ->
  0 < len key <= 0xffff -> len val <= 0xffff ->
  let c := {| cKey := key; cId := id; cVal := val |} in
  let cs' := insert_at (ver_pos cs key id) c cs in
  let r := Db_bt_insert_ver (Some pub) (Some d) 0x4000 (Some key) (len key) (Some id) (Some val) (len val) in
  if slot_addr (len cs + 1) + clen c <=? hi
  then exists p', r = Some (Some p', {| Nkeys := len cs'; Ok := 1; Copied := 1 |}) /\ rep 16 p' cs' (hi - clen c)
  else r = Some (Some pub, {| Nkeys := len cs; Ok := 0; Copied := 1 |}).
Proof.
  intros Hrep Hd Hkey Hidb Hval Hid Hk Hv c cs' r. subst r. pose proof (rep_page _ _ _ _ _ Hrep) as Hp.
  pose proof (rep_room _ _ _ _ _ Hrep) as Hroom.
  pose proof (rep_count Hrep). pose proof (len_nonneg cs). pose proof (len_nonneg val).
  assert (Hclen : clen c = 4 + len key + 16 + len val) by (unfold clen; cbn; lia).
  assert (Hcb : bytes_ok (cell_bytes c)) by (by apply bytes_ok_cell).
  pose proof (ver_pos_le cs key id) as Hvp.
  unfold Db_bt_insert_ver. cbn [is_nil orb negb Z.eqb Pos.eqb].
  rewrite bt_cow_eq by (apply Hp || apply Hd). cbn [mbind option_bind].
  replace (bt_read8 (Some pub) 0x4000 20) with 1 by
    (rewrite bt_read8_db, db_read8_eq by (destruct Hp; lia); symmetry; apply Hrep).
  cbn [Z.eqb Pos.eqb negb]. rewrite andb_false_r, !bt_read16_fld by (done || lia).
  rewrite (rep_nslots _ _ _ _ _ Hrep), (rep_lo _ _ _ _ _ Hrep), (rep_hi _ _ _ _ _ Hrep).
  rewrite (bt_find_ver_pos_eq Hrep) by done. cbn [mbind option_bind].
  destruct (Z.leb_spec (slot_addr (len cs + 1) + clen c) hi) as [Hfit|Hfull];
    unfold slot_addr in Hroom, Hfit || unfold slot_addr in Hroom, Hfull; unfold slot_addr;
    rewrite ?(w64_small (4 + _ + _ + _)), <- ?Hclen by lia.
  2:{ unwrap. repeat (ifcase; try done; try lia; unwrap). }
  repeat (ifcase; [lia|]). unwrap. repeat (ifcase; [lia|]). unwrap.
  rewrite bt_bounds_ok by (done || lia).
  rewrite (bt_ver_stores pub (hi - clen c) key id val) by (done || lia). fold c.
  replace (if Z.of_nat (ver_pos cs key id) >? len cs then len cs else Z.of_nat (ver_pos cs key id))
    with (Z.of_nat (ver_pos cs key id)) by (unfold len in *; zcase; lia).
  destruct (slot_insert_rep 1 16 pub cs hi c (ver_pos cs key id)) as (q & -> & Hq & _ & Hrep'); [done..|].
  cbn [mbind option_bind]. rewrite !bt_write16_eq by (auto 10 with c2db; lia).
  eexists. split; [|exact Hrep']. unfold cs'. rewrite len_insert_at. unfold set_hdr, slot_addr.
  by replace (64 + (len cs + 1) * 2) with (64 + len cs * 2 + 2) by lia.
Qed.

(** ** Reading as of a snapshot *)

(** The newest version seen so far, and the next cell. *)
Definition as_of_step (key snap : list Z) (best : option cell) (c : cell) : option cell :=
  if (Compare (cKey c) key =? 0) && (Compare (cId c) snap <=? 0) then
    match best with
    | None => Some c
    | Some d => if Compare (cId c) (cId d) >? 0 then Some c else best
    end
  else best.
Definition as_of (cs : list cell) (key snap : list Z) : option cell := foldl (as_of_step key snap) None cs.

(** [c] is a version of [key] that the snapshot sees. *)
Definition visible (key snap : list Z) (c : cell) : Prop := cKey c = key /\ Compare (cId c) snap <= 0.

Lemma as_of_snoc cs c key snap : as_of (cs ++ [c]) key snap = as_of_step key snap (as_of cs key snap) c.
Proof. apply foldl_snoc. Qed.

Lemma as_of_spec cs key snap :
  match as_of cs key snap with
  | None => Forall (fun d => ~ visible key snap d) cs
  | Some c => c ∈ cs /\ visible key snap c /\ Forall (fun d => visible key snap d -> Compare (cId d) (cId c) <= 0) cs
  end.
Proof.
  induction cs as [|c cs IH] using rev_ind; [by constructor|]. rewrite as_of_snoc. unfold as_of_step, visible in *.
  pose proof (Compare_eq (cKey c) key) as Heq.
  destruct (Z.eqb_spec (Compare (cKey c) key) 0) as [Ek|Ek]; cbn [andb];
    [destruct (Z.leb_spec (Compare (cId c) snap) 0) as [Es|Es]|].
  - destruct (as_of cs key snap) as [d|].
    + destruct IH as (Hd & Hvis & Hall). rewrite Z.gtb_ltb. destruct (Z.ltb_spec 0 (Compare (cId c) (cId d))) as [Hgt|Hle].
      * split; [rewrite elem_of_app, list_elem_of_singleton; auto|]. split; [by rewrite <- Heq|]. apply Forall_snoc_intro; [|intros; rewrite Compare_refl; lia].
        eapply Forall_impl; [exact Hall|]. intros e He Hve. specialize (He Hve).
        assert (blt (cId d) (cId c)) by (unfold blt; rewrite Compare_antisym; lia).
        destruct (Z.le_gt_cases (Compare (cId e) (cId c)) 0) as [|Hec]; [done|]. exfalso.
        assert (Hlt : blt (cId d) (cId e)) by (eapply blt_ge_trans; [done | lia]).
        unfold blt in Hlt. rewrite Compare_antisym in Hlt. lia.
      * split; [rewrite elem_of_app, list_elem_of_singleton; auto|]. split; [done|]. apply Forall_snoc_intro; [done|]. intros _. lia.
    + split; [rewrite elem_of_app, list_elem_of_singleton; auto|]. split; [by rewrite <- Heq|]. apply Forall_snoc_intro; [|intros; rewrite Compare_refl; lia].
      eapply Forall_impl; [exact IH|]. intros e He Hve. by destruct He.
  - destruct (as_of cs key snap) as [d|]; [|apply Forall_snoc_intro; [done | lia]].
    destruct IH as (Hd & Hvis & Hall). split; [rewrite elem_of_app, list_elem_of_singleton; auto|]. split; [done|]. apply Forall_snoc_intro; [done | lia].
  - assert (cKey c <> key) by tauto.
    destruct (as_of cs key snap) as [d|]; [|apply Forall_snoc_intro; [done | tauto]].
    destruct IH as (Hd & Hvis & Hall). split; [rewrite elem_of_app, list_elem_of_singleton; auto|]. split; [done|]. apply Forall_snoc_intro; [done | tauto].
Qed.

Section AsOf.
Context {p : list Z} {cs : list cell} {hi : Z} (key snap : list Z).
Hypothesis Hrep : rep 16 p cs hi.
Hypothesis Hsnap : len snap = 16.

(** The loop's best cell, by its offset and the offset of its id. *)
Definition best_at (i : Z) (st : option (Z * Z)) : Prop :=
  match as_of (take (Z.to_nat i) cs) key snap, st with
  | None, None => True
  | Some c, Some (o, io) =>
      exists j, 0 <= j /\ cs !! Z.to_nat j = Some c /\ o = bt_read16 (Some p) 0x4000 (slot_addr j) /\
        io = o + 4 + len (cKey c)
  | _, _ => False
  end.

Lemma best_at_step i c st : 0 <= i -> cs !! Z.to_nat i = Some c -> best_at i st ->
  best_at (i + 1) (if (Compare (cKey c) key =? 0) && (Compare (cId c) snap <=? 0) then
    match as_of (take (Z.to_nat i) cs) key snap with
    | None => Some (bt_read16 (Some p) 0x4000 (slot_addr i), bt_read16 (Some p) 0x4000 (slot_addr i) + 4 + len (cKey c))
    | Some d => if Compare (cId c) (cId d) >? 0
        then Some (bt_read16 (Some p) 0x4000 (slot_addr i), bt_read16 (Some p) 0x4000 (slot_addr i) + 4 + len (cKey c))
        else st
    end
    else st).
Proof.
  intros Hi Hc Hst. unfold best_at in *. replace (Z.to_nat (i + 1)) with (S (Z.to_nat i)) by lia.
  rewrite (take_S_r _ _ c) by done. rewrite as_of_snoc. unfold as_of_step.
  destruct ((Compare (cKey c) key =? 0) && (Compare (cId c) snap <=? 0)); [|done].
  destruct (as_of (take (Z.to_nat i) cs) key snap) as [d|]; [|eauto 6].
  destruct (Compare (cId c) (cId d) >? 0); [eauto 6 | done].
Qed.
End AsOf.

Lemma Db_bt_get_as_of_eq p cs hi key snap out :
  rep 16 p cs hi -> 0 < len key <= 0xffff -> len snap = 16 -> len out < 2 ^ 64 ->
  Db_bt_get_as_of (Some p) 0x4000 (Some key) (len key) (Some snap) (Some out) (len out)
    = get_result (cVal <$> as_of cs key snap) out.
Proof.
  intros Hrep Hk Hsnap Hout. pose proof (rep_page _ _ _ _ _ Hrep) as Hp. pose proof (rep_count Hrep).
  pose proof (len_nonneg cs). destruct (id Hp) as [Hl Hb].
  unfold Db_bt_get_as_of. cbn [is_nil orb negb Z.eqb Pos.eqb]. repeat (ifcase; [lia|]).
  replace (bt_read8 (Some p) 0x4000 20) with 1 by
    (rewrite bt_read8_db, db_read8_eq by lia; symmetry; apply Hrep).
  cbn [Z.eqb Pos.eqb negb]. rewrite (rep_read_nslots Hrep).
  match goal with |- context [for_range 0 (len cs) ?body None] =>
    destruct (for_range_inv (S:=option (Z * Z)) (R:=unit) (best_at (p:=p) (cs:=cs) key snap)
      (fun r => match r with inl st => best_at (p:=p) (cs:=cs) key snap (len cs) st | inr _ => False end)
      0 (len cs) body None) as (r & Hr & HQ); [lia | done | | done |] end.
  - intros i st Hi Hinv. cbv zeta. destruct (rep_lookup i Hi) as [c Hc].
    pose proof (best_at_step key snap i c st ltac:(lia) Hc Hinv) as Hnext.
    destruct (rep_open Hrep i c ltac:(lia) Hc) as (off & -> & -> & Eoff & ? & ? & _ & Hbd & Hkl & Hvl & Hkey & Hidc & _ & Hl16 & ? & _ & ? & _).
    rewrite Eoff in *. rewrite Hbd by lia. rewrite Hkl. unwrap. rewrite Hvl. unwrap. rewrite Hbd by lia.
    rewrite bt_keycmp_at_eq, Hkey by lia. cbn [mbind option_bind].
    destruct (Compare (cKey c) key =? 0); [|done].
    rewrite bt_keycmp_id, Hidc by (done || lia). cbn [mbind option_bind andb] in *.
    destruct (Compare (cId c) snap <=? 0); [|done].
    unfold best_at in Hinv. destruct (as_of (take (Z.to_nat i) cs) key snap) as [d|], st as [[o io]|]; try done.
    destruct Hinv as (j & Hj & Hd & -> & ->).
    destruct (rep_open Hrep j d Hj Hd) as (off' & _ & _ & Eoff' & ? & ? & _ & _ & _ & _ & _ & Hidd & _ & _ & ? & _ & ? & _).
    rewrite Eoff' in *. rewrite bt_keycmp_pp_eq, Hidc, Hidd by lia. cbn [mbind option_bind].
    by destruct (Compare (cId c) (cId d) >? 0).
  - rewrite Hr. cbn [mbind option_bind]. destruct r as [st|]; [|done]. unfold best_at in HQ.
    rewrite take_ge in HQ by (unfold len; lia). destruct (as_of cs key snap) as [c|], st as [[o io]|]; try done.
    destruct HQ as (j & Hj & Hc & -> & ->). cbn [fmap option_fmap option_map].
    destruct (rep_open Hrep j c Hj Hc) as (off & _ & _ & -> & ? & ? & _ & _ & Hkl & Hvl & _ & _ & Hval & _ & ? & ? & ? & _).
    rewrite Hkl. unwrap. rewrite Hvl. unwrap.
    rewrite (copy_value p 0x4000 (off + 4 + len (cKey c) + 16) (cVal c) out) by (done || lia). done.
Qed.

(** ** Collecting old versions *)

Definition ver_ge (min : list Z) (c : cell) : bool := Compare (cId c) min >=? 0.
Definition kept (min : list Z) (cs : list cell) : list cell := List.filter (ver_ge min) cs.

Lemma kept_snoc min cs c : kept min (cs ++ [c]) = kept min cs ++ (if ver_ge min c then [c] else []).
Proof. unfold kept. rewrite List.filter_app. cbn. by destruct (ver_ge min c). Qed.

Lemma len_kept min cs : 0 <= len (kept min cs) <= len cs.
Proof.
  split; [apply len_nonneg|]. unfold kept, len. induction cs as [|c cs IH]; cbn; [done|].
  destruct (ver_ge min c); cbn; lia.
Qed.

Lemma rep_set_count idl p cs hi : page_ok p -> rd p 20 = 1 -> fld p 26 = hi ->
  slot_addr (len cs) <= hi <= 0x4000 -> cells_ok idl p cs hi ->
  rep idl (copy_at (copy_at p 22 (le_put 2 (len cs))) 24 (le_put 2 (slot_addr (len cs)))) cs hi.
Proof.
  intros Hp Hleaf Hhi Hroom Hcells. pose proof (len_nonneg cs). unfold slot_addr in Hroom.
  split; [auto with c2db | by rewrite !rd_copy_at_out by (rewrite ?len_le_put; lia) | | | | done |].
  - rewrite fld_out by (rewrite ?len_le_put; auto with c2db lia). apply fld_put; [done | lia..].
  - apply fld_put; [auto with c2db | lia | lia | done | unfold slot_addr; lia].
  - by rewrite !fld_out by (rewrite ?len_le_put; auto with c2db lia).
  - intros i c Hi Hc. destruct (Hcells i c Hi Hc) as (Hh & Hat & Hid).
    apply lookup_lt_Some in Hc. unfold len, slot_addr in *.
    rewrite !fld_out by (rewrite ?len_le_put; auto with c2db lia). split_and!; [done | | done].
    repeat (apply cell_at_out; [by auto with c2db | lia | lia | rewrite len_le_put; lia |]). done.
Qed.

(** The page after [i] rounds: the kept slots first, the slots from [i] on and
    the cells as they were. *)
Record gc_inv (pub : list Z) (cs : list cell) (min : list Z) (i : Z) (d : list Z) (m : Z) : Prop := {
  gc_range : 0 <= i <= len cs;
  gc_page : page_ok d;
  gc_count : m = len (kept min (take (Z.to_nat i) cs));
  gc_frame : forall a, 0 <= a < 0x4000 -> a < 64 \/ slot_addr i <= a -> rd d a = rd pub a;
  gc_slots : forall j c, 0 <= j -> kept min (take (Z.to_nat i) cs) !! Z.to_nat j = Some c ->
    exists i', 0 <= i' /\ cs !! Z.to_nat i' = Some c /\ fld d (slot_addr j) = fld pub (slot_addr i');
}.

Lemma gc_inv_le pub cs min i d m : gc_inv pub cs min i d m -> 0 <= m <= i.
Proof.
  intros H. rewrite (gc_count _ _ _ _ _ _ H). pose proof (gc_range _ _ _ _ _ _ H).
  pose proof (len_kept min (take (Z.to_nat i) cs)) as Hk. unfold len in *. rewrite length_take in Hk. lia.
Qed.

Lemma gc_inv_step pub cs min i d m c hi :
  rep 16 pub cs hi -> gc_inv pub cs min i d m -> cs !! Z.to_nat i = Some c ->
  gc_inv pub cs min (i + 1)
    (if ver_ge min c then (if negb (m =? i) then copy_at d (slot_addr m) (le_put 2 (fld pub (slot_addr i))) else d) else d)
    (if ver_ge min c then m + 1 else m).
Proof.
  intros Hrep Hinv Hc. pose proof (gc_inv_le _ _ _ _ _ _ Hinv) as Hm. destruct Hinv as [Hi Hd Hcnt Hframe Hslots].
  pose proof (rep_page _ _ _ _ _ Hrep) as Hp. pose proof (fld_bound pub (slot_addr i) Hp) as Hfb.
  destruct (rep_cell Hrep i c ltac:(lia) Hc) as (Hlt & Hs & _ & Hend & _). unfold slot_addr in Hs.
  pose proof (rep_room _ _ _ _ _ Hrep) as Hroom. unfold slot_addr in Hroom.
  assert (Hfi : fld d (slot_addr i) = fld pub (slot_addr i)).
  { unfold slot_addr. apply fld_ext; [done | done | lia | lia | |]; apply Hframe; unfold slot_addr; lia. }
  assert (Htake : take (Z.to_nat (i + 1)) cs = take (Z.to_nat i) cs ++ [c]).
  { replace (Z.to_nat (i + 1)) with (S (Z.to_nat i)) by lia. by apply take_S_r. }
  set (q := if negb (m =? i) then copy_at d (slot_addr m) (le_put 2 (fld pub (slot_addr i))) else d).
  assert (Hq : page_ok q) by (unfold q; destruct (negb (m =? i)); auto with c2db).
  assert (Hqrd : forall a, 0 <= a -> a < slot_addr m \/ slot_addr (m + 1) <= a -> rd q a = rd d a).
  { intros a Ha Hside. unfold q, slot_addr in *. destruct (negb (m =? i)); [|done].
    apply rd_copy_at_out; rewrite ?len_le_put; lia. }
  assert (Hqm : fld q (slot_addr m) = fld pub (slot_addr i)).
  { unfold q. destruct (Z.eqb_spec m i) as [->|]; cbn [negb]; [done|].
    apply fld_put; [done | unfold slot_addr; lia | unfold slot_addr; lia | done | done]. }
  assert (Hqj : forall j, 0 <= j < m -> fld q (slot_addr j) = fld d (slot_addr j)).
  { intros j Hj. unfold slot_addr in *. apply fld_ext; [done | done | lia | lia | |]; apply Hqrd; lia. }
  destruct (ver_ge min c) eqn:Ec; split; try done; try lia.
  - rewrite Htake, kept_snoc, Ec, Hcnt. unfold len. rewrite length_app. cbn. lia.
  - intros a Ha Hside. unfold slot_addr in *. rewrite Hqrd by lia. apply Hframe; lia.
  - intros j e Hj He. rewrite Htake, kept_snoc, Ec in He. unfold len in Hcnt.
    apply lookup_snoc_Some in He as [[Hlt' He]|[Heq <-]].
    + rewrite Hqj by lia. by apply Hslots.
    + exists i. assert (j = m) as -> by lia. split_and!; [lia | done | done].
  - by rewrite Htake, kept_snoc, Ec, app_nil_r.
  - intros a Ha Hside. unfold slot_addr in *. apply Hframe; lia.
  - intros j e Hj He. rewrite Htake, kept_snoc, Ec, app_nil_r in He. by apply Hslots.
Qed.

(** The cell of round [i], read from the page as it is then. *)
Lemma gc_read pub cs min i d m c hi :
  rep 16 pub cs hi -> gc_inv pub cs min i d m -> cs !! Z.to_nat i = Some c ->
  let off := fld pub (slot_addr i) in
  bt_read16 (Some d) 0x4000 (slot_addr i) = off /\ bt_read16 (Some d) 0x4000 off = len (cKey c) /\
  64 <= off /\ off + (4 + len (cKey c) + 16 + len (cVal c)) <= 0x4000 /\
  sub d (off + 4 + len (cKey c)) (off + 4 + len (cKey c) + 16) = cId c.
Proof.
  intros Hrep [Hi Hd _ Hframe _] Hc off. pose proof (rep_page _ _ _ _ _ Hrep) as Hp.
  destruct (rep_cell Hrep i c ltac:(lia) Hc) as (Hlt & Hs & Hoff & Hend & Hhi & Hat & Hid). fold off in Hat, Hoff, Hend, Hhi.
  pose proof (rep_room _ _ _ _ _ Hrep) as Hroom. pose proof (len_nonneg (cKey c)). pose proof (len_nonneg (cVal c)).
  unfold clen in Hend. unfold slot_addr in Hs, Hroom.
  destruct (cell_fields d off c Hd ltac:(lia)) as (Hk & _ & _ & Hidc & _).
  { apply (cell_at_ext pub); [done | done | lia | | done]. intros a Ha. apply Hframe; [destruct Hat; lia|].
    right. unfold slot_addr. lia. }
  split_and!; [| | lia | lia | by rewrite <- Hid].
  - unfold off, slot_addr in *. rewrite bt_read16_fld by (done || lia).
    apply fld_ext; [done | done | lia | lia | |]; apply Hframe; unfold slot_addr; lia.
  - by rewrite bt_read16_fld by (done || lia).
Qed.

Lemma gc_end pub cs min d m hi :
  rep 16 pub cs hi -> gc_inv pub cs min (len cs) d m ->
  m = len (kept min cs) /\
  rep 16 (copy_at (copy_at d 22 (le_put 2 m)) 24 (le_put 2 (slot_addr m))) (kept min cs) hi.
Proof.
  intros Hrep [Hi Hd Hcnt Hframe Hslots]. pose proof (rep_page _ _ _ _ _ Hrep) as Hp.
  rewrite take_ge in Hcnt, Hslots by (unfold len; lia).
  pose proof (rep_room _ _ _ _ _ Hrep) as Hroom. pose proof (len_kept min cs). unfold slot_addr in Hroom.
  split; [done|]. rewrite Hcnt. apply rep_set_count; [done | | | unfold slot_addr; lia |].
  - rewrite Hframe by lia. apply Hrep.
  - rewrite <- (rep_hi _ _ _ _ _ Hrep). apply fld_ext; [done | done | lia | lia | |]; apply Hframe; lia.
  - intros j c Hj Hc. destruct (Hslots j c Hj Hc) as (i & Hi' & Hc' & ->).
    destruct (rep_cell Hrep i c Hi' Hc') as (Hlt & Hs & Hoff & Hend & Hhi & Hat & Hid).
    split_and!; [done | | done]. apply (cell_at_ext pub); [done | done | lia | | done].
    intros a Ha. apply Hframe; [lia|]. right. unfold slot_addr. lia.
Qed.

Lemma Db_bt_gc_before_eq pub d cs hi min :
  rep 16 pub cs hi -> page_ok d -> len min = 16 ->
  exists p', Db_bt_gc_before (Some pub) (Some d) 0x4000 (Some min) =
      Some (Some p', {| Nkeys := len (kept min cs); Ok := 1; Copied := 1 |}) /\
    rep 16 p' (kept min cs) hi.
Proof.
  intros Hrep Hd Hmin. pose proof (rep_page _ _ _ _ _ Hrep) as Hp. pose proof (rep_count Hrep).
  pose proof (len_nonneg cs). unfold Db_bt_gc_before. cbn [is_nil orb negb Z.eqb Pos.eqb].
  rewrite bt_cow_eq by (apply Hp || apply Hd). cbn [mbind option_bind].
  replace (bt_read8 (Some pub) 0x4000 20) with 1 by
    (rewrite bt_read8_db, db_read8_eq by (destruct Hp; lia); symmetry; apply Hrep).
  cbn [Z.eqb Pos.eqb negb].
  match goal with |- context [for_range 0 65536 ?body (Some pub, 0)] =>
    destruct (for_range_inv (S:=slice * Z) (R:=slice)
      (fun i st => exists q, st.1 = Some q /\ gc_inv pub cs min i q st.2)
      (fun r => match r with inl st => exists q, st.1 = Some q /\ gc_inv pub cs min (len cs) q st.2 | inr _ => False end)
      0 65536 body (Some pub, 0)) as (r & Hr & HQ); [lia | | | |] end.
  - exists pub. split; [done|]. split; [lia | done | done | done |]. intros j c _ Hc. done.
  - intros i [sd m] Hi (q & Hsd & Hinv). cbn [fst snd] in *. subst sd. cbv beta iota zeta.
    pose proof (gc_inv_le _ _ _ _ _ _ Hinv) as Hm. pose proof (gc_range _ _ _ _ _ _ Hinv) as Hrange.
    pose proof (gc_page _ _ _ _ _ _ Hinv) as Hq.
    assert (Hn : bt_read16 (Some q) 0x4000 22 = len cs).
    { rewrite bt_read16_fld by (done || lia). rewrite <- (rep_nslots _ _ _ _ _ Hrep).
      apply fld_ext; [done | done | lia | lia | |]; apply (gc_frame _ _ _ _ _ _ Hinv); lia. }
    rewrite Hn. destruct (Z.ltb_spec i (len cs)) as [Hlt|Hge]; cbn [negb].
    2:{ assert (i = len cs) as -> by lia. eauto. }
    destruct (rep_lookup (cs:=cs) i ltac:(lia)) as [c Hc].
    destruct (gc_read _ _ _ _ _ _ _ _ Hrep Hinv Hc) as (Hslot & Hk & Hoff & Hend & Hid).
    pose proof (gc_inv_step _ _ _ _ _ _ _ _ Hrep Hinv Hc) as Hnext.
    pose proof (rep_room _ _ _ _ _ Hrep) as Hroom. unfold slot_addr in Hroom.
    pose proof (len_nonneg (cKey c)). pose proof (len_nonneg (cVal c)).
    rewrite (slot_u64 i), (slot_u64 m) by lia. rewrite Hslot, Hk.
    assert (64 <= slot_addr i <= 0x4000 - 2 /\ 64 <= slot_addr m <= 0x4000 - 2) as [Hsi Hsm] by (unfold slot_addr; lia).
    unwrap. rewrite !bt_bounds_ok by (done || lia).
    rewrite bt_keycmp_id, Hid by (done || lia). cbn [mbind option_bind]. unfold ver_ge in Hnext.
    pose proof (fld_bound pub (slot_addr i) Hp).
    rewrite (bt_write16_eq q) by (done || lia).
    destruct (Compare (cId c) min >=? 0); cbn [fst snd]; [|eauto].
    unwrap. destruct (negb (m =? i)); eauto.
  - intros [sd m] (q & Hsd & Hinv). pose proof (gc_range _ _ _ _ _ _ Hinv). lia.
  - rewrite Hr. cbn [mbind option_bind]. destruct r as [[sd m]|]; [|done]. destruct HQ as (q & Hsd & Hinv). cbn [fst snd] in *.
    subst sd. pose proof (gc_page _ _ _ _ _ _ Hinv) as Hq. destruct (gc_end _ _ _ _ _ _ Hrep Hinv) as [Hm Hrep'].
    pose proof (len_kept min cs). pose proof (rep_room _ _ _ _ _ Hrep) as Hroom. unfold slot_addr in Hroom.
    rewrite slot_u64 by lia. unfold slot_addr at 1. unwrap. rewrite !bt_write16_eq by (auto with c2db; lia).
    subst m. eexists. split; [done | exact Hrep'].
Qed.

(** ** Properties *)

(** C9: an insertion into a versioned leaf with room adds exactly the new
    version (the cells are a permutation of the old ones and it), keeps the cells
    ordered by key and version id, and keeps the page well formed; without room it
    reports failure and the dirty page is the published one. *)
Theorem version_insert pub d key id val cs hi :
  rep 16 pub cs hi -> StronglySorted ver_le cs -> page_ok d -> bytes_ok key -> bytes_ok id -> bytes_ok val ->
  len id = 16 -> 0 < len key <= 0xffff -> len val <= 0xffff ->
  let c := {| cKey := key; cId := id; cVal := val |} in
  let r := Db_bt_insert_ver (Some pub) (Some d) 0x4000 (Some key) (len key) (Some id) (Some val) (len val) in
  if slot_addr (len cs + 1) + clen c <=? hi
  then exists p' cs', r = Some (Some p', {| Nkeys := len cs + 1; Ok := 1; Copied := 1 |}) /\
    rep 16 p' cs' (hi - clen c) /\ cs' ≡ₚ c :: cs /\ StronglySorted ver_le cs'
  else r = Some (Some pub, {| Nkeys := len cs; Ok := 0; Copied := 1 |}).
Proof.
  intros Hrep Hs Hd Hkey Hidb Hval Hid Hk Hv c r.
  pose proof (Db_bt_insert_ver_eq pub d key id val cs hi Hrep Hd Hkey Hidb Hval Hid Hk Hv) as Hins.
  cbv zeta in Hins. fold c r in Hins. destruct (slot_addr (len cs + 1) + clen c <=? hi); [|done].
  destruct Hins as (p' & Hr & Hrep'). rewrite len_insert_at in Hr.
  exists p', (insert_at (ver_pos cs key id) c cs). split_and!; [done | done | apply insert_at_perm |].
  by apply (ver_insert_sorted cs c).
Qed.

Lemma version_insert_witness :
  let c := {| cKey := [7]; cId := zeros 16; cVal := [1; 2] |} in
  exists p' cs', Db_bt_insert_ver (Some leaf0) (Some leaf0) 0x4000 (Some [7]) 1 (Some (zeros 16)) (Some [1; 2]) 2
      = Some (Some p', {| Nkeys := 1; Ok := 1; Copied := 1 |}) /\
    rep 16 p' cs' 16361 /\ cs' ≡ₚ [c] /\ StronglySorted ver_le cs'.
Proof.
  apply (version_insert leaf0 leaf0 [7] (zeros 16) [1; 2] [] 0x4000).
  - apply leaf0_rep.
  - constructor.
  - apply (rep_page _ _ _ _ _ (leaf0_rep 16)).
  - repeat constructor; lia.
  - apply bytes_ok_zeros.
  - repeat constructor; lia.
  - reflexivity.
  - small.
  - small.
Defined.

(** C8: reading a key as of a snapshot returns the value of the newest of its
    versions that is not younger than the snapshot, and nothing when the key has no
    such version. *)
Theorem snapshot_read p cs hi key snap out :
  rep 16 p cs hi -> 0 < len key <= 0xffff -> len snap = 16 -> len out < 2 ^ 64 ->
  let r := Db_bt_get_as_of (Some p) 0x4000 (Some key) (len key) (Some snap) (Some out) (len out) in
  (exists c, c ∈ cs /\ visible key snap c /\
     Forall (fun d => visible key snap d -> Compare (cId d) (cId c) <= 0) cs /\ r = get_result (Some (cVal c)) out) \/
  (Forall (fun d => ~ visible key snap d) cs /\ r = get_result None out).
Proof.
  intros Hrep Hk Hsnap Hout r. subst r. rewrite (Db_bt_get_as_of_eq p cs hi) by done.
  pose proof (as_of_spec cs key snap) as Hspec. destruct (as_of cs key snap) as [c|]; [left | by right].
  destruct Hspec as (? & ? & ?). by exists c.
Qed.

(** A leaf with two versions of one key. *)
Definition v1 : cell := {| cKey := [7]; cId := zeros 16; cVal := [1; 2] |}.
Definition v2 : cell := {| cKey := [7]; cId := zeros 15 ++ [9]; cVal := [3] |}.
Lemma leaf2_ex : exists p hi, rep 16 p [v1; v2] hi.
Proof.
  pose proof (rep_page _ _ _ _ _ (leaf0_rep 16)) as Hd.
  destruct (Db_bt_insert_ver_eq leaf0 leaf0 [7] (zeros 16) [1; 2] [] 0x4000) as (p1 & _ & H1);
    [apply leaf0_rep | done | repeat constructor; lia | apply bytes_ok_zeros | repeat constructor; lia | small..|].
  destruct (Db_bt_insert_ver_eq p1 leaf0 [7] (zeros 15 ++ [9]) [3] [v1] (0x4000 - clen v1)) as (p2 & _ & H2);
    [exact H1 | done | repeat constructor; lia | apply bytes_ok_app; [apply bytes_ok_zeros | repeat constructor; lia]
    | repeat constructor; lia | small..|].
  eexists p2, _. exact H2.
Qed.

Lemma snapshot_read_witness :
  exists p hi, rep 16 p [v1; v2] hi /\
  let r := Db_bt_get_as_of (Some p) 0x4000 (Some [7]) 1 (Some (zeros 15 ++ [8])) (Some [0; 0]) 2 in
  (exists c, c ∈ [v1; v2] /\ visible [7] (zeros 15 ++ [8]) c /\
     Forall (fun d => visible [7] (zeros 15 ++ [8]) d -> Compare (cId d) (cId c) <= 0) [v1; v2] /\
     r = get_result (Some (cVal c)) [0; 0]) \/
  (Forall (fun d => ~ visible [7] (zeros 15 ++ [8]) d) [v1; v2] /\ r = get_result None [0; 0]).
Proof.
  destruct leaf2_ex as (p & hi & Hrep). exists p, hi. split; [exact Hrep|].
  apply (snapshot_read p [v1; v2] hi [7] (zeros 15 ++ [8]) [0; 0] Hrep); small.
Defined.

(** C23: the collection keeps exactly the versions whose id is not below the
    minimum, in their order, on a well-formed page.  The newest version of a key is
    dropped like any other when it is below the minimum. *)
Theorem version_gc pub d cs hi min :
  rep 16 pub cs hi -> page_ok d -> len min = 16 ->
  let cs' := List.filter (fun c => Compare (cId c) min >=? 0) cs in
  exists p', Db_bt_gc_before (Some pub) (Some d) 0x4000 (Some min)
      = Some (Some p', {| Nkeys := len cs'; Ok := 1; Copied := 1 |}) /\ rep 16 p' cs' hi.
Proof. exact (Db_bt_gc_before_eq pub d cs hi min). Qed.

Lemma version_gc_witness :
  exists p hi p', rep 16 p [v1; v2] hi /\
    Db_bt_gc_before (Some p) (Some leaf0) 0x4000 (Some (zeros 15 ++ [1]))
      = Some (Some p', {| Nkeys := 1; Ok := 1; Copied := 1 |}) /\ rep 16 p' [v2] hi.
Proof.
  destruct leaf2_ex as (p & hi & Hrep). exists p, hi.
  destruct (version_gc p leaf0 [v1; v2] hi (zeros 15 ++ [1])) as (p' & Hr & Hrep').
  - exact Hrep.
  - apply (rep_page _ _ _ _ _ (leaf0_rep 16)).
  - reflexivity.
  - exists p'. split; [exact Hrep|]. split; [exact Hr | exact Hrep'].
Defined.

End BtVersion.
