(* ===== verification/BtHeap.v ===== *)
(** * B-tree kernels over a heap of pages (src/pkg/c2db/db_btree_gen.go)

    The [_at] kernels work on a page of a larger buffer, addressed by its base:
    search, insertion, point-in-time read, replacement and removal in a leaf,
    and the choice of a child in an internal page.  [heap_ok] is a buffer of
    whole pages; [page h pg] is its page [pg].  The lemmas say what each kernel
    reads and stores in terms of that page alone, so that the results of the
    single-page kernels carry over. *)

From stdpp Require Import sorting.
From S2P Require Import Prelude Bytes PageKernel BtMem BtLeaf BtVersion.
Import Bytes PageKernel BtMem BtLeaf BtVersion.

Local Open Scope Z_scope.

Module BtHeap.

(** ** The kernels *)

Definition bt_off_ok (n base off len_ : Z) : Z :=
  if off >=? 0x4000 then 0 else
  if len_ >? w64 (0x4000 - off) then 0 else
  if base >=? n then 0 else
  if 0x4000 >? w64 (n - base) then 0 else
  let v14 := w64 (base + off) in
  if (v14 <? n) && (len_ <=? w64 (n - v14)) then 1 else 0.

Definition bt_find_at (heap : slice) (n base : Z) (key : slice) (klen : Z) : option Z :=
  let v13 := bt_read16 heap n (w64 (base + 22)) in
  r ← for_range 0 v13 (fun v6 (_ : unit) =>
        let v18 := (64 +% (v6 *% 2))%u64 in
        if bt_off_ok n base v18 2 =? 0 then Some (Ret v13) else
        let v24 := bt_read16 heap n (w64 (base + v18)) in
        if negb (bt_off_ok n base v24 4 =? 0) then
          if bt_read16 heap n (w64 (base + v24)) =? klen then
            e ← bt_keyeq heap n (w64 (base + v24 + 4)) klen key;
            if negb (e =? 0) then Some (Ret v6) else Some (Next tt)
          else Some (Next tt)
        else Some (Next tt)) tt;
  Some (match r with inr v => v | inl _ => v13 end).

Definition bt_get_at (heap : slice) (n base : Z) (key : slice) (klen : Z) (out : slice) (outn : Z)
    : option (Db_bt_get_t * slice) :=
  if is_nil heap then Some (get0, out) else
  if (is_nil key || (klen =? 0)) || (klen >? 0xffff) then Some (get0, out) else
  if negb (bt_read8 heap n (w64 (base + 20)) =? 1) then Some (get0, out) else
  v42 ← bt_find_at heap n base key klen;
  if v42 >=? bt_read16 heap n (w64 (base + 22)) then Some (get0, out) else
  let v46 := (64 +% (v42 *% 2))%u64 in
  if bt_off_ok n base v46 2 =? 0 then Some (get0, out) else
  let v53 := bt_read16 heap n (w64 (base + v46)) in
  if bt_off_ok n base v53 4 =? 0 then Some (get0, out) else
  let v58 := w64 (base + v53) in
  let v59 := bt_read16 heap n v58 in
  let v64 := bt_read16 heap n (w64 (v58 + 2)) in
  if negb (v59 =? klen) then Some (get0, out) else
  if bt_off_ok n base v53 (w64 (4 + v59 + v64)) =? 0 then Some (get0, out) else
  let v14 := if v64 >? outn then outn else v64 in
  out ← (if negb (is_nil out) && (v14 >? 0)
         then bt_copy_out heap n (w64 (base + v53 + 4 + v59)) out v14 else Some out);
  Some ({| Len := v64; Walked := 0; Found := 1; Fallback := 0 |}, out).

Definition bt_find_ver_pos_at (heap : slice) (n base : Z) (key : slice) (klen : Z) (id16 : slice) : option Z :=
  let v15 := bt_read16 heap n (w64 (base + 22)) in
  r ← for_range 0 v15 (fun v7 (_ : unit) =>
        let v20 := (64 +% (v7 *% 2))%u64 in
        if bt_off_ok n base v20 2 =? 0 then Some (Ret v7) else
        let v26 := bt_read16 heap n (w64 (base + v20)) in
        if bt_off_ok n base v26 4 =? 0 then Some (Ret v7) else
        let v31 := bt_read16 heap n (w64 (base + v26)) in
        if bt_off_ok n base v26 (w64 (4 + v31 + 16)) =? 0 then Some (Ret v7) else
        v11 ← bt_keycmp_at heap n (w64 (base + v26 + 4)) v31 key klen;
        if v11 >? 0 then Some (Ret v7) else
        if v11 =? 0 then
          v11 ← bt_keycmp_at heap n (w64 (base + v26 + 4 + v31)) 16 id16 16;
          if v11 >? 0 then Some (Ret v7) else Some (Next tt)
        else Some (Next tt)) tt;
  Some (match r with inr v => v | inl _ => v15 end).

(** [for v6 > pos { ... v6 = v7 }]: the inner loop leaves [v7 = v6 - 1], or 0. *)
Fixpoint shift_slots_at (fuel : nat) (heap : slice) (n base pos v6 : Z) : option slice :=
  match fuel with
  | O => None
  | S fuel' =>
      if v6 >? pos then
        let v7 := for_pure 0 v6 (fun v8 _ => v8) 0 in
        let v10 := (64 +% (v6 *% 2))%u64 in
        let heap := bt_write16 heap n (w64 (base + v10)) (bt_read16 heap n (w64 (base + (64 +% (v7 *% 2))%u64))) in
        shift_slots_at fuel' heap n base pos v7
      else Some heap
  end.
Definition bt_slot_insert_at (heap : slice) (n base pos nslots cell_off : Z) : option slice :=
  let n := clamp heap n in
  heap ← shift_slots_at (S (Z.to_nat nslots)) heap n base pos nslots;
  Some (bt_write16 heap n (w64 (base + (64 +% (pos *% 2))%u64)) cell_off).

Definition bt_insert_ver_at (heap : slice) (n base : Z) (key : slice) (klen : Z) (id16 : slice)
    (val : slice) (vlen : Z) : option (slice * Db_bt_state_t) :=
  let v8 nk := {| Nkeys := nk; Ok := 0; Copied := 0 |} in
  if is_nil heap then Some (heap, v8 0) else
  if ((klen =? 0) || (klen >? 0xffff)) || (vlen >? 0xffff) then Some (heap, v8 0) else
  if is_nil key || is_nil id16 then Some (heap, v8 0) else
  if (vlen >? 0) && is_nil val then Some (heap, v8 0) else
  if negb (bt_read8 heap n (w64 (base + 20)) =? 1) then Some (heap, v8 0) else
  let v9 := bt_read16 heap n (w64 (base + 22)) in
  let v56 := bt_read16 heap n (w64 (base + 24)) in
  let v61 := bt_read16 heap n (w64 (base + 26)) in
  if v56 <? 64 then Some (heap, v8 v9) else
  if v61 >? 0x4000 then Some (heap, v8 v9) else
  if v56 >? v61 then Some (heap, v8 v9) else
  let v68 := w64 (4 + klen + 16 + vlen) in
  if v56 >=? 0x4000 then Some (heap, v8 v9) else
  if 2 >? w64 (0x4000 - v56) then Some (heap, v8 v9) else
  let v74 := w64 (v56 + 2) in
  if v68 >? v61 then Some (heap, v8 v9) else
  let v75 := w64 (v61 - v68) in
  if v74 >? v75 then Some (heap, v8 v9) else
  if bt_off_ok n base v75 v68 =? 0 then Some (heap, v8 v9) else
  v16 ← bt_find_ver_pos_at heap n base key klen id16;
  let v16 := if v16 >? v9 then v9 else v16 in
  let v81 := w64 (base + v75) in
  let heap := bt_write16 heap n v81 (w16 klen) in
  let heap := bt_write16 heap n (w64 (v81 + 2)) (w16 vlen) in
  let v93 := w64 (v81 + 4) in
  heap ← bt_copy_in heap n v93 key klen;
  heap ← bt_copy_in heap n (w64 (v93 + klen)) id16 16;
  heap ← (if vlen >? 0 then bt_copy_in heap n (w64 (base + v75 + 4 + klen + 16)) val vlen else Some heap);
  let v112 := w16 v75 in
  heap ← bt_slot_insert_at heap n base v16 v9 v112;
  let v9 := w64 (v9 + 1) in
  let heap := bt_write16 heap n (w64 (base + 22)) (w16 v9) in
  let heap := bt_write16 heap n (w64 (base + 24)) (w16 v74) in
  let heap := bt_write16 heap n (w64 (base + 26)) v112 in
  Some (heap, {| Nkeys := v9; Ok := 1; Copied := 0 |}).

(** The loop stops at the first greater key; its state is the best cell so far
    and the address of its id. *)
Definition bt_get_as_of_at (heap : slice) (n base : Z) (key : slice) (klen : Z) (snap16 : slice)
    (out : slice) (outn : Z) : option (Db_bt_get_t * slice) :=
  if is_nil heap then Some (get0, out) else
  if ((is_nil key || is_nil snap16) || (klen =? 0)) || (klen >? 0xffff) then Some (get0, out) else
  if negb (bt_read8 heap n (w64 (base + 20)) =? 1) then Some (get0, out) else
  r ← for_range 0 (bt_read16 heap n (w64 (base + 22))) (fun v10 (best : option (Z * Z)) =>
        let v57 := (64 +% (v10 *% 2))%u64 in
        if bt_off_ok n base v57 2 =? 0 then Some (Ret tt) else
        let v64 := bt_read16 heap n (w64 (base + v57)) in
        if bt_off_ok n base v64 4 =? 0 then Some (Ret tt) else
        let v69 := w64 (base + v64) in
        let v16 := bt_read16 heap n v69 in
        let v17 := bt_read16 heap n (w64 (v69 + 2)) in
        if bt_off_ok n base v64 (w64 (4 + v16 + 16 + v17)) =? 0 then Some (Ret tt) else
        v90 ← bt_keycmp_at heap n (w64 (base + v64 + 4)) v16 key klen;
        if v90 >? 0 then Some (Stop best) else
        if v90 =? 0 then
          let v14 := w64 (base + v64 + 4 + v16) in
          v21 ← bt_keycmp_at heap n v14 16 snap16 16;
          if v21 <=? 0 then
            match best with
            | None => Some (Next (Some (v64, v14)))
            | Some (_, b14) =>
                v21 ← bt_keycmp_pp heap n v14 16 b14 16;
                if v21 >? 0 then Some (Next (Some (v64, v14))) else Some (Next best)
            end
          else Some (Next best)
        else Some (Next best)) None;
  match r with
  | inr _ => Some (get0, out)
  | inl None => Some (get0, out)
  | inl (Some (v13, _)) =>
      let v129 := w64 (base + v13) in
      let v16 := bt_read16 heap n v129 in
      let v17 := bt_read16 heap n (w64 (v129 + 2)) in
      let v15 := if v17 >? outn then outn else v17 in
      out ← (if negb (is_nil out) && (v15 >? 0)
             then bt_copy_out heap n (w64 (base + v13 + 4 + v16 + 16)) out v15 else Some out);
      Some ({| Len := v17; Walked := 0; Found := 1; Fallback := 0 |}, out)
  end.

(** The newest version of [key] takes the id [id16] when its value is [val]. *)
Definition bt_replace_same_value_at (heap : slice) (n base : Z) (key : slice) (klen : Z) (id16 : slice)
    (val : slice) (vlen : Z) : option (slice * Z) :=
  if is_nil heap then Some (heap, 0) else
  if (((is_nil key || (klen =? 0)) || (klen >? 0xffff)) || (vlen >? 0xffff)) then Some (heap, 0) else
  if is_nil id16 then Some (heap, 0) else
  if (vlen >? 0) && is_nil val then Some (heap, 0) else
  if negb (bt_read8 heap n (w64 (base + 20)) =? 1) then Some (heap, 0) else
  r ← for_range 0 (bt_read16 heap n (w64 (base + 22))) (fun v9 (v12 : option Z) =>
        let v62 := (64 +% (v9 *% 2))%u64 in
        if bt_off_ok n base v62 2 =? 0 then Some (Ret tt) else
        let v70 := bt_read16 heap n (w64 (base + v62)) in
        if bt_off_ok n base v70 4 =? 0 then Some (Ret tt) else
        let v76 := w64 (base + v70) in
        let v14 := bt_read16 heap n v76 in
        let v15 := bt_read16 heap n (w64 (v76 + 2)) in
        if bt_off_ok n base v70 (w64 (4 + v14 + 16 + v15)) =? 0 then Some (Ret tt) else
        v102 ← (if v14 =? klen then e ← bt_keyeq heap n (w64 (base + v70 + 4)) klen key; Some (negb (e =? 0))
                else Some false);
        if (v102 : bool) then
          match v12 with
          | None => Some (Next (Some v70))
          | Some b12 =>
              c ← bt_keycmp_pp heap n (w64 (base + v70 + 4 + v14)) 16 (w64 (base + b12 + 4 + v14)) 16;
              if c >? 0 then Some (Next (Some v70)) else Some (Next v12)
          end
        else Some (Next v12)) None;
  match r with
  | inr _ => Some (heap, 0)
  | inl None => Some (heap, 0)
  | inl (Some v12) =>
      let v125 := w64 (base + v12) in
      let v14 := bt_read16 heap n v125 in
      let v15 := bt_read16 heap n (w64 (v125 + 2)) in
      if negb (v15 =? vlen) then Some (heap, 0) else
      if bt_off_ok n base v12 (w64 (4 + v14 + 16 + v15)) =? 0 then Some (heap, 0) else
      v157 ← (if vlen >? 0 then
                c ← bt_keycmp_at heap n (w64 (base + v12 + 4 + v14 + 16)) vlen val vlen; Some (negb (c =? 0))
              else Some false);
      if (v157 : bool) then Some (heap, 0) else
      heap ← bt_copy_in heap n (w64 (base + (v12 + 4 + v14))) id16 16;
      Some (heap, 1)
  end.

Definition bt_internal_child (heap : slice) (n base : Z) (key : slice) (klen : Z) : option Z :=
  let v9 := bt_read64 heap n (w64 (base + 8)) in
  r ← for_range 0 (bt_read16 heap n (w64 (base + 22))) (fun v6 v9 =>
        let v23 := (64 +% (v6 *% 2))%u64 in
        if bt_off_ok n base v23 2 =? 0 then Some (Ret v9) else
        let v29 := bt_read16 heap n (w64 (base + v23)) in
        if bt_off_ok n base v29 4 =? 0 then Some (Ret v9) else
        let v34 := bt_read16 heap n (w64 (base + v29)) in
        if bt_off_ok n base v29 (w64 (4 + v34 + 8)) =? 0 then Some (Ret v9) else
        c ← bt_keycmp_at heap n (w64 (base + v29 + 4)) v34 key klen;
        if c >? 0 then Some (Ret v9) else
        Some (Next (bt_read64 heap n (w64 (base + v29 + 4 + v34))))) v9;
  Some (match r with inl v => v | inr v => v end).

(** [for v6 < nslots]: the count is read again each round and is 16 bits wide,
    so 65536 rounds are enough fuel. *)
Definition bt_del_at (heap : slice) (n base : Z) (key : slice) (klen : Z) : option (slice * Z) :=
  if is_nil heap then Some (heap, 0) else
  if (is_nil key || (klen =? 0)) || (klen >? 0xffff) then Some (heap, 0) else
  if negb (bt_read8 heap n (w64 (base + 20)) =? 1) then Some (heap, 0) else
  r ← for_range (S:=slice * Z * Z) (R:=slice) 0 65536 (fun v6 '(heap, v7, v13) =>
        if negb (v6 <? bt_read16 heap n (w64 (base + 22))) then Some (Stop (heap, v7, v13)) else
        let v44 := (64 +% (v6 *% 2))%u64 in
        if bt_off_ok n base v44 2 =? 0 then Some (Ret heap) else
        let v52 := bt_read16 heap n (w64 (base + v44)) in
        if bt_off_ok n base v52 4 =? 0 then Some (Ret heap) else
        let v59 := bt_read16 heap n (w64 (base + v52)) in
        if bt_off_ok n base v52 (w64 (4 + v59)) =? 0 then Some (Ret heap) else
        v75 ← (if v59 =? klen then e ← bt_keyeq heap n (w64 (base + v52 + 4)) klen key; Some (negb (e =? 0))
               else Some false);
        if (v75 : bool) then Some (Next (heap, v7, 1)) else
        let heap := if negb (v7 =? v6) then bt_write16 heap n (w64 (base + 64 + v7 * 2)) v52 else heap in
        Some (Next (heap, w64 (v7 + 1), v13))) (heap, 0, 0);
  match r with
  | inr heap => Some (heap, 0)
  | inl (heap, v7, v13) =>
      let heap := bt_write16 heap n (w64 (base + 22)) (w16 v7) in
      let heap := bt_write16 heap n (w64 (base + 24)) (w16 (64 +% (v7 *% 2))%u64) in
      Some (heap, v13)
  end.

(** ** Copy on write *)

(** The published buffer: the caller passes one of its own, or the working
    buffer itself. *)
Inductive source := Separate (b : slice) | Same.
Definition source_bytes (pub : source) (dirty : slice) : slice :=
  match pub with Separate b => b | Same => dirty end.

(** Pages from 64 on have no bit in the mask and are copied at each call. *)
Definition bt_cow_page (pub : source) (dirty : slice) (nbytes pg mask : Z) : option (slice * Z) :=
  match source_bytes pub dirty, dirty with
  | Some p, Some d =>
      let v13 := w64 (pg * 0x4000) in
      if v13 >=? nbytes then Some (dirty, mask) else
      if 0x4000 >? w64 (nbytes - v13) then Some (dirty, mask) else
      let copied := if (v13 + 0x4000 <=? len p) && (v13 + 0x4000 <=? len d)
                    then Some (Some (copy_at d v13 (sub p v13 (v13 + 0x4000)))) else None in
      if pg >=? 64 then d ← copied; Some (d, mask) else
      let v24 := w64 (Z.shiftl 1 (w8 pg)) in
      let v25 := Z.land mask v24 in
      if negb (v25 =? 0) then Some (dirty, mask) else
      d ← copied; Some (d, Z.lor mask v24)
  | _, _ => Some (dirty, mask)
  end.

(** ** A page of a buffer *)

(** [p] is the page of [h] at [base], within the first [n] bytes. *)
Record at_page (h : list Z) (n base : Z) (p : list Z) : Prop := {
  at_base : 0 <= base; at_end : base + 0x4000 <= n; at_len : n <= len h; at_small : len h < 2 ^ 63;
  at_bytes : bytes_ok h; at_eq : p = sub h base (base + 0x4000);
}.

Lemma at_page_ok h n base p : at_page h n base p -> page_ok p.
Proof. intros [? ? ? ? Hb ->]. split; [rewrite len_sub; lia | by apply bytes_ok_sub]. Qed.

Lemma at_put h n base p q : at_page h n base p -> page_ok q -> at_page (copy_at h base q) n base q.
Proof.
  intros [? ? Hn ? Hb ->] [Hq Hqb]. split; try done; rewrite ?len_copy_at; try done.
  - by apply bytes_ok_copy_at.
  - symmetry. apply sub_copy_at_eq; lia.
Qed.

(** A store in one page leaves the others. *)
Definition disjoint_at (a b : Z) : Prop := a + 0x4000 <= b \/ b + 0x4000 <= a.

Lemma at_frame h n base p b q :
  at_page h n base p -> disjoint_at base b -> 0 <= b -> page_ok q -> at_page (copy_at h b q) n base p.
Proof.
  intros [? ? ? ? Hb ->] Hd Hb0 [Hq Hqb]. split; rewrite ?len_copy_at; try done.
  - by apply bytes_ok_copy_at.
  - symmetry. unfold disjoint_at in Hd. apply sub_copy_at_ne; lia.
Qed.

(** A later store of the same page hides the first. *)
Lemma put_over h a b p q r : 0 <= a -> 0 <= b -> len p = 0x4000 -> len q = 0x4000 -> len r = 0x4000 -> disjoint_at a b ->
  copy_at (copy_at (copy_at h a p) b q) a r = copy_at (copy_at h b q) a r.
Proof.
  intros Ha Hb Hp Hq Hr Hd. unfold disjoint_at in Hd. apply bytes_ext; rewrite !len_copy_at; [done|]. intros i Hi.
  destruct (decide (a <= i < a + 0x4000)).
  - by rewrite !(rd_copy_at_in _ a r) by (rewrite ?len_copy_at; lia).
  - rewrite !(rd_copy_at_out _ a r) by lia. destruct (decide (b <= i < b + 0x4000)).
    + by rewrite !(rd_copy_at_in _ b q) by (rewrite ?len_copy_at; lia).
    + rewrite !(rd_copy_at_out _ b q) by lia. by rewrite rd_copy_at_out by lia.
Qed.

Section At.
Context {h : list Z} {n base : Z} {p : list Z}.
Hypothesis Hat : at_page h n base p.

Lemma at_facts : 0 <= base /\ base + 0x4000 <= n /\ n <= len h /\ len h < 2 ^ 63.
Proof. by destruct Hat. Qed.

Lemma at_rd a : 0 <= a < 0x4000 -> rd h (base + a) = rd p a.
Proof. destruct Hat as [? ? ? ? _ ->]. intros. by rewrite rd_sub by lia. Qed.

Lemma at_sub x y a b : x = base + a -> y = base + b -> 0 <= a <= b -> b <= 0x4000 -> sub h x y = sub p a b.
Proof. destruct Hat as [? ? ? ? _ ->]. intros -> -> Ha Hb. by rewrite sub_sub by lia. Qed.

(** The stores of a page, seen from the buffer. *)
Lemma at_copy x a src : x = base + a -> 0 <= a -> a + len src <= 0x4000 ->
  copy_at h x src = copy_at h base (copy_at p a src).
Proof.
  pose proof (at_page_ok _ _ _ _ Hat) as [Hp _]. pose proof (len_nonneg src).
  destruct Hat as [? ? ? ? _ E]. intros -> Ha Hend.
  apply bytes_ext; rewrite !len_copy_at; [done|]. intros i Hi.
  destruct (decide (base <= i < base + 0x4000)) as [Hin|Hout].
  - rewrite (rd_copy_at_in h base) by (rewrite ?len_copy_at; lia).
    destruct (decide (base + a <= i < base + a + len src)) as [Hs|Hs].
    + rewrite !rd_copy_at_in by (rewrite ?len_copy_at; lia). f_equal. lia.
    + rewrite !rd_copy_at_out by lia. rewrite E, rd_sub by lia. f_equal. lia.
  - rewrite !rd_copy_at_out by (rewrite ?len_copy_at; lia). done.
Qed.

Lemma at_put_put q r : len q = 0x4000 -> len r = 0x4000 -> copy_at (copy_at h base q) base r = copy_at h base r.
Proof.
  destruct Hat as [? ? ? ? _ _]. intros Hq Hr. apply bytes_ext; rewrite !len_copy_at; [done|]. intros i Hi.
  destruct (decide (base <= i < base + 0x4000)).
  - rewrite !rd_copy_at_in by (rewrite ?len_copy_at; lia). done.
  - rewrite !rd_copy_at_out by lia. done.
Qed.

Lemma at_id : copy_at h base p = h.
Proof.
  pose proof (at_page_ok _ _ _ _ Hat) as [Hp _]. destruct Hat as [? ? ? ? _ E].
  apply bytes_ext; rewrite !len_copy_at; [done|]. intros i Hi.
  destruct (decide (base <= i < base + 0x4000)).
  - rewrite rd_copy_at_in by lia. rewrite E, rd_sub by lia. f_equal. lia.
  - by rewrite rd_copy_at_out by lia.
Qed.

Lemma bt_read8_at x a : x = base + a -> 0 <= a -> a + 1 <= 0x4000 -> bt_read8 (Some h) n x = rd p a.
Proof.
  intros -> Ha Hend. destruct at_facts as (? & ? & ? & ?).
  rewrite bt_read8_db, db_read8_eq by lia. apply at_rd. lia.
Qed.

Lemma bt_read16_at x a : x = base + a -> 0 <= a -> a + 2 <= 0x4000 -> bt_read16 (Some h) n x = fld p a.
Proof.
  intros -> Ha Hend. destruct at_facts as (? & ? & ? & ?).
  rewrite bt_read16_eq by (apply Hat || lia). unfold fld. f_equal. apply at_sub; lia.
Qed.

Lemma bt_read64_at x a : x = base + a -> 0 <= a -> a + 8 <= 0x4000 ->
  bt_read64 (Some h) n x = le_get 8 (sub p a (a + 8)).
Proof.
  intros -> Ha Hend. destruct at_facts as (? & ? & ? & ?).
  rewrite bt_read64_db, db_read64_eq by (apply Hat || lia). f_equal. apply at_sub; lia.
Qed.

Lemma bt_write16_at x a v : x = base + a -> 0 <= a -> a + 2 <= 0x4000 ->
  bt_write16 (Some h) n x v = Some (copy_at h base (copy_at p a (le_put 2 v))).
Proof.
  intros -> Ha Hend. destruct at_facts as (? & ? & ? & ?). rewrite bt_write16_db, db_write16_eq by lia.
  f_equal. apply at_copy; rewrite ?len_le_put; lia.
Qed.

Lemma bt_write64_at x a v : x = base + a -> 0 <= a -> a + 8 <= 0x4000 ->
  bt_write64 (Some h) n x v = Some (copy_at h base (copy_at p a (le_put 8 v))).
Proof.
  intros -> Ha Hend. destruct at_facts as (? & ? & ? & ?). rewrite bt_write64_db, db_write64_eq by lia.
  f_equal. apply at_copy; rewrite ?len_le_put; lia.
Qed.

Lemma bt_write8_at x a v : x = base + a -> 0 <= a -> a + 1 <= 0x4000 ->
  bt_write8 (Some h) n x v = Some (copy_at h base (wr p a v)).
Proof.
  intros -> Ha Hend. destruct at_facts as (? & ? & ? & ?). rewrite bt_write8_db, db_write8_eq by lia.
  f_equal. rewrite !wr_copy_at. apply at_copy; rewrite ?len_single; lia.
Qed.

Lemma bt_off_ok_at a k : 0 <= a < 0x4000 -> 0 <= k -> a + k <= 0x4000 -> (bt_off_ok n base a k =? 0) = false.
Proof.
  intros Ha Hk Hend. destruct at_facts as (? & ? & ? & ?). unfold bt_off_ok. unwrap.
  do 4 (ifcase; [lia|]). zcases; done.
Qed.

Lemma bt_off_ok_out a k : 0 <= a -> 0 <= k < 2 ^ 64 -> 0x4000 < a + k -> bt_off_ok n base a k = 0.
Proof.
  intros Ha Hk Hout. unfold bt_off_ok. ifcase; [done|]. unwrap. ifcase; [done | lia].
Qed.
End At.

(** ** A node of a buffer *)

Section Node.
Context {h : list Z} {n base : Z} {p : list Z} {ty idl : Z} {cs : list cell} {hi : Z}.
Hypothesis Hat : at_page h n base p.
Hypothesis Hrep : node ty idl p cs hi.

Lemma at_type x : x = base + 20 -> bt_read8 (Some h) n x = ty.
Proof. intros ->. rewrite (bt_read8_at Hat _ 20) by lia. apply Hrep. Qed.

Lemma at_count x : x = base + 22 -> bt_read16 (Some h) n x = len cs.
Proof. intros ->. rewrite (bt_read16_at Hat _ 22) by lia. apply Hrep. Qed.

(** Every read the kernels make of the [i]-th cell. *)
Lemma open_at i c : 0 <= i -> cs !! Z.to_nat i = Some c -> exists off,
  (64 +% (i *% 2))%u64 = slot_addr i /\ (bt_off_ok n base (slot_addr i) 2 =? 0) = false /\
  bt_read16 (Some h) n (w64 (base + slot_addr i)) = off /\ fld p (slot_addr i) = off /\
  64 <= off /\ off + (4 + len (cKey c) + idl + len (cVal c)) <= 0x4000 /\
  (forall m, 0 <= m <= 4 + len (cKey c) + idl + len (cVal c) -> (bt_off_ok n base off m =? 0) = false) /\
  bt_read16 (Some h) n (base + off) = len (cKey c) /\ bt_read16 (Some h) n (base + off + 2) = len (cVal c) /\
  sub h (base + off + 4) (base + off + 4 + len (cKey c)) = cKey c /\
  sub h (base + off + 4 + len (cKey c)) (base + off + 4 + len (cKey c) + idl) = cId c /\
  sub h (base + off + 4 + len (cKey c) + idl) (base + off + 4 + len (cKey c) + idl + len (cVal c)) = cVal c /\
  len (cId c) = idl /\ 0 <= len (cKey c) /\ 0 <= idl /\ 0 <= len (cVal c) /\ cell_at p off c.
Proof.
  intros Hi Hc. pose proof (rep_page _ _ _ _ _ Hrep) as Hp. pose proof (rep_count Hrep).
  destruct (at_facts Hat) as (? & ? & ? & ?).
  destruct (rep_cell Hrep i c Hi Hc) as (Hn & Hs & _). pose proof (rep_room _ _ _ _ _ Hrep).
  destruct (rep_open Hrep i c Hi Hc) as (off & Haddr & _ & Hoff & ? & ? & _ & _ & Hkl & Hvl & Hkey & Hid & Hval & ? & ? & ? & ? & ?).
  exists off. unfold slot_addr in *.
  rewrite bt_read16_fld in Hoff, Hkl, Hvl by (done || lia).
  split_and!; try done; try lia.
  - apply (bt_off_ok_at Hat); lia.
  - unwrap. by rewrite (bt_read16_at Hat _ (64 + i * 2)) by lia.
  - intros m Hm. apply (bt_off_ok_at Hat); lia.
  - by rewrite (bt_read16_at Hat _ off) by lia.
  - by rewrite (bt_read16_at Hat _ (off + 2)) by lia.
  - rewrite <- Hkey at 2. apply (at_sub Hat); lia.
  - rewrite <- Hid. apply (at_sub Hat); lia.
  - rewrite <- Hval at 2. apply (at_sub Hat); lia.
Qed.

Lemma bt_find_at_eq k : 0 < len k <= 0xffff ->
  bt_find_at (Some h) n base (Some k) (len k) = Some (Z.of_nat (find_idx cs k)).
Proof.
  intros Hk. destruct (at_facts Hat) as (? & ? & ? & ?). pose proof (rep_count Hrep). pose proof (len_nonneg cs).
  unfold bt_find_at. unwrap. rewrite at_count by done.
  match goal with |- context [for_range 0 (len cs) ?body tt] =>
    destruct (for_range_inv (S:=unit) (R:=Z)
      (fun i _ => forall j c, (j < Z.to_nat i)%nat -> cs !! j = Some c -> cKey c <> k)
      (fun r => match r with inl _ => len cs | inr v => v end = Z.of_nat (find_idx cs k))
      0 (len cs) body tt) as (r & Hr & HQ); [lia | intros; lia | | |] end.
  - intros i t Hi Hinv. cbv zeta. destruct (rep_lookup i Hi) as [c Hc].
    destruct (open_at i c ltac:(lia) Hc) as (off & -> & -> & -> & _ & ? & ? & Hbd & Hkl & _ & Hkey & _ & _ & _ & ? & ? & ? & _).
    rewrite Hbd by lia. cbn [negb]. unwrap. rewrite Hkl.
    assert (Hnext : cKey c <> k -> forall j c', (j < Z.to_nat (i + 1))%nat -> cs !! j = Some c' -> cKey c' <> k).
    { intros Hne j c' Hj Hc'. destruct (decide (j = Z.to_nat i)) as [->|]; [congruence|].
      apply (Hinv j c'); [lia | done]. }
    destruct (Z.eqb_spec (len (cKey c)) (len k)) as [El|El]; [|apply Hnext; congruence].
    unwrap. rewrite <- El, bt_keyeq_eq, Hkey by lia. cbn [mbind option_bind].
    case_bool_decide as Ek; cbn [Z.eqb negb]; [|by apply Hnext].
    rewrite (find_idx_spec cs k (Z.to_nat i)); [lia | done |]. right. eauto.
  - intros t Hinv. rewrite (find_idx_spec cs k (length cs)); [done | | by left].
    intros j c Hj. apply Hinv. unfold len. lia.
  - rewrite Hr. cbn [mbind option_bind]. by rewrite HQ.
Qed.
End Node.

(** ** The versioned leaf of a buffer *)

Section Leaf.
Context {h : list Z} {n base : Z} {p : list Z} {cs : list cell} {hi : Z}.
Hypothesis Hat : at_page h n base p.
Hypothesis Hrep : rep 16 p cs hi.

(** The search is the one of the single page. *)
Lemma bt_find_ver_pos_at_eq key id : len id = 16 ->
  bt_find_ver_pos_at (Some h) n base (Some key) (len key) (Some id) = Some (Z.of_nat (ver_pos cs key id)).
Proof.
  intros Hid. rewrite <- (bt_find_ver_pos_eq Hrep) by done.
  destruct (rep_page _ _ _ _ _ Hrep) as [Hl Hb]. destruct (at_facts Hat) as (? & ? & ? & ?). pose proof (rep_count Hrep).
  unfold bt_find_ver_pos_at, bt_find_ver_pos. unwrap. rewrite (at_count Hat Hrep) by done.
  rewrite (rep_read_nslots Hrep). f_equal. apply for_range_ext. intros i t Hi.
  destruct (rep_lookup i Hi) as [c Hc]. destruct (rep_open Hrep i c ltac:(lia) Hc)
    as (off' & -> & -> & -> & ? & ? & _ & Hbd' & -> & _ & Hkey' & Hid' & _).
  destruct (open_at Hat Hrep i c ltac:(lia) Hc) as (off & _ & -> & -> & Hoff & ? & ? & Hbd & Hkl & _ & Hkey & Hidc & _ & Hl16 & ? & _ & ? & _).
  rewrite !Hbd, !Hbd' by lia. unwrap. rewrite Hkl. unwrap. rewrite Hbd, Hbd' by lia.
  rewrite !bt_keycmp_at_eq, Hkey, Hkey' by lia. cbn [mbind option_bind].
  rewrite <- Hid at 2 4. by rewrite !bt_keycmp_at_eq, Hidc, Hid' by lia.
Qed.
End Leaf.

(** ** Slots of a buffer *)

Lemma shift_slots_at_eq fuel h n base p pos v m q :
  at_page h n base p -> 0 <= pos -> v <= m -> slot_addr (m + 1) <= 0x4000 ->
  shift_slots fuel (Some p) 0x4000 pos v = Some (Some q) ->
  shift_slots_at fuel (Some h) n base pos v = Some (Some (copy_at h base q)) /\ page_ok q.
Proof.
  revert h p v. induction fuel as [|fuel IH]; intros h p v Hat Hpos Hm Hend Hs; [done|].
  pose proof (at_page_ok _ _ _ _ Hat) as Hp. destruct (at_facts Hat) as (? & ? & ? & ?).
  cbn [shift_slots shift_slots_at] in *. rewrite Z.gtb_ltb in *. unfold slot_addr in Hend.
  destruct (Z.ltb_spec pos v) as [Hlt|Hge].
  2:{ injection Hs as <-. by rewrite (at_id Hat). }
  rewrite last_index in * by lia. rewrite !slot_u64 in * by lia. unfold slot_addr in *. unwrap.
  rewrite bt_read16_fld, bt_write16_eq in Hs by (done || lia).
  rewrite (bt_read16_at Hat _ (64 + (v - 1) * 2)) by lia.
  rewrite (bt_write16_at Hat _ (64 + v * 2)) by lia.
  set (p' := copy_at p (64 + v * 2) _) in *. assert (Hp' : page_ok p') by (by apply page_ok_put).
  destruct (IH (copy_at h base p') p' (v - 1)) as [IH' Hq]; [by eapply at_put | done | lia | lia | done |].
  rewrite IH'. split; [|done]. do 2 f_equal. apply (at_put_put Hat); [apply Hp' | apply Hq].
Qed.

Lemma bt_slot_insert_at_eq h n base p pos nslots off q :
  at_page h n base p -> 0 <= pos <= nslots -> slot_addr (nslots + 1) <= 0x4000 ->
  bt_slot_insert (Some p) 0x4000 pos nslots off = Some (Some q) ->
  bt_slot_insert_at (Some h) n base pos nslots off = Some (Some (copy_at h base q)).
Proof.
  intros Hat Hpos Hend Hs. destruct (at_facts Hat) as (? & ? & ? & ?). pose proof (at_page_ok _ _ _ _ Hat) as Hp.
  unfold bt_slot_insert_at, bt_slot_insert in *. rewrite clamp_le in * by (destruct Hp; lia).
  destruct (shift_slots _ _ _ _ _) as [s|] eqn:Hsh; [|done]. cbn [mbind option_bind] in Hs.
  destruct s as [s|]; [|done].
  destruct (shift_slots_at_eq _ _ _ _ _ pos nslots nslots _ Hat (proj1 Hpos) ltac:(lia) Hend Hsh) as [-> Hsok].
  cbn [mbind option_bind]. unfold slot_addr in Hend. rewrite slot_u64 in * by lia.
  unfold slot_addr in *. unwrap. rewrite bt_write16_eq in Hs by (done || lia). injection Hs as <-.
  pose proof (at_put _ _ _ _ _ Hat Hsok) as Hat'.
  rewrite (bt_write16_at Hat' _ (64 + pos * 2)) by lia. do 2 f_equal.
  apply (at_put_put Hat); rewrite ?len_copy_at; apply Hsok.
Qed.

(** A store of a cell, seen from the buffer. *)
Lemma bt_ver_stores_at {B} h n base p off key id val (k : slice -> option B) :
  at_page h n base p -> bytes_ok key -> bytes_ok id -> bytes_ok val -> len id = 16 ->
  0 <= off -> off + (4 + len key + 16 + len val) <= 0x4000 ->
  bt_copy_in (bt_write16 (bt_write16 (Some h) n (base + off) (len key)) n (base + off + 2) (len val))
      n (base + off + 4) (Some key) (len key) ≫= (fun d =>
    bt_copy_in d n (base + off + 4 + len key) (Some id) 16 ≫= (fun d =>
    (if len val >? 0 then bt_copy_in d n (base + off + 4 + len key + 16) (Some val) (len val) else Some d) ≫= k))
  = k (Some (copy_at h base (copy_at p off (cell_bytes {| cKey := key; cId := id; cVal := val |})))).
Proof.
  intros Hat Hkey Hidb Hval Hid Hoff Hend. destruct (at_facts Hat) as (? & ? & ? & ?).
  pose proof (len_nonneg key). pose proof (len_nonneg val).
  rewrite bt_write16_db, db_write16_eq by lia. rewrite db_write16_eq by (rewrite ?len_copy_at; lia).
  rewrite bt_copy_in_eq, sub_full by (rewrite ?len_copy_at; lia). cbn [mbind option_bind].
  rewrite bt_copy_in_eq by (rewrite ?len_copy_at; lia). cbn [mbind option_bind].
  replace (sub id 0 16) with id by (rewrite <- Hid; by rewrite sub_full).
  replace (if len val >? 0 then _ else _) with (Some (Some (copy_at (copy_at (copy_at (copy_at (copy_at h (base + off) (le_put 2 (len key)))
    (base + off + 2) (le_put 2 (len val))) (base + off + 4) key) (base + off + 4 + len key) id) (base + off + 4 + len key + 16) val))).
  2:{ zcase; [by rewrite bt_copy_in_eq, sub_full by (rewrite ?len_copy_at; lia)|].
      rewrite (len_nil_inv val) by lia. by rewrite copy_at_nil. }
  cbn [mbind option_bind]. do 2 f_equal. rewrite <- (at_copy Hat (base + off)).
  - unfold cell_bytes. cbn [cKey cId cVal]. by rewrite !copy_at_app by (rewrite ?len_app, ?len_le_put; lia).
  - done.
  - done.
  - rewrite len_cell_bytes. unfold clen. cbn [cKey cId cVal]. lia.
Qed.

(** The header of a page, seen from the buffer. *)
Lemma set_hdr_at h n base p cnt lo hi : at_page h n base p ->
  bt_write16 (bt_write16 (bt_write16 (Some h) n (base + 22) cnt) n (base + 24) lo) n (base + 26) hi
  = Some (copy_at h base (set_hdr p cnt lo hi)).
Proof.
  intros Hat. destruct (at_facts Hat) as (? & ? & ? & ?). pose proof (at_page_ok _ _ _ _ Hat) as Hp.
  rewrite (bt_write16_at Hat _ 22) by lia. pose proof (at_put _ _ _ _ _ Hat (page_ok_put _ 22 2 cnt Hp)) as Hat1.
  rewrite (bt_write16_at Hat1 _ 24) by lia. rewrite (at_put_put Hat) by (rewrite ?len_copy_at; apply Hp).
  pose proof (at_put _ _ _ _ _ Hat (page_ok_put _ 24 2 lo (page_ok_put _ 22 2 cnt Hp))) as Hat2.
  rewrite (bt_write16_at Hat2 _ 26) by lia. rewrite (at_put_put Hat) by (rewrite ?len_copy_at; apply Hp). done.
Qed.

(** What an insertion leaves alone: the first twenty bytes, with the link. *)
Definition same_head (p q : list Z) : Prop := forall a, 0 <= a < 20 -> rd q a = rd p a.

Lemma bt_insert_ver_at_eq h n base p cs hi key id val :
  at_page h n base p -> rep 16 p cs hi -> bytes_ok key -> bytes_ok id -> bytes_ok val -> len id = 16 ->
  0 < len key <= 0xffff -> len val <= 0xffff ->
  let c := {| cKey := key; cId := id; cVal := val |} in
  let cs' := insert_at (ver_pos cs key id) c cs in
  let r := bt_insert_ver_at (Some h) n base (Some key) (len key) (Some id) (Some val) (len val) in
  if slot_addr (len cs + 1) + clen c <=? hi
  then exists p', r = Some (Some (copy_at h base p'), {| Nkeys := len cs'; Ok := 1; Copied := 0 |}) /\
    rep 16 p' cs' (hi - clen c) /\ same_head p p'
  else r = Some (Some h, {| Nkeys := len cs; Ok := 0; Copied := 0 |}).
Proof.
  intros Hat Hrep Hkey Hidb Hval Hid Hk Hv c cs' r. subst r. pose proof (rep_page _ _ _ _ _ Hrep) as Hp.
  destruct (at_facts Hat) as (? & ? & ? & ?). pose proof (rep_room _ _ _ _ _ Hrep) as Hroom.
  pose proof (rep_count Hrep). pose proof (len_nonneg cs). pose proof (len_nonneg val).
  assert (Hclen : clen c = 4 + len key + 16 + len val) by (unfold clen; cbn; lia).
  assert (Hcb : bytes_ok (cell_bytes c)) by (by apply bytes_ok_cell).
  pose proof (ver_pos_le cs key id) as Hvp.
  unfold bt_insert_ver_at. cbn [is_nil orb negb]. rewrite andb_false_r. unwrap.
  rewrite (at_type Hat Hrep), (at_count Hat Hrep (base + 22)) by done. cbn [Z.eqb Pos.eqb negb].
  rewrite (bt_read16_at Hat (base + 24) 24), (bt_read16_at Hat (base + 26) 26) by lia.
  rewrite (rep_lo _ _ _ _ _ Hrep), (rep_hi _ _ _ _ _ Hrep).
  rewrite (bt_find_ver_pos_at_eq Hat Hrep) by done. cbn [mbind option_bind].
  destruct (Z.leb_spec (slot_addr (len cs + 1) + clen c) hi) as [Hfit|Hfull];
    unfold slot_addr in Hroom, Hfit || unfold slot_addr in Hroom, Hfull; unfold slot_addr;
    rewrite <- ?Hclen.
  2:{ unwrap. repeat (ifcase; try done; try lia; unwrap). }
  repeat (ifcase; [lia|]). unwrap. repeat (ifcase; [lia|]). unwrap.
  rewrite (bt_off_ok_at Hat) by lia. unwrap. replace (base + (hi - clen c) + 4) with (base + (hi - clen c) + 4) by lia.
  rewrite (bt_ver_stores_at h n base p (hi - clen c) key id val) by (done || lia). fold c.
  replace (if Z.of_nat (ver_pos cs key id) >? len cs then len cs else Z.of_nat (ver_pos cs key id))
    with (Z.of_nat (ver_pos cs key id)) by (unfold len in *; zcase; lia).
  destruct (slot_insert_rep 1 16 p cs hi c (ver_pos cs key id)) as (q & Hins & Hq & Hsame & Hrep'); [done..|].
  pose proof (at_put _ _ _ _ _ Hat (page_ok_copy_at p (hi - clen c) _ Hp Hcb)) as Hat'.
  erewrite (bt_slot_insert_at_eq _ _ _ _ _ _ _ _ Hat'); [|unfold len in *; lia | unfold slot_addr; lia | done].
  cbn [mbind option_bind]. rewrite (at_put_put Hat) by (rewrite ?len_copy_at; apply Hp || apply Hq).
  rewrite (set_hdr_at _ n base q) by (by eapply at_put). rewrite (at_put_put Hat) by (apply Hq || apply set_hdr_ok; done).
  eexists. split; [|split; [exact Hrep'|]].
  - unfold cs'. rewrite len_insert_at. unfold slot_addr. by replace (64 + (len cs + 1) * 2) with (64 + len cs * 2 + 2) by lia.
  - intros a Ha. rewrite set_hdr_rd by lia. apply Hsame. lia.
Qed.

(** ** Reading as of a snapshot *)

Lemma as_of_step_ne key snap best c : cKey c <> key -> as_of_step key snap best c = best.
Proof.
  intros Hne. unfold as_of_step. destruct (Z.eqb_spec (Compare (cKey c) key) 0) as [E|E]; [|done].
  by apply Compare_eq in E.
Qed.

(** Cells of other keys do not matter. *)
Lemma foldl_as_of_ne key snap best cs : Forall (fun c => cKey c <> key) cs -> foldl (as_of_step key snap) best cs = best.
Proof. induction 1 as [|c cs Hc _ IH]; [done|]. cbn [foldl]. by rewrite as_of_step_ne. Qed.

Lemma as_of_skip key snap l1 cs l2 :
  Forall (fun c => cKey c <> key) l1 -> Forall (fun c => cKey c <> key) l2 ->
  as_of (l1 ++ cs ++ l2) key snap = as_of cs key snap.
Proof. intros H1 H2. unfold as_of. rewrite !foldl_app. by rewrite (foldl_as_of_ne _ _ _ l1), (foldl_as_of_ne _ _ _ l2). Qed.

(** After the first greater key no cell has the key. *)
Lemma sorted_greater cs i c key : StronglySorted ver_le cs -> cs !! i = Some c -> blt key (cKey c) ->
  Forall (fun d => cKey d <> key) (drop i cs).
Proof.
  intros Hs Hc Hlt. revert i Hc. induction Hs as [|d cs Hs IH Hall]; intros i Hc; [done|].
  destruct i as [|i]; [|by apply IH]. injection Hc as ->. cbn [drop]. constructor.
  - intros E. rewrite E in Hlt. by eapply blt_irrefl.
  - eapply Forall_impl; [exact Hall|]. intros e He Ee. apply ver_le_spec in He as [He|[He _]]; rewrite Ee in He.
    + eapply blt_irrefl, blt_trans; eauto.
    + rewrite He in Hlt. by eapply blt_irrefl.
Qed.

Lemma sorted_stop cs i c key snap : StronglySorted ver_le cs -> cs !! i = Some c -> blt key (cKey c) ->
  as_of cs key snap = as_of (take i cs) key snap.
Proof.
  intros Hs Hc Hlt. rewrite <- (take_drop i cs) at 1. unfold as_of. rewrite foldl_app.
  apply foldl_as_of_ne. by eapply sorted_greater.
Qed.

(** [best_at] with the addresses of the ids in the buffer. *)
Definition best_from (p : list Z) (cs : list cell) (key snap : list Z) (base i : Z) (st : option (Z * Z)) : Prop :=
  best_at (p:=p) (cs:=cs) key snap i ((fun '(o, io) => (o, io - base)) <$> st).

(** The early stop makes no difference: on ordered cells the read is the one of
    all the cells. *)
Lemma bt_get_as_of_at_eq h n base p cs hi key snap out :
  at_page h n base p -> rep 16 p cs hi -> StronglySorted ver_le cs ->
  0 < len key <= 0xffff -> len snap = 16 -> len out < 2 ^ 64 ->
  bt_get_as_of_at (Some h) n base (Some key) (len key) (Some snap) (Some out) (len out)
    = get_result (cVal <$> as_of cs key snap) out.
Proof.
  intros Hat Hrep Hsorted Hk Hsnap Hout. pose proof (rep_page _ _ _ _ _ Hrep) as Hp. pose proof (rep_count Hrep).
  pose proof (len_nonneg cs). destruct (id Hp) as [Hl Hb]. destruct (at_facts Hat) as (? & ? & ? & ?).
  unfold bt_get_as_of_at. cbn [is_nil orb negb]. repeat (ifcase; [lia|]). unwrap.
  rewrite (at_type Hat Hrep) by done. cbn [Z.eqb Pos.eqb negb]. rewrite (at_count Hat Hrep) by done.
  match goal with |- context [for_range 0 (len cs) ?body None] =>
    destruct (for_range_inv (S:=option (Z * Z)) (R:=unit) (best_from p cs key snap base)
      (fun r => match r with inl st => best_from p cs key snap base (len cs) st | inr _ => False end)
      0 (len cs) body None) as (r & Hr & HQ); [lia | done | | done |] end.
  - intros i st Hi Hinv. cbv zeta. destruct (rep_lookup i Hi) as [c Hc].
    pose proof (best_at_step key snap i c _ ltac:(lia) Hc Hinv) as Hnext.
    destruct (open_at Hat Hrep i c ltac:(lia) Hc) as (off & -> & -> & -> & Eoff & ? & ? & Hbd & Hkl & Hvl & Hkey & Hidc & _ & Hl16 & ? & _ & ? & _).
    rewrite bt_read16_fld, Eoff in Hnext by (done || (pose proof (rep_room _ _ _ _ _ Hrep); unfold slot_addr in *; lia)).
    rewrite Hbd by lia. unwrap. rewrite Hkl, Hvl. unwrap. rewrite Hbd by lia.
    rewrite bt_keycmp_at_eq, Hkey by lia. cbn [mbind option_bind].
    rewrite Z.gtb_ltb. destruct (Z.ltb_spec 0 (Compare (cKey c) key)) as [Hgt|Hle].
    { unfold best_from, best_at in *. rewrite take_ge by (unfold len; lia).
      rewrite (sorted_stop cs (Z.to_nat i) c key snap) by (done || (unfold blt; rewrite Compare_antisym; lia)). done. }
    destruct (Compare (cKey c) key =? 0); [|done].
    assert (Hidcmp : forall o d, 0 <= o -> o + 16 <= 0x4000 -> sub h (base + o) (base + o + 16) = cId d ->
      bt_keycmp_at (Some h) n (base + o) 16 (Some snap) 16 = Some (Compare (cId d) snap)).
    { intros o d ? ? Eo. rewrite <- Hsnap at 2. by rewrite bt_keycmp_at_eq, Eo by lia. }
    replace (base + off + 4 + len (cKey c)) with (base + (off + 4 + len (cKey c))) in * by lia.
    rewrite (Hidcmp _ c) by (done || lia). cbn [mbind option_bind andb] in *.
    destruct (Compare (cId c) snap <=? 0); [|done].
    unfold best_from, best_at in Hinv.
    destruct (as_of (take (Z.to_nat i) cs) key snap) as [d|], st as [[o io]|]; cbn [fmap option_fmap option_map] in *; try done.
    2:{ unfold best_from. cbn. by rewrite Z.add_simpl_l. }
    destruct Hinv as (j & Hj & Hd & -> & Eio).
    destruct (open_at Hat Hrep j d Hj Hd) as (off' & _ & _ & _ & Eoff' & ? & ? & _ & _ & _ & _ & Hidd & _ & _ & ? & _ & ? & _).
    destruct (rep_cell Hrep j d Hj Hd) as (? & ? & _). pose proof (rep_room _ _ _ _ _ Hrep).
    rewrite bt_read16_fld, Eoff' in * by (done || (unfold slot_addr in *; lia)).
    replace io with (base + off' + 4 + len (cKey d)) by lia.
    rewrite bt_keycmp_pp_eq, Hidc, Hidd by lia. cbn [mbind option_bind].
    destruct (Compare (cId c) (cId d) >? 0); unfold best_from; cbn.
    + by rewrite Z.add_simpl_l.
    + by replace (base + off' + 4 + len (cKey d) - base) with (io - base) by lia.
  - rewrite Hr. cbn [mbind option_bind]. destruct r as [st|]; [|done]. unfold best_from, best_at in HQ.
    rewrite take_ge in HQ by (unfold len; lia).
    destruct (as_of cs key snap) as [c|], st as [[o io]|]; cbn [fmap option_fmap option_map] in *; try done.
    destruct HQ as (j & Hj & Hc & -> & _).
    destruct (open_at Hat Hrep j c Hj Hc) as (off & _ & _ & _ & Eoff & ? & ? & _ & Hkl & Hvl & _ & _ & Hval & _ & ? & ? & ? & _).
    destruct (rep_cell Hrep j c Hj Hc) as (? & ? & _). pose proof (rep_room _ _ _ _ _ Hrep).
    rewrite bt_read16_fld, Eoff by (done || (unfold slot_addr in *; lia)). unwrap. rewrite Hkl, Hvl. unwrap.
    by rewrite (copy_value h n (base + off + 4 + len (cKey c) + 16) (cVal c) out) by (done || lia).
Qed.

(** ** Internal pages *)

(** The eight bytes at 8: the next leaf, or the first child. *)
Definition link (p : list Z) : Z := le_get 8 (sub p 8 16).
Definition child_id (s : cell) : Z := le_get 8 (cId s).

(** The child for [key]: the one after the last separator that is not greater. *)
Fixpoint child_for (c0 : Z) (sc : list cell) (key : list Z) : Z :=
  match sc with
  | [] => c0
  | s :: sc' => if Compare (cKey s) key >? 0 then c0 else child_for (child_id s) sc' key
  end.

Lemma bt_read_link h n base p : at_page h n base p -> bt_read64 (Some h) n (base + 8) = link p.
Proof. intros Hat. unfold link. by rewrite (bt_read64_at Hat _ 8) by lia. Qed.

Lemma bt_read64_sub h n x l : bytes_ok h -> n <= len h < 2 ^ 63 -> 0 <= x -> x + 8 <= n -> sub h x (x + 8) = l ->
  bt_read64 (Some h) n x = le_get 8 l.
Proof. intros Hb Hn Hx Hend <-. by rewrite bt_read64_db, db_read64_eq by (done || lia). Qed.

Lemma bt_internal_child_eq h n base p sc hi key :
  at_page h n base p -> node 2 8 p sc hi ->
  bt_internal_child (Some h) n base (Some key) (len key) = Some (child_for (link p) sc key).
Proof.
  intros Hat Hrep. destruct (at_facts Hat) as (? & ? & ? & ?). pose proof (rep_count Hrep). pose proof (len_nonneg sc).
  unfold bt_internal_child. unwrap. rewrite (bt_read_link _ _ _ _ Hat), (at_count Hat Hrep) by done.
  match goal with |- context [for_range 0 (len sc) ?body ?v0] =>
    destruct (for_range_inv (S:=Z) (R:=Z)
      (fun i v => child_for (link p) sc key = child_for v (drop (Z.to_nat i) sc) key)
      (fun r => match r with inl v => v | inr v => v end = child_for (link p) sc key)
      0 (len sc) body v0) as (r & Hr & HQ); [lia | done | | |] end.
  - intros i v Hi Hinv. cbv zeta. destruct (rep_lookup i Hi) as [c Hc].
    rewrite (drop_S _ c) in Hinv by done. cbn [child_for] in Hinv.
    destruct (open_at Hat Hrep i c ltac:(lia) Hc) as (off & -> & -> & -> & _ & ? & ? & Hbd & Hkl & _ & Hkey & Hidc & _ & Hl8 & ? & _ & ? & _).
    rewrite Hbd by lia. unwrap. rewrite Hkl. unwrap. rewrite Hbd by lia.
    rewrite bt_keycmp_at_eq, Hkey by lia. cbn [mbind option_bind].
    destruct (Compare (cKey c) key >? 0); [done|].
    rewrite (bt_read64_sub h n _ (cId c)) by (apply Hat || done || lia).
    by replace (Z.to_nat (i + 1)) with (S (Z.to_nat i)) by lia.
  - intros v Hinv. rewrite drop_ge in Hinv by (unfold len; lia). done.
  - rewrite Hr. cbn [mbind option_bind]. by rewrite HQ.
Qed.

(** The probe of an insertion: is there a version of [key]? *)
Lemma bt_get_at_eq h n base p cs hi idl key : at_page h n base p -> rep idl p cs hi -> 0 < len key <= 0xffff ->
  exists l, bt_get_at (Some h) n base (Some key) (len key) None 0 =
    Some ({| Len := l; Walked := 0; Found := if (find_idx cs key <? length cs)%nat then 1 else 0; Fallback := 0 |}, None).
Proof.
  intros Hat Hrep Hk. destruct (at_facts Hat) as (? & ? & ? & ?). pose proof (rep_count Hrep). pose proof (len_nonneg cs).
  unfold bt_get_at. cbn [is_nil orb negb]. repeat (ifcase; [lia|]). unwrap.
  rewrite (at_type Hat Hrep) by done. cbn [Z.eqb Pos.eqb negb].
  rewrite (bt_find_at_eq Hat Hrep) by done. cbn [mbind option_bind]. rewrite (at_count Hat Hrep) by done.
  pose proof (find_idx_le cs key). destruct (Nat.ltb_spec (find_idx cs key) (length cs)) as [Hlt|Hge].
  2:{ exists 0. ifcase; [done | unfold len in *; lia]. }
  ifcase; [unfold len in *; lia|].
  destruct (lookup_lt_is_Some_2 cs (find_idx cs key) Hlt) as [c Hc]. pose proof (find_idx_key _ _ _ Hc) as Ekey.
  rewrite <- (Nat2Z.id (find_idx cs key)) in Hc.
  destruct (open_at Hat Hrep (Z.of_nat (find_idx cs key)) c ltac:(lia) Hc) as (off & -> & -> & -> & _ & ? & ? & Hbd & Hkl & Hvl & _ & _ & _ & _ & ? & ? & ? & _).
  rewrite Hbd by lia. unwrap. rewrite Hkl, Hvl, Ekey, Z.eqb_refl. cbn [negb]. rewrite Ekey in *. unwrap. rewrite Hbd by lia.
  eexists. done.
Qed.

End BtHeap.
