(* ===== verification/BtTree.v ===== *)
(** * The B-tree of many pages (src/pkg/c2db/db_btree_gen.go)

    Leaves and internal pages of one buffer.  [tree h np pg lo up lv ips] says
    that page [pg] is the root of a well-formed subtree whose keys are between
    [lo] and [up], with the leaves [lv] in order and the internal pages [ips].
    The descent of a read reaches the leaf of the key within as many steps as
    there are internal pages. *)

From stdpp Require Import sorting.
From S2P Require Import Prelude Bytes PageKernel BtMem BtLeaf BtVersion BtHeap.
Import Bytes PageKernel BtMem BtLeaf BtVersion BtHeap.

Local Open Scope Z_scope.

Module BtTree.

(** ** Reading the buffer *)

Definition walked (w : Z) (g : Db_bt_get_t) : Db_bt_get_t :=
  {| Len := Len g; Walked := w; Found := Found g; Fallback := 0 |}.

(** The guard of the entry points: [nbytes] is [npages] whole pages. *)
Definition bad_size (nbytes npages : Z) : bool :=
  negb (nbytes / 0x4000 =? npages) || negb (w64 (npages * 0x4000) =? nbytes).

(** [for v15 == 2 && v11 < npages]: the fuel is [npages - v11].  The result is
    the number of pages walked to a bad child, or the page reached, the number
    of steps and the page's type. *)
Fixpoint get_descend (fuel : nat) (heap : slice) (nbytes npages : Z) (key : slice) (klen v10 v11 : Z)
    : option (Z + Z * Z * Z) :=
  let v13 := w64 (v10 * 0x4000) in
  let v15 := bt_read8 heap nbytes (w64 (v13 + 20)) in
  if negb (v15 =? 2) then Some (inr (v10, v11, v15)) else
  match fuel with
  | O => Some (inr (v10, v11, v15))
  | S fuel' =>
      v50 ← bt_internal_child heap nbytes v13 key klen;
      if v50 >=? npages then Some (inl (w64 (v11 + 1))) else
      if v50 =? v10 then Some (inl (w64 (v11 + 1))) else
      get_descend fuel' heap nbytes npages key klen v50 (w64 (v11 + 1))
  end.

(** [for v11 < npages] along the leaves of a tree without internal pages. *)
Fixpoint get_chain (fuel : nat) (heap : slice) (nbytes npages : Z) (key : slice) (klen : Z) (snap16 : slice)
    (out : slice) (outn v10 v11 : Z) (v9 : Db_bt_get_t) : option (Db_bt_get_t * slice) :=
  match fuel with
  | O => Some (walked v11 v9, out)
  | S fuel' =>
      if v10 >=? npages then Some ({| Len := Len v9; Walked := v11; Found := Found v9; Fallback := Fallback v9 |}, out) else
      let v13 := w64 (v10 * 0x4000) in
      '(v9, out) ← bt_get_as_of_at heap nbytes v13 key klen snap16 out outn;
      if negb (Found v9 =? 0) then Some (walked (w64 (v11 + 1)) v9, out) else
      let v78 := bt_read64 heap nbytes (w64 (v13 + 8)) in
      if v78 =? 0 then Some (walked (w64 (v11 + 1)) v9, out) else
      if v78 =? v10 then Some (walked (w64 (v11 + 1)) v9, out) else
      get_chain fuel' heap nbytes npages key klen snap16 out outn v78 (w64 (v11 + 1)) v9
  end.

Definition Db_bt_get_as_of_heap (heap : slice) (nbytes npages root : Z) (key : slice) (klen : Z)
    (snap16 : slice) (out : slice) (outn : Z) : option (Db_bt_get_t * slice) :=
  if is_nil heap || (npages =? 0) then Some (get0, out) else
  if bad_size nbytes npages then Some (get0, out) else
  if ((is_nil key || is_nil snap16) || (klen =? 0)) || (klen >? 0xffff) then Some (get0, out) else
  if root >=? npages then Some (get0, out) else
  r ← get_descend (Z.to_nat npages) heap nbytes npages key klen root 0;
  match r with
  | inl w => Some (walked w get0, out)
  | inr (v10, v11, v15) =>
      if v15 =? 2 then Some (walked v11 get0, out) else
      if negb (v11 =? 0) then
        '(v9, out) ← bt_get_as_of_at heap nbytes (w64 (v10 * 0x4000)) key klen snap16 out outn;
        Some (walked (w64 (v11 + 1)) v9, out)
      else get_chain (Z.to_nat npages) heap nbytes npages key klen snap16 out outn v10 v11 get0
  end.

Definition Db_bt_child_of (heap : slice) (nbytes npages root : Z) (key : slice) (klen : Z) : option Z :=
  if is_nil heap || (npages =? 0) then Some npages else
  if bad_size nbytes npages then Some npages else
  if root >=? npages then Some npages else
  if (is_nil key || (klen =? 0)) || (klen >? 0xffff) then Some npages else
  let v26 := w64 (root * 0x4000) in
  if bt_read8 heap nbytes (w64 (v26 + 20)) =? 2 then bt_internal_child heap nbytes v26 key klen
  else Some root.

(** The number of cells of the leaves, along the chain from the first. *)
Definition bt_heap_nkeys (heap : slice) (nbytes npages root : Z) : Z :=
  if root >=? npages then 0 else
  let v8 := w64 (root * 0x4000) in
  let v4 := if bt_read8 heap nbytes (w64 (v8 + 20)) =? 2 then bt_read64 heap nbytes (w64 (v8 + 8)) else root in
  match for_range (S:=Z * Z) (R:=Z) 0 npages (fun v5 '(v4, v7) =>
    if v4 >=? npages then Some (Ret v7) else
    let v8 := w64 (v4 * 0x4000) in
    let v7 := if bt_read8 heap nbytes (w64 (v8 + 20)) =? 1
              then w64 (v7 + bt_read16 heap nbytes (w64 (v8 + 22))) else v7 in
    let v34 := bt_read64 heap nbytes (w64 (v8 + 8)) in
    if v34 =? 0 then Some (Ret v7) else
    if v34 =? v4 then Some (Ret v7) else
    Some (Next (v34, v7))) (v4, 0) with
  | Some (inl (_, v7)) | Some (inr v7) => v7
  | None => 0
  end.

(** ** Bounds *)

Definition ble (a b : list Z) : Prop := Compare a b <= 0.
Definition bound := option (list Z).
Definition in_range (lo up : bound) (k : list Z) : Prop :=
  match lo with None => True | Some l => ble l k end /\ match up with None => True | Some u => blt k u end.

Lemma ble_refl a : ble a a.
Proof. unfold ble. rewrite Compare_refl. lia. Qed.
Lemma blt_ble a b : blt a b -> ble a b.
Proof. unfold blt, ble. lia. Qed.
Lemma blt_ble_trans a b c : blt a b -> ble b c -> blt a c.
Proof. intros H1 H2. eapply blt_ge_trans; [exact H1|]. rewrite Compare_antisym. unfold ble in H2. lia. Qed.
Lemma ble_not_blt a b : ble a b <-> ~ blt b a.
Proof. unfold ble, blt. rewrite (Compare_antisym a b). destruct (Compare_range a b) as [->|[->| ->]]; lia. Qed.
Lemma ble_blt_trans a b c : ble a b -> blt b c -> blt a c.
Proof.
  intros H1 H2. destruct (not_blt b a) as [->|Hab]; [by apply ble_not_blt | done |]. by eapply blt_trans.
Qed.
Lemma ble_trans a b c : ble a b -> ble b c -> ble a c.
Proof.
  rewrite !ble_not_blt. intros H1 H2 H3. destruct (not_blt c b H2) as [->|Hbc]; [done|].
  destruct (not_blt b a H1) as [->|Hab]; [by apply H2|]. apply H2. eapply blt_trans; eauto.
Qed.

Lemma in_range_sub lo up lo' up' k :
  match lo, lo' with None, _ => True | Some l, Some l' => ble l l' | Some _, None => False end ->
  match up, up' with None, _ => True | Some u, Some u' => ble u' u | Some _, None => False end ->
  in_range lo' up' k -> in_range lo up k.
Proof.
  unfold in_range. destruct lo as [l|], lo' as [l'|], up as [u|], up' as [u'|]; intuition eauto using ble_trans, blt_ble_trans.
Qed.

(** ** Well-formed trees *)

Definition page (h : list Z) (pg : Z) : list Z := sub h (pg * 0x4000) (pg * 0x4000 + 0x4000).

Record heap_ok (h : list Z) (np : Z) : Prop := {
  heap_len : len h = np * 0x4000; heap_bytes : bytes_ok h; heap_small : len h < 2 ^ 63;
}.

Definition entry_ok (lo up : bound) (c : cell) : Prop := in_range lo up (cKey c) /\ cKey c <> [].
(** A separator is above its lower bound. *)
Definition sep_ok (lo up : bound) (s : cell) : Prop :=
  entry_ok lo up s /\ match lo with None => True | Some l => blt l (cKey s) end.

(** A subtree and the children of an internal page: [c] is the first child, the
    others follow the separators [sc]. *)
Inductive tree (h : list Z) (np : Z) : Z -> bound -> bound -> list (Z * list cell) -> list Z -> Prop :=
| tree_leaf pg lo up cs hi :
    0 <= pg < np -> rep 16 (page h pg) cs hi -> StronglySorted ver_le cs -> Forall (entry_ok lo up) cs ->
    tree h np pg lo up [(pg, cs)] []
| tree_node pg lo up sc hi lv ips :
    0 <= pg < np -> node 2 8 (page h pg) sc hi -> Forall (fun s => cVal s = []) sc ->
    kids h np (link (page h pg)) lo up sc lv ips ->
    tree h np pg lo up lv (pg :: ips)
with kids (h : list Z) (np : Z) : Z -> bound -> bound -> list cell -> list (Z * list cell) -> list Z -> Prop :=
| kids_last c lo up lv ips : tree h np c lo up lv ips -> kids h np c lo up [] lv ips
| kids_sep c lo up s sc lv1 lv2 ips1 ips2 :
    sep_ok lo up s ->
    tree h np c lo (Some (cKey s)) lv1 ips1 ->
    kids h np (child_id s) (Some (cKey s)) up sc lv2 ips2 ->
    kids h np c lo up (s :: sc) (lv1 ++ lv2) (ips1 ++ ips2).

Scheme tree_rules := Minimality for tree Sort Prop
  with kids_rules := Minimality for kids Sort Prop.
Combined Scheme tree_kids_rules from tree_rules, kids_rules.

(** All the cells of the leaves, in order, and the pages. *)
Definition entries (lv : list (Z * list cell)) : list cell := concat (map snd lv).
Definition pages (lv : list (Z * list cell)) (ips : list Z) : list Z := ips ++ map fst lv.

(** The leaves are chained by their links. *)
Fixpoint chain (h : list Z) (pgs : list Z) : Prop :=
  match pgs with
  | [] => True
  | a :: pgs' =>
      match pgs' with
      | [] => link (page h a) = 0
      | b :: _ => link (page h a) = b /\ b <> 0
      end /\ chain h pgs'
  end.

(** A tree of the buffer: its pages are distinct and its leaves chained. *)
Record btree (h : list Z) (np root : Z) (lv : list (Z * list cell)) (ips : list Z) : Prop := {
  bt_heap : heap_ok h np;
  bt_tree : tree h np root None None lv ips;
  bt_distinct : NoDup (pages lv ips);
  bt_chain : chain h (map fst lv);
}.

Lemma page_at h np pg : heap_ok h np -> 0 <= pg < np -> at_page h (np * 0x4000) (pg * 0x4000) (page h pg).
Proof. intros [Hl Hb Hs] Hpg. split; [lia | lia | lia | lia | done | done]. Qed.

Lemma entries_app l1 l2 : entries (l1 ++ l2) = entries l1 ++ entries l2.
Proof. unfold entries. by rewrite map_app, concat_app. Qed.

(** ** Frames and ranges *)

(** The pages [pgs] are the same in both buffers. *)
Definition agree (h h' : list Z) (pgs : list Z) : Prop := Forall (fun pg => page h' pg = page h pg) pgs.

Lemma agree_app h h' l1 l2 : agree h h' (l1 ++ l2) <-> agree h h' l1 /\ agree h h' l2.
Proof. apply Forall_app. Qed.

Lemma agree_pages_app h h' lv1 ips1 lv2 ips2 :
  agree h h' (pages (lv1 ++ lv2) (ips1 ++ ips2)) <-> agree h h' (pages lv1 ips1) /\ agree h h' (pages lv2 ips2).
Proof. unfold pages. rewrite map_app, !agree_app. tauto. Qed.

Lemma tree_frame_rules h np h' :
  (forall pg lo up lv ips, tree h np pg lo up lv ips -> agree h h' (pages lv ips) -> tree h' np pg lo up lv ips) /\
  (forall c lo up sc lv ips, kids h np c lo up sc lv ips -> agree h h' (pages lv ips) -> kids h' np c lo up sc lv ips).
Proof.
  apply tree_kids_rules.
  - intros pg lo up cs hi Hpg Hrep Hs Hall Hag. unfold agree, pages in Hag. cbn in Hag.
    apply Forall_cons_1 in Hag as [E _]. eapply tree_leaf; eauto. by rewrite E.
  - intros pg lo up sc hi lv ips Hpg Hrep Hv _ IH Hag. unfold agree, pages in *. cbn in Hag.
    apply Forall_cons_1 in Hag as [E Hag]. eapply tree_node; rewrite ?E; eauto.
  - intros c lo up lv ips _ IH Hag. constructor. by apply IH.
  - intros c lo up s sc lv1 lv2 ips1 ips2 Hs _ IH1 _ IH2 Hag. apply agree_pages_app in Hag as [H1 H2].
    constructor; auto.
Qed.

Lemma tree_frame h h' np pg lo up lv ips :
  tree h np pg lo up lv ips -> agree h h' (pages lv ips) -> tree h' np pg lo up lv ips.
Proof. apply tree_frame_rules. Qed.
Lemma kids_frame h h' np c lo up sc lv ips :
  kids h np c lo up sc lv ips -> agree h h' (pages lv ips) -> kids h' np c lo up sc lv ips.
Proof. apply tree_frame_rules. Qed.

Lemma entry_sub lo up lo' up' l : (forall k, in_range lo' up' k -> in_range lo up k) ->
  Forall (entry_ok lo' up') l -> Forall (entry_ok lo up) l.
Proof. intros H Hl. eapply Forall_impl; [exact Hl|]. intros c [? ?]. split; auto. Qed.

Lemma range_left lo up s k : in_range lo up s -> in_range lo (Some s) k -> in_range lo up k.
Proof.
  intros [Hl Hu]. apply in_range_sub; [destruct lo; [apply ble_refl | done]|]. destruct up; [by apply blt_ble | done].
Qed.
Lemma range_right lo up s k : in_range lo up s -> in_range (Some s) up k -> in_range lo up k.
Proof. intros [Hl Hu]. apply in_range_sub; [by destruct lo|]. destruct up; [apply ble_refl | done]. Qed.

Lemma tree_range_rules h np :
  (forall pg lo up lv ips, tree h np pg lo up lv ips -> Forall (entry_ok lo up) (entries lv)) /\
  (forall c lo up sc lv ips, kids h np c lo up sc lv ips -> Forall (entry_ok lo up) (entries lv)).
Proof.
  apply tree_kids_rules; try done.
  - intros. unfold entries. cbn. by rewrite app_nil_r.
  - intros c lo up s sc lv1 lv2 ips1 ips2 [[Hs _] _] _ IH1 _ IH2. rewrite entries_app. apply Forall_app_2.
    + eapply entry_sub; [|exact IH1]. intros. by eapply range_left.
    + eapply entry_sub; [|exact IH2]. intros. by eapply range_right.
Qed.

Lemma tree_pages_rules h np :
  (forall pg lo up lv ips, tree h np pg lo up lv ips -> Forall (fun q => 0 <= q < np) (pages lv ips) /\ pg ∈ pages lv ips) /\
  (forall c lo up sc lv ips, kids h np c lo up sc lv ips -> Forall (fun q => 0 <= q < np) (pages lv ips) /\ c ∈ pages lv ips).
Proof.
  apply tree_kids_rules; try done.
  - intros. unfold pages. cbn. by rewrite Forall_singleton, list_elem_of_singleton.
  - intros pg lo up sc hi lv ips ? _ _ _ [IH _]. unfold pages in *. cbn. by rewrite Forall_cons, elem_of_cons; auto.
  - intros c lo up s sc lv1 lv2 ips1 ips2 _ _ [IH1 Hc] _ [IH2 _]. unfold pages in *. rewrite map_app.
    rewrite !Forall_app in *. split; [tauto|]. rewrite !elem_of_app in *. tauto.
Qed.

Lemma tree_nonempty h np :
  (forall pg lo up lv ips, tree h np pg lo up lv ips -> lv <> []) /\
  (forall c lo up sc lv ips, kids h np c lo up sc lv ips -> lv <> []).
Proof. apply tree_kids_rules; try done. intros. by destruct lv1. Qed.

(** ** The child of a key *)

(** How many separators are not greater than [key], up to the first that is. *)
Fixpoint child_ix (sc : list cell) (key : list Z) : nat :=
  match sc with
  | [] => O
  | s :: sc' => if Compare (cKey s) key >? 0 then O else S (child_ix sc' key)
  end.

(** The child the descent takes, between the leaves [l1], [l2] and the pages
    [i1], [i2]; what replaces it, by one subtree or by two around a separator,
    makes the children of the page again. *)
Record focus (h : list Z) (np c : Z) (lo up : bound) (sc : list cell) (lv : list (Z * list cell)) (ips : list Z)
    (key : list Z) (lo' up' : bound) (l1 lv' l2 : list (Z * list cell)) (i1 ips' i2 : list Z) : Prop := {
  fc_tree : tree h np (child_for c sc key) lo' up' lv' ips';
  fc_in : in_range lo' up' key;
  fc_sub : forall k, in_range lo' up' k -> in_range lo up k;
  fc_lv : lv = l1 ++ lv' ++ l2;
  fc_ips : ips = i1 ++ ips' ++ i2;
  fc_before : Forall (fun d => cKey d <> key) (entries l1);
  fc_after : Forall (fun d => cKey d <> key) (entries l2);
  fc_replace : forall h' lv'' ips'', agree h h' (pages l1 i1) -> agree h h' (pages l2 i2) ->
    tree h' np (child_for c sc key) lo' up' lv'' ips'' ->
    kids h' np c lo up sc (l1 ++ lv'' ++ l2) (i1 ++ ips'' ++ i2);
  fc_split : forall h' s lva lvb ipsa ipsb, agree h h' (pages l1 i1) -> agree h h' (pages l2 i2) ->
    sep_ok lo' up' s ->
    tree h' np (child_for c sc key) lo' (Some (cKey s)) lva ipsa ->
    tree h' np (child_id s) (Some (cKey s)) up' lvb ipsb ->
    kids h' np c lo up (insert_at (child_ix sc key) s sc) (l1 ++ (lva ++ lvb) ++ l2) (i1 ++ (ipsa ++ ipsb) ++ i2);
}.

Lemma entries_below lo s key l : ble s key -> Forall (entry_ok lo (Some s)) l -> Forall (fun d => cKey d <> key) l.
Proof.
  intros Hs Hl. eapply Forall_impl; [exact Hl|]. intros d [[_ Hd] _] <-. cbn in Hd. by apply ble_not_blt in Hs.
Qed.
Lemma entries_above up s key l : blt key s -> Forall (entry_ok (Some s) up) l -> Forall (fun d => cKey d <> key) l.
Proof.
  intros Hs Hl. eapply Forall_impl; [exact Hl|]. intros d [[Hd _] _] <-. cbn in Hd. by apply ble_not_blt in Hd.
Qed.

Lemma kids_focus h np c lo up sc lv ips key : kids h np c lo up sc lv ips -> in_range lo up key ->
  exists lo' up' l1 lv' l2 i1 ips' i2, focus h np c lo up sc lv ips key lo' up' l1 lv' l2 i1 ips' i2.
Proof.
  intros Hk. revert key. induction Hk as [c lo up lv ips Ht|c lo up s sc lv1 lv2 ips1 ips2 Hs Ht Hk IH]; intros key Hin.
  - exists lo, up, [], lv, [], [], ips, []. split; try done; try (by cbn; rewrite app_nil_r).
    + intros h' lv'' ips'' _ _ Ht'. cbn. rewrite !app_nil_r. by constructor.
    + intros h' s lva lvb ipsa ipsb _ _ Hs Ha Hb. rewrite !app_nil_r. cbn [child_ix]. unfold insert_at. cbn.
      constructor; [done | done|]. by constructor.
  - pose proof (proj2 (tree_range_rules h np) _ _ _ _ _ _ Hk) as Hr2.
    pose proof (proj1 (tree_range_rules h np) _ _ _ _ _ Ht) as Hr1.
    destruct (Z.leb_spec (Compare (cKey s) key) 0) as [Hle|Hgt].
    + destruct (IH key) as (lo' & up' & l1 & lv' & l2 & i1 & ips' & i2 & F); [split; [done | apply Hin]|].
      assert (Hc : child_for c (s :: sc) key = child_for (child_id s) sc key).
      { cbn. rewrite Z.gtb_ltb. destruct (Z.ltb_spec 0 (Compare (cKey s) key)); [lia | done]. }
      assert (Hix : child_ix (s :: sc) key = S (child_ix sc key)).
      { cbn. rewrite Z.gtb_ltb. destruct (Z.ltb_spec 0 (Compare (cKey s) key)); [lia | done]. }
      exists lo', up', (lv1 ++ l1), lv', l2, (ips1 ++ i1), ips', i2. split; rewrite ?Hc, ?Hix; try apply F.
      * intros k Hk'. eapply range_right; [apply Hs|]. by apply F.
      * rewrite (fc_lv _ _ _ _ _ _ _ _ _ _ _ _ _ _ _ _ _ F). by rewrite !app_assoc.
      * rewrite (fc_ips _ _ _ _ _ _ _ _ _ _ _ _ _ _ _ _ _ F). by rewrite !app_assoc.
      * rewrite entries_app. apply Forall_app_2; [|apply F]. by eapply entries_below.
      * intros h' lv'' ips'' H1 H2 Ht'. apply agree_pages_app in H1 as [H1 H1']. rewrite <- !app_assoc.
        constructor; [done | by eapply tree_frame|]. by apply (fc_replace _ _ _ _ _ _ _ _ _ _ _ _ _ _ _ _ _ F).
      * intros h' s' lva lvb ipsa ipsb H1 H2 Hs' Ha Hb. apply agree_pages_app in H1 as [H1 H1']. rewrite <- !app_assoc.
        change (insert_at (S (child_ix sc key)) s' (s :: sc)) with (s :: insert_at (child_ix sc key) s' sc).
        constructor; [done | by eapply tree_frame|].
        rewrite (app_assoc lva), (app_assoc ipsa). by apply (fc_split _ _ _ _ _ _ _ _ _ _ _ _ _ _ _ _ _ F).
    + assert (Hc : child_for c (s :: sc) key = c).
      { cbn. rewrite Z.gtb_ltb. destruct (Z.ltb_spec 0 (Compare (cKey s) key)); [done | lia]. }
      assert (Hix : child_ix (s :: sc) key = O).
      { cbn. rewrite Z.gtb_ltb. destruct (Z.ltb_spec 0 (Compare (cKey s) key)); [done | lia]. }
      assert (Hlt : blt key (cKey s)) by (unfold blt; rewrite Compare_antisym; lia).
      exists lo, (Some (cKey s)), [], lv1, lv2, [], ips1, ips2. split; rewrite ?Hc, ?Hix; try done.
      * split; [apply Hin | done].
      * intros k Hk'. by eapply range_left; [apply Hs|].
      * by eapply entries_above.
      * intros h' lv'' ips'' _ H2 Ht'. cbn [app]. constructor; [done | done | by eapply kids_frame].
      * intros h' s' lva lvb ipsa ipsb _ H2 Hs' Ha Hb. cbn [app]. unfold insert_at. cbn [take drop app].
        rewrite <- !app_assoc. constructor; [|done|].
        { split; [|apply Hs']. split; [|apply Hs']. eapply range_left; [apply Hs | apply Hs']. }
        constructor; [|done | by eapply kids_frame].
        assert (Hlt' : blt (cKey s') (cKey s)) by apply Hs'.
        split; [|done]. split; [|apply Hs]. split; [by apply blt_ble | apply Hs].
Qed.

Lemma tree_page h np pg lo up lv ips : tree h np pg lo up lv ips -> 0 <= pg < np.
Proof. by inversion 1. Qed.

(** The descent of [key] from [pg]: [k] steps lead to the leaf of [key]. *)
Record landed (h : list Z) (np : Z) (lo up : bound) (key : list Z) (lv : list (Z * list cell)) (leaf : Z)
    (cs : list cell) (l1 l2 : list (Z * list cell)) : Prop := {
  ld_leaf : exists lo' up', tree h np leaf lo' up' [(leaf, cs)] [] /\ in_range lo' up' key;
  ld_lv : lv = l1 ++ [(leaf, cs)] ++ l2;
  ld_before : Forall (fun d => cKey d <> key) (entries l1);
  ld_after : Forall (fun d => cKey d <> key) (entries l2);
}.

Lemma get_descend_eq fuel h np pg lo up lv ips key v11 :
  heap_ok h np -> tree h np pg lo up lv ips -> in_range lo up key -> NoDup (pages lv ips) ->
  len ips <= Z.of_nat fuel -> 0 <= v11 -> v11 + len ips < 2 ^ 64 ->
  exists leaf cs l1 l2 k,
    get_descend fuel (Some h) (np * 0x4000) np (Some key) (len key) pg v11 = Some (inr (leaf, v11 + k, 1)) /\
    0 <= k <= len ips /\ (k = 0 <-> ips = []) /\ landed h np lo up key lv leaf cs l1 l2.
Proof.
  intros Hh. revert pg lo up lv ips v11. induction fuel as [|fuel IH]; intros pg lo up lv ips v11 Ht Hin Hnd Hfuel Hv Hsmall;
    pose proof (tree_page _ _ _ _ _ _ _ Ht) as Hpg; pose proof (page_at _ _ _ Hh Hpg) as Hat;
    destruct (at_facts Hat) as (? & ? & ? & ?); inversion Ht as [? ? ? cs hi _ Hrep Hs Hall|? ? ? sc hi ? ips' _ Hrep _ Hk]; subst;
    cbn [get_descend]; unwrap; rewrite (at_type Hat Hrep) by done; cbn [Z.eqb Pos.eqb negb].
  - exists pg, cs, [], [], 0. rewrite Z.add_0_r. split; [done|]. split; [done|]. split; [done|].
    split; [by exists lo, up | done | by constructor | by constructor].
  - rewrite len_cons in Hfuel. pose proof (len_nonneg ips'). lia.
  - exists pg, cs, [], [], 0. rewrite Z.add_0_r. split; [done|]. split; [done|]. split; [done|].
    split; [by exists lo, up | done | by constructor | by constructor].
  - rewrite (bt_internal_child_eq _ _ _ _ _ _ _ Hat Hrep). cbn [mbind option_bind].
    rewrite len_cons in *. pose proof (len_nonneg ips').
    destruct (kids_focus _ _ _ _ _ _ _ _ _ Hk Hin) as (lo' & up' & l1 & lv' & l2 & i1 & ips'' & i2 & F).
    pose proof (fc_tree _ _ _ _ _ _ _ _ _ _ _ _ _ _ _ _ _ F) as Ht'. pose proof (tree_page _ _ _ _ _ _ _ Ht') as Hc.
    set (c := child_for _ _ _) in *. ifcase; [lia|].
    unfold pages in Hnd. cbn in Hnd. apply NoDup_cons in Hnd as [Hni Hnd].
    rewrite (fc_lv _ _ _ _ _ _ _ _ _ _ _ _ _ _ _ _ _ F), (fc_ips _ _ _ _ _ _ _ _ _ _ _ _ _ _ _ _ _ F) in *.
    pose proof (proj2 (proj1 (tree_pages_rules h np) _ _ _ _ _ Ht')) as Hcin. unfold pages in Hcin.
    destruct (Z.eqb_spec c pg) as [E|_]; [|].
    { exfalso. apply Hni. rewrite !map_app. rewrite !elem_of_app in *. rewrite <- E. tauto. }
    rewrite !len_app in *. pose proof (len_nonneg i1). pose proof (len_nonneg i2). pose proof (len_nonneg ips'').
    rewrite w64_small by lia.
    destruct (IH c lo' up' lv' ips'' (v11 + 1)) as (leaf & cs & m1 & m2 & k & -> & Hkb & Hk0 & L);
      [done | apply F | | lia | lia | lia |].
    { rewrite !map_app in Hnd. unfold pages. eapply sublist_NoDup; [exact Hnd|].
      apply sublist_app; [by apply sublist_inserts_l, sublist_inserts_r|]. by apply sublist_inserts_l, sublist_inserts_r. }
    exists leaf, cs, (l1 ++ m1), (m2 ++ l2), (k + 1). split; [do 4 f_equal; lia|]. split; [lia|]. split.
    { split; [lia | done]. }
    destruct L as [Hl Hlv Hb Ha]. split; [done | by rewrite Hlv, <- !app_assoc | |]; rewrite entries_app; apply Forall_app_2; done || apply F.
Qed.

Lemma distinct_bound np l : NoDup l -> Forall (fun q => 0 <= q < np) l -> len l <= Z.max np 0.
Proof.
  intros Hnd Hall. assert (Hincl : incl l (seqZ 0 np)).
  { intros q Hq. apply list_elem_of_In. apply elem_of_seqZ. rewrite Forall_forall in Hall.
    apply list_elem_of_In in Hq. specialize (Hall q Hq). lia. }
  apply NoDup_ListNoDup in Hnd. pose proof (List.NoDup_incl_length Hnd Hincl) as Hlen.
  rewrite length_seqZ in Hlen. unfold len. lia.
Qed.

Lemma btree_size h np root lv ips : btree h np root lv ips ->
  len ips + len lv <= np /\ 0 < len lv /\ 0 <= root < np /\ np * 0x4000 < 2 ^ 63.
Proof.
  intros [Hh Ht Hnd _]. pose proof (tree_page _ _ _ _ _ _ _ Ht).
  pose proof (distinct_bound np _ Hnd (proj1 (proj1 (tree_pages_rules h np) _ _ _ _ _ Ht))) as Hb.
  unfold pages in Hb. rewrite len_app in Hb. unfold len at 2 in Hb. rewrite length_map in Hb. change (Z.of_nat (length lv)) with (len lv) in Hb.
  destruct Hh as [Hl _ Hs]. split_and!; try lia.
  destruct (tree_nonempty h np) as [Hne _]. apply Hne in Ht. destruct lv; [done|]. rewrite len_cons. pose proof (len_nonneg lv). lia.
Qed.

Lemma size_good np : 0 <= np -> np * 0x4000 < 2 ^ 63 -> bad_size (np * 0x4000) np = false.
Proof. intros. unfold bad_size. unwrap. rewrite Z.div_mul by lia. by rewrite !Z.eqb_refl. Qed.

(** A result, with the number of pages walked. *)
Definition walked_result (w : Z) (r : option (Db_bt_get_t * slice)) : option (Db_bt_get_t * slice) :=
  '(g, out) ← r; Some (walked w g, out).

(** A leaf without a following one: the chain walk of a root leaf ends at once. *)
Lemma get_chain_single fuel h np key snap out pg v out' g v9 :
  heap_ok h np -> 0 <= pg < np -> 0 <= v < 2 ^ 63 -> link (page h pg) = 0 ->
  bt_get_as_of_at (Some h) (np * 0x4000) (pg * 0x4000) (Some key) (len key) (Some snap) (Some out) (len out) = Some (g, out') ->
  get_chain (S fuel) (Some h) (np * 0x4000) np (Some key) (len key) (Some snap) (Some out) (len out) pg v v9
  = Some (walked (v + 1) g, out').
Proof.
  intros Hh Hpg Hv Hlink Hget. pose proof (page_at _ _ _ Hh Hpg) as Hat. destruct (at_facts Hat) as (? & ? & ? & ?).
  cbn [get_chain]. ifcase; [lia|]. unwrap. rewrite Hget. cbn [mbind option_bind].
  rewrite (bt_read_link _ _ _ _ Hat), Hlink. by destruct (negb (Found g =? 0)).
Qed.

Lemma as_of_landed h np lo up key snap lv leaf cs l1 l2 : landed h np lo up key lv leaf cs l1 l2 ->
  as_of (entries lv) key snap = as_of cs key snap.
Proof.
  intros [_ -> Hb Ha]. rewrite !entries_app. rewrite as_of_skip by done. unfold entries. cbn. by rewrite app_nil_r.
Qed.

Lemma Db_bt_get_as_of_heap_eq h np root lv ips key snap out :
  btree h np root lv ips -> 0 < len key <= 0xffff -> len snap = 16 -> len out < 2 ^ 64 ->
  exists w, 1 <= w <= np /\
    Db_bt_get_as_of_heap (Some h) (np * 0x4000) np root (Some key) (len key) (Some snap) (Some out) (len out)
    = walked_result w (get_result (cVal <$> as_of (entries lv) key snap) out).
Proof.
  intros Hbt Hk Hsnap Hout. destruct (btree_size _ _ _ _ _ Hbt) as (Hsize & Hlv & Hroot & Hsmall).
  destruct Hbt as [Hh Ht Hnd Hchain]. pose proof (len_nonneg ips).
  destruct (get_descend_eq (Z.to_nat np) h np root None None lv ips key 0) as (leaf & cs & l1 & l2 & k & Hd & Hkb & Hk0 & L);
    [done | done | done | done | lia | lia | lia |].
  rewrite (as_of_landed _ _ _ _ _ snap _ _ _ _ _ L). destruct (ld_leaf _ _ _ _ _ _ _ _ _ _ L) as (lo' & up' & Hleaf & _).
  inversion Hleaf as [? ? ? ? hi Hpg Hrep Hs Hall|]; subst. pose proof (page_at _ _ _ Hh Hpg) as Hat. destruct (at_facts Hat) as (? & ? & ? & ?).
  pose proof (bt_get_as_of_at_eq _ _ _ _ _ _ key snap out Hat Hrep Hs Hk Hsnap Hout) as Hget.
  unfold Db_bt_get_as_of_heap. cbn [is_nil orb]. ifcase; [lia|]. rewrite size_good by lia.
  repeat (ifcase; [lia|]). rewrite Hd. cbn [mbind option_bind Z.eqb Pos.eqb]. rewrite Z.add_0_l.
  destruct (Z.eqb_spec k 0) as [E|E]; cbn [negb].
  - subst k. rewrite (proj1 Hk0 eq_refl) in *. exists 1. split; [lia|].
    inversion Ht; subst. pose proof (ld_lv _ _ _ _ _ _ _ _ _ _ L) as El.
    destruct l1; [|destruct l1; done]. injection El as -> -> <-.
    destruct (get_result _ _) as [[g out']|] eqn:Eg; [|by destruct (as_of cs key snap)].
    replace (Z.to_nat np) with (S (Z.to_nat np - 1)) by lia.
    by rewrite (get_chain_single _ _ _ _ _ _ _ _ out' g) by (done || apply Hchain || lia).
  - exists (k + 1). split; [lia|]. unwrap. rewrite Hget. unfold walked_result. done.
Qed.

End BtTree.
