(* ===== verification/BtSplit.v ===== *)
(** * Splitting and linking B-tree pages (src/pkg/c2db/db_btree_gen.go)

    The kernels that change more than one page: the split of a leaf between two
    keys, the repacking of a page, the new internal page over two leaves and the
    insertion of a separator in an internal page.  A Go slice [heap[a:]] is the
    tail of the buffer, whose stores are put back. *)

From stdpp Require Import sorting.
From S2P Require Import Prelude Bytes PageKernel BtMem BtLeaf BtVersion BtHeap BtTree.
Import Bytes PageKernel BtMem BtLeaf BtVersion BtHeap BtTree.

Local Open Scope Z_scope.

Module BtSplit.

(** ** Tails of the buffer *)

(** [heap[a:]]: a panic when [a] is past the end. *)
Definition tail_of (heap : slice) (a : Z) : option slice :=
  match heap with
  | None => if a =? 0 then Some None else None
  | Some h => if a <=? len h then Some (Some (sub h a (len h))) else None
  end.
(** The buffer after stores in its tail at [a]. *)
Definition put_tail (heap : slice) (a : Z) (w : slice) : slice :=
  match heap, w with
  | Some h, Some w => Some (copy_at h a w)
  | _, _ => heap
  end.

(** [bt_copy_bytes(heap[da:], dn, doff, heap[sa:], sn, soff, len_)]: both sides
    are the same buffer, and each byte is read after the ones before are stored. *)
Definition bt_copy_bytes_same (heap : slice) (da dn doff sa sn soff len_ : Z) : option slice :=
  match heap with
  | None => Some heap
  | Some h =>
      Some <$> no_ret (for_range 0 len_ (fun v7 h =>
        if within dn doff v7 && within sn soff v7 then
          x ← idx h (sa + w64 (soff + v7)); h' ← upd h (da + w64 (doff + v7)) x; Some (Next h')
        else Some (Next h)) h)
  end.

(** ** Repacking a page *)

Definition bt_leaf_repack (page : slice) (n idlen : Z) : option (slice * Z) :=
  let idlen := clamp page idlen in
  match page with
  | None => Some (None, 0)
  | Some p =>
      if negb (n =? 0x4000) then Some (page, 0) else
      if len p <? 0x4000 then None else
      let v3 := sub p 0 0x4000 in
      let restore page := put_tail page 0 (Some v3) in
      let '(page, st) := Db_bt_leaf_init page 0x4000 in
      if Ok st =? 0 then Some (restore page, 0) else
      let page := bt_write8 page n 20 (bt_read8 (Some v3) 0x4000 20) in
      let page := bt_write64 page n 8 (bt_read64 (Some v3) 0x4000 8) in
      r ← for_range (S:=slice) (R:=slice) 0 (bt_read16 (Some v3) 0x4000 22) (fun v5 page =>
            let v61 := bt_read16 (Some v3) 0x4000 (64 +% (v5 *% 2))%u64 in
            if bt_bounds (Some v3) 0x4000 v61 4 =? 0 then Some (Ret page) else
            let v81 := w64 (4 + bt_read16 (Some v3) 0x4000 v61 + idlen + bt_read16 (Some v3) 0x4000 (w64 (v61 + 2))) in
            if bt_bounds (Some v3) 0x4000 v61 v81 =? 0 then Some (Ret page) else
            let v92 := bt_read16 page n 24 in
            let v96 := bt_read16 page n 26 in
            if v92 >=? 0x4000 then Some (Ret page) else
            if 2 >? w64 (0x4000 - v92) then Some (Ret page) else
            if v81 >? v96 then Some (Ret page) else
            let v113 := w64 (v96 - v81) in
            if w64 (v92 + 2) >? v113 then Some (Ret page) else
            page ← bt_copy_bytes page n v113 (Some v3) 0x4000 v61 v81;
            let v128 := w16 v113 in
            let page := bt_write16 page n (64 +% (v5 *% 2))%u64 v128 in
            let v133 := w64 (v5 + 1) in
            let page := bt_write16 page n 22 (w16 v133) in
            let page := bt_write16 page n 24 (w16 (v92 + 2)) in
            let page := bt_write16 page n 26 v128 in
            Some (Next page)) page;
      match r with
      | inr page => Some (restore page, 0)
      | inl page => Some (page, 1)
      end
  end.

(** ** Splitting a versioned leaf *)

(** The size a cell takes, with its slot. *)
Definition cell_need (w : slice) (v10 : Z) : Z :=
  w64 (4 + bt_read16 w 0x4000 v10 + 16 + bt_read16 w 0x4000 (w64 (v10 + 2)) + 2).

(** The slot [i] of the window. *)
Definition slot_off (w : slice) (i : Z) : Z := bt_read16 w 0x4000 (64 +% (i *% 2))%u64.

(** [v49]: the bytes of the cells from [v7] on; [None] inside when a slot is bad. *)
Definition upper_size (w : slice) (v7 v43 : Z) : option (option Z) :=
  r ← for_range (S:=Z) (R:=unit) v7 v43 (fun v8 v49 =>
        let v10 := slot_off w v8 in
        if (v10 >=? 0x4000) || (v10 <? 64) then Some (Ret tt) else
        Some (Next (w64 (v49 + cell_need w v10)))) 0;
  Some (match r with inl v => Some v | inr _ => None end).

(** The split point moves up until the upper part leaves room for a cell; each
    round moves it, so [v43] rounds are enough. *)
Definition lighten (w : slice) (v7 v43 v49 : Z) : option (Z * Z) :=
  no_ret (for_range 0 v43 (fun _ '(v7, v49) =>
    if negb ((v7 <? w64 (v43 - 1)) && (w64 (v49 + 0x9c4) >? 0x3fc0)) then Some (Stop (v7, v49)) else
    Some (Next (w64 (v7 + 1), w64 (v49 - cell_need w (slot_off w v7))))) (v7, v49)).

(** Do the cells at [v138] and [v143] have different keys? *)
Definition key_break (heap w : slice) (v26 v138 v143 : Z) : option bool :=
  let v148 := bt_read16 w 0x4000 v138 in
  let v153 := bt_read16 w 0x4000 v143 in
  if negb (v148 =? v153) then Some true else
  b ← tail_of heap (w64 (v26 + v143 + 4));
  c ← bt_keycmp_at w 0x4000 (w64 (v138 + 4)) v148 b v153;
  Some (negb (c =? 0)).

(** The next boundary between two keys, from [v7] up. *)
Definition boundary_up (heap w : slice) (v26 v7 v43 : Z) : option Z :=
  no_ret (for_range v7 v43 (fun v7 _ =>
    b ← key_break heap w v26 (slot_off w (w64 (v7 - 1))) (slot_off w v7);
    if (b : bool) then Some (Stop v7) else Some (Next (w64 (v7 + 1)))) v7).

(** The boundary before, from [v7] down; [None] inside when the upper part would
    not leave room.  Each round moves down, so [v7] rounds are enough. *)
Definition boundary_down (heap w : slice) (v26 v7 v49 : Z) : option (option Z) :=
  r ← for_range (S:=Z * Z) (R:=unit) 0 v7 (fun _ '(v7, v49) =>
        if negb (v7 >? 1) then Some (Stop (v7, v49)) else
        let v183 := slot_off w (w64 (v7 - 1)) in
        let v203 := cell_need w v183 in
        if w64 (v49 + v203 + 0x9c4) >? 0x3fc0 then Some (Ret tt) else
        let v49 := w64 (v49 + v203) in
        b ← key_break heap w v26 v183 (slot_off w v7);
        if (b : bool) then Some (Stop (v7, v49)) else Some (Next (w64 (v7 - 1), v49))) (v7, v49);
  Some (match r with inl (v7, _) => Some v7 | inr _ => None end).

(** The cells from [v7] on are appended to the page at [v30]; [Ret] on a bad cell
    or a full page. *)
Definition move_cells (heap : slice) (v26 v30 idlen v7 v43 : Z) : option (slice + slice) :=
  for_range (S:=slice) (R:=slice) v7 v43 (fun v8 heap =>
    w ← tail_of heap v26;
    let v10 := slot_off w v8 in
    if bt_bounds w 0x4000 v10 4 =? 0 then Some (Ret heap) else
    let v275 := w64 (4 + bt_read16 w 0x4000 v10 + idlen + bt_read16 w 0x4000 (w64 (v10 + 2))) in
    if bt_bounds w 0x4000 v10 v275 =? 0 then Some (Ret heap) else
    d ← tail_of heap v30;
    let v14 := bt_read16 d 0x4000 22 in
    let v290 := bt_read16 d 0x4000 24 in
    let v295 := bt_read16 d 0x4000 26 in
    if v290 >=? 0x4000 then Some (Ret heap) else
    if 2 >? w64 (0x4000 - v290) then Some (Ret heap) else
    if v275 >? v295 then Some (Ret heap) else
    let v303 := w64 (v295 - v275) in
    if w64 (v290 + 2) >? v303 then Some (Ret heap) else
    if bt_bounds d 0x4000 v303 v275 =? 0 then Some (Ret heap) else
    heap ← bt_copy_bytes_same heap v30 0x4000 v303 v26 0x4000 v10 v275;
    d ← tail_of heap v30;
    let v320 := (64 +% (v14 *% 2))%u64 in
    if bt_bounds d 0x4000 v320 2 =? 0 then Some (Ret heap) else
    let v329 := w16 v303 in
    let d := bt_write16 d 0x4000 v320 v329 in
    let d := bt_write16 d 0x4000 22 (w16 (v14 + 1)) in
    let d := bt_write16 d 0x4000 24 (w16 (v290 + 2)) in
    let d := bt_write16 d 0x4000 26 v329 in
    Some (Next (put_tail heap v30 d))) heap.

(** The lowest cell of the first [v7]. *)
Definition lowest (w : slice) (v7 : Z) : Z :=
  for_pure 0 v7 (fun v8 v19 => let v10 := slot_off w v8 in if v10 <? v19 then v10 else v19) 0x4000.

(** The end of both splits: the source keeps [v7] cells, the pages are linked
    and the source is repacked. *)
Definition split_finish (heap : slice) (v26 v30 dst idlen v7 : Z) : option (slice * Z) :=
  w ← tail_of heap v26;
  let w := bt_write16 w 0x4000 22 (w16 v7) in
  let w := bt_write16 w 0x4000 24 (w16 (64 +% (v7 *% 2))%u64) in
  let w := bt_write16 w 0x4000 26 (w16 (lowest w v7)) in
  let heap := put_tail heap v26 w in
  d ← tail_of heap v30;
  let heap := put_tail heap v30 (bt_write64 d 0x4000 8 (bt_read64 w 0x4000 8)) in
  w ← tail_of heap v26;
  let heap := put_tail heap v26 (bt_write64 w 0x4000 8 dst) in
  w ← tail_of heap v26;
  '(w, ok) ← bt_leaf_repack w 0x4000 idlen;
  Some (put_tail heap v26 w, if ok =? 0 then 0 else 1).

Definition bt_chain_split_ver (heap : slice) (npages src dst : Z) : option (slice * Z) :=
  if src >=? npages then Some (heap, 0) else
  if dst >=? npages then Some (heap, 0) else
  if src =? dst then Some (heap, 0) else
  let v26 := w64 (src * 0x4000) in
  let v30 := w64 (dst * 0x4000) in
  d ← tail_of heap v30;
  let '(d, st) := Db_bt_leaf_init d 0x4000 in
  let heap := put_tail heap v30 d in
  if Ok st =? 0 then Some (heap, 0) else
  w ← tail_of heap v26;
  let v43 := bt_read16 w 0x4000 22 in
  let v7 := v43 / 2 in
  if v7 =? 0 then Some (heap, 0) else
  if v7 >=? v43 then Some (heap, 0) else
  v49 ← upper_size w v7 v43;
  match v49 with
  | None => Some (heap, 0)
  | Some v49 =>
      '(v121, v49) ← lighten w v7 v43 v49;
      v7 ← boundary_up heap w v26 v121 v43;
      v7 ← (if v7 >=? v43 then boundary_down heap w v26 v121 v49 else Some (Some v7));
      match v7 with
      | None => Some (heap, 0)
      | Some v7 =>
          if (v7 <=? 1) || (v7 >=? v43) then Some (heap, 0) else
          r ← move_cells heap v26 v30 16 v7 v43;
          match r with
          | inr heap => Some (heap, 0)
          | inl heap => split_finish heap v26 v30 dst 16 v7
          end
      end
  end.

(** ** Internal pages *)

Definition init_internal (heap : slice) (nbytes v23 first : Z) : slice :=
  let heap := bt_write8 heap nbytes (w64 (v23 + 20)) 2 in
  let heap := bt_write16 heap nbytes (w64 (v23 + 22)) 0 in
  let heap := bt_write16 heap nbytes (w64 (v23 + 24)) 64 in
  let heap := bt_write16 heap nbytes (w64 (v23 + 26)) 0x4000 in
  bt_write64 heap nbytes (w64 (v23 + 8)) first.

Definition bt_make_internal (heap : slice) (nbytes npages left right intern : Z) : option (slice * Z) :=
  if intern >=? npages then Some (heap, 0) else
  if left >=? npages then Some (heap, 0) else
  if right >=? npages then Some (heap, 0) else
  if intern =? left then Some (heap, 0) else
  if intern =? right then Some (heap, 0) else
  let v23 := w64 (intern * 0x4000) in
  if v23 >=? nbytes then Some (heap, 0) else
  if 0x4000 >? w64 (nbytes - v23) then Some (heap, 0) else
  let heap := init_internal heap nbytes v23 left in
  let v48 := w64 (right * 0x4000) in
  if v48 >=? nbytes then Some (heap, 0) else
  if 0x4000 >? w64 (nbytes - v48) then Some (heap, 0) else
  if bt_off_ok nbytes v48 64 2 =? 0 then Some (heap, 0) else
  let v60 := bt_read16 heap nbytes (w64 (v48 + 64)) in
  if bt_off_ok nbytes v48 v60 4 =? 0 then Some (heap, 0) else
  let v67 := bt_read16 heap nbytes (w64 (v48 + v60)) in
  if bt_off_ok nbytes v48 v60 (w64 (4 + v67)) =? 0 then Some (heap, 0) else
  let v76 := w64 (4 + v67 + 8) in
  if v76 >? 0x4000 then Some (heap, 0) else
  let v86 := w64 (0x4000 - v76) in
  if 66 >? v86 then Some (heap, 0) else
  if bt_off_ok nbytes v23 v86 v76 =? 0 then Some (heap, 0) else
  let v91 := w64 (v23 + v86) in
  let heap := bt_write16 heap nbytes v91 (w16 v67) in
  let heap := bt_write16 heap nbytes (w64 (v91 + 2)) 0 in
  let v101 := w64 (v91 + 4) in
  heap ← bt_copy_bytes_same heap 0 nbytes v101 0 nbytes (w64 (v48 + v60 + 4)) v67;
  let heap := bt_write64 heap nbytes (w64 (v101 + v67)) right in
  if bt_off_ok nbytes v23 64 2 =? 0 then Some (heap, 0) else
  let v117 := w16 v86 in
  let heap := bt_write16 heap nbytes (w64 (v23 + 64)) v117 in
  let heap := bt_write16 heap nbytes (w64 (v23 + 22)) 1 in
  let heap := bt_write16 heap nbytes (w64 (v23 + 24)) 66 in
  let heap := bt_write16 heap nbytes (w64 (v23 + 26)) v117 in
  Some (heap, 1).

(** [bt_make_root_buf]: as above, with the separator in a buffer. *)
Definition bt_make_root_buf (heap : slice) (nbytes npages left right nroot : Z) (key : slice) (cklen : Z)
    : option (slice * Z) :=
  if ((nroot >=? npages) || (left >=? npages)) || (right >=? npages) then Some (heap, 0) else
  if (nroot =? left) || (nroot =? right) then Some (heap, 0) else
  if (is_nil key || (cklen =? 0)) || (cklen >? 0xffff) then Some (heap, 0) else
  if cklen >? 0x4000 then Some (heap, 0) else
  let v36 := w64 (nroot * 0x4000) in
  if v36 >=? nbytes then Some (heap, 0) else
  if 0x4000 >? w64 (nbytes - v36) then Some (heap, 0) else
  let heap := init_internal heap nbytes v36 left in
  let v63 := w64 (4 + cklen + 8) in
  if v63 >? 0x4000 then Some (heap, 0) else
  let v73 := w64 (0x4000 - v63) in
  if 66 >? v73 then Some (heap, 0) else
  if bt_off_ok nbytes v36 v73 v63 =? 0 then Some (heap, 0) else
  let v78 := w64 (v36 + v73) in
  let heap := bt_write16 heap nbytes v78 (w16 cklen) in
  let heap := bt_write16 heap nbytes (w64 (v78 + 2)) 0 in
  let v88 := w64 (v78 + 4) in
  heap ← bt_copy_in heap nbytes v88 key cklen;
  let heap := bt_write64 heap nbytes (w64 (v88 + cklen)) right in
  let v97 := w16 v73 in
  let heap := bt_write16 heap nbytes (w64 (v36 + 64)) v97 in
  let heap := bt_write16 heap nbytes (w64 (v36 + 22)) 1 in
  let heap := bt_write16 heap nbytes (w64 (v36 + 24)) 66 in
  let heap := bt_write16 heap nbytes (w64 (v36 + 26)) v97 in
  Some (heap, 1).

(** The guards on the header of an internal page for a separator of [cklen]
    bytes: the slots' end and the offset of the new cell. *)
Definition internal_room (heap : slice) (nbytes v34 cklen : Z) : option (Z * Z) :=
  let v51 := bt_read16 heap nbytes (w64 (v34 + 24)) in
  let v55 := bt_read16 heap nbytes (w64 (v34 + 26)) in
  if v51 <? 64 then None else
  if v55 >? 0x4000 then None else
  if v51 >? v55 then None else
  let v64 := w64 (4 + cklen + 8) in
  if v51 >=? 0x4000 then None else
  if 2 >? w64 (0x4000 - v51) then None else
  let v72 := w64 (v51 + 2) in
  if v64 >? v55 then None else
  let v74 := w64 (v55 - v64) in
  if v72 >? v74 then None else
  if bt_off_ok nbytes v34 v74 v64 =? 0 then None else
  Some (v72, v74).

(** The slot after the child [left], if the page has that child. *)
Definition child_slot (heap : slice) (nbytes v34 left v14 : Z) : option Z :=
  if bt_read64 heap nbytes (w64 (v34 + 8)) =? left then Some 0 else
  match for_range (S:=unit) (R:=option Z) 0 v14 (fun v16 (_ : unit) =>
    let v92 := (64 +% (v16 *% 2))%u64 in
    if bt_off_ok nbytes v34 v92 2 =? 0 then Some (Ret None) else
    let v99 := bt_read16 heap nbytes (w64 (v34 + v92)) in
    if bt_off_ok nbytes v34 v99 4 =? 0 then Some (Ret None) else
    let v105 := bt_read16 heap nbytes (w64 (v34 + v99)) in
    if bt_off_ok nbytes v34 v99 (w64 (4 + v105 + 8)) =? 0 then Some (Ret None) else
    if bt_read64 heap nbytes (w64 (v34 + v99 + 4 + v105)) =? left then Some (Ret (Some (w64 (v16 + 1)))) else
    Some (Next tt)) tt with
  | Some (inr r) => r
  | _ => None
  end.

(** The stores of a new separator; [put] stores the key. *)
Definition link_sep (heap : slice) (nbytes intern v34 v72 v74 v14 v15 cklen right : Z)
    (put : slice -> Z -> option slice) : option (slice * Z) :=
  let v127 := w64 (v34 + v74) in
  let heap := bt_write16 heap nbytes v127 (w16 cklen) in
  let heap := bt_write16 heap nbytes (w64 (v127 + 2)) 0 in
  let v137 := w64 (v127 + 4) in
  heap ← put heap v137;
  let heap := bt_write64 heap nbytes (w64 (v137 + cklen)) right in
  let v149 := w16 v74 in
  w ← tail_of heap (w64 (intern * 0x4000));
  w ← bt_slot_insert w 0x4000 v15 v14 v149;
  let heap := put_tail heap (w64 (intern * 0x4000)) w in
  let v14 := w64 (v14 + 1) in
  let heap := bt_write16 heap nbytes (w64 (v34 + 22)) (w16 v14) in
  let heap := bt_write16 heap nbytes (w64 (v34 + 24)) (w16 v72) in
  let heap := bt_write16 heap nbytes (w64 (v34 + 26)) v149 in
  Some (heap, 1).

Definition bt_internal_insert_kv (heap : slice) (nbytes npages intern left right koff cklen : Z)
    : option (slice * Z) :=
  if intern >=? npages then Some (heap, 0) else
  if right >=? npages then Some (heap, 0) else
  if left >=? npages then Some (heap, 0) else
  if intern =? right then Some (heap, 0) else
  if (cklen =? 0) || (cklen >? 0xffff) then Some (heap, 0) else
  if koff >=? nbytes then Some (heap, 0) else
  if cklen >? w64 (nbytes - koff) then Some (heap, 0) else
  let v34 := w64 (intern * 0x4000) in
  if v34 >=? nbytes then Some (heap, 0) else
  if 0x4000 >? w64 (nbytes - v34) then Some (heap, 0) else
  if negb (bt_read8 heap nbytes (w64 (v34 + 20)) =? 2) then Some (heap, 0) else
  let v14 := bt_read16 heap nbytes (w64 (v34 + 22)) in
  match internal_room heap nbytes v34 cklen with
  | None => Some (heap, 0)
  | Some (v72, v74) =>
      match child_slot heap nbytes v34 left v14 with
      | None => Some (heap, 0)
      | Some v15 =>
          link_sep heap nbytes intern v34 v72 v74 v14 v15 cklen right
            (fun heap v137 => bt_copy_bytes_same heap 0 nbytes v137 0 nbytes koff cklen)
      end
  end.

Definition bt_internal_insert_buf (heap : slice) (nbytes npages intern left right : Z) (key : slice) (cklen : Z)
    : option (slice * Z) :=
  if intern >=? npages then Some (heap, 0) else
  if right >=? npages then Some (heap, 0) else
  if left >=? npages then Some (heap, 0) else
  if intern =? right then Some (heap, 0) else
  if is_nil key then Some (heap, 0) else
  if (cklen =? 0) || (cklen >? 0xffff) then Some (heap, 0) else
  if cklen >? 0x4000 then Some (heap, 0) else
  let v37 := w64 (intern * 0x4000) in
  if v37 >=? nbytes then Some (heap, 0) else
  if 0x4000 >? w64 (nbytes - v37) then Some (heap, 0) else
  if negb (bt_read8 heap nbytes (w64 (v37 + 20)) =? 2) then Some (heap, 0) else
  let v14 := bt_read16 heap nbytes (w64 (v37 + 22)) in
  match internal_room heap nbytes v37 cklen with
  | None => Some (heap, 0)
  | Some (v75, v77) =>
      match child_slot heap nbytes v37 left v14 with
      | None => Some (heap, 0)
      | Some v15 =>
          link_sep heap nbytes intern v37 v75 v77 v14 v15 cklen right
            (fun heap v140 => bt_copy_in heap nbytes v140 key cklen)
      end
  end.

(** The separator is the first key of [right]. *)
Definition bt_internal_add_sep (heap : slice) (nbytes npages intern left right : Z) : option (slice * Z) :=
  if right >=? npages then Some (heap, 0) else
  let v12 := w64 (right * 0x4000) in
  if v12 >=? nbytes then Some (heap, 0) else
  if 0x4000 >? w64 (nbytes - v12) then Some (heap, 0) else
  if bt_off_ok nbytes v12 64 2 =? 0 then Some (heap, 0) else
  let v24 := bt_read16 heap nbytes (w64 (v12 + 64)) in
  if bt_off_ok nbytes v12 v24 4 =? 0 then Some (heap, 0) else
  let v31 := bt_read16 heap nbytes (w64 (v12 + v24)) in
  if bt_off_ok nbytes v12 v24 (w64 (4 + v31)) =? 0 then Some (heap, 0) else
  bt_internal_insert_kv heap nbytes npages intern left right (w64 (v12 + v24 + 4)) v31.

Definition bt_internal_has_child (heap : slice) (nbytes intern ch npages : Z) : Z :=
  if (intern >=? npages) || (ch >=? npages) then 0 else
  let v17 := w64 (intern * 0x4000) in
  if negb (bt_read8 heap nbytes (w64 (v17 + 20)) =? 2) then 0 else
  match child_slot heap nbytes v17 ch (bt_read16 heap nbytes (w64 (v17 + 22))) with
  | Some _ => 1
  | None => 0
  end.

(** ** Windows on a page *)

Definition win (h : list Z) (base : Z) : list Z := sub h base (len h).

Section Window.
Context {h : list Z} {n base : Z} {p : list Z}.
Hypothesis Hat : at_page h n base p.

Lemma win_at : at_page (win h base) 0x4000 0 p.
Proof.
  destruct Hat as [? ? ? ? Hb ->]. unfold win. split; rewrite ?len_sub by lia; try lia.
  - by apply bytes_ok_sub.
  - rewrite sub_sub by lia. f_equal; lia.
Qed.

Lemma tail_of_at : tail_of (Some h) base = Some (Some (win h base)).
Proof. destruct (at_facts Hat) as (? & ? & ? & ?). unfold tail_of. ifcase; [done | lia]. Qed.

Lemma put_tail_at q : len q = 0x4000 ->
  put_tail (Some h) base (Some (copy_at (win h base) 0 q)) = Some (copy_at h base q).
Proof.
  destruct (at_facts Hat) as (? & ? & ? & ?). intros Hq. unfold put_tail, win. f_equal.
  apply bytes_ext; rewrite !len_copy_at; [done|]. intros i Hi.
  destruct (decide (base <= i)).
  - rewrite rd_copy_at_in by (rewrite ?len_copy_at, ?len_sub by lia; lia).
    destruct (decide (i < base + 0x4000)).
    + rewrite !rd_copy_at_in by (rewrite ?len_sub by lia; lia). f_equal. lia.
    + rewrite !rd_copy_at_out by lia. rewrite rd_sub by lia. f_equal. lia.
  - rewrite !rd_copy_at_out by (rewrite ?len_copy_at; lia). done.
Qed.

Lemma bt_bounds_win a k : 0 <= a < 0x4000 -> 0 <= k -> a + k <= 0x4000 ->
  (bt_bounds (Some (win h base)) 0x4000 a k =? 0) = false.
Proof.
  destruct (at_facts win_at) as (? & ? & ? & ?). intros Ha Hk Hend.
  rewrite bt_bounds_db. apply Db_page_bounds_in; lia.
Qed.
End Window.

(** A byte range copied from one page to another of the same buffer. *)
Lemma bt_copy_bytes_same_eq h da dn doff sa sn soff k :
  0 <= da -> 0 <= doff -> 0 <= sa -> 0 <= soff -> 0 <= k ->
  doff + k <= dn -> soff + k <= sn -> da + dn <= len h -> sa + sn <= len h -> len h < 2 ^ 63 ->
  (da + doff + k <= sa + soff \/ sa + soff + k <= da + doff) ->
  bt_copy_bytes_same (Some h) da dn doff sa sn soff k
  = Some (Some (copy_at h (da + doff) (sub h (sa + soff) (sa + soff + k)))).
Proof.
  intros Hda Hdo Hsa Hso Hk Hd Hs Hdl Hsl Hsmall Hdis. unfold bt_copy_bytes_same.
  destruct (for_range_inv (S:=list Z) (R:=Empty_set)
    (fun i t => t = copy_at h (da + doff) (sub h (sa + soff) (sa + soff + i)))
    (fun r => r = inl (copy_at h (da + doff) (sub h (sa + soff) (sa + soff + k))))
    0 k (fun v7 h => if within dn doff v7 && within sn soff v7 then
           x ← idx h (sa + w64 (soff + v7)); h' ← upd h (da + w64 (doff + v7)) x; Some (Next h')
         else Some (Next h)) h) as (r & Hr & ->); [lia | | | by intros t -> |].
  - by rewrite Z.add_0_r, sub_nil, copy_at_nil.
  - intros i t Hi ->. rewrite !within_ok by lia. cbn [andb]. unwrap.
    assert (Hlen : len (sub h (sa + soff) (sa + soff + i)) = i) by (rewrite len_sub; lia).
    rewrite idx_rd by (rewrite ?len_copy_at; lia). cbn [mbind option_bind].
    rewrite upd_wr by (rewrite ?len_copy_at; lia). cbn [mbind option_bind].
    rewrite rd_copy_at_out by lia. replace (da + (doff + i)) with (da + doff + i) by lia.
    replace (sa + soff + (i + 1)) with (sa + soff + i + 1) by lia. replace (sa + (soff + i)) with (sa + soff + i) by lia.
    rewrite wr_copy_at, (sub_split h _ (sa + soff + i) (_ + 1)), sub_single by lia.
    by rewrite (copy_at_app h (da + doff) _ _ (da + doff + i)) by lia.
  - by rewrite Hr.
Qed.

(** ** Appending a cell *)

Definition append_page (q : list Z) (cnt off : Z) (c : cell) : list Z :=
  set_hdr (copy_at (copy_at q off (cell_bytes c)) (slot_addr cnt) (le_put 2 off)) (cnt + 1) (slot_addr (cnt + 1)) off.

Lemma append_rep ty idl q cs hi c :
  node ty idl q cs hi -> bytes_ok (cell_bytes c) -> len (cId c) = idl -> slot_addr (len cs + 1) + clen c <= hi ->
  node ty idl (append_page q (len cs) (hi - clen c) c) (cs ++ [c]) (hi - clen c) /\
  same_head q (append_page q (len cs) (hi - clen c) c).
Proof.
  intros Hrep Hb Hid Hfit. pose proof (rep_page _ _ _ _ _ Hrep) as Hp. pose proof (rep_room _ _ _ _ _ Hrep).
  pose proof (len_nonneg cs). pose proof (clen_pos c). unfold slot_addr in *.
  destruct (cells_store idl q cs hi c (hi - clen c)) as (Hq & Hcells & Hat & Hrd & Hfl);
    [done | apply Hrep | unfold slot_addr; lia | lia | lia | lia | done |].
  set (q1 := copy_at q (hi - clen c) (cell_bytes c)) in *.
  assert (Hq2 : page_ok (copy_at q1 (64 + len cs * 2) (le_put 2 (hi - clen c)))) by (by apply page_ok_put).
  assert (Hins : insert_at (Z.to_nat (len cs)) c cs = cs ++ [c]).
  { unfold insert_at, len. by rewrite Nat2Z.id, take_ge, drop_ge by lia. }
  assert (Hl : len (cs ++ [c]) = len cs + 1) by (rewrite len_app, len_single; lia).
  unfold append_page, slot_addr. fold q1. split.
  - rewrite <- Hl. apply rep_set_hdr; [done | | unfold slot_addr; lia |].
    + rewrite rd_copy_at_out by (rewrite ?len_le_put; lia). rewrite Hrd by lia. apply Hrep.
    + rewrite <- Hins. apply (cells_slot_insert idl q1); try done; unfold slot_addr; try lia.
      * intros a Ha Hside. apply rd_copy_at_out; rewrite ?len_le_put; lia.
      * apply fld_put; [done | lia..].
  - intros a Ha. rewrite set_hdr_rd by lia. rewrite rd_copy_at_out by (rewrite ?len_le_put; lia). apply Hrd. lia.
Qed.

(** The stores of an appended cell, seen from the buffer. *)
Lemma append_at h n base q c cnt off :
  at_page h n base (copy_at q off (cell_bytes c)) -> 0 <= cnt -> slot_addr (cnt + 1) <= 0x4000 ->
  bt_write16 (bt_write16 (bt_write16 (bt_write16 (Some h) n (base + slot_addr cnt) off)
     n (base + 22) (cnt + 1)) n (base + 24) (slot_addr (cnt + 1))) n (base + 26) off
  = Some (copy_at h base (append_page q cnt off c)).
Proof.
  intros Hat Hcnt Hend. pose proof (at_page_ok _ _ _ _ Hat) as Hq. unfold slot_addr in Hend.
  rewrite (bt_write16_at Hat _ (slot_addr cnt)) by (unfold slot_addr; lia).
  assert (Hq2 : page_ok (copy_at (copy_at q off (cell_bytes c)) (slot_addr cnt) (le_put 2 off))) by (by apply page_ok_put).
  rewrite (set_hdr_at _ _ _ _ _ _ _ (at_put _ _ _ _ _ Hat Hq2)).
  rewrite (at_put_put Hat) by (apply Hq2 || apply set_hdr_ok; done). done.
Qed.

(** ** Repacking *)

Lemma bt_copy_bytes_eq d dn doff s sn soff k :
  0 <= doff -> 0 <= soff -> 0 <= k -> doff + k <= dn -> soff + k <= sn -> dn <= len d < 2 ^ 63 -> sn <= len s < 2 ^ 63 ->
  bt_copy_bytes (Some d) dn doff (Some s) sn soff k = Some (Some (copy_at d doff (sub s soff (soff + k)))).
Proof.
  intros Hd Hs Hk Hdn Hsn Hld Hls. unfold bt_copy_bytes.
  rewrite (for_range_ext _ _ _ (fun i t => x ← idx (sub s soff (soff + k)) i; t' ← upd t (doff + i) x; Some (Next t'))).
  - rewrite copy_loop by (rewrite ?len_sub by lia; lia). cbn. do 3 f_equal. rewrite sub_sub by lia. f_equal; lia.
  - intros i t Hi. rewrite !within_ok by lia. cbn [andb]. unwrap.
    rewrite !idx_rd by (rewrite ?len_sub by lia; lia). by rewrite rd_sub by lia.
Qed.

Lemma cell_at_bytes p off c : page_ok p -> cell_at p off c -> bytes_ok (cell_bytes c).
Proof. intros [_ Hb] [_ <-]. by apply bytes_ok_sub. Qed.

(** What the code reads of the [i]-th cell of a page with a count and slots. *)
Lemma cells_open idl p cs lo i c :
  page_ok p -> cells_ok idl p cs lo -> 64 <= lo -> slot_addr (len cs) <= 0x4000 -> 0 <= i -> cs !! Z.to_nat i = Some c ->
  exists off, (64 +% (i *% 2))%u64 = slot_addr i /\ fld p (slot_addr i) = off /\ bt_read16 (Some p) 0x4000 (slot_addr i) = off /\
    64 <= off /\ lo <= off /\ off + clen c <= 0x4000 /\ clen c = 4 + len (cKey c) + idl + len (cVal c) /\
    (forall m, 0 <= m <= clen c -> (bt_bounds (Some p) 0x4000 off m =? 0) = false) /\
    bt_read16 (Some p) 0x4000 off = len (cKey c) /\ bt_read16 (Some p) 0x4000 (off + 2) = len (cVal c) /\
    sub p off (off + clen c) = cell_bytes c /\ bytes_ok (cell_bytes c) /\ len (cId c) = idl /\
    i < len cs /\ 0 <= len (cKey c) /\ 0 <= idl /\ 0 <= len (cVal c).
Proof.
  intros Hp Hcells Hlo Hroom Hi Hc. destruct (Hcells i c Hi Hc) as (Hoff & Hcell & Hid).
  pose proof (lookup_lt_Some _ _ _ Hc). assert (i < len cs) by (unfold len; lia).
  destruct (cell_fields p (fld p (slot_addr i)) c Hp ltac:(lia) Hcell) as (Hkl & Hvl & _ & _ & _).
  pose proof (len_nonneg (cKey c)). pose proof (len_nonneg (cVal c)). pose proof (len_nonneg (cId c)).
  unfold slot_addr in *. exists (fld p (64 + i * 2)). destruct (id Hcell) as [Hend Hsub]. unfold clen in *.
  split_and!; try done; try lia.
  - apply slot_u64. lia.
  - apply bt_read16_fld; [done | lia..].
  - intros m Hm. apply bt_bounds_ok; [done | lia..].
  - rewrite bt_read16_fld by (done || lia). done.
  - rewrite bt_read16_fld by (done || lia). done.
  - by eapply cell_at_bytes.
Qed.

(** A page just initialised, with type [ty] put back. *)
Lemma leaf_init_at h base p : at_page h 0x4000 base p -> base = 0 ->
  exists q, Db_bt_leaf_init (Some h) 0x4000 = (Some (copy_at h 0 q), {| Nkeys := 0; Ok := 1; Copied := 0 |}) /\
    (forall idl, node 1 idl q [] 0x4000) /\ same_head p q.
Proof.
  intros Hat ->. pose proof (at_page_ok _ _ _ _ Hat) as Hp. destruct (at_facts Hat) as (? & ? & ? & ?).
  unfold Db_bt_leaf_init. cbn [is_nil orb negb Z.eqb Pos.eqb].
  rewrite !bt_bounds_db, !Db_page_bounds_in by lia.
  rewrite (bt_write8_at Hat _ 20) by lia.
  assert (Hp1 : page_ok (wr p 20 1)) by (destruct Hp; split; [by rewrite len_wr | by apply bytes_ok_wr]).
  pose proof (at_put _ _ _ _ _ Hat Hp1) as Hat1. rewrite (set_hdr_at _ _ _ _ _ _ _ Hat1 : bt_write16 _ _ 26 _ = _).
  rewrite (at_put_put Hat) by (apply Hp1 || apply set_hdr_ok; done).
  eexists. split; [done|]. split.
  - intros idl. apply (rep_set_hdr 1 idl (wr p 20 1) [] 0x4000); [done | apply rd_wr_eq; destruct Hp; lia | | done].
    unfold slot_addr. change (len []) with 0. lia.
  - intros a Ha. rewrite set_hdr_rd by lia. apply rd_wr_ne; lia.
Qed.

(** A page that differs only before its count. *)
Lemma node_ext ty ty' idl q q' cs hi :
  page_ok q' -> rd q' 20 = ty' -> (forall a, 22 <= a < 0x4000 -> rd q' a = rd q a) ->
  node ty idl q cs hi -> node ty' idl q' cs hi.
Proof.
  intros Hq' Hty Hext Hrep. pose proof (rep_page _ _ _ _ _ Hrep) as Hq. pose proof (rep_room _ _ _ _ _ Hrep).
  assert (Hf : forall a, 22 <= a -> a + 2 <= 0x4000 -> fld q' a = fld q a).
  { intros a Ha Hend. apply fld_ext; try done; try lia; apply Hext; lia. }
  split; rewrite ?Hf by lia; try done; try apply Hrep.
  intros i c Hi Hc. destruct (rep_cells _ _ _ _ _ Hrep i c Hi Hc) as (Hhi & Hcell & Hid).
  apply lookup_lt_Some in Hc. unfold slot_addr, len in *. rewrite Hf by lia. split_and!; try done.
  apply (cell_at_ext q); try done; [lia|]. intros a Ha. apply Hext. destruct Hcell. lia.
Qed.

Lemma node_type ty ty' idl q cs hi : 0 <= ty' < 256 -> node ty idl q cs hi -> node ty' idl (wr q 20 ty') cs hi.
Proof.
  intros Hty Hrep. destruct (rep_page _ _ _ _ _ Hrep) as [Hl Hb]. eapply node_ext; [| | |exact Hrep].
  - split; [by rewrite len_wr | by apply bytes_ok_wr].
  - apply rd_wr_eq. lia.
  - intros a Ha. apply rd_wr_ne; lia.
Qed.

Lemma node_link ty idl q cs hi v : node ty idl q cs hi -> node ty idl (copy_at q 8 (le_put 8 v)) cs hi.
Proof.
  intros Hrep. pose proof (rep_page _ _ _ _ _ Hrep) as Hq. eapply node_ext; [| | |exact Hrep].
  - by apply page_ok_put.
  - rewrite rd_copy_at_out by (rewrite ?len_le_put; lia). apply Hrep.
  - intros a Ha. apply rd_copy_at_out; rewrite ?len_le_put; lia.
Qed.

Lemma link_put q v : page_ok q -> 0 <= v < 2 ^ 64 -> link (copy_at q 8 (le_put 8 v)) = v.
Proof. intros [Hl _] Hv. unfold link. rewrite field_put_get by lia. by apply Z.mod_small. Qed.

Lemma link_bound q : page_ok q -> 0 <= link q < 2 ^ 64.
Proof. intros [_ Hb]. unfold link. apply (le_get_sub_bound 8 q 8 16 Hb). Qed.

Lemma same_head_link p q : page_ok p -> page_ok q -> same_head p q -> link q = link p.
Proof.
  intros [Hp _] [Hq _] Hs. unfold link. f_equal. apply bytes_ext; rewrite !len_sub by lia; [done|].
  intros i Hi. rewrite !rd_sub by lia. apply Hs. lia.
Qed.

(** The bytes a list of cells takes on a page, each with its slot. *)
Definition cells_size (cs : list cell) : Z := foldr (fun c s => clen c + 2 + s) 0 cs.

Lemma cells_size_app cs ds : cells_size (cs ++ ds) = cells_size cs + cells_size ds.
Proof. unfold cells_size. induction cs as [|c cs IH]; cbn in *; lia. Qed.
Lemma cells_size_nonneg cs : 6 * len cs <= cells_size cs.
Proof.
  induction cs as [|c cs IH]; [done|]. rewrite len_cons. pose proof (clen_pos c). unfold cells_size in *. cbn. lia.
Qed.
Lemma cells_size_snoc i cs c : 0 <= i -> cs !! Z.to_nat i = Some c ->
  cells_size (take (Z.to_nat (i + 1)) cs) = cells_size (take (Z.to_nat i) cs) + clen c + 2.
Proof.
  intros Hi Hc. replace (Z.to_nat (i + 1)) with (S (Z.to_nat i)) by lia. rewrite (take_S_r _ _ c) by done.
  rewrite cells_size_app. unfold cells_size. cbn. lia.
Qed.
Lemma cells_size_split i cs : cells_size (take (Z.to_nat i) cs) + cells_size (drop (Z.to_nat i) cs) = cells_size cs.
Proof. by rewrite <- cells_size_app, take_drop. Qed.
Lemma cells_size_drop i cs c : 0 <= i -> cs !! Z.to_nat i = Some c ->
  cells_size (drop (Z.to_nat i) cs) = clen c + 2 + cells_size (drop (Z.to_nat (i + 1)) cs).
Proof.
  intros Hi Hc. pose proof (cells_size_snoc i cs c Hi Hc). pose proof (cells_size_split i cs). pose proof (cells_size_split (i + 1) cs). lia.
Qed.
Lemma cells_size_drop_le i j cs : 0 <= i <= j -> cells_size (drop (Z.to_nat j) cs) <= cells_size (drop (Z.to_nat i) cs).
Proof.
  intros Hij. replace (Z.to_nat j) with (Z.to_nat i + Z.to_nat (j - i))%nat by lia. rewrite <- drop_drop.
  pose proof (cells_size_split (j - i) (drop (Z.to_nat i) cs)). pose proof (cells_size_nonneg (take (Z.to_nat (j - i)) (drop (Z.to_nat i) cs))).
  pose proof (len_nonneg (take (Z.to_nat (j - i)) (drop (Z.to_nat i) cs))). lia.
Qed.

Lemma bt_leaf_repack_eq w p cs lo ty idl :
  at_page w 0x4000 0 p -> rd p 20 = ty -> fld p 22 = len cs -> cells_ok idl p cs lo -> 64 <= lo ->
  slot_addr (len cs) <= 0x4000 -> 0 <= idl <= 0x4000 ->
  exists q ok, bt_leaf_repack (Some w) 0x4000 idl = Some (Some (copy_at w 0 q), ok) /\ page_ok q /\
    (ok = 0 /\ 0x3fc0 < cells_size cs \/ ok = 1 /\ link q = link p /\ exists hi, node ty idl q cs hi).
Proof.
  intros Hat Hty Hn Hcells Hlo Hroom Hidl. pose proof (at_page_ok _ _ _ _ Hat) as Hp. destruct (id Hp) as [Hpl Hpb].
  destruct (at_facts Hat) as (? & ? & ? & ?). pose proof (len_nonneg cs). unfold slot_addr in Hroom.
  assert (Hw : sub w 0 0x4000 = p) by (symmetry; apply Hat).
  assert (Hrdty : bt_read8 (Some p) 0x4000 20 = ty) by (rewrite bt_read8_db, db_read8_eq by lia; done).
  assert (Hlink : bt_read64 (Some p) 0x4000 8 = link p) by (rewrite bt_read64_db, db_read64_eq by (done || lia); done).
  pose proof (rd_bound p 20 Hpb) as Htyb. pose proof (link_bound p Hp) as Hlb.
  unfold bt_leaf_repack. rewrite clamp_le by lia. cbn [Z.eqb Pos.eqb negb]. ifcase; [lia|].
  destruct (leaf_init_at _ _ _ Hat eq_refl) as (q0 & -> & Hq0 & _). cbn [Ok Z.eqb]. rewrite Hw, Hrdty, Hlink.
  pose proof (rep_page _ _ _ _ _ (Hq0 idl)) as Hq0p. pose proof (at_put _ _ _ _ _ Hat Hq0p) as Hat0.
  rewrite (bt_write8_at Hat0 _ 20) by lia. rewrite (at_put_put Hat) by (rewrite ?len_wr; apply Hq0p).
  pose proof (node_type 1 ty idl q0 [] 0x4000 ltac:(lia) (Hq0 idl)) as Hq1.
  pose proof (rep_page _ _ _ _ _ Hq1) as Hq1p. pose proof (at_put _ _ _ _ _ Hat Hq1p) as Hat1.
  rewrite (bt_write64_at Hat1 _ 8) by lia. rewrite (at_put_put Hat) by (rewrite ?len_copy_at; apply Hq1p).
  pose proof (node_link _ _ _ _ _ (link p) Hq1) as Hq2. set (q2 := copy_at (wr q0 20 ty) 8 _) in *.
  assert (Hlink2 : link q2 = link p) by (by apply link_put).
  rewrite bt_read16_fld, Hn by (done || lia).
  match goal with |- context [for_range 0 (len cs) ?body (Some (copy_at w 0 q2))] =>
    destruct (for_range_inv (S:=slice) (R:=slice)
      (fun i st => exists q hi, st = Some (copy_at w 0 q) /\ node ty idl q (take (Z.to_nat i) cs) hi /\ link q = link p /\
        hi = 0x4000 - cells_size (take (Z.to_nat i) cs) + 2 * i)
      (fun r => match r with
        | inl st => exists q hi, st = Some (copy_at w 0 q) /\ node ty idl q cs hi /\ link q = link p
        | inr st => 0x3fc0 < cells_size cs /\ exists q, st = Some (copy_at w 0 q) /\ page_ok q end)
      0 (len cs) body (Some (copy_at w 0 q2))) as (r & Hr & HQ); [lia | | | |] end.
  - exists q2, 0x4000. by rewrite take_0.
  - intros i st Hi (q & hi & -> & Hq & Hlq & Hhi). cbv zeta.
    destruct (lookup_lt_is_Some_2 cs (Z.to_nat i)) as [c Hc]; [unfold len in Hi; lia|].
    destruct (cells_open idl p cs lo i c Hp Hcells Hlo ltac:(unfold slot_addr; lia) ltac:(lia) Hc)
      as (off & -> & _ & -> & ? & ? & ? & Hcl & Hbd & -> & Hvl & Hsub & Hcb & Hcid & _ & ? & _ & ?).
    rewrite Hbd by lia. unwrap. rewrite Hvl. replace (4 + len (cKey c) + idl + len (cVal c)) with (clen c) by lia.
    rewrite Hbd by lia.
    pose proof (rep_page _ _ _ _ _ Hq) as Hqp. pose proof (at_put _ _ _ _ _ Hat Hqp) as Hatq.
    assert (Hret : hi < slot_addr (i + 1) + clen c -> 0x3fc0 < cells_size cs /\ exists q', Some (copy_at w 0 q) = Some (copy_at w 0 q') /\ page_ok q').
    { intros Hfull. split; [|by eauto]. pose proof (cells_size_snoc i cs c ltac:(lia) Hc). pose proof (cells_size_split (i + 1) cs).
      pose proof (cells_size_nonneg (drop (Z.to_nat (i + 1)) cs)). pose proof (len_nonneg (drop (Z.to_nat (i + 1)) cs)).
      unfold slot_addr in Hfull. lia. }
    unfold slot_addr in Hret. pose proof (clen_pos c).
    rewrite (bt_read16_at Hatq 24 24), (bt_read16_at Hatq 26 26) by lia.
    rewrite (rep_lo _ _ _ _ _ Hq), (rep_hi _ _ _ _ _ Hq).
    assert (Hlen : len (take (Z.to_nat i) cs) = i) by (unfold len in *; rewrite length_take; lia). rewrite Hlen.
    pose proof (rep_room _ _ _ _ _ Hq) as Hroomq. rewrite Hlen in Hroomq. unfold slot_addr in *.
    ifcase; [apply Hret; lia|]. unwrap. ifcase; [apply Hret; lia|]. ifcase; [apply Hret; lia|]. unwrap. ifcase; [apply Hret; lia|].
    rewrite bt_copy_bytes_eq by (rewrite ?len_copy_at; lia). cbn [mbind option_bind]. rewrite Hsub.
    rewrite (at_copy Hatq _ (hi - clen c)) by (rewrite ?len_cell_bytes; lia).
    unwrap. pose proof (append_at _ 0x4000 0 q c i (hi - clen c) (at_put _ _ _ _ _ Hatq (page_ok_copy_at q _ _ Hqp Hcb)) ltac:(lia) ltac:(unfold slot_addr; lia)) as Happ.
    unfold slot_addr in Happ. rewrite !Z.add_0_l in Happ. replace (64 + i * 2 + 2) with (64 + (i + 1) * 2) by lia. rewrite Happ.
    destruct (append_rep ty idl q _ hi c Hq Hcb Hcid) as [Hq' Hsh]; [rewrite Hlen; unfold slot_addr; lia|].
    rewrite Hlen in Hq', Hsh. pose proof (rep_page _ _ _ _ _ Hq') as Hqp'.
    rewrite (at_put_put Hatq), (at_put_put Hat) by (rewrite ?len_copy_at; apply Hqp || apply Hqp').
    exists (append_page q i (hi - clen c) c), (hi - clen c). split; [done|]. split; [|split].
    + replace (Z.to_nat (i + 1)) with (S (Z.to_nat i)) by lia. by rewrite (take_S_r _ _ c).
    + rewrite <- Hlq. by apply same_head_link.
    + rewrite (cells_size_snoc i cs c) by (done || lia). lia.
  - intros st (q & hi & -> & Hq & Hlq & _). rewrite take_ge in Hq by (unfold len; lia). eauto.
  - rewrite Hr. cbn [mbind option_bind]. destruct r as [st|st].
    + destruct HQ as (q & hi & -> & Hq & Hlq). exists q, 1. split; [done|]. split; [apply Hq|]. right. eauto.
    + destruct HQ as (Hbig & q & -> & Hq). exists p, 0. split; [|by auto].
      unfold put_tail. by rewrite (at_put_put Hat) by (apply Hp || apply Hq).
Qed.

(** ** The split point *)

(** A comparison with a prefix of the caller's bytes. *)
Lemma bt_keycmp_at_sub p n a alen b k :
  0 <= a -> 0 <= alen -> a + alen <= n -> n <= len p < 2 ^ 63 -> 0 <= k <= len b ->
  bt_keycmp_at (Some p) n a alen (Some b) k = Some (Compare (sub p a (a + alen)) (sub b 0 k)).
Proof.
  intros Ha Hal Hend Hl Hk. assert (Hlen : len (sub b 0 k) = k) by (rewrite len_sub; lia).
  rewrite <- (bt_keycmp_at_eq p n a alen (sub b 0 k)) by done. rewrite Hlen. unfold bt_keycmp_at.
  assert (clamp (Some b) k = k) as -> by (unfold clamp, slen; cbn; zcase; lia).
  assert (clamp (Some (sub b 0 k)) k = k) as -> by (unfold clamp, slen; cbn; rewrite Hlen; zcase; lia).
  f_equal. apply for_range_ext. intros i t Hi.
  assert (i < k) by (revert Hi; zcase; lia).
  rewrite !(idx_rd (sub b 0 k)), !(idx_rd b), rd_sub by lia. done.
Qed.

Section Choose.
Context {h : list Z} {n base : Z} {p : list Z} {cs : list cell} {hi : Z}.
Hypothesis Hat : at_page h n base p.
Hypothesis Hrep : rep 16 p cs hi.
Abbreviation w := (Some (win h base)).

Lemma slot_off_eq i : 0 <= i < len cs -> slot_off w i = fld p (slot_addr i).
Proof.
  intros Hi. pose proof (rep_count Hrep). unfold slot_off. rewrite slot_u64 by lia.
  rewrite (bt_read16_at (win_at Hat) _ (slot_addr i)); unfold slot_addr; try lia.
Qed.

(** The keys on both sides of [k] differ. *)
Definition boundary (k : Z) : Prop :=
  exists a b, cs !! Z.to_nat (k - 1) = Some a /\ cs !! Z.to_nat k = Some b /\ cKey a <> cKey b.

Lemma key_break_eq k : 1 <= k < len cs ->
  exists b, key_break (Some h) w base (slot_off w (k - 1)) (slot_off w k) = Some b /\ (b = true <-> boundary k).
Proof.
  intros Hk. destruct (rep_lookup (cs:=cs) (k - 1) ltac:(lia)) as [c Hc]. destruct (rep_lookup (cs:=cs) k ltac:(lia)) as [d Hd].
  destruct (at_facts Hat) as (? & ? & ? & ?). pose proof (win_at Hat) as Hw. destruct (at_facts Hw) as (_ & _ & ? & ?).
  assert (Hbd : boundary k <-> cKey c <> cKey d).
  { split; [|by exists c, d]. intros (x & y & Hx & Hy & Hne). rewrite Hc in Hx. rewrite Hd in Hy. congruence. }
  rewrite !slot_off_eq by lia.
  destruct (open_at Hw Hrep (k - 1) c ltac:(lia) Hc) as (o & _ & _ & _ & -> & ? & ? & _ & Hkl & _ & Hkey & _ & _ & _ & ? & _ & ? & _).
  destruct (open_at Hat Hrep k d ltac:(lia) Hd) as (o' & _ & _ & _ & Eo' & ? & ? & _ & _ & _ & Hkey' & _ & _ & _ & ? & _ & ? & _).
  destruct (open_at Hw Hrep k d ltac:(lia) Hd) as (o'' & _ & _ & _ & Eo'' & _ & _ & _ & Hkl' & _).
  rewrite Eo' in *. subst o''.
  rewrite !Z.add_0_l in *. unfold key_break. rewrite Hkl, Hkl'. setoid_rewrite Hbd. clear Hbd.
  destruct (Z.eqb_spec (len (cKey c)) (len (cKey d))) as [El|El]; cbn [negb].
  2:{ eexists. split; [done|]. split; [congruence | done]. }
  unwrap. unfold tail_of. ifcase; [|lia]. cbn [mbind option_bind].
  rewrite bt_keycmp_at_sub by (rewrite ?len_sub by lia; lia). cbn [mbind option_bind].
  rewrite sub_sub, Hkey by lia. rewrite Z.add_0_r, Hkey'.
  eexists. split; [done|]. split; [intros Hne E; by rewrite E, Compare_refl in Hne|].
  intros Hne. destruct (Z.eqb_spec (Compare (cKey c) (cKey d)) 0) as [E|]; [|done]. by apply Compare_eq in E.
Qed.

Lemma cell_need_eq i c : 0 <= i -> cs !! Z.to_nat i = Some c ->
  64 <= slot_off w i < 0x4000 /\ cell_need w (slot_off w i) = clen c + 2 /\ clen c < 0x4000.
Proof.
  intros Hi Hc. destruct (at_facts Hat) as (? & ? & ? & ?). pose proof (win_at Hat) as Hw.
  destruct (at_facts Hw) as (_ & _ & ? & ?). destruct (rep_cell Hrep i c Hi Hc) as (Hlt & _).
  destruct (open_at Hw Hrep i c Hi Hc) as (o & _ & _ & _ & E & ? & ? & _ & Hkl & Hvl & _ & _ & _ & ? & ? & _ & ? & _).
  rewrite slot_off_eq, E by lia. rewrite !Z.add_0_l in *. unfold cell_need, clen. unwrap. rewrite Hkl, Hvl. unwrap. lia.
Qed.

(** The bytes of the cells from [i] on, far from the end of a 64-bit word. *)
Abbreviation upper i := (cells_size (drop (Z.to_nat i) cs)).

Lemma upper_bound i : 0 <= i -> 0 <= upper i <= 0x5000 * (len cs - i) \/ len cs < i.
Proof.
  intros Hi. destruct (Z.le_gt_cases i (len cs)) as [Hle|]; [left|by right].
  remember (Z.to_nat (len cs - i)) as m eqn:Em. revert i Hi Hle Em. induction m as [|m IH]; intros i Hi Hle Em.
  - rewrite drop_ge by (unfold len in *; lia). cbn. lia.
  - destruct (rep_lookup (cs:=cs) i ltac:(lia)) as [c Hc]. destruct (cell_need_eq i c Hi Hc) as (_ & _ & ?).
    pose proof (clen_pos c). rewrite (cells_size_drop i cs c Hi Hc). specialize (IH (i + 1) ltac:(lia) ltac:(lia) ltac:(lia)). lia.
Qed.

Lemma upper_size_eq v7 : 0 <= v7 <= len cs -> upper_size w v7 (len cs) = Some (Some (upper v7)).
Proof.
  intros Hv. pose proof (rep_count Hrep). unfold upper_size. pose proof (upper_bound v7 ltac:(lia)) as Hub.
  match goal with |- context [for_range v7 (len cs) ?body 0] =>
    destruct (for_range_inv (S:=Z) (R:=unit) (fun i s => s = upper v7 - upper i) (fun r => r = inl (upper v7)) v7 (len cs) body 0)
      as (r & -> & ->); [lia | lia | | | done] end.
  - intros i s Hi ->. cbv zeta. destruct (rep_lookup (cs:=cs) i ltac:(lia)) as [c Hc].
    destruct (cell_need_eq i c ltac:(lia) Hc) as (? & -> & ?). ifcase; [lia|]. ifcase; [lia|].
    pose proof (cells_size_drop i cs c ltac:(lia) Hc). pose proof (upper_bound (i + 1) ltac:(lia)).
    pose proof (cells_size_drop_le v7 i cs ltac:(lia)). pose proof (clen_pos c). unwrap. lia.
  - intros s ->. rewrite (drop_ge cs (Z.to_nat (len cs))) by (unfold len; lia). cbn [cells_size foldr]. f_equal. lia.
Qed.

Lemma lighten_eq v7 : 0 <= v7 < len cs -> exists k, lighten w v7 (len cs) (upper v7) = Some (k, upper k) /\ v7 <= k < len cs /\
  (k < len cs - 1 -> upper k + 0x9c4 <= 0x3fc0).
Proof.
  intros Hv. pose proof (rep_count Hrep). unfold lighten.
  match goal with |- context [for_range 0 (len cs) ?body ?st] =>
    destruct (for_range_inv (S:=Z * Z) (R:=Empty_set) (fun i '(k, s) => v7 <= k < len cs /\ s = upper k /\ k = v7 + i)
      (fun r => match r with inl (k, s) => s = upper k /\ v7 <= k < len cs /\ (k < len cs - 1 -> upper k + 0x9c4 <= 0x3fc0) | inr _ => False end)
      0 (len cs) body st)
      as (r & -> & HQ); [lia | split_and!; try done; lia | | | ] end.
  - intros i [k s] Hi (Hk & -> & ->). cbv zeta. unwrap. destruct (Z.ltb_spec (v7 + i) (len cs - 1)); cbn [negb andb]; [|split_and!; try done; lia].
    destruct (rep_lookup (cs:=cs) (v7 + i) ltac:(lia)) as [c Hc]. destruct (cell_need_eq (v7 + i) c ltac:(lia) Hc) as (_ & -> & ?).
    pose proof (cells_size_drop (v7 + i) cs c ltac:(lia) Hc). pose proof (upper_bound (v7 + i + 1) ltac:(lia)). pose proof (upper_bound (v7 + i) ltac:(lia)).
    pose proof (clen_pos c). unwrap. rewrite Z.gtb_ltb. destruct (Z.ltb_spec 16320 (upper (v7 + i) + 2500)); cbn [negb]; [|split_and!; try done; lia].
    split_and!; lia.
  - intros [k s] (Hk & -> & ->). lia.
  - destruct r as [[k s]|]; [|done]. destruct HQ as (-> & ? & ?). by exists k.
Qed.

Lemma boundary_up_eq v7 : 1 <= v7 <= len cs ->
  exists k, boundary_up (Some h) w base v7 (len cs) = Some k /\ v7 <= k <= len cs /\ (k < len cs -> boundary k) /\
    forall j, v7 <= j < k -> ~ boundary j.
Proof.
  intros Hv. pose proof (rep_count Hrep). unfold boundary_up.
  match goal with |- context [for_range v7 (len cs) ?body v7] =>
    destruct (for_range_inv (S:=Z) (R:=Empty_set) (fun i k => k = i /\ forall j, v7 <= j < k -> ~ boundary j)
      (fun r => match r with inl k => v7 <= k <= len cs /\ (k < len cs -> boundary k) /\ forall j, v7 <= j < k -> ~ boundary j | inr _ => False end)
      v7 (len cs) body v7) as (r & -> & HQ); [lia | split; [done | lia] | | intros k [-> ?]; split_and!; try done; lia | by destruct r as [k|]; [exists k|]] end.
  intros i k Hi [-> Hno]. unwrap. destruct (key_break_eq i) as (b & -> & Hb); [lia|]. cbn [mbind option_bind].
  destruct b; [split; [lia|]; split; [|done]; intros _; by apply Hb|]. split; [done|]. intros j Hj.
  destruct (Z.eq_dec j i) as [->|]; [|apply Hno; lia]. intros Hbd%Hb. done.
Qed.

(** Going down stops at a boundary, when the cells above it and the one before leave room. *)
Lemma boundary_down_eq v7 : 1 <= v7 < len cs ->
  exists r, boundary_down (Some h) w base v7 (upper v7) = Some r /\ (forall k, r = Some k -> 1 <= k <= v7 /\ (1 < k -> boundary k)) /\
    forall k, 1 < k <= v7 -> boundary k -> upper (k - 1) + 0x9c4 <= 0x3fc0 -> exists k', r = Some k' /\ k <= k'.
Proof.
  intros Hv. pose proof (rep_count Hrep). unfold boundary_down.
  match goal with |- context [for_range 0 v7 ?body ?st] =>
    destruct (for_range_inv (S:=Z * Z) (R:=unit) (fun i '(k, s) => k = v7 - i /\ 1 <= k /\ s = upper k /\ forall j, k < j <= v7 -> ~ boundary j)
      (fun r => let r := match r with inl (k, _) => Some k | inr _ => None end in
        (forall k, r = Some k -> 1 <= k <= v7 /\ (1 < k -> boundary k)) /\
        forall k, 1 < k <= v7 -> boundary k -> upper (k - 1) + 0x9c4 <= 0x3fc0 -> exists k', r = Some k' /\ k <= k')
      0 v7 body st) as (r & -> & HQ); [lia | split_and!; try done; lia | | | by eexists] end.
  - intros i [k s] Hi (-> & Hk & -> & Hno). cbv zeta. rewrite Z.gtb_ltb.
    assert (Hge : forall j, 1 < j <= v7 -> boundary j -> j <= v7 - i).
    { intros j Hj Hbd. destruct (Z.le_gt_cases j (v7 - i)); [done|]. exfalso. apply (Hno j); [lia | done]. }
    destruct (Z.ltb_spec 1 (v7 - i)); cbn [negb].
    2:{ split; [intros k [= <-]; lia|]. intros j Hj Hbd _. exists (v7 - i). auto. }
    unwrap. destruct (rep_lookup (cs:=cs) (v7 - i - 1) ltac:(lia)) as [c Hc]. destruct (cell_need_eq (v7 - i - 1) c ltac:(lia) Hc) as (_ & -> & ?).
    pose proof (cells_size_drop (v7 - i - 1) cs c ltac:(lia) Hc) as Hdrop. replace (v7 - i - 1 + 1) with (v7 - i) in Hdrop by lia.
    pose proof (upper_bound (v7 - i) ltac:(lia)). pose proof (clen_pos c). unwrap. ifcase.
    { split; [done|]. intros j Hj Hbd Hroom. pose proof (Hge j Hj Hbd). pose proof (cells_size_drop_le (j - 1) (v7 - i - 1) cs ltac:(lia)). lia. }
    destruct (key_break_eq (v7 - i)) as (b & -> & Hb); [lia|]. cbn [mbind option_bind]. destruct b.
    + split; [intros k [= <-]; split; [lia|]; intros _; by apply Hb|]. intros j Hj Hbd _. exists (v7 - i). auto.
    + split_and!; try lia. intros j Hj. destruct (Z.eq_dec j (v7 - i)) as [->|]; [|apply Hno; lia]. intros Hbd%Hb. done.
  - intros [k s] (-> & Hk & _). lia.
Qed.
End Choose.

(** ** Moving the upper cells *)

Lemma move_cells_eq h n bs bd p d0 cs hi k :
  at_page h n bs p -> rep 16 p cs hi -> at_page h n bd d0 -> rep 16 d0 [] 0x4000 -> disjoint_at bs bd -> 0 <= k <= len cs ->
  exists r, move_cells (Some h) bs bd 16 k (len cs) = Some r /\
    match r with
    | inl st => exists d hid, st = Some (copy_at h bd d) /\ rep 16 d (sub cs k (len cs)) hid
    | inr st => is_nil st = false /\ 0x3fc0 < cells_size (sub cs k (len cs))
    end.
Proof.
  intros Hat Hrep Hatd Hd0 Hdis Hk. destruct (at_facts Hat) as (? & ? & ? & ?). destruct (at_facts Hatd) as (? & ? & _ & _).
  pose proof (rep_page _ _ _ _ _ Hrep) as Hp. pose proof (rep_page _ _ _ _ _ Hd0) as Hd0p.
  pose proof (rep_count Hrep). pose proof (len_nonneg cs). pose proof (rep_room _ _ _ _ _ Hrep) as Hroom. unfold slot_addr in Hroom.
  unfold move_cells.
  match goal with |- context [for_range k (len cs) ?body _] =>
    destruct (for_range_inv (S:=slice) (R:=slice)
      (fun i st => exists d hid, st = Some (copy_at h bd d) /\ rep 16 d (sub cs k i) hid /\
        hid = 0x4000 - cells_size (sub cs k i) + 2 * (i - k))
      (fun r => match r with
        | inl st => exists d hid, st = Some (copy_at h bd d) /\ rep 16 d (sub cs k (len cs)) hid
        | inr st => is_nil st = false /\ 0x3fc0 < cells_size (sub cs k (len cs)) end)
      k (len cs) body (Some h)) as (r & Hr & HQ); [lia | | | | ] end.
  - exists d0, 0x4000. rewrite sub_nil. rewrite (at_id Hatd). split_and!; [done | done | cbn; lia].
  - intros i st Hi (d & hid & -> & Hd & Hhid). cbv zeta. pose proof (rep_page _ _ _ _ _ Hd) as Hdp.
    pose proof (at_frame _ _ _ _ _ _ Hat Hdis ltac:(lia) Hdp) as Hat'. pose proof (at_put _ _ _ _ _ Hatd Hdp) as Hatd'.
    rewrite (tail_of_at Hat'), (tail_of_at Hatd'). cbn [mbind option_bind].
    destruct (rep_lookup (cs:=cs) i ltac:(lia)) as [c Hc].
    pose proof (win_at Hat') as Hw. pose proof (win_at Hatd') as Hwd.
    rewrite (slot_off_eq Hat' Hrep) by lia.
    destruct (cells_open 16 p cs hi i c Hp ltac:(apply Hrep) ltac:(lia) ltac:(unfold slot_addr; lia) ltac:(lia) Hc)
      as (off & _ & Eoff & _ & ? & ? & ? & Hcl & _ & Hkl & Hvl & Hsub & Hcb & Hcid & _ & ? & _ & ?).
    rewrite bt_read16_fld in Hkl, Hvl by (done || lia). rewrite Eoff.
    rewrite (bt_bounds_win Hat') by lia. unwrap.
    rewrite (bt_read16_at Hw off off), (bt_read16_at Hw (off + 2) (off + 2)) by lia. rewrite Hkl, Hvl.
    replace (4 + len (cKey c) + 16 + len (cVal c)) with (clen c) by lia. rewrite (w64_small (clen c)) by lia.
    rewrite (bt_bounds_win Hat') by lia.
    rewrite (bt_read16_at Hwd 22 22), (bt_read16_at Hwd 24 24), (bt_read16_at Hwd 26 26) by lia.
    rewrite (rep_nslots _ _ _ _ _ Hd), (rep_lo _ _ _ _ _ Hd), (rep_hi _ _ _ _ _ Hd).
    assert (Hlen : len (sub cs k i) = i - k) by (rewrite len_sub by lia; lia). rewrite Hlen.
    pose proof (rep_room _ _ _ _ _ Hd) as Hroomd. rewrite Hlen in Hroomd. unfold slot_addr in Hroomd |- *.
    assert (Hret : hid < slot_addr (i - k + 1) + clen c -> is_nil (Some (copy_at h bd d)) = false /\ 0x3fc0 < cells_size (sub cs k (len cs))).
    { intros Hfull. split; [done|]. rewrite (sub_split cs k (i + 1) (len cs)), cells_size_app, (sub_snoc cs k i c) by (done || lia).
      rewrite cells_size_app. pose proof (cells_size_nonneg (sub cs (i + 1) (len cs))). pose proof (len_nonneg (sub cs (i + 1) (len cs))).
      unfold slot_addr in Hfull. change (cells_size [c]) with (clen c + 2 + 0). lia. }
    unfold slot_addr in Hret. pose proof (clen_pos c).
    repeat (ifcase; [apply Hret; lia|]; unwrap). rewrite (bt_bounds_win Hatd') by lia.
    rewrite bt_copy_bytes_same_eq by (rewrite ?len_copy_at; unfold disjoint_at in Hdis; lia). cbn [mbind option_bind].
    rewrite (at_sub Hat' _ _ off (off + clen c)), Hsub by lia.
    rewrite (at_copy Hatd' _ (hid - clen c)) by (rewrite ?len_cell_bytes; lia).
    rewrite (at_put_put Hatd) by (rewrite ?len_copy_at; apply Hdp).
    pose proof (at_put _ _ _ _ _ Hatd (page_ok_copy_at d (hid - clen c) _ Hdp Hcb)) as Hatd1.
    rewrite (tail_of_at Hatd1). cbn [mbind option_bind]. rewrite (bt_bounds_win Hatd1) by lia.
    pose proof (append_at _ 0x4000 0 d c (i - k) (hid - clen c) (win_at Hatd1) ltac:(lia) ltac:(unfold slot_addr; lia)) as Happ.
    unfold slot_addr in Happ. rewrite !Z.add_0_l in Happ.
    replace (64 + (i - k) * 2 + 2) with (64 + (i - k + 1) * 2) by lia. rewrite Happ.
    destruct (append_rep 1 16 d _ hid c Hd Hcb Hcid) as [Hd' _]; [rewrite Hlen; unfold slot_addr; lia|].
    rewrite Hlen in Hd'. pose proof (rep_page _ _ _ _ _ Hd') as Hdp'.
    rewrite (put_tail_at Hatd1) by apply Hdp'. rewrite (at_put_put Hatd) by (rewrite ?len_copy_at; apply Hdp || apply Hdp').
    exists (append_page d (i - k) (hid - clen c) c), (hid - clen c). split; [done|].
    rewrite (sub_snoc _ _ _ c) by (done || lia). split; [done|]. rewrite cells_size_app. change (cells_size [c]) with (clen c + 2 + 0). lia.
  - intros st (d & hid & -> & Hd & _). eauto.
  - rewrite Hr. eauto.
Qed.

(** ** The split of a leaf *)

Lemma set_hdr_cells idl p cs hi k cnt lo x : page_ok p -> cells_ok idl p cs hi -> 64 <= hi -> slot_addr (len cs) <= 0x4000 ->
  cells_ok idl (set_hdr p cnt lo x) (take k cs) hi.
Proof.
  intros Hp Hcells Hhi Hroom i c Hi Hc. apply lookup_take_Some in Hc as [Hc _].
  destruct (Hcells i c Hi Hc) as (Ho & Hcell & Hid). apply lookup_lt_Some in Hc. unfold slot_addr, len in *.
  rewrite set_hdr_out by (done || lia). split_and!; [done | | done]. apply set_hdr_cell; [done | lia | done].
Qed.

Lemma set_hdr_count p cnt lo x : page_ok p -> 0 <= cnt < 65536 -> fld (set_hdr p cnt lo x) 22 = cnt.
Proof.
  intros Hp Hc. unfold set_hdr. pose proof (page_ok_put p 22 2 cnt Hp) as H1. pose proof (page_ok_put _ 24 2 lo H1).
  rewrite !fld_out by (rewrite ?len_le_put; done || lia). apply fld_put; [done | lia..].
Qed.

(** A page whose count and slots hold for a prefix of its cells. *)
Lemma cells_link idl p cs hi v : page_ok p -> cells_ok idl p cs hi -> 64 <= hi -> slot_addr (len cs) <= 0x4000 ->
  cells_ok idl (copy_at p 8 (le_put 8 v)) cs hi.
Proof.
  intros Hp Hcells Hhi Hroom i c Hi Hc. destruct (Hcells i c Hi Hc) as (Ho & Hcell & Hid).
  apply lookup_lt_Some in Hc. unfold slot_addr, len in *.
  rewrite fld_out by (rewrite ?len_le_put; done || lia). split_and!; [done | | done].
  apply cell_at_out; [done | lia | lia | rewrite len_le_put; lia | done].
Qed.

Lemma split_finish_eq h n bs bd p d cs ds hi hid k dst :
  at_page h n bs p -> rep 16 p cs hi -> at_page h n bd d -> rep 16 d ds hid -> disjoint_at bs bd ->
  0 <= k <= len cs -> 0 <= dst < 2 ^ 64 ->
  exists h' ok, split_finish (Some h) bs bd dst 16 k = Some (Some h', ok) /\
    (ok = 0 /\ 0x3fc0 < cells_size (take (Z.to_nat k) cs) \/ ok = 1 /\ exists q d' hiq, h' = copy_at (copy_at h bd d') bs q /\
      rep 16 q (take (Z.to_nat k) cs) hiq /\ link q = dst /\ rep 16 d' ds hid /\ link d' = link p).
Proof.
  intros Hat Hrep Hatd Hd Hdis Hk Hdst. destruct (at_facts Hat) as (? & ? & ? & ?). destruct (at_facts Hatd) as (? & ? & _ & _).
  pose proof (rep_page _ _ _ _ _ Hrep) as Hp. pose proof (rep_page _ _ _ _ _ Hd) as Hdp. pose proof (rep_count Hrep).
  pose proof (rep_room _ _ _ _ _ Hrep) as Hroom. assert (Hroom' := Hroom). unfold slot_addr in Hroom'.
  assert (Hdis' : disjoint_at bd bs) by (unfold disjoint_at in *; lia).
  unfold split_finish. rewrite (tail_of_at Hat). cbn [mbind option_bind]. pose proof (win_at Hat) as Hw.
  rewrite slot_u64 by lia. set (low := lowest _ _). rewrite (w16_small k), (w16_small (slot_addr k)) by (unfold slot_addr; lia).
  pose proof (set_hdr_at _ _ _ _ k (slot_addr k) (w16 low) Hw) as Hset. rewrite !Z.add_0_l in Hset. rewrite Hset.
  set (p1 := set_hdr p k (slot_addr k) (w16 low)) in *. assert (Hp1 : page_ok p1) by (by apply set_hdr_ok).
  rewrite (put_tail_at Hat) by apply Hp1. pose proof (at_put _ _ _ _ _ Hat Hp1) as Hat1. pose proof (at_put _ _ _ _ _ Hw Hp1) as Hw1.
  pose proof (at_frame _ _ _ _ _ _ Hatd Hdis' ltac:(lia) Hp1) as Hatd1. rewrite (tail_of_at Hatd1). cbn [mbind option_bind].
  rewrite (bt_read64_at Hw1 8 8) by lia. change (le_get 8 (sub p1 8 (8 + 8))) with (link p1).
  assert (Hl1 : link p1 = link p).
  { apply same_head_link; try done. intros a Ha. apply set_hdr_rd. lia. }
  rewrite Hl1, (bt_write64_at (win_at Hatd1) 8 8) by lia.
  set (d1 := copy_at d 8 (le_put 8 (link p))). assert (Hd1 : page_ok d1) by (by apply page_ok_put).
  rewrite (put_tail_at Hatd1) by apply Hd1.
  pose proof (at_frame _ _ _ _ _ _ Hat1 Hdis ltac:(lia) Hd1) as Hat2. rewrite (tail_of_at Hat2). cbn [mbind option_bind].
  rewrite (bt_write64_at (win_at Hat2) 8 8) by lia.
  set (p2 := copy_at p1 8 (le_put 8 dst)). assert (Hp2 : page_ok p2) by (by apply page_ok_put).
  rewrite (put_tail_at Hat2) by apply Hp2. pose proof (at_put _ _ _ _ _ Hat2 Hp2) as Hat3.
  rewrite (tail_of_at Hat3). cbn [mbind option_bind].
  assert (Hlen : len (take (Z.to_nat k) cs) = k) by (unfold len in *; rewrite length_take; lia).
  destruct (bt_leaf_repack_eq (win _ bs) p2 (take (Z.to_nat k) cs) hi 1 16 (win_at Hat3)) as (q & ok & -> & Hq & Hok).
  - unfold p2. rewrite rd_copy_at_out by (rewrite ?len_le_put; lia). unfold p1. rewrite set_hdr_rd by lia. apply Hrep.
  - unfold p2. rewrite fld_out by (rewrite ?len_le_put; done || lia). rewrite Hlen. unfold p1. by rewrite set_hdr_count by (done || lia).
  - apply cells_link; [done | apply set_hdr_cells; [done | apply Hrep | lia | lia] | lia | rewrite Hlen; unfold slot_addr in *; lia].
  - lia.
  - rewrite Hlen. unfold slot_addr in *. lia.
  - lia.
  - cbn [mbind option_bind]. rewrite (put_tail_at Hat3) by apply Hq. eexists _, _. split; [done|].
    destruct Hok as [[-> ?]|(-> & Hlq & hiq & Hrq)]; [by left|]. right. split; [done|]. exists q, d1, hiq. split_and!; try done.
    + rewrite (at_put_put Hat2) by (apply Hp2 || apply Hq). apply put_over; apply Hp1 || apply Hd1 || apply Hq || done || lia.
    + rewrite Hlq. by apply link_put.
    + by apply node_link.
    + apply link_put; [done | by apply link_bound].
Qed.

(** The split of the leaf [src]: the upper cells go to [dst], between two keys,
    and the two pages are linked. *)
Record split_ok (h : list Z) (src dst : Z) (cs : list cell) (k : Z) (h' : list Z) : Prop := {
  sp_bounds : 1 < k < len cs;
  sp_boundary : boundary (cs:=cs) k;
  sp_pages : exists q d hiq hid, h' = copy_at (copy_at h (dst * 0x4000) d) (src * 0x4000) q /\
    rep 16 q (take (Z.to_nat k) cs) hiq /\ link q = dst /\
    rep 16 d (drop (Z.to_nat k) cs) hid /\ link d = link (page h src);
}.

Lemma pages_disjoint a b : a <> b -> disjoint_at (a * 0x4000) (b * 0x4000).
Proof. unfold disjoint_at. lia. Qed.

(** A leaf the split does not refuse: the cells fit on a page without overlap, and
    two keys meet in it with room for the cells above and one more. *)
Definition splittable (cs : list cell) : Prop :=
  4 <= len cs /\ cells_size cs <= 0x3fc0 /\
  exists k, 1 < k < len cs /\ boundary (cs:=cs) k /\ cells_size (drop (Z.to_nat (k - 1)) cs) + 0x9c4 <= 0x3fc0.

(** The choice of the split point: between two keys, and there is one in a splittable leaf. *)
Lemma split_point_eq h n base p cs hi : at_page h n base p -> rep 16 p cs hi -> 1 <= len cs / 2 ->
  exists v r, lighten (Some (win h base)) (len cs / 2) (len cs) (cells_size (drop (Z.to_nat (len cs / 2)) cs)) =
      Some (v, cells_size (drop (Z.to_nat v) cs)) /\
    (ku ← boundary_up (Some h) (Some (win h base)) base v (len cs);
     if ku >=? len cs then boundary_down (Some h) (Some (win h base)) base v (cells_size (drop (Z.to_nat v) cs)) else Some (Some ku)) = Some r /\
    (forall k, r = Some k -> 1 < k < len cs -> boundary (cs:=cs) k) /\
    (splittable cs -> exists k, r = Some k /\ 1 < k < len cs).
Proof.
  intros Hat Hrep Hhalf. pose proof (rep_count Hrep).
  destruct (lighten_eq Hat Hrep (len cs / 2)) as (v & Hl & Hv & _); [Z.to_euclidean_division_equations; lia|]. exists v.
  destruct (boundary_up_eq Hat Hrep v) as (ku & -> & Hku & Hbu & Hno); [lia|]. cbn [mbind option_bind].
  destruct (boundary_down_eq Hat Hrep v) as (rd & -> & Hbd & Hdown); [lia|].
  destruct (Z.geb_spec ku (len cs)) as [Hend|].
  - exists rd. split_and!; [done | done | intros k Hk ?; apply (Hbd k Hk); lia |].
    intros (_ & _ & k & Hk & Hbk & Hroom). destruct (Z.le_gt_cases k v) as [Hkv|].
    + destruct (Hdown k ltac:(lia) Hbk Hroom) as (k' & -> & Hk'). exists k'. split; [done|]. destruct (Hbd k' eq_refl). lia.
    + exfalso. apply (Hno k); [lia | done].
  - exists (Some ku). split_and!; [done | done | intros k [= <-] _; apply Hbu; lia |].
    intros (H4 & _). exists ku. split; [done|]. Z.to_euclidean_division_equations; lia.
Qed.

Lemma bt_chain_split_ver_eq h np src dst cs hi :
  heap_ok h np -> 0 <= src < np -> 0 <= dst < np -> src <> dst -> rep 16 (page h src) cs hi ->
  exists h' ok, bt_chain_split_ver (Some h) np src dst = Some (Some h', ok) /\
    (ok = 0 /\ ~ splittable cs \/ ok = 1 /\ exists k, split_ok h src dst cs k h').
Proof.
  intros Hh Hsrc Hdst Hne Hrep. pose proof (page_at _ _ _ Hh Hsrc) as Hat. pose proof (page_at _ _ _ Hh Hdst) as Hatd.
  pose proof (pages_disjoint _ _ Hne) as Hdis. assert (Hdis' := Hdis). unfold disjoint_at in Hdis'.
  destruct (at_facts Hat) as (? & ? & ? & ?). pose proof (rep_count Hrep). pose proof (len_nonneg cs).
  unfold bt_chain_split_ver. ifcase; [lia|]. ifcase; [lia|]. ifcase; [done|]. unwrap.
  rewrite (tail_of_at Hatd). cbn [mbind option_bind].
  destruct (leaf_init_at _ _ _ (win_at Hatd) eq_refl) as (d0 & -> & Hd0 & _). cbn [Ok Z.eqb].
  pose proof (rep_page _ _ _ _ _ (Hd0 16)) as Hd0p. rewrite (put_tail_at Hatd) by apply Hd0p.
  set (h1 := copy_at h (dst * 16384) d0). pose proof (at_put _ _ _ _ _ Hatd Hd0p) as Hatd1.
  pose proof (at_frame _ _ _ _ _ _ Hat Hdis ltac:(lia) Hd0p) as Hat1. fold h1 in Hatd1, Hat1.
  assert (Hfail : forall h2, ~ splittable cs -> exists h' ok, Some (Some h2, 0) = Some (Some h', ok) /\
    (ok = 0 /\ ~ splittable cs \/ ok = 1 /\ exists k, split_ok h src dst cs k h')).
  { intros h2 Hno. exists h2, 0. auto. }
  rewrite (tail_of_at Hat1). cbn [mbind option_bind]. rewrite (at_count (win_at Hat1) Hrep) by done.
  ifcase; [apply Hfail; intros [? _]; Z.to_euclidean_division_equations; lia|].
  ifcase; [apply Hfail; intros [? _]; Z.to_euclidean_division_equations; lia|].
  assert (Hhalf : 1 <= len cs / 2 <= len cs) by (Z.to_euclidean_division_equations; lia).
  rewrite (upper_size_eq Hat1 Hrep) by lia. cbn [mbind option_bind].
  destruct (split_point_eq _ _ _ _ _ _ Hat1 Hrep) as (v & r & -> & Hr & Hbd & Hacc); [lia|]. cbn [mbind option_bind].
  destruct (boundary_up (Some h1) (Some (win h1 (src * 16384))) (src * 16384) v (len cs)) as [ku|]; [|done]. cbn [mbind option_bind] in Hr |- *.
  rewrite Hr. cbn [mbind option_bind].
  destruct r as [k|]; [|apply Hfail; intros (k & ? & _)%Hacc; done].
  assert (Hk : splittable cs -> 1 < k < len cs) by (intros (? & [= <-] & ?)%Hacc; done).
  destruct (Z.leb_spec k 1); [apply Hfail; intros ?%Hk; lia|]. ifcase; [apply Hfail; intros ?%Hk; lia|].
  pose proof (cells_size_split k cs) as Hsplit. pose proof (cells_size_nonneg (take (Z.to_nat k) cs)). pose proof (cells_size_nonneg (drop (Z.to_nat k) cs)).
  pose proof (len_nonneg (take (Z.to_nat k) cs)). pose proof (len_nonneg (drop (Z.to_nat k) cs)).
  assert (Hsub : sub cs k (len cs) = drop (Z.to_nat k) cs) by (unfold sub; rewrite take_ge; [done | rewrite length_drop; unfold len; lia]).
  destruct (move_cells_eq h1 (np * 16384) (src * 16384) (dst * 16384) _ d0 cs hi k Hat1 Hrep Hatd1 (Hd0 16) Hdis ltac:(lia)) as ([st|st] & -> & Hst); cbn [mbind option_bind];
    rewrite Hsub in Hst.
  2:{ destruct Hst as [Hst Hbig]. destruct st as [h2|]; [|done]. apply Hfail. intros (_ & Hsz & _). lia. }
  destruct Hst as (d & hid & -> & Hd). pose proof (rep_page _ _ _ _ _ Hd) as Hdp.
  destruct (split_finish_eq _ _ _ _ _ _ cs _ hi hid k dst (at_frame _ _ _ _ _ _ Hat1 Hdis ltac:(lia) Hdp) Hrep (at_put _ _ _ _ _ Hatd1 Hdp) Hd Hdis)
    as (h' & ok & -> & Hok); [lia | lia |].
  eexists _, _. split; [done|]. destruct Hok as [[-> Hbig]|(-> & q & d' & hiq & -> & Hq & Hlq & Hd' & Hld)].
  { left. split; [done|]. intros (_ & Hsz & _). lia. }
  right. split; [done|]. exists k. split; [lia | by apply Hbd|]. exists q, d', hiq, hid.
  pose proof (rep_page _ _ _ _ _ Hd') as Hdp'. rewrite (at_put_put Hatd1) by (apply Hdp || apply Hdp').
  unfold h1. rewrite (at_put_put Hatd) by (apply Hd0p || apply Hdp'). by split_and!.
Qed.

End BtSplit.
