(* ===== verification/BtIntern.v ===== *)
(** * Separators of internal pages (src/pkg/c2db/db_btree_gen.go)

    What the kernels of BtSplit.v that build and extend internal pages leave:
    a page over two leaves, and a page with one more separator after a child. *)

From stdpp Require Import sorting.
From S2P Require Import Prelude Bytes PageKernel BtMem BtLeaf BtVersion BtHeap BtTree BtSplit.
Import Bytes PageKernel BtMem BtLeaf BtVersion BtHeap BtTree BtSplit.

Local Open Scope Z_scope.

Module BtIntern.

(** A separator and the child after it. *)
Definition sep (key : list Z) (child : Z) : cell := {| cKey := key; cId := le_put 8 child; cVal := [] |}.

Lemma clen_sep key child : clen (sep key child) = 12 + len key.
Proof. unfold clen, sep. cbn [cKey cId cVal]. rewrite len_le_put, (len_nil (A:=Z)). lia. Qed.

Lemma child_id_sep key child : 0 <= child < 2 ^ 64 -> child_id (sep key child) = child.
Proof. intros Hc. unfold child_id, sep. cbn [cId]. rewrite le_get_put. by apply Z.mod_small. Qed.

Lemma bytes_ok_sep key child : bytes_ok key -> bytes_ok (cell_bytes (sep key child)).
Proof. intros. apply bytes_ok_cell; [done | apply bytes_ok_le_put | constructor]. Qed.

(** ** The slot after a child *)

Fixpoint find_child (l : list Z) (ch : Z) : option nat :=
  match l with
  | [] => None
  | x :: l' => if x =? ch then Some O else S <$> find_child l' ch
  end.

Definition children (c0 : Z) (sc : list cell) : list Z := c0 :: map child_id sc.

Lemma find_child_Some l ch i : NoDup l -> l !! i = Some ch -> find_child l ch = Some i.
Proof.
  intros Hnd. revert i. induction Hnd as [|x l Hni _ IH]; intros i Hi; [done|]. cbn.
  destruct i as [|i]; [injection Hi as ->; by rewrite Z.eqb_refl|].
  destruct (Z.eqb_spec x ch) as [->|_]; [|by rewrite (IH i)]. exfalso. apply Hni. by eapply list_elem_of_lookup_2.
Qed.

Lemma find_child_None l ch : ch ∉ l -> find_child l ch = None.
Proof.
  induction l as [|x l IH]; intros Hni; [done|]. cbn. apply not_elem_of_cons in Hni as [Hne Hni].
  destruct (Z.eqb_spec x ch); [done|]. by rewrite IH.
Qed.

Lemma find_child_lt l ch i : find_child l ch = Some i -> (i < length l)%nat.
Proof.
  revert i. induction l as [|x l IH]; intros i; cbn; [done|]. destruct (x =? ch); [intros [= <-]; lia|].
  destruct (find_child l ch) as [j|]; [|done]. intros [= <-]. specialize (IH j eq_refl). lia.
Qed.

Lemma find_child_in l ch : ch ∈ l -> find_child l ch <> None.
Proof.
  induction l as [|x l IH]; intros Hin; [by apply not_elem_of_nil in Hin|]. cbn. destruct (Z.eqb_spec x ch); [done|].
  apply elem_of_cons in Hin as [->|Hin]; [done|]. specialize (IH Hin). by destruct (find_child l ch).
Qed.

Lemma find_child_app l x l' ch : ch ∉ l -> find_child (l ++ x :: l') ch =
  if x =? ch then Some (length l) else (fun i => S (length l + i)) <$> find_child l' ch.
Proof.
  induction l as [|y l IH]; intros Hni; cbn.
  - destruct (x =? ch); [done|]. by destruct (find_child l' ch).
  - apply not_elem_of_cons in Hni as [Hne Hni]. destruct (Z.eqb_spec y ch); [done|]. rewrite IH by done.
    destruct (x =? ch); [done|]. by destruct (find_child l' ch).
Qed.

Lemma child_slot_eq h n base p sc hi ch : at_page h n base p -> node 2 8 p sc hi ->
  child_slot (Some h) n base ch (len sc) = Z.of_nat <$> find_child (children (link p) sc) ch.
Proof.
  intros Hat Hrep. destruct (at_facts Hat) as (? & ? & ? & ?). pose proof (rep_count Hrep). pose proof (len_nonneg sc).
  unfold child_slot. unwrap. rewrite (bt_read_link _ _ _ _ Hat). unfold children. cbn [find_child].
  destruct (link p =? ch); [done|].
  match goal with |- context [for_range 0 (len sc) ?body tt] =>
    destruct (for_range_inv (S:=unit) (R:=option Z)
      (fun i _ => ch ∉ map child_id (take (Z.to_nat i) sc))
      (fun r => match r with inl _ => None | inr r => r end = Z.of_nat <$> (S <$> find_child (map child_id sc) ch))
      0 (len sc) body tt) as (r & -> & HQ); [lia | | | | by destruct r] end.
  - rewrite take_0. cbn. apply not_elem_of_nil.
  - intros i t Hi Hinv. cbv zeta. destruct (rep_lookup (cs:=sc) i Hi) as [c Hc].
    destruct (open_at Hat Hrep i c ltac:(lia) Hc) as (off & -> & -> & -> & _ & ? & ? & Hbd & Hkl & _ & _ & Hidc & _ & _ & ? & _ & ? & _).
    rewrite Hbd by lia. unwrap. rewrite Hkl. unwrap. rewrite Hbd by lia.
    rewrite (bt_read64_sub h n _ (cId c)) by (apply Hat || done || lia). change (le_get 8 (cId c)) with (child_id c).
    assert (Hsplit : map child_id sc = map child_id (take (Z.to_nat i) sc) ++ child_id c :: map child_id (drop (S (Z.to_nat i)) sc)).
    { rewrite <- (take_drop (Z.to_nat i) sc) at 1. rewrite map_app, (drop_S _ c) by done. done. }
    assert (Hlen : length (map child_id (take (Z.to_nat i) sc)) = Z.to_nat i).
    { rewrite length_map, length_take. unfold len in Hi. lia. }
    destruct (Z.eqb_spec (child_id c) ch) as [E|E].
    + rewrite Hsplit, find_child_app, Hlen, E, Z.eqb_refl by done. unwrap. cbn. f_equal. lia.
    + replace (Z.to_nat (i + 1)) with (S (Z.to_nat i)) by lia. rewrite (take_S_r _ _ c), map_app by done.
      cbn [map]. rewrite elem_of_app, list_elem_of_singleton. intros [?|?]; congruence.
  - intros t Hinv. rewrite take_ge in Hinv by (unfold len; lia). by rewrite find_child_None.
Qed.

(** The children of a tree are distinct, and the descent's child has its slot. *)
Lemma kids_children h np c lo up sc lv ips : kids h np c lo up sc lv ips -> NoDup (pages lv ips) ->
  NoDup (children c sc) /\ Forall (fun q => q ∈ pages lv ips) (children c sc).
Proof.
  induction 1 as [c lo up lv ips Ht|c lo up s sc lv1 lv2 ips1 ips2 Hs Ht Hk IH]; intros Hnd.
  - pose proof (proj2 (proj1 (tree_pages_rules h np) _ _ _ _ _ Ht)). split; [apply NoDup_singleton | by repeat constructor].
  - pose proof (proj2 (proj1 (tree_pages_rules h np) _ _ _ _ _ Ht)) as Hc.
    assert (Hperm : pages (lv1 ++ lv2) (ips1 ++ ips2) ≡ₚ pages lv1 ips1 ++ pages lv2 ips2).
    { unfold pages. rewrite map_app. solve_Permutation. }
    rewrite Hperm in Hnd. apply NoDup_app in Hnd as (_ & Hdis & Hnd2). destruct (IH Hnd2) as [IHn IHa].
    assert (Hall : Forall (fun q => q ∈ pages lv1 ips1 ++ pages lv2 ips2) (children (child_id s) sc)).
    { eapply Forall_impl; [exact IHa|]. intros q Hq. apply elem_of_app. by right. }
    unfold children in *. cbn [map]. split.
    + constructor; [|done]. intros Hin. rewrite Forall_forall in IHa. by apply (Hdis c Hc), IHa.
    + eapply Forall_impl; [|intros q Hq; rewrite Hperm; exact Hq]. constructor; [|done]. apply elem_of_app. by left.
Qed.

Lemma child_ix_lookup c sc key : children c sc !! child_ix sc key = Some (child_for c sc key).
Proof.
  revert c. induction sc as [|s sc IH]; intros c; [done|]. cbn [child_ix child_for].
  destruct (Compare (cKey s) key >? 0); [done|]. apply IH.
Qed.

Lemma child_ix_le sc key : (child_ix sc key <= length sc)%nat.
Proof. induction sc as [|s sc IH]; cbn; [lia|]. destruct (_ >? 0); lia. Qed.

(** ** The insertion of a separator *)

Lemma w64_idem x : w64 (w64 x) = w64 x.
Proof. unfold w64. by rewrite Z.mod_mod by lia. Qed.

(** The slot insertion of a window is the one of the page. *)
Lemma shift_slots_win fuel w n pos v : shift_slots fuel w n pos v = shift_slots_at fuel w n 0 pos v.
Proof.
  revert w v. induction fuel as [|fuel IH]; intros w v; [done|]. cbn [shift_slots shift_slots_at].
  rewrite !Z.add_0_l, !w64_idem. by destruct (v >? pos).
Qed.

Lemma bt_slot_insert_win w p pos nslots off q :
  at_page w 0x4000 0 p -> 0 <= pos <= nslots -> slot_addr (nslots + 1) <= 0x4000 ->
  bt_slot_insert (Some p) 0x4000 pos nslots off = Some (Some q) ->
  bt_slot_insert (Some w) 0x4000 pos nslots off = Some (Some (copy_at w 0 q)).
Proof.
  intros Hat Hpos Hend Hs. rewrite <- (bt_slot_insert_at_eq _ _ _ _ _ _ _ _ Hat Hpos Hend Hs).
  unfold bt_slot_insert, bt_slot_insert_at. by rewrite shift_slots_win, Z.add_0_l, w64_idem.
Qed.

(** The stores of a separator but the key's, which [put] makes. *)
Lemma sep_stores h base off key right (put : slice -> Z -> option slice) :
  let h1 := copy_at (copy_at h (base + off) (le_put 2 (len key))) (base + off + 2) (le_put 2 0) in
  0 <= base + off -> put (Some h1) (base + off + 4) = Some (Some (copy_at h1 (base + off + 4) key)) ->
  copy_at (copy_at h1 (base + off + 4) key) (base + off + 4 + len key) (le_put 8 right)
  = copy_at h (base + off) (cell_bytes (sep key right)).
Proof.
  intros h1 Hoff _. unfold h1, cell_bytes, sep. cbn [cKey cId cVal]. rewrite (len_nil (A:=Z)), app_nil_r.
  pose proof (len_nonneg key). by rewrite !copy_at_app by (rewrite ?len_app, ?len_le_put; lia).
Qed.

Section Intern.
Context {h : list Z} {np pg : Z} {p : list Z} {sc : list cell} {hi : Z}.
Hypothesis Hh : heap_ok h np.
Hypothesis Hpg : 0 <= pg < np.
Hypothesis Ep : page h pg = p.
Hypothesis Hrep : node 2 8 p sc hi.
Abbreviation n := (np * 0x4000).
Abbreviation base := (pg * 0x4000).

Lemma intern_at : at_page h n base p.
Proof. rewrite <- Ep. by apply page_at. Qed.

Lemma internal_room_eq cklen : 0 < cklen <= 0xffff ->
  internal_room (Some h) n base cklen =
    if slot_addr (len sc + 1) + (12 + cklen) <=? hi then Some (slot_addr (len sc + 1), hi - (12 + cklen)) else None.
Proof.
  intros Hk. pose proof intern_at as Hat. destruct (at_facts Hat) as (? & ? & ? & ?).
  pose proof (rep_room _ _ _ _ _ Hrep) as Hroom. pose proof (len_nonneg sc). unfold internal_room. unwrap.
  rewrite (bt_read16_at Hat (base + 24) 24), (bt_read16_at Hat (base + 26) 26) by lia.
  rewrite (rep_lo _ _ _ _ _ Hrep), (rep_hi _ _ _ _ _ Hrep). unfold slot_addr in *.
  replace (4 + cklen + 8) with (12 + cklen) by lia.
  destruct (Z.leb_spec (64 + (len sc + 1) * 2 + (12 + cklen)) hi).
  - repeat (ifcase; [lia|]; unwrap). rewrite (bt_off_ok_at Hat) by lia. do 2 f_equal. lia.
  - repeat (ifcase; [done|]; unwrap). lia.
Qed.

Lemma link_sep_eq key right k put :
  bytes_ok key -> 0 < len key <= 0xffff -> (k <= length sc)%nat -> slot_addr (len sc + 1) + (12 + len key) <= hi ->
  let off := hi - (12 + len key) in
  let h1 := copy_at (copy_at h (base + off) (le_put 2 (len key))) (base + off + 2) (le_put 2 0) in
  put (Some h1) (base + off + 4) = Some (Some (copy_at h1 (base + off + 4) key)) ->
  exists p', link_sep (Some h) n pg base (slot_addr (len sc + 1)) off (len sc) (Z.of_nat k) (len key) right put
      = Some (Some (copy_at h base p'), 1) /\
    node 2 8 p' (insert_at k (sep key right) sc) off /\ link p' = link p.
Proof.
  intros Hb Hk Hix Hfit off h1 Hput. pose proof intern_at as Hat. destruct (at_facts Hat) as (? & ? & ? & ?).
  pose proof (rep_page _ _ _ _ _ Hrep) as Hp. pose proof (rep_room _ _ _ _ _ Hrep) as Hroom. pose proof (len_nonneg sc).
  pose proof (rep_count Hrep). assert (Hoff : 66 <= off /\ off + (12 + len key) <= 0x4000) by (unfold slot_addr in *; lia).
  unfold link_sep. unwrap. rewrite bt_write16_db, db_write16_eq by lia. rewrite db_write16_eq by (rewrite ?len_copy_at; lia). fold h1. rewrite Hput. cbn [mbind option_bind].
  rewrite bt_write64_db, db_write64_eq by (unfold h1; rewrite ?len_copy_at; lia).
  pose proof (sep_stores h base off key right put ltac:(lia) Hput) as Hst. fold h1 in Hst. rewrite Hst.
  rewrite <- !bt_write16_db. unwrap. rewrite (w16_small (slot_addr _)) by (unfold slot_addr in *; lia).
  pose proof (bytes_ok_sep key right Hb) as Hcb. pose proof (clen_sep key right) as Hcl.
  rewrite (at_copy Hat _ off) by (rewrite ?len_cell_bytes; lia).
  destruct (slot_insert_rep 2 8 p sc hi (sep key right) k) as (q & Hins & Hq & Hsame & Hrep');
    [done | done | unfold sep; cbn [cId]; by rewrite len_le_put | done | lia |].
  rewrite Hcl in Hins, Hrep'. fold off in Hins, Hrep'.
  pose proof (at_put _ _ _ _ _ Hat (page_ok_copy_at p off _ Hp Hcb)) as Hat1.
  rewrite (tail_of_at Hat1). cbn [mbind option_bind].
  rewrite (bt_slot_insert_win _ _ (Z.of_nat k) (len sc) _ _ (win_at Hat1) ltac:(unfold len in *; lia) ltac:(unfold slot_addr in *; lia) Hins).
  cbn [mbind option_bind]. rewrite (put_tail_at Hat1) by apply Hq.
  rewrite (at_put_put Hat) by (rewrite ?len_copy_at; apply Hp || apply Hq).
  rewrite (set_hdr_at _ _ _ _ _ _ _ (at_put _ _ _ _ _ Hat Hq)). rewrite (at_put_put Hat) by (apply Hq || apply set_hdr_ok; done).
  eexists. split; [unfold slot_addr; done|]. split; [done|].
  apply same_head_link; [done | apply Hrep' |]. intros a Ha. rewrite set_hdr_rd by lia. apply Hsame. lia.
Qed.

(** The outcome of the insertion of a separator after the child at [k]. *)
Definition sep_inserted (k : nat) (key : list Z) (right : Z) (h' : list Z) (ok : Z) : Prop :=
  ok = 0 /\ h' = h \/
  ok = 1 /\ exists p' hi', h' = copy_at h base p' /\ node 2 8 p' (insert_at k (sep key right) sc) hi' /\ link p' = link p.

(** The common part of the two insertions: [put] copies the key into the free
    space of the page. *)
Lemma insert_sep_eq left right key k put :
  find_child (children (link p) sc) left = Some k -> bytes_ok key -> 0 < len key <= 0xffff ->
  (forall off h1, 66 <= off -> off + (12 + len key) <= 0x4000 ->
    h1 = copy_at (copy_at h (base + off) (le_put 2 (len key))) (base + off + 2) (le_put 2 0) ->
    put (Some h1) (base + off + 4) = Some (Some (copy_at h1 (base + off + 4) key))) ->
  exists h' ok,
    match internal_room (Some h) n base (len key) with
    | None => Some (Some h, 0)
    | Some (v72, v74) =>
        match child_slot (Some h) n base left (len sc) with
        | None => Some (Some h, 0)
        | Some v15 => link_sep (Some h) n pg base v72 v74 (len sc) v15 (len key) right put
        end
    end = Some (Some h', ok) /\ sep_inserted k key right h' ok.
Proof.
  intros Hfind Hb Hk Hput. pose proof intern_at as Hat. pose proof (rep_room _ _ _ _ _ Hrep) as Hroom. pose proof (len_nonneg sc).
  rewrite internal_room_eq by lia.
  destruct (Z.leb_spec (slot_addr (len sc + 1) + (12 + len key)) hi) as [Hfit|_]; [|exists h, 0; split; [done | by left]].
  rewrite (child_slot_eq _ _ _ _ _ _ _ Hat Hrep), Hfind. cbn [fmap option_fmap option_map].
  pose proof (find_child_lt _ _ _ Hfind) as Hlt. unfold children in Hlt. cbn [length] in Hlt. rewrite length_map in Hlt.
  destruct (link_sep_eq key right k put) as (p' & -> & Hp' & Hlp'); [done | lia | lia | done | |].
  - apply Hput; [unfold slot_addr in *; lia.. | done].
  - eexists _, _. split; [done|]. right. split; [done|]. eauto.
Qed.

Lemma bt_internal_insert_kv_eq left right koff o key k :
  0 <= left < np -> 0 <= right < np -> pg <> right -> find_child (children (link p) sc) left = Some k ->
  koff = right * 0x4000 + o -> 0 <= o -> o + len key <= 0x4000 -> sub h koff (koff + len key) = key -> 0 < len key ->
  exists h' ok, bt_internal_insert_kv (Some h) n np pg left right koff (len key) = Some (Some h', ok) /\
    sep_inserted k key right h' ok.
Proof.
  intros Hl Hr Hne Hfind Hko Ho Hend Hkey Hk. pose proof intern_at as Hat. destruct (at_facts Hat) as (? & ? & ? & ?).
  pose proof (page_at _ _ _ Hh Hr) as Hatr. destruct (at_facts Hatr) as (? & ? & _ & _).
  assert (Hb : bytes_ok key) by (rewrite <- Hkey; apply bytes_ok_sub, Hat).
  pose proof (pages_disjoint _ _ Hne) as Hdis. unfold disjoint_at in Hdis.
  unfold bt_internal_insert_kv. repeat (ifcase; [lia|]). unwrap. repeat (ifcase; [lia|]; unwrap).
  rewrite (at_type Hat Hrep) by done. cbn [Z.eqb Pos.eqb negb]. rewrite (at_count Hat Hrep) by done.
  apply insert_sep_eq; [done | done | lia|]. intros off h1 Hoff Hend' ->.
  rewrite bt_copy_bytes_same_eq by (rewrite ?len_copy_at; lia). do 3 f_equal. rewrite !Z.add_0_l.
  by rewrite !sub_copy_at_ne by (rewrite ?len_copy_at, ?len_le_put; lia).
Qed.

Lemma bt_internal_insert_buf_eq left right buf key k :
  0 <= left < np -> 0 <= right < np -> pg <> right -> find_child (children (link p) sc) left = Some k ->
  bytes_ok key -> 0 < len key <= 0x4000 -> len key <= len buf -> sub buf 0 (len key) = key ->
  exists h' ok, bt_internal_insert_buf (Some h) n np pg left right (Some buf) (len key) = Some (Some h', ok) /\
    sep_inserted k key right h' ok.
Proof.
  intros Hl Hr Hne Hfind Hb Hk Hbuf Hkey. pose proof intern_at as Hat. destruct (at_facts Hat) as (? & ? & ? & ?).
  unfold bt_internal_insert_buf. cbn [is_nil]. repeat (ifcase; [lia|]). unwrap. repeat (ifcase; [lia|]; unwrap).
  rewrite (at_type Hat Hrep) by done. cbn [Z.eqb Pos.eqb negb]. rewrite (at_count Hat Hrep) by done.
  apply insert_sep_eq; [done | done | lia|]. intros off h1 Hoff Hend ->.
  rewrite bt_copy_in_eq by (rewrite ?len_copy_at; lia). by rewrite Hkey.
Qed.

(** The separator is the first key of the leaf [right]. *)
Lemma bt_internal_add_sep_eq left right ty idl cs hir c k :
  0 <= left < np -> 0 <= right < np -> pg <> right -> find_child (children (link p) sc) left = Some k ->
  node ty idl (page h right) cs hir -> cs !! 0%nat = Some c -> cKey c <> [] ->
  exists h' ok, bt_internal_add_sep (Some h) n np pg left right = Some (Some h', ok) /\
    sep_inserted k (cKey c) right h' ok.
Proof.
  intros Hl Hr Hne Hfind Hrepr Hc Hkne. pose proof (page_at _ _ _ Hh Hr) as Hatr. destruct (at_facts Hatr) as (? & ? & ? & ?).
  destruct (open_at Hatr Hrepr 0 c ltac:(lia) Hc) as (off & _ & Hb0 & Hoff & _ & ? & ? & Hbd & Hkl & _ & Hkey & _ & _ & _ & ? & ? & ? & _).
  assert (0 < len (cKey c)) by (destruct (cKey c); [done | rewrite len_cons; pose proof (len_nonneg l); lia]).
  change (slot_addr 0) with 64 in *. unfold bt_internal_add_sep. ifcase; [lia|]. unwrap. do 2 (ifcase; [lia|]; unwrap).
  rewrite Hb0. revert Hoff. unwrap. intros ->. rewrite Hbd by lia. unwrap. rewrite Hkl. unwrap. rewrite Hbd by lia.
  apply (bt_internal_insert_kv_eq _ _ _ (off + 4)); try done; lia.
Qed.

Lemma bt_internal_has_child_eq ch : 0 <= ch < np ->
  bt_internal_has_child (Some h) n pg ch np = if bool_decide (ch ∈ children (link p) sc) then 1 else 0.
Proof.
  intros Hch. pose proof intern_at as Hat. destruct (at_facts Hat) as (? & ? & ? & ?).
  unfold bt_internal_has_child. repeat (ifcase; [lia|]). unwrap.
  rewrite (at_type Hat Hrep) by done. cbn [Z.eqb Pos.eqb negb]. rewrite (at_count Hat Hrep) by done.
  rewrite (child_slot_eq _ _ _ _ _ _ _ Hat Hrep). case_bool_decide as Hin.
  - destruct (find_child _ _) as [i|] eqn:E; [done|]. by apply find_child_in in Hin.
  - by rewrite find_child_None.
Qed.
End Intern.

(** ** New internal pages *)

Lemma init_internal_eq h n base p first : at_page h n base p -> 0 <= first < 2 ^ 64 ->
  exists q, init_internal (Some h) n base first = Some (copy_at h base q) /\ node 2 8 q [] 0x4000 /\ link q = first.
Proof.
  intros Hat Hf. pose proof (at_page_ok _ _ _ _ Hat) as Hp. destruct (at_facts Hat) as (? & ? & ? & ?).
  unfold init_internal. unwrap. rewrite (bt_write8_at Hat _ 20) by lia.
  assert (Hp1 : page_ok (wr p 20 2)) by (destruct Hp; split; [by rewrite len_wr | by apply bytes_ok_wr]).
  rewrite (set_hdr_at _ _ _ _ _ _ _ (at_put _ _ _ _ _ Hat Hp1)).
  assert (Hp2 : page_ok (set_hdr (wr p 20 2) 0 64 0x4000)) by (by apply set_hdr_ok).
  rewrite (at_put_put Hat) by (apply Hp1 || apply Hp2).
  rewrite (bt_write64_at (at_put _ _ _ _ _ Hat Hp2) _ 8) by lia.
  rewrite (at_put_put Hat) by (rewrite ?len_copy_at; apply Hp2).
  eexists. split; [done|]. split; [|by apply link_put]. apply node_link.
  apply (rep_set_hdr 2 8 (wr p 20 2) [] 0x4000); [done | apply rd_wr_eq; destruct Hp; lia | | done].
  unfold slot_addr. change (len []) with 0. lia.
Qed.

(** The first separator of a new page. *)
Lemma first_sep_eq h n base q key right put :
  at_page h n base q -> node 2 8 q [] 0x4000 -> bytes_ok key -> 0 <= len key -> 12 + len key <= 0x4000 - 66 ->
  let off := 0x4000 - (12 + len key) in
  let h1 := copy_at (copy_at h (base + off) (le_put 2 (len key))) (base + off + 2) (le_put 2 0) in
  put (Some h1) (base + off + 4) = Some (Some (copy_at h1 (base + off + 4) key)) ->
  exists q', (heap ← put (bt_write16 (bt_write16 (Some h) n (base + off) (len key)) n (base + off + 2) 0) (base + off + 4);
      Some (bt_write16 (bt_write16 (bt_write16 (bt_write16 (bt_write64 heap n (base + off + 4 + len key) right)
        n (base + 64) off) n (base + 22) 1) n (base + 24) 66) n (base + 26) off, 1))
      = Some (Some (copy_at h base q'), 1) /\
    node 2 8 q' [sep key right] off /\ link q' = link q.
Proof.
  intros Hat Hq Hb Hk Hfit off h1 Hput. destruct (at_facts Hat) as (? & ? & ? & ?). pose proof (rep_page _ _ _ _ _ Hq) as Hqp.
  pose proof (bytes_ok_sep key right Hb) as Hcb. pose proof (clen_sep key right) as Hcl.
  rewrite bt_write16_db, db_write16_eq by lia. rewrite db_write16_eq by (rewrite ?len_copy_at; lia). fold h1.
  rewrite Hput. cbn [mbind option_bind]. rewrite <- !bt_write16_db.
  rewrite bt_write64_db, db_write64_eq by (unfold h1; rewrite ?len_copy_at; lia).
  pose proof (sep_stores h base off key right put ltac:(lia) Hput) as Hst. fold h1 in Hst. rewrite Hst.
  rewrite (at_copy Hat _ off) by (rewrite ?len_cell_bytes; lia).
  pose proof (at_put _ _ _ _ _ Hat (page_ok_copy_at q off _ Hqp Hcb)) as Hat1.
  pose proof (append_at _ n base q (sep key right) 0 off Hat1 ltac:(lia) ltac:(unfold slot_addr; lia)) as Happ.
  unfold slot_addr in Happ. change (64 + 0 * 2) with 64 in Happ. change (0 + 1) with 1 in Happ. change (64 + 1 * 2) with 66 in Happ.
  rewrite Happ.
  destruct (append_rep 2 8 q [] 0x4000 (sep key right) Hq Hcb) as [Hq' Hsh];
    [unfold sep; cbn [cId]; by rewrite len_le_put | unfold slot_addr; rewrite (len_nil (A:=cell)); lia |].
  rewrite Hcl in Hq', Hsh. fold off in Hq', Hsh. pose proof (rep_page _ _ _ _ _ Hq') as Hqp'.
  rewrite (at_put_put Hat) by (rewrite ?len_copy_at; apply Hqp || apply Hqp').
  eexists. split; [done|]. split; [exact Hq'|]. by apply same_head_link.
Qed.

(** A page over [left] and [right], separated by the first key of [right]. *)
Lemma bt_make_internal_eq h np left right intern ty idl cs hir c :
  heap_ok h np -> 0 <= left < np -> 0 <= right < np -> 0 <= intern < np -> intern <> left -> intern <> right ->
  node ty idl (page h right) cs hir -> cs !! 0%nat = Some c -> cKey c <> [] ->
  exists h' ok, bt_make_internal (Some h) (np * 0x4000) np left right intern = Some (Some h', ok) /\
    (ok = 0 \/ ok = 1 /\ exists q hi', h' = copy_at h (intern * 0x4000) q /\ node 2 8 q [sep (cKey c) right] hi' /\ link q = left).
Proof.
  intros Hh Hl Hr Hi Hne1 Hne2 Hrepr Hc Hkne. pose proof (page_at _ _ _ Hh Hr) as Hatr. pose proof (page_at _ _ _ Hh Hi) as Hat.
  destruct (at_facts Hat) as (? & ? & ? & ?). destruct (at_facts Hatr) as (? & ? & _ & _).
  destruct (open_at Hatr Hrepr 0 c ltac:(lia) Hc) as (off & _ & Hb0 & _ & Eo & ? & ? & Hbd & _ & _ & Hkey & _ & _ & _ & ? & ? & ? & _).
  assert (0 < len (cKey c)) by (destruct (cKey c); [done | rewrite len_cons; pose proof (len_nonneg l); lia]).
  change (slot_addr 0) with 64 in *.
  pose proof (pages_disjoint _ _ Hne2) as Hdis. assert (Hdis' : disjoint_at (right * 0x4000) (intern * 0x4000)) by (unfold disjoint_at in *; lia).
  unfold bt_make_internal. do 5 (ifcase; [lia|]). unwrap. do 2 (ifcase; [lia|]; unwrap).
  destruct (init_internal_eq _ _ _ _ left Hat) as (q & -> & Hq & Hlq); [lia|].
  pose proof (rep_page _ _ _ _ _ Hq) as Hqp. pose proof (at_put _ _ _ _ _ Hat Hqp) as Hat1.
  pose proof (at_frame _ _ _ _ _ _ Hatr Hdis' ltac:(lia) Hqp) as Hatr1.
  do 2 (ifcase; [lia|]). rewrite Hb0.
  destruct (open_at Hatr1 Hrepr 0 c ltac:(lia) Hc) as (off' & _ & _ & Hoff & Eo' & _ & _ & _ & Hkl & _ & Hkey1 & _).
  change (slot_addr 0) with 64 in *. rewrite w64_small in Hoff by lia. assert (off' = off) as -> by congruence. rewrite Hoff.
  rewrite Hbd by lia. unwrap. rewrite Hkl. unwrap. rewrite Hbd by lia.
  assert (Hret : forall h2, exists h' ok, Some (Some h2, 0) = Some (Some h', ok) /\
    (ok = 0 \/ ok = 1 /\ exists q hi', h' = copy_at h (intern * 0x4000) q /\ node 2 8 q [sep (cKey c) right] hi' /\ link q = left)) by eauto.
  replace (4 + len (cKey c) + 8) with (12 + len (cKey c)) by lia. ifcase; [apply Hret|]. ifcase; [apply Hret|].
  rewrite !(bt_off_ok_at Hat1) by lia.
  assert (Hb : bytes_ok (cKey c)) by (rewrite <- Hkey; apply bytes_ok_sub, Hatr).
  unfold disjoint_at in Hdis.
  destruct (first_sep_eq _ _ _ q (cKey c) right (fun heap v => bt_copy_bytes_same heap 0 (np * 16384) v 0 (np * 16384) (right * 16384 + off + 4) (len (cKey c))) Hat1 Hq Hb)
    as (q' & Hst & Hq' & Hlq'); [lia | lia | |].
  - rewrite bt_copy_bytes_same_eq by (rewrite ?len_copy_at; lia). do 3 f_equal. rewrite !Z.add_0_l.
    rewrite !(sub_copy_at_ne _ _ (le_put _ _)) by (rewrite ?len_copy_at, ?len_le_put; lia). done.
  - cbv beta in Hst. rewrite Hst. eexists _, _. split; [done|]. right. split; [done|]. exists q', (0x4000 - (12 + len (cKey c))).
    rewrite (at_put_put Hat) by (apply Hqp || apply (rep_page _ _ _ _ _ Hq')). by rewrite Hlq'.
Qed.

Lemma bt_make_root_buf_eq h np left right nroot buf key :
  heap_ok h np -> 0 <= left < np -> 0 <= right < np -> 0 <= nroot < np -> nroot <> left -> nroot <> right ->
  bytes_ok key -> 0 < len key <= 0x4000 -> len key <= len buf -> sub buf 0 (len key) = key ->
  exists h' ok, bt_make_root_buf (Some h) (np * 0x4000) np left right nroot (Some buf) (len key) = Some (Some h', ok) /\
    (ok = 0 \/ ok = 1 /\ exists q hi', h' = copy_at h (nroot * 0x4000) q /\ node 2 8 q [sep key right] hi' /\ link q = left).
Proof.
  intros Hh Hl Hr Hi Hne1 Hne2 Hb Hk Hbuf Hkey. pose proof (page_at _ _ _ Hh Hi) as Hat.
  destruct (at_facts Hat) as (? & ? & ? & ?). unfold bt_make_root_buf. cbn [is_nil].
  repeat (ifcase; [lia|]). unwrap. do 2 (ifcase; [lia|]; unwrap).
  destruct (init_internal_eq _ _ _ _ left Hat) as (q & -> & Hq & Hlq); [lia|].
  pose proof (rep_page _ _ _ _ _ Hq) as Hqp. pose proof (at_put _ _ _ _ _ Hat Hqp) as Hat1.
  assert (Hret : forall h2, exists h' ok, Some (Some h2, 0) = Some (Some h', ok) /\
    (ok = 0 \/ ok = 1 /\ exists q hi', h' = copy_at h (nroot * 0x4000) q /\ node 2 8 q [sep key right] hi' /\ link q = left)) by eauto.
  replace (4 + len key + 8) with (12 + len key) by lia. ifcase; [apply Hret|]. unwrap. ifcase; [apply Hret|].
  rewrite (bt_off_ok_at Hat1) by lia. unwrap.
  destruct (first_sep_eq _ _ _ q key right (fun heap v => bt_copy_in heap (np * 16384) v (Some buf) (len key)) Hat1 Hq Hb)
    as (q' & Hst & Hq' & Hlq'); [lia | lia | |].
  - rewrite bt_copy_in_eq by (rewrite ?len_copy_at; lia). by rewrite Hkey.
  - cbv beta in Hst. rewrite Hst. eexists _, _. split; [done|]. right. split; [done|]. exists q', (0x4000 - (12 + len key)).
    rewrite (at_put_put Hat) by (apply Hqp || apply (rep_page _ _ _ _ _ Hq')). by rewrite Hlq'.
Qed.

End BtIntern.
