(* ===== verification/BtInsert.v ===== *)
(** * Insertion in the B-tree of many pages (src/pkg/c2db/db_btree_gen.go)

    [Db_bt_insert_ver_heap] on the working buffer: the descent that copies the
    pages of the path, the insertion in the leaf, the split of a full leaf, the
    new separator, and the splits of full internal pages up to a new root. *)

From stdpp Require Import sorting.
From S2P Require Import Prelude Bytes PageKernel BtMem BtLeaf BtVersion BtHeap BtTree BtSplit BtIntern.
Import Bytes PageKernel BtMem BtLeaf BtVersion BtHeap BtTree BtSplit BtIntern.

Local Open Scope Z_scope.

Module BtInsert.

Record Db_bt_heap_st_t := { h_Root : Z; h_Used : Z; h_Nkeys : Z; h_Pages : Z; h_Ok : Z; h_Full : Z }.
Definition st0 : Db_bt_heap_st_t := {| h_Root := 0; h_Used := 0; h_Nkeys := 0; h_Pages := 0; h_Ok := 0; h_Full := 0 |}.
Definition st_full : Db_bt_heap_st_t := {| h_Root := 0; h_Used := 0; h_Nkeys := 0; h_Pages := 0; h_Ok := 0; h_Full := 1 |}.

(** ** Splitting internal pages *)

(** The separators from [lo] on are appended to the page at [v93]; [Ret] on a bad
    cell or a full page. *)
Definition move_seps (heap : slice) (nbytes v32 v93 lo v41 : Z) : option (slice + slice) :=
  for_range (S:=slice) (R:=slice) lo v41 (fun v10 heap =>
    let v11 := (64 +% (v10 *% 2))%u64 in
    if bt_off_ok nbytes v32 v11 2 =? 0 then Some (Ret heap) else
    let v12 := bt_read16 heap nbytes (w64 (v32 + v11)) in
    if bt_off_ok nbytes v32 v12 4 =? 0 then Some (Ret heap) else
    let v136 := w64 (4 + bt_read16 heap nbytes (w64 (v32 + v12)) + 8) in
    if bt_off_ok nbytes v32 v12 v136 =? 0 then Some (Ret heap) else
    let v143 := bt_read16 heap nbytes (w64 (v93 + 22)) in
    let v147 := bt_read16 heap nbytes (w64 (v93 + 24)) in
    let v151 := bt_read16 heap nbytes (w64 (v93 + 26)) in
    if 2 >? w64 (0x4000 - v147) then Some (Ret heap) else
    if v136 >? v151 then Some (Ret heap) else
    let v157 := w64 (v151 - v136) in
    if w64 (v147 + 2) >? v157 then Some (Ret heap) else
    heap ← bt_copy_bytes_same heap 0 nbytes (w64 (v93 + v157)) 0 nbytes (w64 (v32 + v12)) v136;
    let v169 := w16 v157 in
    let heap := bt_write16 heap nbytes (w64 (v93 + (64 +% (v143 *% 2))%u64)) v169 in
    let heap := bt_write16 heap nbytes (w64 (v93 + 22)) (w16 (v143 + 1)) in
    let heap := bt_write16 heap nbytes (w64 (v93 + 24)) (w16 (v147 + 2)) in
    let heap := bt_write16 heap nbytes (w64 (v93 + 26)) v169 in
    Some (Next heap)) heap.

(** The source keeps the separators before [v43] and is repacked. *)
Definition keep_seps (heap : slice) (nbytes src v32 v43 : Z) : option (slice * Z) :=
  let heap := bt_write16 heap nbytes (w64 (v32 + 22)) (w16 v43) in
  w ← tail_of heap (w64 (src * 0x4000));
  '(w, ok) ← bt_leaf_repack w 0x4000 8;
  Some (put_tail heap (w64 (src * 0x4000)) w, ok).

(** The middle separator goes to [keybuf]; the result is its length, or 0. *)
Definition bt_split_internal (heap : slice) (nbytes npages src dst : Z) (keybuf : slice) : option (slice * slice * Z) :=
  if (src >=? npages) || (dst >=? npages) then Some (heap, keybuf, 0) else
  if (src =? dst) || is_nil keybuf then Some (heap, keybuf, 0) else
  let v32 := w64 (src * 0x4000) in
  if negb (bt_read8 heap nbytes (w64 (v32 + 20)) =? 2) then Some (heap, keybuf, 0) else
  let v41 := bt_read16 heap nbytes (w64 (v32 + 22)) in
  let v43 := v41 / 2 in
  if v43 =? 0 then Some (heap, keybuf, 0) else
  if w64 (v43 + 1) >=? v41 then Some (heap, keybuf, 0) else
  let v11 := (64 +% (v43 *% 2))%u64 in
  if bt_off_ok nbytes v32 v11 2 =? 0 then Some (heap, keybuf, 0) else
  let v12 := bt_read16 heap nbytes (w64 (v32 + v11)) in
  if bt_off_ok nbytes v32 v12 4 =? 0 then Some (heap, keybuf, 0) else
  let v66 := bt_read16 heap nbytes (w64 (v32 + v12)) in
  if ((v66 =? 0) || (v66 >? 0xffff)) || (v66 >? 0x4000) then Some (heap, keybuf, 0) else
  if bt_off_ok nbytes v32 v12 (w64 (4 + v66 + 8)) =? 0 then Some (heap, keybuf, 0) else
  let v85 := w64 (v32 + v12 + 4) in
  keybuf ← bt_copy_out heap nbytes v85 keybuf v66;
  let v93 := w64 (dst * 0x4000) in
  let heap := init_internal heap nbytes v93 (bt_read64 heap nbytes (w64 (v85 + v66))) in
  r ← move_seps heap nbytes v32 v93 (w64 (v43 + 1)) v41;
  match r with
  | inr heap => Some (heap, keybuf, 0)
  | inl heap =>
      '(heap, ok) ← keep_seps heap nbytes src v32 v43;
      if ok =? 0 then Some (heap, keybuf, 0) else Some (heap, keybuf, v66)
  end.

(** Which of [dst] and [src] has the child [left], after a split. *)
Definition side_of (heap : slice) (nbytes npages src dst left : Z) : option Z :=
  if negb (bt_internal_has_child heap nbytes dst left npages =? 0) then Some dst else
  if bt_internal_has_child heap nbytes src left npages =? 0 then None else Some src.

(** The page [nroot] over [src] and [dst], around the separator whose slot is at
    [v14] of the page at [v39]. *)
Definition raise_root (heap : slice) (nbytes v39 v14 v73 src dst nroot : Z) : option (slice * Z) :=
  let v184 := w64 (nroot * 0x4000) in
  let heap := init_internal heap nbytes v184 src in
  let v17 := w64 (4 + v73 + 8) in
  let v21 := w64 (0x4000 - v17) in
  if 66 >? v21 then Some (heap, 0) else
  let v15 := bt_read16 heap nbytes (w64 (v39 + v14)) in
  let v221 := w64 (v184 + v21) in
  let heap := bt_write16 heap nbytes v221 (w16 v73) in
  let heap := bt_write16 heap nbytes (w64 (v221 + 2)) 0 in
  let v231 := w64 (v221 + 4) in
  heap ← bt_copy_bytes_same heap 0 nbytes v231 0 nbytes (w64 (v39 + v15 + 4)) v73;
  let heap := bt_write64 heap nbytes (w64 (v231 + v73)) dst in
  let v243 := w16 v21 in
  let heap := bt_write16 heap nbytes (w64 (v184 + 64)) v243 in
  let heap := bt_write16 heap nbytes (w64 (v184 + 22)) 1 in
  let heap := bt_write16 heap nbytes (w64 (v184 + 24)) 66 in
  Some (bt_write16 heap nbytes (w64 (v184 + 26)) v243, 1).

(** The full root [src] is split with [dst] under the new root [nroot]. *)
Definition bt_elevate_root (heap : slice) (nbytes npages src dst nroot left right : Z) : option (slice * Z) :=
  if ((src >=? npages) || (dst >=? npages)) || (nroot >=? npages) then Some (heap, 0) else
  if ((src =? dst) || (src =? nroot)) || (dst =? nroot) then Some (heap, 0) else
  let v39 := w64 (src * 0x4000) in
  if negb (bt_read8 heap nbytes (w64 (v39 + 20)) =? 2) then Some (heap, 0) else
  let v48 := bt_read16 heap nbytes (w64 (v39 + 22)) in
  let v50 := v48 / 2 in
  if v50 =? 0 then Some (heap, 0) else
  if w64 (v50 + 1) >=? v48 then Some (heap, 0) else
  let v14 := (64 +% (v50 *% 2))%u64 in
  if bt_off_ok nbytes v39 v14 2 =? 0 then Some (heap, 0) else
  let v15 := bt_read16 heap nbytes (w64 (v39 + v14)) in
  if bt_off_ok nbytes v39 v15 4 =? 0 then Some (heap, 0) else
  let v73 := bt_read16 heap nbytes (w64 (v39 + v15)) in
  if bt_off_ok nbytes v39 v15 (w64 (4 + v73 + 8)) =? 0 then Some (heap, 0) else
  let v87 := w64 (dst * 0x4000) in
  let heap := init_internal heap nbytes v87 (bt_read64 heap nbytes (w64 (v39 + v15 + 4 + v73))) in
  r ← move_seps heap nbytes v39 v87 (w64 (v50 + 1)) v48;
  match r with
  | inr heap => Some (heap, 0)
  | inl heap =>
      '(heap, ok) ← raise_root heap nbytes v39 v14 v73 src dst nroot;
      if ok =? 0 then Some (heap, 0) else
      '(heap, ok) ← keep_seps heap nbytes src v39 v50;
      if ok =? 0 then Some (heap, 0) else
      match side_of heap nbytes npages src dst left with
      | None => Some (heap, 0)
      | Some v24 => bt_internal_add_sep heap nbytes npages v24 left right
      end
  end.

(** [for v20 > 0] over the ancestors; the fuel is the level.  The state is the
    pages used, the mask, the pair of pages to link and the two key buffers.  The
    result is the final status, or the pair and the buffer when every ancestor
    was split. *)
Fixpoint attach_loop (fuel : nat) (pub : source) (dirty : slice) (nbytes npages : Z) (anc : list Z) (root : Z)
    (used mask v18 v19 : Z) (v14 v15 : slice) (v16 v20 : Z)
    : option (slice * (Db_bt_heap_st_t + Z * Z * Z * Z * slice * Z)) :=
  if negb (v20 >? 0) then Some (dirty, inr (used, mask, v18, v19, v14, v16)) else
  match fuel with
  | O => None
  | S fuel' =>
      v56 ← idx anc (w64 (v20 - 1));
      if v56 >=? npages then Some (dirty, inl st0) else
      '(dirty, ok) ← bt_internal_insert_buf dirty nbytes npages v56 v18 v19 v14 v16;
      if negb (ok =? 0) then
        Some (dirty, inl {| h_Root := root; h_Used := used; h_Nkeys := 0; h_Pages := mask; h_Ok := 1; h_Full := 0 |})
      else
      let v62 := w64 (used + 1) in
      if (v62 >? npages) || (v62 <? used) then Some (dirty, inl st_full) else
      let v22 := used in
      '(dirty, mask) ← bt_cow_page pub dirty nbytes v22 mask;
      '(dirty, v15, v70) ← bt_split_internal dirty nbytes npages v56 v22 v15;
      if v70 =? 0 then Some (dirty, inl st0) else
      match side_of dirty nbytes npages v56 v22 v18 with
      | None => Some (dirty, inl st0)
      | Some v23 =>
          '(dirty, ok) ← bt_internal_insert_buf dirty nbytes npages v23 v18 v19 v14 v16;
          if ok =? 0 then Some (dirty, inl st0) else
          v14 ← bt_copy_bytes v14 0x4000 0 v15 0x4000 0 v70;
          attach_loop fuel' pub dirty nbytes npages anc root (w64 (used + 1)) mask v56 v22 v14 v15 v70 (w64 (v20 - 1))
      end
  end.

Definition bt_split_attach_deep (pub : source) (dirty : slice) (nbytes npages : Z) (anc : list Z)
    (level root used mask src dst left right : Z) : option (slice * Db_bt_heap_st_t) :=
  if (level =? 0) || (level >=? 32) then Some (dirty, st_full) else
  if is_nil (source_bytes pub dirty) || is_nil dirty then Some (dirty, st0) else
  '(dirty, v14, v16) ← bt_split_internal dirty nbytes npages src dst (Some (zeros 0x4000));
  if v16 =? 0 then Some (dirty, st0) else
  match side_of dirty nbytes npages src dst left with
  | None => Some (dirty, st0)
  | Some v23 =>
      '(dirty, ok) ← bt_internal_add_sep dirty nbytes npages v23 left right;
      if ok =? 0 then Some (dirty, st0) else
      '(dirty, r) ← attach_loop (Z.to_nat level) pub dirty nbytes npages anc root used mask src dst v14 (Some (zeros 0x4000)) v16 level;
      match r with
      | inl st => Some (dirty, st)
      | inr (used, mask, v18, v19, v14, v16) =>
          let v88 := w64 (used + 1) in
          if (v88 >? npages) || (v88 <? used) then Some (dirty, st_full) else
          let v24 := used in
          '(dirty, mask) ← bt_cow_page pub dirty nbytes v24 mask;
          '(dirty, ok) ← bt_make_root_buf dirty nbytes npages v18 v19 v24 v14 v16;
          if ok =? 0 then Some (dirty, st0) else
          Some (dirty, {| h_Root := v24; h_Used := w64 (used + 1); h_Nkeys := 0; h_Pages := mask; h_Ok := 1; h_Full := 0 |})
      end
  end.

(** ** The insertion *)

Definition st_ok (dirty : slice) (nbytes npages root used mask : Z) : Db_bt_heap_st_t :=
  {| h_Root := root; h_Used := used; h_Nkeys := bt_heap_nkeys dirty nbytes npages root;
     h_Pages := mask; h_Ok := 1; h_Full := 0 |}.

(** [for v26 == 2 && v15 < npages]: the fuel is [npages - v15].  The state is the
    page, its parent, the mask and the internal pages of the path; the result is
    [None] inside when the descent is refused. *)
Fixpoint ins_descend (fuel : nat) (pub : source) (dirty : slice) (nbytes npages : Z) (key : slice) (klen : Z)
    (v14 v24 v23 : Z) (v28 : list Z) (v29 v26 : Z) : option (slice * option (Z * Z * Z * list Z * Z * Z)) :=
  if negb (v26 =? 2) then Some (dirty, Some (v14, v24, v23, v28, v29, v26)) else
  match fuel with
  | O => Some (dirty, Some (v14, v24, v23, v28, v29, v26))
  | S fuel' =>
      let v24 := v14 in
      v87 ← bt_internal_child dirty nbytes (w64 (v14 * 0x4000)) key klen;
      if v87 >=? npages then Some (dirty, None) else
      if v87 =? v14 then Some (dirty, None) else
      let v14 := v87 in
      '(dirty, v23) ← bt_cow_page pub dirty nbytes v14 v23;
      let v26 := bt_read8 dirty nbytes (w64 (w64 (v14 * 0x4000) + 20)) in
      if v26 =? 2 then
        if v29 >=? 32 then Some (dirty, None) else
        v28 ← upd v28 v29 v14;
        ins_descend fuel' pub dirty nbytes npages key klen v14 v24 v23 v28 (w64 (v29 + 1)) v26
      else ins_descend fuel' pub dirty nbytes npages key klen v14 v24 v23 v28 v29 v26
  end.

(** When the key is there: the replacement of an equal value, if asked, then the
    insertion. *)
Definition ins_found (dirty : slice) (nbytes v19 : Z) (key : slice) (klen : Z) (id16 val : slice) (vlen prune : Z)
    : option (slice * bool) :=
  '(v13, _) ← bt_get_at dirty nbytes v19 key klen None 0;
  if negb (Found v13 =? 0) then
    '(dirty, v111) ← (if negb (prune =? 0) then bt_replace_same_value_at dirty nbytes v19 key klen id16 val vlen
                      else Some (dirty, 0));
    if negb (v111 =? 0) then Some (dirty, true) else
    '(dirty, v12) ← bt_insert_ver_at dirty nbytes v19 key klen id16 val vlen;
    Some (dirty, negb (Ok v12 =? 0))
  else Some (dirty, false).

(** After the split of [left] with [right]: the insertion on the side of the key. *)
Definition ins_side (dirty : slice) (nbytes left right : Z) (key : slice) (klen : Z) (id16 val : slice) (vlen : Z)
    : option (slice * bool) :=
  let v19 := w64 (right * 0x4000) in
  let v21 := bt_read16 dirty nbytes (w64 (v19 + 64)) in
  if bt_off_ok nbytes v19 v21 4 =? 0 then Some (dirty, false) else
  let v150 := w64 (v19 + v21) in
  let v22 := bt_read16 dirty nbytes v150 in
  v27 ← bt_keycmp_at dirty nbytes (w64 (v150 + 4)) v22 key klen;
  '(dirty, v12) ← bt_insert_ver_at dirty nbytes (if v27 >? 0 then w64 (left * 0x4000) else v19) key klen id16 val vlen;
  Some (dirty, negb (Ok v12 =? 0)).

(** The separator of a split leaf: in its parent [v24], else by splitting the
    root, else by splitting up the path. *)
Definition ins_attach (pub : source) (dirty : slice) (nbytes npages root v17 v23 v24 : Z) (v28 : list Z) (v29 v14 : Z)
    : option (slice * Db_bt_heap_st_t) :=
  '(dirty, ok) ← bt_internal_add_sep dirty nbytes npages v24 v14 v17;
  if negb (ok =? 0) then Some (dirty, st_ok dirty nbytes npages root (w64 (v17 + 1)) v23) else
  let v20 := w64 (v17 + 1) in
  if v24 =? root then
    if w64 (v20 + 1) >=? npages then Some (dirty, st_full) else
    '(dirty, v23) ← bt_cow_page pub dirty nbytes v20 v23;
    let v182 := w64 (v20 + 1) in
    '(dirty, v23) ← bt_cow_page pub dirty nbytes v182 v23;
    '(dirty, ok) ← bt_elevate_root dirty nbytes npages root v20 v182 v14 v17;
    if ok =? 0 then Some (dirty, st0) else
    let v190 := w64 (v20 + 1) in
    Some (dirty, st_ok dirty nbytes npages v190 (w64 (v17 + 3)) v23)
  else
    if v20 >=? npages then Some (dirty, st_full) else
    '(dirty, v23) ← bt_cow_page pub dirty nbytes v20 v23;
    '(dirty, v30) ← bt_split_attach_deep pub dirty nbytes npages v28 (w64 (v29 - 1)) root (w64 (v17 + 2)) v23 v24 v20 v14 v17;
    if h_Ok v30 =? 0 then Some (dirty, {| h_Root := 0; h_Used := 0; h_Nkeys := 0; h_Pages := 0; h_Ok := 0; h_Full := h_Full v30 |}) else
    Some (dirty, st_ok dirty nbytes npages (h_Root v30) (h_Used v30) (h_Pages v30)).

(** The root is an internal page. *)
Definition ins_tree (pub : source) (dirty : slice) (nbytes npages root v17 v23 : Z) (key : slice) (klen : Z)
    (id16 val : slice) (vlen prune : Z) : option (slice * Db_bt_heap_st_t) :=
  '(dirty, r) ← ins_descend (Z.to_nat npages) pub dirty nbytes npages key klen root root v23
                  (wr (zeros 32) 0 root) 1 2;
  match r with
  | None => Some (dirty, st0)
  | Some (v14, v24, v23, v28, v29, v26) =>
      if v26 =? 2 then Some (dirty, st0) else
      let v19 := w64 (v14 * 0x4000) in
      '(dirty, done) ← ins_found dirty nbytes v19 key klen id16 val vlen prune;
      if (done : bool) then Some (dirty, st_ok dirty nbytes npages root v17 v23) else
      '(dirty, v12) ← bt_insert_ver_at dirty nbytes v19 key klen id16 val vlen;
      if negb (Ok v12 =? 0) then Some (dirty, st_ok dirty nbytes npages root v17 v23) else
      let v131 := w64 (v17 + 2) in
      if (v131 >? npages) || (v131 <? v17) then Some (dirty, st_full) else
      '(dirty, v23) ← bt_cow_page pub dirty nbytes v17 v23;
      '(dirty, ok) ← bt_chain_split_ver dirty npages v14 v17;
      if ok =? 0 then Some (dirty, st0) else
      '(dirty, done) ← ins_side dirty nbytes v14 v17 key klen id16 val vlen;
      if negb (done : bool) then Some (dirty, st0) else
      ins_attach pub dirty nbytes npages root v17 v23 v24 v28 v29 v14
  end.

(** The root is a leaf.  The first loop stops at the leaf that has the key, or
    at the last one; its result is the status, or the leaf where it stopped. *)
Fixpoint leaf_find (fuel : nat) (pub : source) (dirty : slice) (nbytes npages root v17 : Z) (key : slice) (klen : Z)
    (id16 val : slice) (vlen prune v14 v18 v23 : Z) : option (slice * (Db_bt_heap_st_t + Z * Z)) :=
  match fuel with
  | O => Some (dirty, inr (v18, v23))
  | S fuel' =>
      if v14 >=? npages then Some (dirty, inl st0) else
      '(dirty, v23) ← bt_cow_page pub dirty nbytes v14 v23;
      let v19 := w64 (v14 * 0x4000) in
      '(v13, _) ← bt_get_at dirty nbytes v19 key klen None 0;
      '(dirty, done) ← ins_found dirty nbytes v19 key klen id16 val vlen prune;
      if (done : bool) then Some (dirty, inl (st_ok dirty nbytes npages root v17 v23)) else
      if negb (Found v13 =? 0) then Some (dirty, inr (v14, v23)) else
      let v16 := bt_read64 dirty nbytes (w64 (v19 + 8)) in
      if v16 =? 0 then Some (dirty, inr (v14, v23)) else
      if v16 =? v14 then Some (dirty, inr (v14, v23)) else
      leaf_find fuel' pub dirty nbytes npages root v17 key klen id16 val vlen prune v16 v14 v23
  end.

(** The second loop inserts in the first leaf of the chain with room. *)
Fixpoint leaf_insert (fuel : nat) (pub : source) (dirty : slice) (nbytes npages root v17 : Z) (key : slice) (klen : Z)
    (id16 val : slice) (vlen v14 v18 v23 : Z) : option (slice * (Db_bt_heap_st_t + Z * Z)) :=
  match fuel with
  | O => Some (dirty, inr (v18, v23))
  | S fuel' =>
      if v14 >=? npages then Some (dirty, inr (v18, v23)) else
      '(dirty, v23) ← bt_cow_page pub dirty nbytes v14 v23;
      let v19 := w64 (v14 * 0x4000) in
      '(dirty, v12) ← bt_insert_ver_at dirty nbytes v19 key klen id16 val vlen;
      if negb (Ok v12 =? 0) then Some (dirty, inl (st_ok dirty nbytes npages root v17 v23)) else
      let v16 := bt_read64 dirty nbytes (w64 (v19 + 8)) in
      if v16 =? 0 then Some (dirty, inr (v14, v23)) else
      if v16 =? v14 then Some (dirty, inr (v14, v23)) else
      leaf_insert fuel' pub dirty nbytes npages root v17 key klen id16 val vlen v16 v14 v23
  end.

Definition ins_leaf (pub : source) (dirty : slice) (nbytes npages root v17 v23 : Z) (key : slice) (klen : Z)
    (id16 val : slice) (vlen prune : Z) : option (slice * Db_bt_heap_st_t) :=
  '(dirty, r) ← leaf_find (Z.to_nat npages) pub dirty nbytes npages root v17 key klen id16 val vlen prune root root v23;
  match r with
  | inl st => Some (dirty, st)
  | inr (v18, v23) =>
      '(dirty, r) ← leaf_insert (Z.to_nat npages) pub dirty nbytes npages root v17 key klen id16 val vlen root v18 v23;
      match r with
      | inl st => Some (dirty, st)
      | inr (v18, v23) =>
          if negb (v18 =? root) then Some (dirty, st0) else
          if v17 >=? npages then Some (dirty, st0) else
          let v269 := w64 (v17 + 2) in
          if (npages >? 2) && ((v269 >? npages) || (v269 <? v17)) then Some (dirty, st0) else
          '(dirty, v23) ← bt_cow_page pub dirty nbytes v18 v23;
          '(dirty, v23) ← bt_cow_page pub dirty nbytes v17 v23;
          '(dirty, ok) ← bt_chain_split_ver dirty npages v18 v17;
          if ok =? 0 then Some (dirty, st0) else
          '(dirty, done) ← ins_side dirty nbytes v18 v17 key klen id16 val vlen;
          if negb (done : bool) then Some (dirty, st0) else
          let v20 := w64 (v17 + 1) in
          if v20 <? npages then
            '(dirty, v23) ← bt_cow_page pub dirty nbytes v20 v23;
            '(dirty, ok) ← bt_make_internal dirty nbytes npages root v17 v20;
            if ok =? 0 then Some (dirty, st0) else
            Some (dirty, st_ok dirty nbytes npages v20 (w64 (v17 + 2)) v23)
          else if npages =? 2 then Some (dirty, st_ok dirty nbytes npages root (w64 (v17 + 1)) v23)
          else Some (dirty, st0)
      end
  end.

(** [root] and [used] are the fields of the state the caller passes. *)
Definition bt_insert_ver_heap_impl (pub : source) (dirty : slice) (nbytes npages root used : Z) (key : slice) (klen : Z)
    (id16 val : slice) (vlen prune : Z) : option (slice * Db_bt_heap_st_t) :=
  if is_nil (source_bytes pub dirty) || is_nil dirty then Some (dirty, st0) else
  if npages =? 0 then Some (dirty, st0) else
  if bad_size nbytes npages then Some (dirty, st0) else
  if ((klen =? 0) || (klen >? 0xffff)) || (vlen >? 0xffff) then Some (dirty, st0) else
  if is_nil key || is_nil id16 then Some (dirty, st0) else
  if (vlen >? 0) && is_nil val then Some (dirty, st0) else
  let v17 := if used =? 0 then 1 else used in
  if root >=? npages then Some (dirty, st0) else
  '(dirty, v23) ← bt_cow_page pub dirty nbytes root 0;
  let v26 := bt_read8 dirty nbytes (w64 (w64 (root * 0x4000) + 20)) in
  if v26 =? 2 then ins_tree pub dirty nbytes npages root v17 v23 key klen id16 val vlen prune
  else ins_leaf pub dirty nbytes npages root v17 v23 key klen id16 val vlen prune.

Definition Db_bt_insert_ver_heap (pub : source) (dirty : slice) (nbytes npages root used : Z) (key : slice) (klen : Z)
    (id16 val : slice) (vlen : Z) : option (slice * Db_bt_heap_st_t) :=
  bt_insert_ver_heap_impl pub dirty nbytes npages root used key klen id16 val vlen 0.

Definition Db_bt_insert_ver_heap_prune (pub : source) (dirty : slice) (nbytes npages root used : Z) (key : slice) (klen : Z)
    (id16 val : slice) (vlen prune : Z) : option (slice * Db_bt_heap_st_t) :=
  bt_insert_ver_heap_impl pub dirty nbytes npages root used key klen id16 val vlen prune.

End BtInsert.
