(* ===== verification/BtSpine.v ===== *)
(** * Paths in a B-tree

    The abstract side of the insertion (BtInsert.v): the path of a descent with
    what lies around it, and how a subtree on the path is replaced by another
    one or by two around a separator. *)

From stdpp Require Import sorting.
From S2P Require Import Prelude Bytes PageKernel BtMem BtLeaf BtVersion BtHeap BtTree BtSplit BtIntern.
Import Bytes PageKernel BtMem BtLeaf BtVersion BtHeap BtTree BtSplit BtIntern.

Local Open Scope Z_scope.

Module BtSpine.

(** ** Stores of whole pages *)

Lemma heap_put h np pg p : heap_ok h np -> 0 <= pg < np -> page_ok p -> heap_ok (copy_at h (pg * 0x4000) p) np.
Proof. intros [Hl Hb Hs] Hpg [Hp Hpb]. split; rewrite ?len_copy_at; [done | by apply bytes_ok_copy_at | done]. Qed.

Lemma page_put_eq h np pg p : heap_ok h np -> 0 <= pg < np -> page_ok p -> page (copy_at h (pg * 0x4000) p) pg = p.
Proof. intros [Hl Hb Hs] Hpg [Hp Hpb]. unfold page. apply sub_copy_at_eq; lia. Qed.

Lemma page_put_ne h np pg q p : heap_ok h np -> 0 <= pg < np -> 0 <= q < np -> page_ok p -> q <> pg ->
  page (copy_at h (pg * 0x4000) p) q = page h q.
Proof. intros [Hl Hb Hs] Hpg Hq [Hp Hpb] Hne. unfold page. apply sub_copy_at_ne; lia. Qed.

Lemma page_same h np pg : heap_ok h np -> 0 <= pg < np -> copy_at h (pg * 0x4000) (page h pg) = h.
Proof. intros Hh Hpg. apply (at_id (page_at _ _ _ Hh Hpg)). Qed.

(** [h'] is a buffer of the same size that differs from [h] in the pages [l] at most. *)
Record changed (np : Z) (l : list Z) (h h' : list Z) : Prop := {
  ch_heap : heap_ok h' np;
  ch_page : forall q, 0 <= q < np -> q ∉ l -> page h' q = page h q;
}.

Lemma changed_refl np h l : heap_ok h np -> changed np l h h.
Proof. by split. Qed.

Lemma changed_trans np l1 l2 h1 h2 h3 : changed np l1 h1 h2 -> changed np l2 h2 h3 -> changed np (l1 ++ l2) h1 h3.
Proof.
  intros [_ H1] [Hh H2]. split; [done|]. intros q Hq Hni. rewrite elem_of_app in Hni. rewrite H2, H1; tauto.
Qed.

Lemma changed_mono np l1 l2 h h' : l1 ⊆ l2 -> changed np l1 h h' -> changed np l2 h h'.
Proof. intros Hsub [Hh H]. split; [done|]. intros q Hq Hni. apply H; [done|]. intros Hin. apply Hni, Hsub, Hin. Qed.

Lemma changed_put np h pg p : heap_ok h np -> 0 <= pg < np -> page_ok p -> changed np [pg] h (copy_at h (pg * 0x4000) p).
Proof.
  intros Hh Hpg Hp. split; [by apply heap_put|]. intros q Hq Hni. apply (page_put_ne _ np); try done.
  intros ->. apply Hni. by apply list_elem_of_singleton.
Qed.

Lemma changed_agree np l h h' pgs : changed np l h h' -> Forall (fun q => 0 <= q < np) pgs ->
  (forall q, q ∈ pgs -> q ∉ l) -> agree h h' pgs.
Proof.
  intros [_ H] Hb Hd. unfold agree. rewrite Forall_forall in *. intros q Hq. apply H; [by apply Hb | by apply Hd].
Qed.

(** ** The path of a descent *)

(** The descent of [key] from [root] went through the internal pages [anc] and is
    at [cur], the root of a subtree with leaves [lv] and internal pages [ips];
    the leaves [A], [B] and the pages [C], [D] are around it. *)
Inductive spine (h : list Z) (np root : Z) (key : list Z) (LV : list (Z * list cell)) (IPS : list Z) :
    list Z -> list (Z * list cell) -> list (Z * list cell) -> list Z -> list Z ->
    Z -> bound -> bound -> list (Z * list cell) -> list Z -> Prop :=
| spine_top :
    tree h np root None None LV IPS -> spine h np root key LV IPS [] [] [] [] [] root None None LV IPS
| spine_down anc A B C D pg lo up sc hi lv ips lo1 up1 l1 lv1 l2 i1 ips1 i2 :
    spine h np root key LV IPS anc A B C D pg lo up lv (pg :: ips) ->
    0 <= pg < np -> node 2 8 (page h pg) sc hi -> Forall (fun s => cVal s = []) sc ->
    focus h np (link (page h pg)) lo up sc lv ips key lo1 up1 l1 lv1 l2 i1 ips1 i2 ->
    spine h np root key LV IPS (anc ++ [pg]) (A ++ l1) (l2 ++ B) (C ++ pg :: i1) (i2 ++ D)
      (child_for (link (page h pg)) sc key) lo1 up1 lv1 ips1.

Section Spine.
Context {h : list Z} {np root : Z} {key : list Z} {LV : list (Z * list cell)} {IPS : list Z}.

(** The pages around the subtree. *)
Definition around (A B : list (Z * list cell)) (C D : list Z) : list Z := pages (A ++ B) (C ++ D).

Lemma around_perm A B C D lv ips : pages (A ++ lv ++ B) (C ++ ips ++ D) ≡ₚ around A B C D ++ pages lv ips.
Proof. unfold around, pages. rewrite !map_app. solve_Permutation. Qed.

Lemma agree_perm h' l1 l2 : l1 ≡ₚ l2 -> agree h h' l1 -> agree h h' l2.
Proof. unfold agree. by intros ->. Qed.

Lemma around_down A B C D l1 l2 pg i1 i2 :
  around (A ++ l1) (l2 ++ B) (C ++ pg :: i1) (i2 ++ D) ≡ₚ around A B C D ++ pg :: pages l1 i1 ++ pages l2 i2.
Proof. unfold around, pages. rewrite !map_app. solve_Permutation. Qed.

(** The subtree on the path may be replaced by another one. *)
Lemma spine_replace anc A B C D cur lo up lv ips : spine h np root key LV IPS anc A B C D cur lo up lv ips ->
  forall h' lv' ips', agree h h' (around A B C D) -> tree h' np cur lo up lv' ips' ->
  tree h' np root None None (A ++ lv' ++ B) (C ++ ips' ++ D).
Proof.
  induction 1 as [Ht|anc A B C D pg lo up sc hi lv ips lo1 up1 l1 lv1 l2 i1 ips1 i2 _ IH Hpg Hn Hv F];
    intros h' lv' ips' Hag Ht'.
  - by rewrite !app_nil_r.
  - apply (agree_perm _ _ _ (around_down _ _ _ _ _ _ _ _ _)) in Hag. apply agree_app in Hag as [Hag Hag'].
    apply Forall_cons_1 in Hag' as [Epg Hag']. apply agree_app in Hag' as [H1 H2].
    pose proof (fc_replace _ _ _ _ _ _ _ _ _ _ _ _ _ _ _ _ _ F h' lv' ips' H1 H2 Ht') as Hk.
    replace ((A ++ l1) ++ lv' ++ l2 ++ B) with (A ++ (l1 ++ lv' ++ l2) ++ B) by (by rewrite <- !app_assoc).
    replace ((C ++ pg :: i1) ++ ips' ++ i2 ++ D) with (C ++ (pg :: i1 ++ ips' ++ i2) ++ D)
      by (rewrite <- !app_assoc; cbn; by rewrite <- !app_assoc).
    apply IH; [done|]. eapply tree_node; rewrite ?Epg; eauto.
Qed.

Lemma spine_tree anc A B C D cur lo up lv ips : spine h np root key LV IPS anc A B C D cur lo up lv ips ->
  tree h np cur lo up lv ips.
Proof. destruct 1 as [Ht|]; [done|]. by eapply fc_tree. Qed.

Lemma spine_range anc A B C D cur lo up lv ips : spine h np root key LV IPS anc A B C D cur lo up lv ips -> in_range lo up key.
Proof. destruct 1; [done|]. by eapply fc_in. Qed.

Lemma spine_index anc A B C D cur lo up lv ips : spine h np root key LV IPS anc A B C D cur lo up lv ips ->
  LV = A ++ lv ++ B /\ IPS = C ++ ips ++ D.
Proof.
  induction 1 as [Ht|anc A B C D pg lo up sc hi lv ips lo1 up1 l1 lv1 l2 i1 ips1 i2 _ [-> ->] Hpg Hn Hv F].
  - by rewrite !app_nil_r.
  - rewrite (fc_lv _ _ _ _ _ _ _ _ _ _ _ _ _ _ _ _ _ F), (fc_ips _ _ _ _ _ _ _ _ _ _ _ _ _ _ _ _ _ F).
    rewrite <- !app_assoc. cbn. by rewrite <- !app_assoc.
Qed.

Lemma spine_len anc A B C D cur lo up lv ips : spine h np root key LV IPS anc A B C D cur lo up lv ips -> len anc <= len C.
Proof. induction 1; [done|]. rewrite !len_app, !len_cons, (len_nil (A:=Z)). pose proof (len_nonneg i1). lia. Qed.

Lemma spine_head anc A B C D cur lo up lv ips : spine h np root key LV IPS anc A B C D cur lo up lv ips -> anc = [] \/ root ∈ C.
Proof.
  induction 1 as [Ht|anc A B C D pg lo up sc hi lv ips lo1 up1 l1 lv1 l2 i1 ips1 i2 Hsp IH Hpg Hn Hv F]; [by left|]. right.
  rewrite elem_of_app, elem_of_cons. destruct IH as [->|IH]; [|by left]. right; left. by inversion Hsp as [|? ? ? ? ? ? ? ? ? ? ? ? ? ? ? ? ? ? ? ? ? ? ? ? E]; subst; [|destruct anc].
Qed.
End Spine.

(** ** Cutting an internal page *)

(** The children on both sides of a separator. *)
Lemma kids_cut h np c lo up sa s sb lv ips : kids h np c lo up (sa ++ s :: sb) lv ips ->
  exists lva ipsa lvb ipsb, kids h np c lo (Some (cKey s)) sa lva ipsa /\ kids h np (child_id s) (Some (cKey s)) up sb lvb ipsb /\
    lv = lva ++ lvb /\ ips = ipsa ++ ipsb /\ sep_ok lo up s.
Proof.
  revert c lo lv ips. induction sa as [|t sa IH]; intros c lo lv ips Hk.
  - inversion Hk; subst. eexists _, _, _, _. split; [by constructor|]. split; [done|]. done.
  - cbn in Hk. inversion Hk as [|? ? ? ? ? lv1 lv2 ips1 ips2 Ht Ht1 Hk2]; subst.
    destruct (IH _ _ _ _ Hk2) as (lva & ipsa & lvb & ipsb & Ha & Hb & -> & -> & Hs).
    exists (lv1 ++ lva), (ips1 ++ ipsa), lvb, ipsb. split; [|split; [done|split; [by rewrite app_assoc|split; [by rewrite app_assoc|]]]].
    + constructor; [|done|done]. split; [|apply Ht]. split; [|apply Ht]. split; [apply Ht | apply Hs].
    + split; [split; [eapply range_right; [apply Ht | apply Hs] | apply Hs]|]. destruct lo as [l|]; [|done].
      eapply blt_trans; [apply Ht | apply Hs].
Qed.

(** A page of the tree cut in two around the separator [s]. *)
Lemma tree_cut h np pg q lo up sa s sb lv ips hip hiq c :
  kids h np c lo up (sa ++ s :: sb) lv ips -> Forall (fun t => cVal t = []) sa -> Forall (fun t => cVal t = []) sb ->
  0 <= pg < np -> 0 <= q < np ->
  node 2 8 (page h pg) sa hip -> link (page h pg) = c ->
  node 2 8 (page h q) sb hiq -> link (page h q) = child_id s ->
  exists lva ipsa lvb ipsb, tree h np pg lo (Some (cKey s)) lva (pg :: ipsa) /\ tree h np q (Some (cKey s)) up lvb (q :: ipsb) /\
    lv = lva ++ lvb /\ ips = ipsa ++ ipsb /\ sep_ok lo up s.
Proof.
  intros Hk Hva Hvb Hpg Hq Hp Hlp Hnq Hlq. destruct (kids_cut _ _ _ _ _ _ _ _ _ _ Hk) as (lva & ipsa & lvb & ipsb & Ha & Hb & -> & -> & Hs).
  exists lva, ipsa, lvb, ipsb. split; [|split; [|done]]; eapply tree_node; rewrite ?Hlp, ?Hlq; eauto.
Qed.

(** The separators with one more, cut at the middle of the old ones: the new one
    is on the side of its child. *)
Lemma insert_cut (sc : list cell) (s mid : cell) (k m : nat) : sc !! m = Some mid -> (k <= length sc)%nat ->
  insert_at k s sc = if (k <=? m)%nat then insert_at k s (take m sc) ++ mid :: drop (S m) sc
                     else take m sc ++ mid :: insert_at (k - S m) s (drop (S m) sc).
Proof.
  intros Hm Hk. unfold insert_at. pose proof (lookup_lt_Some _ _ _ Hm). destruct (Nat.leb_spec k m).
  - rewrite take_take, Nat.min_l by lia. rewrite <- app_assoc. f_equal. cbn. f_equal.
    rewrite <- (take_drop m sc) at 1. rewrite drop_app_le by (rewrite length_take; lia). f_equal. by apply drop_S.
  - rewrite <- (take_drop m sc) at 1. rewrite (drop_S sc mid m) by done.
    rewrite take_app_ge by (rewrite length_take; lia). rewrite length_take, Nat.min_l by lia.
    replace (k - m)%nat with (S (k - S m)) by lia. cbn [take]. rewrite <- app_assoc. f_equal. cbn. f_equal. f_equal. f_equal.
    rewrite drop_drop. f_equal. lia.
Qed.

(** ** The chain of the leaves *)

Lemma chain_frame h h' l : agree h h' l -> chain h l -> chain h' l.
Proof.
  induction l as [|a l IH]; intros Hag; [done|]. apply Forall_cons_1 in Hag as [E Hag]. cbn [chain].
  rewrite E. intros [Ha Hc]. split; [done | by apply IH].
Qed.

(** A leaf [a] split with a new page [b] after it. *)
Lemma chain_split h h' l1 a l2 b :
  chain h (l1 ++ a :: l2) -> agree h h' l1 -> agree h h' l2 -> b <> 0 ->
  link (page h' a) = b -> link (page h' b) = link (page h a) -> chain h' (l1 ++ a :: b :: l2).
Proof.
  intros Hc H1 H2 Hb Ha Hlb. revert Hc. induction l1 as [|x l1 IH]; cbn [app].
  - cbn [chain]. intros [Hh Hc]. split; [done|]. split; [|by eapply chain_frame].
    rewrite Hlb. destruct l2; [done|]. done.
  - apply Forall_cons_1 in H1 as [E H1]. change (chain h (x :: (l1 ++ a :: l2)) -> chain h' (x :: (l1 ++ a :: b :: l2))).
    cbn [chain]. intros [Hx Hc]. split; [|by apply IH]. rewrite E. by destruct l1.
Qed.

(** A leaf replaced with the same link. *)
Lemma chain_same h h' l : Forall (fun q => link (page h' q) = link (page h q)) l -> chain h l -> chain h' l.
Proof.
  induction l as [|a l IH]; intros Hag; [done|]. apply Forall_cons_1 in Hag as [E Hag]. cbn [chain].
  rewrite E. intros [Ha Hc]. split; [done | by apply IH].
Qed.

(** ** A split on its way up *)

(** The subtree at the end of the path has become two, [a] and [b], around the
    separator [mk]; the rest of the tree is as before.  [LV'] are the leaves of
    the tree to come, whose pages are below [used]. *)
Record pend_at (h : list Z) (np root : Z) (key : list Z) (LV : list (Z * list cell)) (IPS : list Z)
    (LV' : list (Z * list cell)) (used : Z) (h' : list Z) (anc : list Z) (a b : Z) (mk : list Z)
    (A B : list (Z * list cell)) (C D : list Z) (lo up : bound) (lv : list (Z * list cell)) (ips : list Z)
    (lva : list (Z * list cell)) (ipsa : list Z) (lvb : list (Z * list cell)) (ipsb : list Z) : Prop := {
  pd_spine : spine h np root key LV IPS anc A B C D a lo up lv ips;
  pd_frame : agree h h' (around A B C D);
  pd_heap : heap_ok h' np;
  pd_a : tree h' np a lo (Some mk) lva ipsa;
  pd_b : tree h' np b (Some mk) up lvb ipsb;
  pd_sep : sep_ok lo up (sep mk b);
  pd_nodup : NoDup (around A B C D ++ pages (lva ++ lvb) (ipsa ++ ipsb));
  pd_used : Forall (fun q => 0 <= q < used) (around A B C D ++ pages (lva ++ lvb) (ipsa ++ ipsb));
  pd_leaves : LV' = A ++ (lva ++ lvb) ++ B;
  pd_chain : chain h' (map fst LV');
}.

Definition pending (h : list Z) (np root : Z) (key : list Z) (LV : list (Z * list cell)) (IPS : list Z)
    (LV' : list (Z * list cell)) (used : Z) (h' : list Z) (anc : list Z) (a b : Z) (mk : list Z) : Prop :=
  exists A B C D lo up lv ips lva ipsa lvb ipsb,
    pend_at h np root key LV IPS LV' used h' anc a b mk A B C D lo up lv ips lva ipsa lvb ipsb.

(** A tree whose pages are below [used]. *)
Definition btree_used (h : list Z) (np root : Z) (lv : list (Z * list cell)) (used : Z) : Prop :=
  exists ips, btree h np root lv ips /\ Forall (fun q => 0 <= q < used) (pages lv ips).

Lemma pages_app lv1 ips1 lv2 ips2 : pages (lv1 ++ lv2) (ips1 ++ ips2) ≡ₚ pages lv1 ips1 ++ pages lv2 ips2.
Proof. unfold pages. rewrite map_app. solve_Permutation. Qed.

Lemma leaves_in lv ips q : q ∈ map fst lv -> q ∈ pages lv ips.
Proof. unfold pages. rewrite elem_of_app. auto. Qed.

Lemma tree_in_range h np pg lo up lv ips : tree h np pg lo up lv ips -> Forall (fun q => 0 <= q < np) (pages lv ips).
Proof. intros Ht. apply (proj1 (tree_pages_rules h np) _ _ _ _ _ Ht). Qed.

(** At the top, a new root over the two. *)
Lemma pending_root h np root key LV IPS LV' used h' a b mk h'' r used' hi :
  pending h np root key LV IPS LV' used h' [] a b mk -> changed np [r] h' h'' -> 0 <= used <= r -> r < np -> r < used' ->
  node 2 8 (page h'' r) [sep mk b] hi -> link (page h'' r) = a -> 0 <= b < 2 ^ 64 -> btree_used h'' np r LV' used'.
Proof.
  intros (A & B & C & D & lo & up & lv & ips & lva & ipsa & lvb & ipsb & P) Hch Hr Hr2 Hu Hn Hl Hb.
  destruct P as [Hsp Hfr Hh Ha Hb' Hs Hnd Hus Hlv Hc].
  inversion Hsp as [Ht|]; subst; [|by destruct anc]. unfold around in *. cbn [app] in *. rewrite !app_nil_r in *.
  cbn [pages app map] in *. change (pages [] []) with (@nil Z) in *. cbn [app] in *.
  assert (Hnr : r ∉ pages (lva ++ lvb) (ipsa ++ ipsb)).
  { intros Hin. rewrite Forall_forall in Hus. specialize (Hus r Hin). lia. }
  rewrite pages_app in Hnr. rewrite elem_of_app in Hnr.
  assert (Hag : forall l, Forall (fun q => 0 <= q < np) l -> r ∉ l -> agree h' h'' l).
  { intros l Hl Hni. apply (changed_agree np [r]); [done | done |]. intros q Hq Hqr. apply list_elem_of_singleton in Hqr as ->. done. }
  exists (r :: ipsa ++ ipsb). split; [split|].
  - apply Hch.
  - eapply tree_node; [lia | exact Hn | by repeat constructor |]. constructor; [done | |].
    + eapply tree_frame; [exact Ha|]. apply Hag; [by eapply tree_in_range | tauto].
    + rewrite child_id_sep by done. constructor. eapply tree_frame; [exact Hb'|]. apply Hag; [by eapply tree_in_range | tauto].
  - unfold pages. cbn [app]. constructor; [|done]. change (r ∉ pages (lva ++ lvb) (ipsa ++ ipsb)). rewrite pages_app, elem_of_app. tauto.
  - eapply chain_frame; [|exact Hc]. apply Hag.
    + rewrite map_app. apply Forall_app_2; [apply tree_in_range in Ha | apply tree_in_range in Hb']; unfold pages in *;
        [apply Forall_app in Ha | apply Forall_app in Hb']; tauto.
    + rewrite map_app, elem_of_app. intros [H|H]; apply Hnr; [left | right]; by apply leaves_in.
  - unfold pages. cbn [app]. constructor; [lia|]. eapply Forall_impl; [exact Hus|]. cbn. lia.
Qed.

(** The pages at the end of the path, one level up. *)
Lemma pages_up A B C D l1 l2 P i1 i2 (lm : list (Z * list cell)) im :
  around (A ++ l1) (l2 ++ B) (C ++ P :: i1) (i2 ++ D) ++ pages lm im
  ≡ₚ around A B C D ++ pages (l1 ++ lm ++ l2) (P :: i1 ++ im ++ i2).
Proof. rewrite around_down. unfold pages. rewrite !map_app. cbn [app]. solve_Permutation. Qed.

Lemma children_insert c sc k s : children c (insert_at k s sc) ≡ₚ child_id s :: children c sc.
Proof. unfold children. rewrite insert_at_perm. cbn. apply Permutation_swap. Qed.

Lemma agree_trans h1 h2 h3 l : agree h1 h2 l -> agree h2 h3 l -> agree h1 h3 l.
Proof. unfold agree. rewrite !Forall_forall. intros H1 H2 q Hq. by rewrite H2, H1. Qed.

Lemma agree_sub h1 h2 l l' : agree h1 h2 l -> l' ⊆ l -> agree h1 h2 l'.
Proof. unfold agree. rewrite !Forall_forall. intros H Hs q Hq. by apply H, Hs. Qed.

Lemma no_vals_insert k s sc : Forall (fun t : cell => cVal t = []) sc -> cVal s = [] -> Forall (fun t => cVal t = []) (insert_at k s sc).
Proof. intros Hsc Hs. rewrite insert_at_perm. by constructor. Qed.

(** One level up, the parent [P] of the two has to get the separator: the first
    of the two results is for a parent with room, the second for one that is
    split with the new page [Q]. *)
Lemma pending_parent h np root key LV IPS LV' used h' anc P a b mk :
  pending h np root key LV IPS LV' used h' (anc ++ [P]) a b mk -> 0 <= b < 2 ^ 64 -> used <= np ->
  exists sc hi, 0 <= P < used /\ 0 <= a < used /\ 0 <= b < used /\ P <> a /\ P <> b /\ mk <> [] /\
    node 2 8 (page h' P) sc hi /\ Forall (fun s => cVal s = []) sc /\
    NoDup (children (link (page h' P)) sc) /\
    find_child (children (link (page h' P)) sc) a = Some (child_ix sc key) /\
    (forall h'' hi', changed np [P] h' h'' -> node 2 8 (page h'' P) (insert_at (child_ix sc key) (sep mk b) sc) hi' ->
      link (page h'' P) = link (page h' P) -> btree_used h'' np root LV' used) /\
    (forall h'' l Q used' hip hiq sa mid sb, changed np l h' h'' -> (forall q, q ∈ l -> q = P \/ used <= q) ->
      used <= Q < np -> Q < used' ->
      insert_at (child_ix sc key) (sep mk b) sc = sa ++ mid :: sb ->
      node 2 8 (page h'' P) sa hip -> node 2 8 (page h'' Q) sb hiq ->
      link (page h'' P) = link (page h' P) -> link (page h'' Q) = child_id mid ->
      pending h np root key LV IPS LV' used' h'' anc P Q (cKey mid)).
Proof.
  intros (A' & B' & C' & D' & lo' & up' & lv' & ips' & lva & ipsa & lvb & ipsb & Pd) Hb Hnp.
  destruct Pd as [Hsp Hfr Hh Ha Hb' Hs Hnd Hus Hlv Hc].
  inversion Hsp as [Ht Hanc|anc0 A B C D pg lo up sc hi lv ips lo1 up1 l1 lv1 l2 i1 ips1 i2 Hsp' Hpg Hn Hv F Hanc]; subst; [by destruct anc|].
  apply app_inj_tail in Hanc as [-> ->]. exists sc, hi.
  set (W := around A B C D ++ pages l1 i1 ++ pages l2 i2 ++ pages (lva ++ lvb) (ipsa ++ ipsb)).
  assert (HW : around (A ++ l1) (l2 ++ B) (C ++ P :: i1) (i2 ++ D) ++ pages (lva ++ lvb) (ipsa ++ ipsb) ≡ₚ P :: W).
  { unfold W. rewrite around_down. solve_Permutation. }
  rewrite HW in Hnd, Hus. apply NoDup_cons in Hnd as [HPW HndW]. apply Forall_cons_1 in Hus as [HPu HusW].
  pose proof (agree_perm _ _ _ (around_down _ _ _ _ _ _ _ _ _) Hfr) as Hfr'.
  apply agree_app in Hfr' as [HagO HagR]. apply Forall_cons_1 in HagR as [EP HagR]. apply agree_app in HagR as [Hag1 Hag2].
  pose proof (fc_split _ _ _ _ _ _ _ _ _ _ _ _ _ _ _ _ _ F h' (sep mk b) lva lvb ipsa ipsb Hag1 Hag2 Hs Ha) as HK.
  rewrite child_id_sep in HK by done. specialize (HK Hb'). set (k := child_ix sc key) in *. set (a := child_for _ _ _) in *.
  set (lm := l1 ++ (lva ++ lvb) ++ l2) in *. set (im := i1 ++ (ipsa ++ ipsb) ++ i2) in *.
  assert (HWm : W ≡ₚ around A B C D ++ pages lm im).
  { unfold W, lm, im, pages. rewrite !map_app. solve_Permutation. }
  assert (Hain : a ∈ pages lm im /\ b ∈ pages lm im).
  { pose proof (proj2 (proj1 (tree_pages_rules h' np) _ _ _ _ _ Ha)) as H1. pose proof (proj2 (proj1 (tree_pages_rules h' np) _ _ _ _ _ Hb')) as H2.
    unfold lm, im, pages in *. rewrite !map_app, !elem_of_app in *. tauto. }
  assert (Hsub : forall q, q ∈ pages lm im -> 0 <= q < used /\ P <> q).
  { intros q Hq. assert (Hq' : q ∈ W) by (rewrite HWm, elem_of_app; tauto). rewrite Forall_forall in HusW.
    split; [by apply HusW | intros ->; tauto]. }
  assert (Hch : NoDup (children (link (page h P)) sc)).
  { rewrite HWm in HndW. apply NoDup_app in HndW as (_ & _ & Hnd). destruct (kids_children _ _ _ _ _ _ _ _ HK Hnd) as [Hc1 _].
    rewrite children_insert in Hc1. by apply NoDup_cons in Hc1 as [_ ?]. }
  assert (Hfix : forall h'' l, changed np l h' h'' -> (forall q, q ∈ l -> q = P \/ used <= q) -> agree h' h'' W).
  { intros h'' l Hcg Hl. eapply changed_agree; [exact Hcg | eapply Forall_impl; [exact HusW|]; cbn; lia|].
    intros q Hq Hql. rewrite Forall_forall in HusW. specialize (HusW q Hq). destruct (Hl q Hql) as [->|]; [done | cbn in HusW; lia]. }
  assert (Hfix2 : forall h'' l, changed np l h' h'' -> (forall q, q ∈ l -> q = P \/ used <= q) ->
    agree h h'' (around A B C D) /\ kids h'' np (link (page h P)) lo up (insert_at k (sep mk b) sc) lm im).
  { intros h'' l Hcg Hl. pose proof (agree_perm _ _ _ HWm (Hfix _ _ Hcg Hl)) as Hag. apply agree_app in Hag as [Hag3 Hag4].
    split; [by eapply agree_trans | by eapply kids_frame]. }
  assert (EL : (A ++ l1) ++ (lva ++ lvb) ++ l2 ++ B = A ++ lm ++ B) by (unfold lm; by rewrite <- !app_assoc).
  rewrite EL in *. assert (Hlv : map fst (A ++ lm ++ B) ⊆ W).
  { intros q. rewrite HWm. unfold around, pages, lm. rewrite !map_app, !elem_of_app. tauto. }
  rewrite EP. assert (Hbp := proj1 (Hsub _ (proj2 Hain))). assert (Hap := proj1 (Hsub _ (proj1 Hain))).
  split_and!; try done; try lia; [by apply Hsub, Hain | by apply Hsub, Hain | apply Hs | apply find_child_Some; [done | apply child_ix_lookup] | |].
  - intros h'' hi' Hcg Hn'' Hl''. assert (HlP : forall q, q ∈ [P] -> q = P \/ used <= q) by (intros q Hq; apply list_elem_of_singleton in Hq; tauto).
    destruct (Hfix2 _ _ Hcg HlP) as [HO HK''].
    assert (HWp : pages (A ++ lm ++ B) (C ++ (P :: im) ++ D) ≡ₚ P :: W).
    { rewrite around_perm, HWm. unfold pages. cbn [app]. solve_Permutation. }
    exists (C ++ (P :: im) ++ D). split; [split|].
    + apply Hcg.
    + eapply spine_replace; [exact Hsp' | done |]. rewrite <- Hl'' in HK''.
      eapply tree_node; [done | exact Hn'' | by apply no_vals_insert | exact HK''].
    + rewrite HWp. by constructor.
    + eapply chain_frame; [eapply agree_sub; [by eapply Hfix|done] | done].
    + rewrite HWp. by constructor.
  - intros h'' l Q used' hip hiq sa mid sb Hcg HlP HQ Hu' Hcut Hnp'' Hnq Hlp Hlq.
    destruct (Hfix2 _ _ Hcg HlP) as [HO HK'']. pose proof (no_vals_insert k (sep mk b) sc Hv eq_refl) as Hvi. rewrite Hcut in HK'', Hvi.
    apply Forall_app in Hvi as [Hva Hvb]. apply Forall_cons_1 in Hvb as [_ Hvb]. rewrite <- Hlp in HK''.
    destruct (tree_cut _ _ P Q _ _ _ _ _ _ _ _ _ _ HK'' Hva Hvb Hpg ltac:(lia) Hnp'' eq_refl Hnq Hlq)
      as (lva' & ipsa' & lvb' & ipsb' & Hta & Htb & Elv & Eips & Hs').
    exists A, B, C, D, lo, up, lv, (P :: ips), lva', (P :: ipsa'), lvb', (Q :: ipsb').
    assert (HW2 : around A B C D ++ pages (lva' ++ lvb') ((P :: ipsa') ++ Q :: ipsb') ≡ₚ Q :: P :: W).
    { rewrite HWm, Elv, Eips. unfold pages. cbn [app]. solve_Permutation. }
    split; [done | done | apply Hcg | done | done | done | | | |].
    + rewrite HW2. constructor; [|by constructor]. rewrite elem_of_cons. intros [->|HQin]; [lia|]. 
      rewrite Forall_forall in HusW. specialize (HusW _ HQin). cbn in HusW. lia.
    + rewrite HW2. repeat (constructor; [lia|]). eapply Forall_impl; [exact HusW|]. cbn; lia.
    + by rewrite <- Elv.
    + eapply chain_frame; [eapply agree_sub; [by eapply Hfix|done] | done].
Qed.

(** Other pages may change meanwhile. *)
Lemma pending_frame h np root key LV IPS LV' used h' anc a b mk h'' l :
  pending h np root key LV IPS LV' used h' anc a b mk -> used <= np -> changed np l h' h'' -> (forall q, q ∈ l -> used <= q) ->
  pending h np root key LV IPS LV' used h'' anc a b mk.
Proof.
  intros (A & B & C & D & lo & up & lv & ips & lva & ipsa & lvb & ipsb & P) Hnp Hcg Hl.
  destruct P as [Hsp Hfr Hh Ha Hb Hs Hnd Hus Hlv Hc].
  assert (Hag : agree h' h'' (around A B C D ++ pages (lva ++ lvb) (ipsa ++ ipsb))).
  { eapply changed_agree; [exact Hcg | eapply Forall_impl; [exact Hus|]; cbn; lia|]. intros q Hq Hql.
    rewrite Forall_forall in Hus. specialize (Hus q Hq). specialize (Hl q Hql). cbn in Hus. lia. }
  exists A, B, C, D, lo, up, lv, ips, lva, ipsa, lvb, ipsb. assert (Hag' := Hag). apply agree_app in Hag' as [Hag1 Hag2].
  apply agree_pages_app in Hag2 as [Hag2 Hag3].
  split; try done; [by eapply agree_trans | apply Hcg | by eapply tree_frame | by eapply tree_frame |].
  eapply chain_frame; [|exact Hc]. eapply agree_sub; [exact Hag|]. rewrite Hlv. intros q.
  unfold around, pages. rewrite !map_app, !elem_of_app. tauto.
Qed.

Lemma pending_pair h np root key LV IPS LV' used h' anc a b mk :
  pending h np root key LV IPS LV' used h' anc a b mk ->
  heap_ok h' np /\ 0 <= a < used /\ 0 <= b < used /\ a < np /\ b < np /\ b < 2 ^ 64 /\ mk <> [].
Proof.
  intros (A & B & C & D & lo & up & lv & ips & lva & ipsa & lvb & ipsb & P). destruct P as [Hsp Hfr Hh Ha Hb Hs Hnd Hus Hlv Hc].
  pose proof (proj2 (proj1 (tree_pages_rules h' np) _ _ _ _ _ Ha)) as H1. pose proof (proj2 (proj1 (tree_pages_rules h' np) _ _ _ _ _ Hb)) as H2.
  pose proof (tree_page _ _ _ _ _ _ _ Ha). pose proof (tree_page _ _ _ _ _ _ _ Hb). rewrite Forall_forall in Hus.
  assert (Ha' := Hus a). assert (Hb' := Hus b). cbn in Ha', Hb'. destruct (id Hh) as [Hlen _ Hsm].
  assert (a ∈ around A B C D ++ pages (lva ++ lvb) (ipsa ++ ipsb) /\ b ∈ around A B C D ++ pages (lva ++ lvb) (ipsa ++ ipsb)) as [Hina Hinb].
  { unfold pages in *. rewrite map_app. rewrite !elem_of_app in *. tauto. }
  specialize (Ha' Hina). specialize (Hb' Hinb). split_and!; try lia; [done|]. apply Hs.
Qed.

(** A path ends at the root only when the root is all of it. *)
Lemma pending_top h np root key LV IPS LV' used h' anc a b mk :
  pending h np root key LV IPS LV' used h' (anc ++ [root]) a b mk -> anc = [].
Proof.
  intros (A' & B' & C' & D' & lo' & up' & lv' & ips' & lva & ipsa & lvb & ipsb & P). destruct P as [Hsp Hfr Hh Ha Hb Hs Hnd Hus Hlv Hc].
  inversion Hsp as [Ht Hanc|anc0 A B C D pg lo up sc hi lv ips lo1 up1 l1 lv1 l2 i1 ips1 i2 Hsp' Hpg Hn Hv F Hanc]; subst; [by destruct anc|].
  apply app_inj_tail in Hanc as [-> ->]. destruct (spine_head _ _ _ _ _ _ _ _ _ _ Hsp') as [->|Hin]; [done|]. exfalso.
  apply NoDup_app in Hnd as (Hnd & _). rewrite around_down in Hnd. apply NoDup_app in Hnd as (_ & Hd & _). apply (Hd root).
  - unfold around, pages. rewrite !elem_of_app. tauto.
  - rewrite elem_of_cons. tauto.
Qed.

(** ** The leaf at the end of the path *)

Section Leaf.
Context {h : list Z} {np root : Z} {key : list Z} {LV : list (Z * list cell)} {IPS : list Z} {used : Z} {anc : list Z}
  {A B : list (Z * list cell)} {C D : list Z} {leaf : Z} {lo up : bound} {cs : list cell}.
Context (Hbt : btree h np root LV IPS) (Hus : Forall (fun q => 0 <= q < used) (pages LV IPS))
  (Hsp : spine h np root key LV IPS anc A B C D leaf lo up [(leaf, cs)] []).

Lemma spine_perm : pages LV IPS ≡ₚ around A B C D ++ [leaf].
Proof. destruct (spine_index _ _ _ _ _ _ _ _ _ _ Hsp) as [-> ->]. by rewrite around_perm. Qed.

Lemma spine_distinct : NoDup (leaf :: around A B C D) /\ 0 <= leaf < used /\ Forall (fun q => 0 <= q < used) (around A B C D) /\
  Forall (fun q => 0 <= q < np) (around A B C D).
Proof.
  pose proof (bt_distinct _ _ _ _ _ Hbt) as Hnd. pose proof (tree_in_range _ _ _ _ _ _ _ (bt_tree _ _ _ _ _ Hbt)) as Hr.
  rewrite spine_perm in Hnd. assert (Hus' := Hus). rewrite spine_perm in Hus', Hr.
  apply Forall_app in Hus' as [? Hl]. apply Forall_app in Hr as [? _]. apply Forall_cons_1 in Hl as [? _]. split; [|done].
  rewrite Permutation_app_comm in Hnd. done.
Qed.

Lemma leaf_around h' l : changed np l h h' -> (forall q, q ∈ l -> q = leaf \/ used <= q) -> agree h h' (around A B C D).
Proof.
  intros Hcg Hl. destruct spine_distinct as (Hnd & _ & Hu & Hn). eapply changed_agree; [exact Hcg | exact Hn |].
  intros q Hq Hql. rewrite Forall_forall in Hu. specialize (Hu q Hq). apply NoDup_cons in Hnd as [Hni _].
  destruct (Hl q Hql) as [->|]; [done | cbn in Hu; lia].
Qed.

Lemma around_leaves : map fst A ⊆ around A B C D /\ map fst B ⊆ around A B C D.
Proof. unfold around, pages. rewrite map_app. split; intros q; rewrite !elem_of_app; tauto. Qed.

(** The leaf gets other cells. *)
Lemma leaf_replace h' cs' hi' : changed np [leaf] h h' -> rep 16 (page h' leaf) cs' hi' -> StronglySorted ver_le cs' ->
  Forall (entry_ok lo up) cs' -> link (page h' leaf) = link (page h leaf) -> btree_used h' np root (A ++ [(leaf, cs')] ++ B) used.
Proof.
  intros Hcg Hrep Hs He Hl. pose proof (leaf_around _ _ Hcg ltac:(intros q Hq; apply list_elem_of_singleton in Hq; tauto)) as Hag.
  destruct spine_distinct as (Hnd & Hlu & Hu & _). destruct around_leaves as [HA HB].
  destruct (spine_index _ _ _ _ _ _ _ _ _ _ Hsp) as [EL _]. pose proof (bt_chain _ _ _ _ _ Hbt) as Hc. rewrite EL, !map_app in Hc.
  assert (Hleaf : 0 <= leaf < np) by (eapply tree_page, (spine_tree _ _ _ _ _ _ _ _ _ _ Hsp)).
  assert (Hp : pages (A ++ [(leaf, cs')] ++ B) (C ++ [] ++ D) ≡ₚ leaf :: around A B C D).
  { rewrite around_perm. apply Permutation_app_comm. }
  exists (C ++ [] ++ D). split; [split|].
  - apply Hcg.
  - eapply spine_replace; [exact Hsp | done |]. by eapply tree_leaf.
  - by rewrite Hp.
  - rewrite !map_app. apply (chain_same h); [|done].
    assert (Hsame : forall l, l ⊆ around A B C D -> Forall (fun q => link (page h' q) = link (page h q)) l).
    { intros l Hsub. apply Forall_forall. intros q Hq. unfold agree in Hag. rewrite Forall_forall in Hag. by rewrite Hag by auto. }
    rewrite !Forall_app. split; [by apply Hsame|]. split; [by repeat constructor | by apply Hsame].
  - rewrite Hp. by constructor.
Qed.

(** The leaf is split with the new page [R]. *)
Lemma leaf_pending h' R csa csb mk hia hib : changed np [leaf; R] h h' -> used <= R < np ->
  rep 16 (page h' leaf) csa hia -> StronglySorted ver_le csa -> Forall (entry_ok lo (Some mk)) csa ->
  rep 16 (page h' R) csb hib -> StronglySorted ver_le csb -> Forall (entry_ok (Some mk) up) csb ->
  sep_ok lo up (sep mk R) -> link (page h' leaf) = R -> link (page h' R) = link (page h leaf) ->
  pending h np root key LV IPS (A ++ [(leaf, csa); (R, csb)] ++ B) (R + 1) h' anc leaf R mk.
Proof.
  intros Hcg HR Hra Hsa Hea Hrb Hsb Heb Hmk Hla Hlb.
  pose proof (leaf_around _ _ Hcg ltac:(intros q; rewrite elem_of_cons, list_elem_of_singleton; intros [->| ->]; lia)) as Hag.
  destruct spine_distinct as (Hnd & Hlu & Hu & _). destruct around_leaves as [HA HB].
  destruct (spine_index _ _ _ _ _ _ _ _ _ _ Hsp) as [EL _]. pose proof (bt_chain _ _ _ _ _ Hbt) as Hc. rewrite EL, !map_app in Hc.
  assert (Hleaf : 0 <= leaf < np) by (eapply tree_page, (spine_tree _ _ _ _ _ _ _ _ _ _ Hsp)).
  exists A, B, C, D, lo, up, [(leaf, cs)], [], [(leaf, csa)], [], [(R, csb)], [].
  assert (Hp : around A B C D ++ pages ([(leaf, csa)] ++ [(R, csb)]) ([] ++ []) ≡ₚ R :: leaf :: around A B C D).
  { unfold pages. cbn. solve_Permutation. }
  split; try done.
  - apply Hcg.
  - by eapply tree_leaf.
  - eapply tree_leaf; eauto. lia.
  - rewrite Hp. constructor; [|done]. rewrite elem_of_cons. intros [->|Hin]; [lia|]. rewrite Forall_forall in Hu.
    specialize (Hu _ Hin). cbn in Hu. lia.
  - rewrite Hp. constructor; [lia|]. constructor; [lia|]. eapply Forall_impl; [exact Hu|]. cbn. lia.
  - rewrite !map_app. cbn [map fst app]. eapply (chain_split h); [exact Hc | by eapply agree_sub | by eapply agree_sub | lia | done | done].
Qed.
End Leaf.

End BtSpine.
