(* ===== verification/Overflow.v ===== *)
(** * Overflow chains (src/pkg/c2db/overflow.go)

    A value too long for a leaf is cut into chunks of at most 16320 bytes, one
    per page, behind a 64-byte header: page type 3, next page, chunk length and
    sequence number, under the whole-page checksum.  [chain pf np pg i cs] says
    that the pages from [pg] on, read through [pf], hold the chunks [cs]. *)

From S2P Require Import Prelude Bytes Crc PageKernel Cell BtMem BtLeaf BtVersion BtHeap BtTree BtSpine.
Import Bytes PageKernel Cell BtTree BtSpine.

Local Open Scope Z_scope.

Module Overflow.

Definition pageN : Z := 0x4000.
Definition BT_TypeOffset : Z := 20.
Definition TypeOverflow : Z := 3.
Definition InlineCutoff : Z := 2048.

Inductive overflow_error :=
| ErrCorruptedOverflowChain | ErrOverflowOutOfBounds | ErrPayloadTooLarge | ErrHeapFull | ErrCompact
| EOF | ErrUnexpectedEOF.

(** [l[a:b]], which panics out of range. *)
Definition slice_at (l : list Z) (a b : Z) : option (list Z) :=
  if (0 <=? a) && (a <=? b) && (b <=? len l) then Some (sub l a b) else None.

(** ** The shard's working buffer

    The fields of [Shard] these functions use; [dirtyList[:dirtyListLen]] and
    [dirtyMask] are the set of pages to publish. *)
Record Shard := {
  dirty : list Z; heapPages : Z; heapUsed : Z; heapWatermark : Z;
  dirtyMask : list Z; dirtyList : list Z; dirtyListLen : Z; dirtyOverflow : bool;
}.
Definition set_dirty (s : Shard) (d : list Z) : Shard :=
  {| dirty := d; heapPages := heapPages s; heapUsed := heapUsed s; heapWatermark := heapWatermark s;
     dirtyMask := dirtyMask s; dirtyList := dirtyList s; dirtyListLen := dirtyListLen s; dirtyOverflow := dirtyOverflow s |}.
Definition set_used (s : Shard) (u : Z) : Shard :=
  {| dirty := dirty s; heapPages := heapPages s; heapUsed := u; heapWatermark := heapWatermark s;
     dirtyMask := dirtyMask s; dirtyList := dirtyList s; dirtyListLen := dirtyListLen s; dirtyOverflow := dirtyOverflow s |}.

(** engine.go: a page enters the list once, or sets [dirtyOverflow]. *)
Definition markDirty (s : Shard) (pg : Z) : Shard :=
  if pg >=? heapPages s then s else
  let w := pg / 64 in
  if w >=? len (dirtyMask s) then s else
  let bit := Z.shiftl 1 (pg mod 64) in
  if negb (Z.land (rd (dirtyMask s) w) bit =? 0) then s else
  let mask := wr (dirtyMask s) w (Z.lor (rd (dirtyMask s) w) bit) in
  let listed := dirtyListLen s <? len (dirtyList s) in
  {| dirty := dirty s; heapPages := heapPages s; heapUsed := heapUsed s; heapWatermark := heapWatermark s;
     dirtyMask := mask;
     dirtyList := if listed then wr (dirtyList s) (dirtyListLen s) (w32 pg) else dirtyList s;
     dirtyListLen := if listed then dirtyListLen s + 1 else dirtyListLen s;
     dirtyOverflow := if listed then dirtyOverflow s else true |}.

(** ** Writing a chain *)

(** The page of one chunk: header cleared and filled, chunk copied, checksum
    stored; [pageBuf] is the page as it was. *)
Definition chunk_page (pageBuf : list Z) (nextPage chunkLen seq : Z) (chunk : list Z) : list Z :=
  let p := for_pure 0 64 (fun i p => wr p i 0) pageBuf in
  let p := wr p 20 TypeOverflow in
  let p := copy_at p 32 (le_put 8 nextPage) in
  let p := copy_at p 40 (le_put 4 (w32 chunkLen)) in
  let p := copy_at p 44 (le_put 4 (w32 seq)) in
  let p := copy_at p 64 chunk in
  bytes_of (C2db_crc32c_fullpage_store (Some p) pageN).1.

Definition alloc_step (numPages : Z) (val : list Z) (seq : Z) (st : Shard * Z * Z) : option (ctl (Shard * Z * Z) Empty_set) :=
  let '(s, currPage, valOffset) := st in
  let nextPage := if w64 (seq + 1) <? numPages then w64 (currPage + 1) else 0 in
  let totalLen := len val in
  let chunkLen := if w64 (totalLen - valOffset) <? OverflowChunkCapacity then w64 (totalLen - valOffset) else OverflowChunkCapacity in
  let pageOff := w64 (currPage * pageN) in
  pageBuf ← slice_at (dirty s) pageOff (w64 (pageOff + pageN));
  chunk ← slice_at val valOffset (w64 (valOffset + chunkLen));
  let s := set_dirty s (copy_at (dirty s) pageOff (chunk_page pageBuf nextPage chunkLen seq chunk)) in
  Some (Next (markDirty s currPage, nextPage, w64 (valOffset + chunkLen))).

Section Alloc.
(** engine.go: [tryAutoCompact] rebuilds the buffer when it is full; it answers
    whether it did. *)
Context (tryAutoCompact : Shard -> option (Shard * (bool + overflow_error))).

Definition full (s : Shard) (numPages : Z) : bool :=
  (heapUsed s >=? heapWatermark s) || (numPages >? w64 (heapWatermark s - heapUsed s)).

Definition allocOverflowPages (s : Shard) (val : list Z) : option (Shard * (Z * Z + overflow_error)) :=
  let numPages := chunk_pages (len val) in
  room ← (if full s numPages then
            '(s, r) ← tryAutoCompact s;
            Some (s, match r with
                     | inr e => Some e
                     | inl false => Some ErrHeapFull
                     | inl true => if full s numPages then Some ErrHeapFull else None
                     end)
          else Some (s, None));
  match room with
  | (s, Some e) => Some (s, inr e)
  | (s, None) =>
      let headPage := heapUsed s in
      '(s, _, _) ← no_ret (for_range 0 numPages (alloc_step numPages val) (s, headPage, 0));
      Some (set_used s (w64 (heapUsed s + numPages)), inl (headPage, numPages))
  end.

(** The cell value, whether it is a descriptor, the head and the pages. *)
Definition encodeValue (s : Shard) (val : list Z) : option (Shard * (list Z * bool * Z * Z + overflow_error)) :=
  if len val <=? InlineCutoff then Some (s, inl (cellKindInline :: val, false, 0, 0)) else
  if len val >? 0xFFFFFFFF then Some (s, inr ErrPayloadTooLarge) else
  '(s, r) ← allocOverflowPages s val;
  match r with
  | inr e => Some (s, inr e)
  | inl (head, nPages) =>
      Some (s, inl ([cellKindOverflow] ++ le_put 4 (w32 (len val)) ++ le_put 8 head, true, head, nPages))
  end.
End Alloc.

(** ** Reading a chain *)

Definition page_next (p : list Z) : Z := le_get 8 (sub p 32 40).
Definition page_chunk_len (p : list Z) : Z := le_get 4 (sub p 40 44).
Definition page_seq (p : list Z) : Z := le_get 4 (sub p 44 48).

(** [for currPage != 0 && walked <= maxPages && valOffset < totalLen]: what was
    assembled and how much; [walked] grows, so [maxPages + 2] is enough fuel. *)
Fixpoint read_loop (fuel : nat) (heap : list Z) (np totalLen maxPages : Z) (out : list Z) (currPage walked valOffset : Z)
    : option (list Z * Z + overflow_error) :=
  match fuel with
  | O => None
  | S fuel' =>
      if negb (negb (currPage =? 0) && (walked <=? maxPages) && (valOffset <? totalLen)) then Some (inl (out, valOffset)) else
      if currPage >=? np then Some (inr ErrOverflowOutOfBounds) else
      let pageOff := w64 (currPage * pageN) in
      if w64 (pageOff + pageN) >? len heap then Some (inr ErrOverflowOutOfBounds) else
      pageBuf ← slice_at heap pageOff (w64 (pageOff + pageN));
      if negb (rd pageBuf 20 =? TypeOverflow) then Some (inr ErrCorruptedOverflowChain) else
      let nextPage := page_next pageBuf in
      let chunkLen := page_chunk_len pageBuf in
      if negb (page_seq pageBuf =? walked) then Some (inr ErrCorruptedOverflowChain) else
      if chunkLen >? OverflowChunkCapacity then Some (inr ErrCorruptedOverflowChain) else
      if w64 (64 + chunkLen) >? pageN then Some (inr ErrCorruptedOverflowChain) else
      if (valOffset >? totalLen) || (chunkLen >? w64 (totalLen - valOffset)) then Some (inr ErrCorruptedOverflowChain) else
      _ ← slice_at out valOffset (w64 (valOffset + chunkLen));
      chunk ← slice_at pageBuf 64 (w64 (64 + chunkLen));
      read_loop fuel' heap np totalLen maxPages (copy_at out valOffset chunk) nextPage (w64 (walked + 1)) (w64 (valOffset + chunkLen))
  end.

Definition readOverflowChain (heap : list Z) (np headPage totalLen : Z) : option (list Z + overflow_error) :=
  if (headPage =? 0) || (headPage >=? np) then Some (inr ErrOverflowOutOfBounds) else
  let maxPages := chunk_pages totalLen in
  r ← read_loop (Z.to_nat (maxPages + 2)) heap np totalLen maxPages (zeros totalLen) headPage 0 0;
  match r with
  | inr e => Some (inr e)
  | inl (out, valOffset) => if negb (valOffset =? totalLen) then Some (inr ErrCorruptedOverflowChain) else Some (inl out)
  end.

Definition decodeValue (heap : list Z) (np : Z) (rawVal : list Z) : option (list Z + overflow_error) :=
  if len rawVal =? 0 then Some (inl rawVal) else
  if (len rawVal =? OverflowDescLen) && (rd rawVal 0 =? cellKindOverflow) then
    readOverflowChain heap np (le_get 8 (sub rawVal 5 13)) (le_get 4 (sub rawVal 1 5))
  else if rd rawVal 0 =? cellKindInline then Some (inl (sub rawVal 1 (len rawVal)))
  else Some (inl rawVal).

(** ** The stream reader *)

Record overflowStreamReader := {
  r_heap : list Z; r_pages : Z; currPage : Z; activePage : Z; totalLen : Z; valOffset : Z;
  pageOff : Z; chunkLen : Z; walked : Z; maxPages : Z;
}.

(** [for r.pageOff >= r.chunkLen]: load pages until one has bytes left. *)
Fixpoint load_page (fuel : nat) (r : overflowStreamReader) : option (overflowStreamReader * option overflow_error) :=
  match fuel with
  | O => None
  | S fuel' =>
      if negb (pageOff r >=? chunkLen r) then Some (r, None) else
      if (currPage r =? 0) || (walked r >=? maxPages r) then
        if valOffset r <? totalLen r then Some (r, Some ErrUnexpectedEOF) else Some (r, Some EOF)
      else if currPage r >=? r_pages r then Some (r, Some ErrOverflowOutOfBounds) else
      let base := w64 (currPage r * pageN) in
      if w64 (base + pageN) >? len (r_heap r) then Some (r, Some ErrOverflowOutOfBounds) else
      pageBuf ← slice_at (r_heap r) base (w64 (base + pageN));
      if negb (rd pageBuf 20 =? TypeOverflow) then Some (r, Some ErrCorruptedOverflowChain) else
      let thisChunkLen := page_chunk_len pageBuf in
      if thisChunkLen >? OverflowChunkCapacity then Some (r, Some ErrCorruptedOverflowChain) else
      if w64 (64 + thisChunkLen) >? pageN then Some (r, Some ErrCorruptedOverflowChain) else
      if (valOffset r >? totalLen r) || (thisChunkLen >? w64 (totalLen r - valOffset r)) then Some (r, Some ErrCorruptedOverflowChain) else
      if negb (page_seq pageBuf =? walked r) then Some (r, Some ErrCorruptedOverflowChain) else
      load_page fuel'
        {| r_heap := r_heap r; r_pages := r_pages r; currPage := page_next pageBuf; activePage := currPage r;
           totalLen := totalLen r; valOffset := valOffset r; pageOff := 0; chunkLen := thisChunkLen;
           walked := w64 (walked r + 1); maxPages := maxPages r |}
  end.

(** [Read(p)]: the bytes put at the front of [p], their number and the error. *)
Definition Read (r : overflowStreamReader) (p : list Z) : option (overflowStreamReader * list Z * Z * option overflow_error) :=
  if valOffset r >=? totalLen r then Some (r, p, 0, Some EOF) else
  '(r, e) ← load_page (Z.to_nat (maxPages r - walked r + 1)) r;
  match e with
  | Some e => Some (r, p, 0, Some e)
  | None =>
      if pageOff r >=? chunkLen r then Some (r, p, 0, Some ErrUnexpectedEOF) else
      let base := w64 (w64 (w64 (activePage r * pageN) + 64) + pageOff r) in
      let available := w32 (chunkLen r - pageOff r) in
      let available := if w32 (len p) <? available then w32 (len p) else available in
      let available := if w32 (valOffset r + available) >? totalLen r then w32 (totalLen r - valOffset r) else available in
      if (available >? OverflowChunkCapacity) || (w64 (w64 (64 + pageOff r) + available) >? pageN) then Some (r, p, 0, Some ErrCorruptedOverflowChain) else
      if w64 (base + available) >? len (r_heap r) then Some (r, p, 0, Some ErrOverflowOutOfBounds) else
      if w64 (base + available) >? w64 (w64 (activePage r + 1) * pageN) then Some (r, p, 0, Some ErrCorruptedOverflowChain) else
      src ← slice_at (r_heap r) base (w64 (base + available));
      Some ({| r_heap := r_heap r; r_pages := r_pages r; currPage := currPage r; activePage := activePage r;
               totalLen := totalLen r; valOffset := w32 (valOffset r + available); pageOff := w32 (pageOff r + available);
               chunkLen := chunkLen r; walked := walked r; maxPages := maxPages r |},
            copy_at p 0 src, available, None)
  end.

(** The reader of a descriptor ([ValueReader]). *)
Definition stream_of (heap : list Z) (np total headPage : Z) : overflowStreamReader :=
  {| r_heap := heap; r_pages := np; currPage := headPage; activePage := 0; totalLen := total; valOffset := 0;
     pageOff := 0; chunkLen := 0; walked := 0; maxPages := chunk_pages total |}.

(** ** Retiring a chain *)

(** [for curr != 0 && walked < numPages]: an overflow page is cleared, resealed
    and marked; any other page ends the walk. *)
Fixpoint retire_loop (fuel : nat) (s : Shard) (curr walked numPages : Z) : option Shard :=
  match fuel with
  | O => None
  | S fuel' =>
      if negb (negb (curr =? 0) && (walked <? numPages)) then Some s else
      if (curr >=? heapPages s) || (curr >=? heapUsed s) then Some s else
      let off := w64 (curr * pageN) in
      if w64 (off + pageN) >? len (dirty s) then Some s else
      page ← slice_at (dirty s) off (w64 (off + pageN));
      if negb (rd page BT_TypeOffset =? TypeOverflow) then Some s else
      let next := page_next page in
      let page := zeros (len page) in
      let page := bytes_of (C2db_crc32c_fullpage_store (Some page) pageN).1 in
      let s := markDirty (set_dirty s (copy_at (dirty s) off page)) curr in
      retire_loop fuel' s next (w64 (walked + 1)) numPages
  end.

Definition retireOverflowChain (s : Shard) (headPage numPages : Z) : option Shard :=
  if ((headPage =? 0) || (headPage >=? heapPages s)) || (numPages =? 0) then Some s else
  retire_loop (S (Z.to_nat numPages)) s headPage 0 numPages.

(** [for s.heapUsed > 1]: give back the free pages at the end. *)
Fixpoint trim_loop (fuel : nat) (s : Shard) : option Shard :=
  match fuel with
  | O => None
  | S fuel' =>
      if negb (heapUsed s >? 1) then Some s else
      let pg := w64 (heapUsed s - 1) in
      let off := w64 (pg * pageN) in
      if w64 (off + pageN) >? len (dirty s) then Some s else
      ty ← idx (dirty s) (w64 (off + BT_TypeOffset));
      if negb (ty =? 0) then Some s else
      trim_loop fuel' (set_used s (heapUsed s - 1))
  end.
Definition trimDeadOverflowTail (s : Shard) : option Shard := trim_loop (S (Z.to_nat (heapUsed s))) s.

Definition retireDeletedOverflow (s : Shard) (chains : list (Z * Z)) : option Shard :=
  if len chains =? 0 then Some s else
  s ← foldl (fun s '(head, pages) => s ← s; retireOverflowChain s head pages) (Some s) chains;
  trimDeadOverflowTail s.

(** ** Validating a chain when the log is replayed *)

Section Replay.
(** The published buffer, and the pager's page at a block address. *)
Context (pub : list Z) (GetPage : Z -> option (list Z)).

(** A page that only the pager has is brought into the working buffer; [None]
    refuses the chain. *)
Definition pager_page (s : Shard) (curr pageOff : Z) : option (option (Shard * list Z)) :=
  match GetPage (w64 (curr * 4)) with
  | None => Some None
  | Some diskPg =>
      if len diskPg <? pageN then Some None else
      if negb (rd diskPg BT_TypeOffset =? TypeOverflow) then Some None else
      if w64 (pageOff + pageN) >? len (dirty s) then Some None else
      let s := markDirty (set_dirty s (copy_at (dirty s) pageOff (sub diskPg 0 pageN))) curr in
      pg ← slice_at (dirty s) pageOff (w64 (pageOff + pageN)); Some (Some (s, pg))
  end.

(** The page of the published buffer, or the pager's. *)
Definition replay_page (s : Shard) (curr : Z) : option (option (Shard * list Z)) :=
  let pageOff := w64 (curr * pageN) in
  here ← (if w64 (pageOff + pageN) <=? len pub
          then ty ← idx pub (w64 (pageOff + BT_TypeOffset)); Some (ty =? TypeOverflow)
          else Some false);
  if here : bool then pg ← slice_at pub pageOff (w64 (pageOff + pageN)); Some (Some (s, pg))
  else pager_page s curr pageOff.

Fixpoint replay_loop (fuel : nat) (s : Shard) (total maxPages curr walked valOffset : Z) : option (Shard * bool) :=
  match fuel with
  | O => None
  | S fuel' =>
      if negb (negb (curr =? 0) && (walked <=? maxPages) && (valOffset <? total))
      then Some (s, negb (negb (valOffset =? total) || negb (walked =? maxPages) || negb (curr =? 0))) else
      if curr >=? heapPages s then Some (s, false) else
      r ← replay_page s curr;
      match r with
      | None => Some (s, false)
      | Some (s, pg) =>
          if negb (le_get 4 (sub pg 28 32) =? C2db_crc32c_fullpage (Some pg) pageN) then Some (s, false) else
          let chunkLen := page_chunk_len pg in
          if negb (page_seq pg =? walked) then Some (s, false) else
          if chunkLen >? OverflowChunkCapacity then Some (s, false) else
          if w64 (64 + chunkLen) >? pageN then Some (s, false) else
          if (valOffset >? total) || (chunkLen >? w64 (total - valOffset)) then Some (s, false) else
          replay_loop fuel' s total maxPages (page_next pg) (w64 (walked + 1)) (w64 (valOffset + chunkLen))
      end
  end.

Definition replayValidateOverflowChain (s : Shard) (headPage total : Z) : option (Shard * bool) :=
  if (headPage =? 0) || (headPage >=? heapPages s) then Some (s, false) else
  replay_loop (Z.to_nat (chunk_pages total + 2)) s total (chunk_pages total) headPage 0 0.
End Replay.

(** ** Chains *)

(** The header of the page of chunk [i]. *)
Record chunk_at (p : list Z) (next i : Z) (c : list Z) : Prop := {
  ck_type : rd p 20 = TypeOverflow; ck_next : page_next p = next; ck_len : page_chunk_len p = len c;
  ck_seq : page_seq p = i; ck_cap : len c <= OverflowChunkCapacity; ck_data : sub p 64 (64 + len c) = c;
}.

Fixpoint chain (pf : Z -> list Z) (np pg i : Z) (cs : list (list Z)) : Prop :=
  match cs with
  | [] => pg = 0
  | c :: cs' => 0 < pg < np /\ chunk_at (pf pg) (page_next (pf pg)) i c /\ chain pf np (page_next (pf pg)) (i + 1) cs'
  end.

Lemma chunk_pages_eq n : 0 <= n < 2 ^ 32 -> chunk_pages n = (n + 16319) / 16320.
Proof.
  intros Hn. unfold chunk_pages, OverflowChunkCapacity. change (0x4000 - 64) with 16320. unwrap. f_equal. lia.
Qed.

Lemma slice_at_eq (l : list Z) a b : 0 <= a <= b -> b <= len l -> slice_at l a b = Some (sub l a b).
Proof. intros Ha Hb. unfold slice_at. zcases. done. Qed.

Lemma page_window h np pg : heap_ok h np -> 0 <= pg < np ->
  w64 (pg * pageN) = pg * pageN /\ w64 (pg * pageN + pageN) = pg * pageN + pageN /\
  (w64 (pg * pageN + pageN) >? len h) = false /\ slice_at h (pg * pageN) (pg * pageN + pageN) = Some (page h pg).
Proof.
  intros [Hl Hb Hs] Hpg. unfold pageN. unwrap. split_and!; [done | done | zcases; done |].
  rewrite slice_at_eq by lia. done.
Qed.

(** Reading a chain puts its chunks one behind the other. *)
Lemma read_loop_eq fuel h np cs total maxP out pg i off : heap_ok h np -> chain (page h) np pg i cs ->
  0 <= i -> i + len cs <= maxP + 1 -> maxP < 2 ^ 32 -> 0 <= off -> off + len (concat cs) = total -> total < 2 ^ 32 -> len out = total ->
  (length cs < fuel)%nat ->
  read_loop fuel h np total maxP out pg i off = Some (inl (copy_at out off (concat cs), total)).
Proof.
  intros Hh. revert fuel out pg i off. induction cs as [|c cs IH]; intros fuel out pg i off Hc Hi Hm Hmb Hoff Htot Htb Hout Hf;
    (destruct fuel as [|fuel]; [cbn in Hf; lia|]); cbn [read_loop].
  - cbn in Hc, Htot. subst pg. rewrite copy_at_nil. change (len []) with 0 in Htot. cbn. by rewrite Z.add_0_r in Htot; subst.
  - cbn [chain] in Hc. destruct Hc as (Hpg & [Hty _ Hcl Hsq Hcap Hdat] & Hrest).
    cbn [concat] in *. rewrite len_app in Htot. rewrite len_cons in Hm. pose proof (len_nonneg c). pose proof (len_nonneg (concat cs)). pose proof (len_nonneg cs).
    replace (pg =? 0) with false by lia. replace (i <=? maxP) with true by lia. cbn [negb andb].
    destruct (Z.ltb_spec off total); cbn [negb].
    2:{ assert (c = []) as -> by (apply len_nil_inv; lia). assert (concat cs = []) as -> by (apply len_nil_inv; lia).
        rewrite copy_at_nil. do 3 f_equal. lia. }
    destruct (page_window h np pg Hh ltac:(lia)) as (E1 & E2 & E3 & E4).
    rewrite E1. rewrite E3. rewrite E2, E4. cbn [mbind option_bind].
    replace (pg >=? np) with false by lia.
    rewrite Hty, Hsq, Hcl. rewrite !Z.eqb_refl. cbn [negb].
    unfold OverflowChunkCapacity in Hcap |- *. change (0x4000 - 64) with 16320 in *. unfold pageN. unwrap.
    replace (len c >? 16320) with false by lia. replace (64 + len c >? 0x4000) with false by lia.
    replace (off >? total) with false by lia. replace (len c >? total - off) with false by lia. cbn [orb].
    rewrite (slice_at_eq out) by lia. cbn [mbind option_bind].
    assert (len (page h pg) = 0x4000) as Hpl by (destruct (page_at h np pg Hh ltac:(lia)); unfold page; rewrite len_sub by (destruct Hh; lia); lia).
    rewrite slice_at_eq by lia. cbn [mbind option_bind]. rewrite Hdat.
    rewrite IH; [| done | lia | lia | lia | lia | lia | lia | rewrite len_copy_at; lia | cbn in Hf; lia].
    rewrite copy_at_app by lia. done.
Qed.

Lemma page_bytes h a b : bytes_ok h -> bytes_ok (sub h a b).
Proof. apply bytes_ok_sub. Qed.

Lemma field4_bound p a b : bytes_ok p -> 0 <= le_get 4 (sub p a b) < 2 ^ 32.
Proof. intros Hp. apply (le_get_sub_bound 4 p a b Hp). Qed.

(** On any buffer the walk returns, with as many bytes as it was given. *)
Lemma read_loop_total fuel h np total maxP out pg i off : bytes_ok h -> len h < 2 ^ 63 -> np * pageN <= 2 ^ 63 ->
  0 <= pg -> 0 <= i <= maxP + 1 -> maxP < 2 ^ 32 -> 0 <= off -> total < 2 ^ 32 -> len out = total -> maxP + 2 <= Z.of_nat fuel + i ->
  exists r, read_loop fuel h np total maxP out pg i off = Some r /\
    match r with inl (out', _) => len out' = total | inr _ => True end.
Proof.
  intros Hb Hl Hnp. revert out pg i off.
  induction fuel as [|fuel IH]; intros out pg i off Hpg Hi Hm Hoff Htot Hout Hf; [lia|]. cbn [read_loop].
  destruct (Z.eqb_spec pg 0); cbn [negb andb]; [by eexists|].
  destruct (Z.leb_spec i maxP); cbn [negb andb]; [|by eexists].
  destruct (Z.ltb_spec off total); cbn [negb andb]; [|by eexists].
  ifcase; [by eexists|]. unfold pageN in *. unwrap. ifcase; [by eexists|].
  rewrite (slice_at_eq h) by lia. cbn [mbind option_bind].
  set (p := sub h (pg * 0x4000) (pg * 0x4000 + 0x4000)).
  assert (bytes_ok p) as Hp by by apply bytes_ok_sub.
  assert (len p = 0x4000) as Hpl by (unfold p; rewrite len_sub by lia; lia).
  pose proof (field4_bound p 40 44 Hp) as Hcl. fold (page_chunk_len p) in Hcl.
  pose proof (le_get_sub_bound 8 p 32 40 Hp) as Hnx. fold (page_next p) in Hnx.
  do 2 (ifcase; [|by eexists]).
  unfold OverflowChunkCapacity. change (0x4000 - 64) with 16320.
  ifcase; [by eexists|]. unwrap. ifcase; [by eexists|].
  replace (off >? total) with false by lia. cbn [orb]. ifcase; [by eexists|].
  rewrite (slice_at_eq out) by lia. cbn [mbind option_bind]. rewrite (slice_at_eq p) by lia. cbn [mbind option_bind].
  apply IH; rewrite ?len_copy_at; lia.
Qed.

(** ** The page of a chunk *)

Definition crc_ok (p : list Z) : Prop := le_get 4 (sub p 28 32) = C2db_crc32c_fullpage (Some p) pageN.

Lemma fullpage_store_ok p : page_ok p ->
  exists c, (C2db_crc32c_fullpage_store (Some p) pageN).1 = Some (copy_at p 28 (le_put 4 c)) /\ crc_ok (copy_at p 28 (le_put 4 c)).
Proof.
  intros Hp. unfold pageN. rewrite C2db_crc32c_fullpage_store_eq by done. cbn [fst].
  set (c := C2db_crc32c_fullpage (Some p) 0x4000). exists c. split; [done|]. unfold crc_ok, pageN.
  assert (page_ok (copy_at p 28 (le_put 4 c))) as Hp' by (apply page_ok_copy_at; [done | apply bytes_ok_le_put]). pose proof Hp as [Hl Hb].
  assert (C2db_crc32c_fullpage (Some (copy_at p 28 (le_put 4 c))) 0x4000 = c) as ->.
  { unfold c. rewrite !C2db_crc32c_fullpage_eq by done. by rewrite blank_crc_store. }
  rewrite field_put_get by lia. apply Z.mod_small. unfold c. rewrite C2db_crc32c_fullpage_eq by done.
  apply Crc.checksum_bound. by destruct (blank_crc_ok p Hp).
Qed.

Lemma clear_head p : 64 <= len p -> for_pure 0 64 (fun i p => wr p i 0) p = copy_at p 0 (zeros 64).
Proof.
  intros Hp. apply (for_pure_inv (fun i q => q = copy_at p 0 (zeros i))); [lia | done |].
  intros i q Hi ->. rewrite wr_copy_at, copy_at_app by (rewrite ?len_zeros; lia). f_equal. unfold zeros.
  replace (Z.to_nat (i + 1)) with (Z.to_nat i + 1)%nat by lia. by rewrite replicate_add.
Qed.

(** The fields of [chunk_page]. *)
Lemma chunk_page_ok p next i c : page_ok p -> bytes_ok c -> 0 <= next < 2 ^ 64 -> 0 <= i < 2 ^ 32 -> len c <= OverflowChunkCapacity ->
  page_ok (chunk_page p next (len c) i c) /\ chunk_at (chunk_page p next (len c) i c) next i c /\ crc_ok (chunk_page p next (len c) i c).
Proof.
  intros Hp Hc Hnx Hi Hcap. pose proof Hp as [Hl Hb]. unfold chunk_page. rewrite clear_head by lia.
  rewrite wr_copy_at. pose proof (len_nonneg c). unfold OverflowChunkCapacity in Hcap. unwrap.
  set (q := copy_at (copy_at (copy_at (copy_at (copy_at (copy_at p 0 (zeros 64)) 20 [TypeOverflow]) 32 (le_put 8 next)) 40 (le_put 4 (len c))) 44 (le_put 4 i)) 64 c).
  assert (page_ok q) as Hq.
  { split; [unfold q; by rewrite !len_copy_at|]. unfold q.
    repeat apply bytes_ok_copy_at; auto with c2db. repeat constructor; done. }
  destruct (fullpage_store_ok q Hq) as (v & -> & Hv). cbn [bytes_of default from_option]. unfold id. pose proof Hq as [Hql _].
  split; [apply page_ok_copy_at; [done | apply bytes_ok_le_put]|]. split; [|exact Hv].
  split; unfold page_next, page_chunk_len, page_seq; [| | | | unfold OverflowChunkCapacity; lia |].
  - rewrite rd_copy_at_out by (rewrite ?len_le_put; lia). unfold q. rewrite !rd_copy_at_out by (rewrite ?len_le_put; lia).
    by rewrite rd_copy_at_in by (rewrite ?len_copy_at, ?len_single; lia).
  - rewrite field_put_other by lia. unfold q. rewrite (sub_copy_at_ne _ 64) by (rewrite ?len_copy_at; lia).
    rewrite !field_put_other by (rewrite ?len_copy_at; lia). rewrite field_put_get by (rewrite ?len_copy_at; lia). by apply Z.mod_small.
  - rewrite field_put_other by lia. unfold q. rewrite (sub_copy_at_ne _ 64) by (rewrite ?len_copy_at; lia).
    rewrite !field_put_other by (rewrite ?len_copy_at; lia). rewrite field_put_get by (rewrite ?len_copy_at; lia). apply Z.mod_small. lia.
  - rewrite field_put_other by lia. unfold q. rewrite (sub_copy_at_ne _ 64) by (rewrite ?len_copy_at; lia).
    rewrite field_put_get by (rewrite ?len_copy_at; lia). by apply Z.mod_small.
  - rewrite sub_copy_at_ne by (rewrite ?len_le_put; lia). unfold q. apply sub_copy_at_eq; rewrite ?len_copy_at; lia.
Qed.

End Overflow.
