(* ===== verification/OverflowOk.v ===== *)
(** * Allocation, reading and retirement of overflow chains (Overflow.v) *)

From S2P Require Import Prelude Bytes Crc PageKernel Cell BtMem BtLeaf BtVersion BtHeap BtTree BtSpine Overflow.
Import Bytes PageKernel Cell BtTree BtSpine Overflow.

Local Open Scope Z_scope.

Module OverflowOk.

(** ** The set of dirty pages *)

Definition marked (s : Shard) (q : Z) : bool := Z.testbit (rd (dirtyMask s) (q / 64)) (q mod 64).

(** The mask has a bit for every page. *)
Definition mask_ok (s : Shard) : Prop := heapPages s <= 64 * len (dirtyMask s).

(** The two shards differ in their buffer and their dirty pages at most. *)
Record same_meta (s s' : Shard) : Prop := {
  sm_pages : heapPages s' = heapPages s; sm_used : heapUsed s' = heapUsed s;
  sm_mark : heapWatermark s' = heapWatermark s; sm_mask : len (dirtyMask s') = len (dirtyMask s);
}.

Lemma same_meta_refl s : same_meta s s.
Proof. by split. Qed.
Lemma same_meta_trans s1 s2 s3 : same_meta s1 s2 -> same_meta s2 s3 -> same_meta s1 s3.
Proof. intros [] []. split; congruence. Qed.
Lemma same_meta_mask s s' : same_meta s s' -> mask_ok s -> mask_ok s'.
Proof. unfold mask_ok. intros []. lia. Qed.

Lemma markDirty_meta s pg : same_meta s (markDirty s pg) /\ dirty (markDirty s pg) = dirty s.
Proof. unfold markDirty. do 2 (ifcase; [by split|]). ifcase; [|by split]. split; [|done]. split; cbn; by rewrite ?len_wr. Qed.

Lemma land_bit x k : 0 <= k -> (Z.land x (Z.shiftl 1 k) =? 0) = negb (Z.testbit x k).
Proof.
  intros Hk. rewrite Z.shiftl_1_l.
  assert (Hbit : forall j, Z.testbit (Z.land x (2 ^ k)) j = Z.testbit x k && (k =? j)).
  { intros j. rewrite Z.land_spec, Z.pow2_bits_eqb by done. destruct (Z.eqb_spec k j) as [->|]; [done | by rewrite !andb_false_r]. }
  destruct (Z.testbit x k) eqn:E; cbn [negb].
  - apply Z.eqb_neq. intros H. specialize (Hbit k). rewrite H, Z.bits_0, Z.eqb_refl in Hbit. done.
  - apply Z.eqb_eq, Z.bits_inj_0. intros j. by rewrite Hbit.
Qed.

Lemma marked_markDirty s pg q : mask_ok s -> 0 <= pg < heapPages s -> 0 <= q ->
  marked (markDirty s pg) q = marked s q || (q =? pg).
Proof.
  intros Hm Hpg Hq. unfold mask_ok in Hm. unfold markDirty.
  replace (pg >=? heapPages s) with false by lia.
  assert (0 <= pg / 64 < len (dirtyMask s)) as Hw by (split; [apply Z.div_pos; lia | apply Z.div_lt_upper_bound; lia]).
  replace (pg / 64 >=? len (dirtyMask s)) with false by lia.
  pose proof (Z.mod_pos_bound pg 64 ltac:(lia)) as Hpm. pose proof (Z.mod_pos_bound q 64 ltac:(lia)) as Hqm.
  rewrite land_bit by lia. fold (marked s pg).
  assert (Hsame : q = pg -> marked s pg = marked s q) by by intros ->.
  destruct (marked s pg) eqn:E; cbn [negb].
  - destruct (Z.eqb_spec q pg); [by rewrite <- Hsame | by rewrite orb_false_r].
  - unfold marked at 1. cbn [dirtyMask].
    destruct (decide (q / 64 = pg / 64)) as [E2|].
    + rewrite E2, rd_wr_eq by lia. rewrite Z.lor_spec, Z.shiftl_1_l, Z.pow2_bits_eqb by lia.
      unfold marked. rewrite E2. f_equal. pose proof (Z.div_mod q 64 ltac:(lia)). pose proof (Z.div_mod pg 64 ltac:(lia)).
      destruct (Z.eqb_spec (pg mod 64) (q mod 64)), (Z.eqb_spec q pg); try done; lia.
    + rewrite rd_wr_ne by (try lia; apply Z.div_pos; lia). destruct (Z.eqb_spec q pg) as [->|]; [done | by rewrite orb_false_r].
Qed.

(** ** The pieces of a value *)

Definition piece (val : list Z) (i : Z) : list Z := sub val (i * 16320) (Z.min ((i + 1) * 16320) (len val)).
Definition pieces (val : list Z) : list (list Z) := map (piece val) (seqZ 0 (chunk_pages (len val))).

Lemma concat_pieces val i k : 0 <= i -> 0 <= k -> i * 16320 <= len val -> (0 < k -> (i + k - 1) * 16320 < len val) ->
  concat (map (piece val) (seqZ i k)) = sub val (i * 16320) (Z.min ((i + k) * 16320) (len val)).
Proof.
  intros Hi Hk. revert i Hi. pattern k. apply natlike_ind; [| |done].
  - intros i Hi Hle _. cbn. rewrite Z.add_0_r, Z.min_l by lia. by rewrite sub_nil.
  - clear k Hk. intros k Hk IH i Hi Hle Hlt. rewrite seqZ_cons by lia. cbn [map concat].
    replace (Z.pred (Z.succ k)) with k by lia. unfold piece at 1. destruct (decide (k = 0)) as [->|].
    + cbn. rewrite app_nil_r. f_equal; lia.
    + rewrite IH by lia. rewrite (Z.min_l ((i + 1) * 16320)) by lia. replace (Z.succ i) with (i + 1) by lia.
      replace (i + 1 + k) with (i + Z.succ k) by lia. rewrite <- sub_split; [done | lia | lia].
Qed.

Lemma pages_bounds n : 0 < n < 2 ^ 32 -> 0 < chunk_pages n /\ (chunk_pages n - 1) * 16320 < n <= chunk_pages n * 16320.
Proof.
  intros Hn. rewrite chunk_pages_eq by lia. pose proof (Z.div_mod (n + 16319) 16320 ltac:(lia)).
  pose proof (Z.mod_pos_bound (n + 16319) 16320 ltac:(lia)). lia.
Qed.

Lemma concat_all val : 0 < len val < 2 ^ 32 -> concat (pieces val) = val.
Proof.
  intros Hl. destruct (pages_bounds (len val) Hl) as (Hn & Hb). unfold pieces. rewrite concat_pieces by lia.
  rewrite Z.min_r by lia. apply sub_full.
Qed.

Lemma len_piece val i : 0 <= i -> i * 16320 <= len val -> 0 <= len (piece val i) <= 16320.
Proof. intros Hi Hl. unfold piece. rewrite len_sub by lia. lia. Qed.

(** ** Allocation *)

Section Alloc.
Context (s : Shard) (val : list Z) (np : Z) (Hh : heap_ok (dirty s) np) (Hp : heapPages s = np) (Hm : mask_ok s)
  (Hv : bytes_ok val) (Hl : 0 < len val < 2 ^ 32) (Hu : 0 < heapUsed s) (Hroom : heapUsed s + chunk_pages (len val) <= np).
Abbreviation n := (chunk_pages (len val)).
Abbreviation head := (heapUsed s).

Definition next_of (i : Z) : Z := if i + 1 <? n then head + i + 1 else 0.

(** After [j] pages. *)
Record alloc_inv (j : Z) (st : Shard * Z * Z) : Prop := {
  ai_meta : same_meta s st.1.1;
  ai_heap : heap_ok (dirty st.1.1) np;
  ai_cur : st.1.2 = if j =? 0 then head else next_of (j - 1);
  ai_off : st.2 = Z.min (j * 16320) (len val);
  ai_out : forall q, 0 <= q < np -> ~ (head <= q < head + j) -> page (dirty st.1.1) q = page (dirty s) q;
  ai_in : forall i, 0 <= i < j -> chunk_at (page (dirty st.1.1) (head + i)) (next_of i) i (piece val i) /\ crc_ok (page (dirty st.1.1) (head + i));
  ai_marks : forall q, 0 <= q -> marked st.1.1 q = marked s q || ((head <=? q) && (q <? head + j));
}.

Lemma alloc_step_ok j st : 0 <= j < n -> alloc_inv j st ->
  exists st', alloc_step n val j st = Some (Next st') /\ alloc_inv (j + 1) st'.
Proof.
  destruct (pages_bounds (len val) Hl) as (Hn & Hb). intros Hj [Hmeta Hheap Hcur Hoff Hout Hin Hmk].
  destruct st as [[s1 cur] off]. cbn [fst snd] in *. pose proof Hh as [Hsl _ Hss].
  assert (cur = head + j) as -> by (rewrite Hcur; unfold next_of; zcases).
  assert (off = j * 16320) as -> by lia. clear Hcur Hoff. unfold alloc_step.
  destruct (page_window _ np (head + j) Hheap ltac:(lia)) as (E1 & E2 & _ & E4). rewrite E1, E2, E4. cbn [mbind option_bind].
  unfold OverflowChunkCapacity. change (0x4000 - 64) with 16320. unwrap.
  set (cl := if len val - j * 16320 <? 16320 then len val - j * 16320 else 16320).
  assert (Hcl : 0 <= cl <= 16320 /\ j * 16320 + cl = Z.min ((j + 1) * 16320) (len val)) by (unfold cl; zcases).
  unwrap. rewrite slice_at_eq by lia. cbn [mbind option_bind].
  replace (sub val (j * 16320) (j * 16320 + cl)) with (piece val j) by (unfold piece; by rewrite <- (proj2 Hcl)).
  assert (cl = len (piece val j)) as -> by (unfold piece; rewrite len_sub by lia; lia).
  set (nx := if j + 1 <? n then head + j + 1 else 0).
  assert (Hpg : page_ok (page (dirty s1) (head + j))) by (destruct (page_at _ np (head + j) Hheap ltac:(lia)); split; [unfold page; rewrite len_sub by lia; lia | by apply bytes_ok_sub]).
  destruct (chunk_page_ok _ nx j (piece val j) Hpg) as (Hok & Hck & Hcrc);
    [by apply bytes_ok_sub | unfold nx; zcases | lia | unfold OverflowChunkCapacity; lia |].
  set (p := chunk_page _ _ _ _ _) in *. unfold pageN.
  set (s2 := set_dirty s1 (copy_at (dirty s1) ((head + j) * 0x4000) p)).
  destruct (markDirty_meta s2 (head + j)) as (Hm2 & Hd2).
  assert (Hmeta2 : same_meta s s2) by (eapply same_meta_trans; [exact Hmeta | by split]).
  eexists. split; [reflexivity|]. split; cbn [fst snd]; rewrite ?Hd2; cbn [s2 set_dirty dirty].
  - eapply same_meta_trans; [exact Hmeta2 | exact Hm2].
  - by apply heap_put; [| lia |].
  - replace (j + 1 =? 0) with false by lia. unfold next_of, nx. by replace (j + 1 - 1) with j by lia.
  - lia.
  - intros q Hq Hni. rewrite (page_put_ne _ np) by (done || lia). apply Hout; lia.
  - intros i Hi. destruct (decide (i = j)) as [->|].
    + rewrite (page_put_eq _ np) by (done || lia). done.
    + rewrite (page_put_ne _ np) by (done || lia). apply Hin. lia.
  - intros q Hq. rewrite marked_markDirty; [| by eapply same_meta_mask | destruct Hmeta2; lia | done].
    change (marked s2 q) with (marked s1 q). rewrite Hmk by done. rewrite <- orb_assoc. f_equal. zcases; done.
Qed.

Lemma chain_of pf j k : (forall i, j <= i < j + k -> chunk_at (pf (head + i)) (next_of i) i (piece val i)) ->
  0 <= j -> 0 <= k -> j + k = n -> chain pf np (if j <? n then head + j else 0) j (map (piece val) (seqZ j k)).
Proof.
  intros Hck Hj Hk. revert j Hj Hck. pattern k. apply natlike_ind; [| |done].
  - intros j Hj _ Hjn. cbn. by replace (j <? n) with false by lia.
  - clear k Hk. intros k Hk IH j Hj Hck Hjn. rewrite seqZ_cons by lia. cbn [map chain].
    replace (j <? n) with true by lia. destruct (Hck j ltac:(lia)) as [Hty Hnx Hcl Hsq Hcap Hdat].
    split; [lia|]. rewrite Hnx. split; [by split|]. replace (Z.pred (Z.succ k)) with k by lia.
    replace (Z.succ j) with (j + 1) by lia. replace (next_of j) with (if j + 1 <? n then head + (j + 1) else 0)
      by (unfold next_of; zcases).
    apply IH; [lia | | lia]. intros i Hi. apply Hck. lia.
Qed.

(** What a successful allocation leaves: the chain on fresh pages, checksummed
    and marked, and every other page as it was. *)
Record allocated (s' : Shard) : Prop := {
  al_heap : heap_ok (dirty s') np;
  al_pages : heapPages s' = np;
  al_used : heapUsed s' = head + n;
  al_chunks : forall i, 0 <= i < n -> chunk_at (page (dirty s') (head + i)) (next_of i) i (piece val i);
  al_out : forall q, 0 <= q < np -> ~ (head <= q < head + n) -> page (dirty s') q = page (dirty s) q;
  al_type : forall q, head <= q < head + n -> rd (page (dirty s') q) 20 = TypeOverflow /\ crc_ok (page (dirty s') q) /\ page_next (page (dirty s') q) = next_of (q - head);
  al_marks : forall q, 0 <= q -> marked s' q = marked s q || ((head <=? q) && (q <? head + n));
}.

Lemma allocOverflowPages_eq compact : full s n = false ->
  exists s', allocOverflowPages compact s val = Some (s', inl (head, n)) /\ allocated s'.
Proof.
  intros Hf. destruct (pages_bounds (len val) Hl) as (Hn & Hb). unfold allocOverflowPages. rewrite Hf. cbn [mbind option_bind].
  destruct (for_range_inv (fun j st => alloc_inv j st) (fun r => exists st, r = inl st /\ alloc_inv n st) 0 n (alloc_step n val) (s, head, 0))
    as (r & Hr & st & -> & Hst); [lia | | | |].
  - split; cbn [fst snd]; [apply same_meta_refl | done | done | lia | done | lia |].
    intros q Hq. replace ((head <=? q) && (q <? head + 0)) with false by zcases. by rewrite orb_false_r.
  - intros j st Hj Hst. destruct (alloc_step_ok j st Hj Hst) as (st' & -> & Hst'). exact Hst'.
  - intros st Hst. by exists st.
  - rewrite Hr. destruct st as [[s' cur] off]. cbn [no_ret mbind option_bind].
    destruct Hst as [[H1 H2 H3 H4] H5 _ _ H6 H7 H8]. cbn [fst snd] in *. pose proof Hh as [Hsl _ Hss].
    rewrite H2. unwrap. eexists. split; [reflexivity|]. split; cbn [set_used dirty heapPages heapUsed]; try done; try congruence.
    + intros i Hi. by apply H7.
    + intros q Hq. destruct (H7 (q - head) ltac:(lia)) as [[Hty Hnx _ _ _ _] Hcrc]. by replace (head + (q - head)) with q in * by lia.
Qed.

(** The chain is there in every buffer with these pages. *)
Lemma allocated_chain s' pf : allocated s' -> (forall q, head <= q < head + n -> pf q = page (dirty s') q) ->
  chain pf np head 0 (pieces val).
Proof.
  intros Ha Hpf. destruct (pages_bounds (len val) Hl) as (Hn & _). pose proof (chain_of pf 0 n) as Hc.
  replace (0 <? n) with true in Hc by lia. rewrite Z.add_0_r in Hc.
  apply Hc; [|lia..]. intros i Hi. rewrite Hpf by lia. by apply Ha.
Qed.

End Alloc.

(** ** Reading back *)

Lemma readOverflowChain_eq h np pg cs : heap_ok h np -> chain (page h) np pg 0 cs -> cs <> [] -> len (concat cs) < 2 ^ 32 ->
  len cs <= chunk_pages (len (concat cs)) + 1 ->
  readOverflowChain h np pg (len (concat cs)) = Some (inl (concat cs)).
Proof.
  intros Hh Hc Hne Hl Hn. pose proof (len_nonneg (concat cs)). unfold readOverflowChain. destruct cs as [|c cs]; [done|].
  pose proof Hc as (Hpg & _). replace (pg =? 0) with false by lia. replace (pg >=? np) with false by lia. cbn [orb].
  set (t := c :: cs) in *. assert (chunk_pages (len (concat t)) < 2 ^ 31).
  { rewrite chunk_pages_eq by lia. apply Z.div_lt_upper_bound; lia. }
  rewrite (read_loop_eq _ h np t); [| done | exact Hc | lia | lia | lia | lia | lia | lia | by rewrite len_zeros | unfold len in *; lia].
  cbn [mbind option_bind].
  rewrite Z.eqb_refl. cbn [negb]. rewrite copy_at_full by (by rewrite len_zeros). done.
Qed.



Lemma len_pieces val : 0 < len val < 2 ^ 32 -> len (pieces val) = chunk_pages (len val).
Proof.
  intros Hl. destruct (pages_bounds (len val) Hl) as (Hn & _). unfold pieces. unfold len at 1. rewrite length_map, length_seqZ. lia.
Qed.


(** ** The stream reader *)

(** [rem] is what the reader has still to give: the rest of the active chunk,
    then the chunks [cs]. *)
Record reading (h : list Z) (np total : Z) (r : overflowStreamReader) (cs : list (list Z)) (rem : list Z) : Prop := {
  rg_heap : r_heap r = h; rg_pages : r_pages r = np; rg_total : totalLen r = total;
  rg_off : valOffset r = total - len rem /\ len rem <= total;
  rg_win : 0 <= pageOff r <= chunkLen r /\ chunkLen r <= 16320;
  rg_active : pageOff r < chunkLen r -> 0 < activePage r < np;
  rg_rem : rem = (if pageOff r <? chunkLen r then sub (page h (activePage r)) (64 + pageOff r) (64 + chunkLen r) else []) ++ concat cs;
  rg_chain : chain (page h) np (currPage r) (walked r) cs;
  rg_walked : 0 <= walked r /\ walked r + len cs <= maxPages r < 2 ^ 32;
}.

Section Stream.
Context (h : list Z) (np total : Z) (Hh : heap_ok h np) (Ht : 0 <= total < 2 ^ 32).

Lemma len_page pg : 0 <= pg < np -> len (page h pg) = 0x4000.
Proof. intros Hpg. destruct Hh. unfold page. rewrite len_sub by lia. lia. Qed.

Lemma load_page_eq fuel r cs rem : reading h np total r cs rem -> rem <> [] -> (length cs < fuel)%nat ->
  exists r' cs', load_page fuel r = Some (r', None) /\ reading h np total r' cs' rem /\ pageOff r' < chunkLen r' /\ (length cs' <= length cs)%nat.
Proof.
  revert fuel r. induction cs as [|c cs IH]; intros fuel r Hr Hne Hf; (destruct fuel as [|fuel]; [lia|]); cbn [load_page];
    pose proof Hr as [E1 E2 E3 [Eo Hrt] Hw Ha Erem Hc Hwk].
  - destruct (Z.ltb_spec (pageOff r) (chunkLen r)) as [Hlt|]; [|done].
    replace (pageOff r >=? chunkLen r) with false by lia. cbn [negb]. by exists r, [].
  - destruct (Z.ltb_spec (pageOff r) (chunkLen r)) as [Hlt|].
    { replace (pageOff r >=? chunkLen r) with false by lia. cbn [negb]. by exists r, (c :: cs). }
    replace (pageOff r >=? chunkLen r) with true by lia. cbn [negb].
    cbn [chain] in Hc. destruct Hc as (Hpg & [Hty _ Hcl Hsq Hcap Hdat] & Hrest). rewrite len_cons in Hwk. pose proof (len_nonneg cs).
    replace (currPage r =? 0) with false by lia. replace (walked r >=? maxPages r) with false by lia. cbn [orb].
    rewrite E2, E1. replace (currPage r >=? np) with false by lia.
    destruct (page_window h np (currPage r) Hh ltac:(lia)) as (W1 & W2 & W3 & W4). rewrite W1, W3, W2, W4. cbn [mbind option_bind].
    rewrite Hty, Hcl, Hsq, !Z.eqb_refl. cbn [negb]. pose proof (len_nonneg c). unfold OverflowChunkCapacity in *. change (0x4000 - 64) with 16320 in *.
    replace (pageOff r <? chunkLen r) with false in Erem by lia. cbn [app concat] in Erem. pose proof (f_equal len Erem) as Hlen. rewrite len_app in Hlen. pose proof (len_nonneg (concat cs)).
    unfold pageN. unwrap. replace (len c >? 16320) with false by lia. replace (64 + len c >? 0x4000) with false by lia.
    rewrite E3, Eo. replace (total - len rem >? total) with false by lia. unwrap. replace (len c >? total - (total - len rem)) with false by lia. cbn [orb].
    match goal with |- context [load_page fuel ?r1] => set (r1' := r1) end.
    destruct (IH fuel r1') as (r' & cs' & Hl & Hr' & Hlt & Hlc); [| done | cbn in Hf; lia | exists r', cs'; cbn; split_and!; try done; lia].
    split; cbn; try done; try lia.
    rewrite Z.add_0_r. destruct (Z.ltb_spec 0 (len c)); [by rewrite Hdat, Erem|].
    rewrite Erem. assert (c = []) as -> by (apply len_nil_inv; lia). done.
Qed.

(** One [Read] gives a non-empty prefix of the rest, or [EOF] at the end. *)
Lemma Read_eq r cs rem p : reading h np total r cs rem -> 0 < len p < 2 ^ 32 ->
  if decide (rem = []) then Read r p = Some (r, p, 0, Some EOF) else
  exists r' cs' k, Read r p = Some (r', copy_at p 0 (sub rem 0 k), k, None) /\ 0 < k <= len p /\ k <= len rem /\
    reading h np total r' cs' (sub rem k (len rem)).
Proof.
  intros Hr Hp. pose proof Hr as [E1 E2 E3 [Eo Hrt] Hw Ha Erem Hc Hwk]. unfold Read. rewrite Eo, E3. case_decide as Hne.
  { rewrite Hne. change (len []) with 0. by replace (total - 0 >=? total) with true by lia. }
  assert (0 < len rem) as Hrl by (destruct rem; [done | rewrite len_cons; pose proof (len_nonneg rem); lia]).
  replace (total - len rem >=? total) with false by lia.
  destruct (load_page_eq (Z.to_nat (maxPages r - walked r + 1)) r cs rem Hr Hne) as (r1 & cs1 & -> & Hr1 & Hlt & _); [unfold len in *; lia|].
  cbn [mbind option_bind]. clear E1 E2 E3 Eo Hrt Hw Ha Erem Hc Hwk Hr. pose proof Hr1 as [E1 E2 E3 [Eo Hrt] Hw Ha Erem Hc Hwk].
  replace (pageOff r1 >=? chunkLen r1) with false by lia. specialize (Ha Hlt). replace (pageOff r1 <? chunkLen r1) with true in Erem by lia.
  pose proof (len_page (activePage r1) ltac:(lia)) as Hpl. pose proof Hh as [Hhl _ Hhs].
  pose proof (f_equal len Erem) as Hlen. rewrite len_app, len_sub in Hlen by lia. pose proof (len_nonneg (concat cs1)).
  rewrite E1, E3, Eo. unfold pageN, OverflowChunkCapacity. change (0x4000 - 64) with 16320. unwrap. 
  set (k := if len p <? chunkLen r1 - pageOff r1 then len p else chunkLen r1 - pageOff r1).
  assert (0 < k <= len p /\ k <= chunkLen r1 - pageOff r1) as Hk by (unfold k; zcases). unwrap.
  replace (total - len rem + k >? total) with false by lia. unwrap.
  replace (k >? 16320) with false by lia. replace (64 + pageOff r1 + k >? 0x4000) with false by lia. cbn [orb].
  set (b := activePage r1 * 0x4000 + 64 + pageOff r1). replace (b + k >? len h) with false by (unfold b; lia).
  replace (b + k >? (activePage r1 + 1) * 0x4000) with false by (unfold b; lia).
  rewrite slice_at_eq by (unfold b; lia). cbn [mbind option_bind].
  assert (Esub : forall x y, 0 <= x <= y -> y <= chunkLen r1 - pageOff r1 -> sub h (b + x) (b + y) = sub rem x y).
  { intros x y Hx Hy. rewrite Erem, sub_app_l by (rewrite ?len_sub by lia; lia). unfold page. rewrite !sub_sub by lia. unfold b. f_equal; lia. }
  replace (sub h b (b + k)) with (sub rem 0 k) by (rewrite <- Esub by lia; f_equal; lia). eexists _, cs1, k. split; [reflexivity|].
  split; [lia|]. split; [lia|].
  split; cbn; try done; try lia.
  - rewrite len_sub by lia. lia.
  - rewrite Erem at 1 2. rewrite (sub_split _ k (chunkLen r1 - pageOff r1)) by (rewrite <- ?Erem; lia). f_equal.
    + rewrite sub_app_l by (rewrite ?len_sub by lia; lia). rewrite sub_sub by lia. zcase; [f_equal; lia|].
      replace (64 + pageOff r1 + k) with (64 + pageOff r1 + (chunkLen r1 - pageOff r1)) by lia. apply sub_nil.
    + rewrite sub_skip by (rewrite len_sub by lia; rewrite <- Erem; lia). rewrite len_sub by lia. rewrite <- Erem. apply sub_all; lia.
Qed.

(** A client that reads until [EOF], with buffers of the sizes it likes. *)
Fixpoint read_all (size : list Z -> Z) (fuel : nat) (r : overflowStreamReader) (acc : list Z) : option (list Z + overflow_error) :=
  match fuel with
  | O => None
  | S fuel' =>
      '(r, p, k, e) ← Read r (zeros (size acc));
      match e with
      | Some EOF => Some (inl acc)
      | Some e => Some (inr e)
      | None => read_all size fuel' r (acc ++ sub p 0 k)
      end
  end.

Lemma read_all_eq size fuel r cs rem acc : (forall l, 0 < size l < 2 ^ 32) -> reading h np total r cs rem -> len rem < Z.of_nat fuel ->
  read_all size fuel r acc = Some (inl (acc ++ rem)).
Proof.
  intros Hsz. revert r cs rem acc. induction fuel as [|fuel IH]; intros r cs rem acc Hr Hf; [pose proof (len_nonneg rem); lia|].
  cbn [read_all]. pose proof (Hsz acc) as Hsa. pose proof (Read_eq r cs rem (zeros (size acc)) Hr) as HR. rewrite len_zeros in HR by lia.
  specialize (HR Hsa). case_decide as Hne; [rewrite HR, Hne; cbn [mbind option_bind]; by rewrite app_nil_r|].
  destruct HR as (r' & cs' & k & -> & Hk & Hkr & Hr'). cbn [mbind option_bind].
  rewrite sub_copy_at_eq by (rewrite ?len_zeros, ?len_sub by lia; lia).
  rewrite (IH _ cs' (sub rem k (len rem))) by (done || (rewrite len_sub by lia; lia)).
  rewrite <- app_assoc, <- sub_split by lia. by rewrite sub_full.
Qed.
End Stream.

(** ** Retirement *)

Section Retire.
Context (np head n : Z) (Hhd : 0 < head) (Hroom : head + n <= np).

(** The page that ends up in place of a retired one. *)
Lemma dead_page : exists p, bytes_of (C2db_crc32c_fullpage_store (Some (zeros 0x4000)) pageN).1 = p /\ page_ok p /\ rd p 20 = 0.
Proof.
  assert (page_ok (zeros 0x4000)) as Hz by (split; [by apply len_zeros | apply bytes_ok_zeros]).
  destruct (fullpage_store_ok _ Hz) as (c & E & _). rewrite E. eexists. split; [reflexivity|].
  split; [apply page_ok_copy_at; [done | apply bytes_ok_le_put]|].
  change (rd (copy_at (zeros 0x4000) 28 (le_put 4 c)) 20 = 0).
  rewrite rd_copy_at_out by (rewrite ?len_le_put; lia). apply rd_zeros.
Qed.

Lemma retire_loop_eq fuel k i s : 0 <= i -> 0 <= k -> i + k = n -> k < Z.of_nat fuel ->
  heap_ok (dirty s) np -> heapPages s = np -> heapUsed s = head + n ->
  (forall q, head + i <= q < head + n -> rd (page (dirty s) q) 20 = TypeOverflow /\
     page_next (page (dirty s) q) = if q - head + 1 <? n then q + 1 else 0) ->
  exists s', retire_loop fuel s (if i <? n then head + i else 0) i n = Some s' /\ same_meta s s' /\ heap_ok (dirty s') np /\
    (forall q, 0 <= q < np -> ~ (head + i <= q < head + n) -> page (dirty s') q = page (dirty s) q) /\
    (forall q, head + i <= q < head + n -> rd (page (dirty s') q) 20 = 0).
Proof.
  intros Hi Hk. revert fuel i s Hi. pattern k. apply natlike_ind; [| |done].
  - intros fuel i s Hi Hn Hf Hh Hp Hu _. destruct fuel as [|fuel]; [lia|]. cbn [retire_loop].
    replace (i <? n) with false by lia. cbn [Z.eqb negb andb]. exists s. split_and!; [done | apply same_meta_refl | done | done | lia].
  - clear k Hk. intros k Hk IH fuel i s Hi Hn Hf Hh Hp Hu Hty. destruct fuel as [|fuel]; [lia|]. cbn [retire_loop].
    replace (i <? n) with true by lia. replace (head + i =? 0) with false by lia. cbn [negb andb].
    rewrite Hp, Hu. replace (head + i >=? np) with false by lia. replace (head + i >=? head + n) with false by lia. cbn [orb].
    destruct (page_window _ np (head + i) Hh ltac:(lia)) as (W1 & W2 & W3 & W4). rewrite W1, W3, W2, W4. cbn [mbind option_bind].
    destruct (Hty (head + i) ltac:(lia)) as (Ht & Hx). change BT_TypeOffset with 20. rewrite Ht, Z.eqb_refl. cbn [negb].
    assert (len (page (dirty s) (head + i)) = 0x4000) as -> by (destruct Hh; unfold page; rewrite len_sub by lia; lia).
    destruct dead_page as (p & -> & Hpok & Hp0). unfold pageN in *. set (s1 := set_dirty s _).
    destruct (markDirty_meta s1 (head + i)) as (Hm1 & Hd1). pose proof Hh as [Hhl _ Hhs].
    assert (same_meta s (markDirty s1 (head + i))) as Hm by (eapply same_meta_trans; [|exact Hm1]; by split).
    rewrite Hx. unwrap.
    replace (if head + i - head + 1 <? n then head + i + 1 else 0) with (if i + 1 <? n then head + (i + 1) else 0) by zcases.
    destruct (IH fuel (i + 1) (markDirty s1 (head + i))) as (s' & Hr & Hm' & Hh' & Hout & Hin); try lia.
    + rewrite Hd1. by apply heap_put; [| lia |].
    + by destruct Hm as [-> _ _ _].
    + by destruct Hm as [_ -> _ _].
    + intros q Hq. rewrite Hd1. cbn [s1 set_dirty dirty]. rewrite (page_put_ne _ np) by (done || lia). apply Hty. lia.
    + exists s'. split; [exact Hr|]. split; [by eapply same_meta_trans|]. split; [done|]. rewrite Hd1 in Hout. cbn [s1 set_dirty dirty] in Hout. split.
      * intros q Hq Hni. rewrite Hout by lia. by rewrite (page_put_ne _ np) by (done || lia).
      * intros q Hq. destruct (decide (q = head + i)) as [->|]; [|apply Hin; lia].
        rewrite Hout by lia. by rewrite (page_put_eq _ np) by (done || lia).
Qed.

Lemma trim_loop_eq fuel j s : 0 <= j -> head + j < Z.of_nat fuel -> heap_ok (dirty s) np -> heapUsed s = head + j -> head + j <= np ->
  (forall q, head <= q < head + j -> rd (page (dirty s) q) 20 = 0) -> (head = 1 \/ rd (page (dirty s) (head - 1)) 20 <> 0) ->
  trim_loop fuel s = Some (set_used s head).
Proof.
  intros Hj. revert fuel s. pattern j. apply natlike_ind; [| |done].
  - intros fuel s Hf Hh Hu Hn _ Hstop. destruct fuel as [|fuel]; [lia|]. cbn [trim_loop]. rewrite Hu.
    assert (set_used s head = s) as -> by (unfold set_used; destruct s; cbn in *; f_equal; lia).
    destruct (Z.gtb_spec (head + 0) 1); cbn [negb]; [|done]. destruct Hstop as [|Hstop]; [lia|].
    rewrite (w64_small (head + 0 - 1)) by (destruct Hh; lia). replace (head + 0 - 1) with (head - 1) by lia.
    destruct (page_window _ np (head - 1) Hh ltac:(lia)) as (W1 & W2 & W3 & W4). rewrite W1, W3. change BT_TypeOffset with 20.
    destruct Hh as [Hhl Hhb Hhs]. unfold pageN in *. unwrap. rewrite idx_rd by lia. cbn [mbind option_bind].
    unfold page in Hstop. rewrite rd_sub in Hstop by lia. by replace (rd _ _ =? 0) with false by lia.
  - clear j Hj. intros j Hj IH fuel s Hf Hh Hu Hn Hdead Hstop. destruct fuel as [|fuel]; [lia|]. cbn [trim_loop]. rewrite Hu.
    destruct (Z.gtb_spec (head + Z.succ j) 1); [cbn [negb] | lia].
    rewrite (w64_small (head + Z.succ j - 1)) by (destruct Hh; lia).
    destruct (page_window _ np (head + Z.succ j - 1) Hh ltac:(lia)) as (W1 & W2 & W3 & W4). rewrite W1, W3. change BT_TypeOffset with 20.
    pose proof (Hdead (head + Z.succ j - 1) ltac:(lia)) as Hd. pose proof Hh as [Hhl Hhb Hhs]. unfold pageN in *. unwrap. rewrite idx_rd by lia. cbn [mbind option_bind].
    unfold page in Hd. rewrite rd_sub in Hd by lia. rewrite Hd. cbn [Z.eqb negb].
    rewrite IH; [done | lia | done | cbn; lia | lia | | done]. intros q Hq. apply Hdead. lia.
Qed.
End Retire.

(** ** Validation at replay *)

Section Validate.
Context (pub : list Z) (GetPage : Z -> option (list Z)) (np : Z)
  (Hpub : bytes_ok pub) (Hpl : len pub < 2 ^ 63) (HG : forall a d, GetPage a = Some d -> bytes_ok d).

(** Where the validation finds page [q]: published, or else with the pager. *)
Definition disk_source (q : Z) : option (list Z) :=
  match GetPage (q * 4) with
  | Some d => if (len d >=? pageN) && (rd d 20 =? TypeOverflow) then Some (sub d 0 pageN) else None
  | None => None
  end.
Definition source (q : Z) : option (list Z) :=
  if (q * pageN + pageN <=? len pub) && (rd pub (q * pageN + 20) =? TypeOverflow) then Some (page pub q) else disk_source q.

Lemma disk_source_ok q p : disk_source q = Some p -> page_ok p.
Proof.
  unfold disk_source, pageN. destruct (GetPage (q * 4)) as [d|] eqn:E; [|done]. destruct (Z.geb_spec (len d) 0x4000); [|done]. cbn [andb].
  case_match; [|done]. intros [= <-]. split; [rewrite len_sub by lia; lia | apply bytes_ok_sub; by eapply HG].
Qed.

Lemma source_ok q p : 0 <= q -> source q = Some p -> page_ok p.
Proof.
  intros Hq. unfold source, pageN. destruct (Z.leb_spec (q * 0x4000 + 0x4000) (len pub)); cbn [andb]; [|apply disk_source_ok].
  case_match; [|apply disk_source_ok]. intros [= <-]. split; [unfold page; rewrite len_sub by lia; lia | by apply bytes_ok_sub].
Qed.

Lemma source_type q p : 0 <= q -> source q = Some p -> rd p 20 = TypeOverflow.
Proof.
  intros Hq. unfold source, disk_source, pageN. destruct (_ && _) eqn:E; [intros [= <-]; unfold page; rewrite rd_sub by lia; lia|].
  destruct (GetPage (q * 4)) as [d|]; [|done]. clear E. destruct (_ && _) eqn:E2; [|done]. intros [= <-]. cbn [Z.mul] in *. rewrite rd_sub by lia. change (0 + 20) with 20. lia.
Qed.

(** [r] is page [p], if any, in a shard over the same pages. *)
Definition found_page (p : option (list Z)) (r : option (option (Shard * list Z))) : Prop :=
  match p with
  | None => r = Some None
  | Some p => exists s', r = Some (Some (s', p)) /\ heap_ok (dirty s') np /\ heapPages s' = np
  end.

Lemma pager_page_eq s q : heap_ok (dirty s) np -> heapPages s = np -> 0 < q < np ->
  found_page (disk_source q) (pager_page GetPage s q (q * 0x4000)).
Proof.
  intros Hh Hp Hq. pose proof Hh as [Hhl Hhb Hhs]. pose proof (disk_source_ok q) as Hok. unfold found_page, disk_source, pager_page, pageN, BT_TypeOffset in *.
  unwrap. destruct (GetPage (q * 4)) as [d|] eqn:E; [|done]. zcase; [by replace (len d >=? 0x4000) with false by lia|].
  replace (len d >=? 0x4000) with true in * by lia. cbn [andb] in *. destruct (Z.eqb_spec (rd d 20) TypeOverflow); cbn [negb]; [|done].
  specialize (Hok _ eq_refl). replace (q * 0x4000 + 0x4000 >? len (dirty s)) with false by lia. set (s1 := set_dirty s _).
  destruct (markDirty_meta s1 q) as ([Hmp _ _ _] & Hmd). rewrite Hmd. cbn [s1 set_dirty dirty].
  rewrite slice_at_eq by (rewrite ?len_copy_at; lia). cbn [mbind option_bind].
  replace (sub (copy_at (dirty s) (q * 0x4000) (sub d 0 0x4000)) (q * 0x4000) (q * 0x4000 + 0x4000)) with (sub d 0 0x4000)
    by (symmetry; apply (page_put_eq _ np); done || lia).
  eexists. split; [reflexivity|]. rewrite Hmd, Hmp. split; [by apply heap_put; [| lia |] | done].
Qed.

Lemma replay_page_eq s q : heap_ok (dirty s) np -> heapPages s = np -> 0 < q < np ->
  found_page (source q) (replay_page pub GetPage s q).
Proof.
  intros Hh Hp Hq. pose proof Hh as [Hhl Hhb Hhs]. pose proof (pager_page_eq s q Hh Hp Hq) as Hd.
  unfold replay_page, source, pageN, BT_TypeOffset. unwrap.
  destruct (Z.leb_spec (q * 0x4000 + 0x4000) (len pub)) as [Hin|]; cbn [andb]; [|exact Hd].
  rewrite idx_rd by lia. cbn [mbind option_bind]. destruct (Z.eqb_spec (rd pub (q * 0x4000 + 20)) TypeOverflow) as [|]; [|exact Hd].
  rewrite slice_at_eq by lia. by exists s.
Qed.

Definition src_page (q : Z) : list Z := default [] (source q).

(** Every page of the chain passes its checksum. *)
Fixpoint sealed (pf : Z -> list Z) (pg : Z) (cs : list (list Z)) : Prop :=
  match cs with [] => True | _ :: cs' => crc_ok (pf pg) /\ sealed pf (page_next (pf pg)) cs' end.

(** The rest of an intact chain. *)
Definition intact (total maxP pg i off : Z) (cs : list (list Z)) : Prop :=
  chain src_page np pg i cs /\ sealed src_page pg cs /\ off + len (concat cs) = total /\ i + len cs = maxP.

Lemma intact_cons total maxP pg i off cs : pg <> 0 -> intact total maxP pg i off cs ->
  exists c cs' p, cs = c :: cs' /\ source pg = Some p /\ 0 < pg < np /\ crc_ok p /\ chunk_at p (page_next p) i c /\
    intact total maxP (page_next p) (i + 1) (off + len c) cs'.
Proof.
  intros Hne (Hc & Hs & Ht & Hn). destruct cs as [|c cs]; [by cbn in Hc|]. cbn [chain sealed concat] in *.
  destruct Hc as (Hpg & Hck & Hc), Hs as (Hcrc & Hs). unfold src_page in *. rewrite len_app in Ht. rewrite len_cons in Hn.
  destruct (source pg) as [p|] eqn:E; [|by destruct Hck]. cbn [default from_option] in *. unfold id in *. exists c, cs, p.
  unfold intact, src_page. split_and!; try done; lia.
Qed.

Lemma replay_loop_iff fuel s total maxP pg i off : heap_ok (dirty s) np -> heapPages s = np ->
  0 <= pg -> 0 <= i <= maxP + 1 -> 0 <= off <= total -> off <= i * 16320 -> (maxP - 1) * 16320 < total < 2 ^ 32 -> maxP < 2 ^ 32 ->
  maxP + 2 <= Z.of_nat fuel + i ->
  exists s' b, replay_loop pub GetPage fuel s total maxP pg i off = Some (s', b) /\
    (b = true <-> exists cs, intact total maxP pg i off cs).
Proof.
  revert s pg i off. induction fuel as [|fuel IH]; intros s pg i off Hh Hp Hpg Hi Hoff Hcap Ht Hm Hf; [lia|]. cbn [replay_loop].
  destruct (negb _) eqn:Econd.
  { eexists _, _. split; [reflexivity|]. split.
    - intros Hb. exists []. unfold intact. change (len (concat [])) with 0. change (len []) with 0. cbn [chain sealed]. lia.
    - intros (cs & Hint). destruct (Z.eqb_spec pg 0) as [->|].
      + destruct Hint as (Hc & _ & Hs & Hn). destruct cs as [|c cs]; [|cbn in Hc; lia]. change (len (concat [])) with 0 in Hs. change (len []) with 0 in Hn. lia.
      + destruct (intact_cons _ _ _ _ _ _ n Hint) as (c & cs' & p & -> & _ & _ & _ & _ & _). destruct Hint as (_ & _ & _ & Hn).
        rewrite len_cons in Hn. pose proof (len_nonneg cs'). lia. }
  assert (pg <> 0) as Hne by lia.
  assert (Hno : forall s' : Shard, (forall c cs p, source pg = Some p -> 0 < pg < np -> crc_ok p -> chunk_at p (page_next p) i c ->
      intact total maxP (page_next p) (i + 1) (off + len c) cs -> False) ->
    exists s0 b, Some (s', false) = Some (s0, b) /\ (b = true <-> exists cs, intact total maxP pg i off cs)).
  { intros s' H. exists s', false. split; [done|]. split; [done|]. intros (cs & Hint).
    destruct (intact_cons _ _ _ _ _ _ Hne Hint) as (c & cs' & p & -> & ?). destruct_and!. by edestruct H. }
  rewrite Hp. destruct (Z.geb_spec pg np); [apply Hno; intros; lia|].
  pose proof (replay_page_eq s pg Hh Hp ltac:(lia)) as Hr. destruct (source pg) as [p|] eqn:Esrc.
  2:{ cbn in Hr. rewrite Hr. apply Hno. by intros. }
  destruct Hr as (s' & -> & Hh' & Hp'). cbn [mbind option_bind]. destruct (source_ok pg p Hpg Esrc) as [Hpl' Hpb].
  pose proof (field4_bound p 40 44 Hpb) as Hcl. fold (page_chunk_len p) in Hcl.
  pose proof (le_get_sub_bound 8 p 32 40 Hpb) as Hnx. fold (page_next p) in Hnx. unfold OverflowChunkCapacity, pageN in *. change (0x4000 - 64) with 16320.
  destruct (Z.eqb_spec (le_get 4 (sub p 28 32)) (C2db_crc32c_fullpage (Some p) 0x4000)); cbn [negb];
    [|apply Hno; intros ??? [= <-] ? Hcrc; done].
  destruct (Z.eqb_spec (page_seq p) i); cbn [negb]; [|apply Hno; intros ??? [= <-] ? _ []; done].
  destruct (Z.gtb_spec (page_chunk_len p) 16320);
    [apply Hno; intros ??? [= <-] ? _ [_ _ ? _ ? _] _; unfold OverflowChunkCapacity in *; lia|].
  unwrap. replace (64 + page_chunk_len p >? 0x4000) with false by lia. replace (off >? total) with false by lia. cbn [orb].
  destruct (Z.gtb_spec (page_chunk_len p) (total - off)).
  { apply Hno. intros c cs ? [= <-] ? _ [_ _ ? _ _ _] (_ & _ & Hs & _). pose proof (len_nonneg (concat cs)). lia. }
  set (c := sub p 64 (64 + page_chunk_len p)). assert (len c = page_chunk_len p) as Hlc by (unfold c; rewrite len_sub by lia; lia).
  destruct (IH s' (page_next p) (i + 1) (off + page_chunk_len p)) as (s'' & b & -> & Hb); try done; try lia.
  exists s'', b. split; [done|]. rewrite Hb. split.
  - intros (cs & Hc & Hs & Htot & Hn). exists (c :: cs). unfold intact, src_page in *. rewrite len_cons. cbn [chain sealed concat]. rewrite Esrc, len_app.
    cbn [default from_option]. unfold id. split_and!; try done; try lia.
    pose proof (source_type pg p Hpg Esrc). split; rewrite ?Hlc; done.
  - intros (cs & Hint). destruct (intact_cons _ _ _ _ _ _ Hne Hint) as (c' & cs' & p' & -> & E & _ & _ & [_ _ Hl' _ _ _] & Hint').
    rewrite Esrc in E. injection E as <-. exists cs'. by rewrite Hl'.
Qed.
End Validate.

(** ** Properties *)



Definition ov_shard : Shard :=
  {| dirty := zeros (4 * 0x4000); heapPages := 4; heapUsed := 1; heapWatermark := 4; dirtyMask := [1]; dirtyList := [0; 0];
     dirtyListLen := 0; dirtyOverflow := false |}.
Definition ov_value : list Z := replicate (Z.to_nat 20000) 7.

Lemma ov_heap : heap_ok (dirty ov_shard) 4.
Proof. split; [by apply len_zeros | apply bytes_ok_zeros | unfold dirty, ov_shard; by rewrite len_zeros]. Qed.
Lemma ov_len : len ov_value = 20000.
Proof. unfold len, ov_value. by rewrite length_replicate. Qed.
Lemma ov_bytes : bytes_ok ov_value.
Proof. apply Forall_replicate. lia. Qed.


(** The stream reader gives the value of a chain.  Whatever the sizes of
    the buffers it is given, reading until [EOF] returns the bytes that
    [readOverflowChain] assembles, and both are the chunks of the chain. *)
Theorem overflow_stream h np head cs size fuel :
  heap_ok h np -> chain (page h) np head 0 cs -> 0 < len (concat cs) < 2 ^ 32 -> len cs <= chunk_pages (len (concat cs)) ->
  (forall l, 0 < size l < 2 ^ 32) -> len (concat cs) < Z.of_nat fuel ->
  read_all size fuel (stream_of h np (len (concat cs)) head) [] = Some (inl (concat cs)) /\
  readOverflowChain h np head (len (concat cs)) = Some (inl (concat cs)).
Proof.
  intros Hh Hc Hl Hn Hsz Hf. split.
  - apply (read_all_eq h np (len (concat cs)) Hh ltac:(lia) size fuel _ cs (concat cs) []); [done | | done].
    split; cbn; try done; try lia. split; [done|]. rewrite chunk_pages_eq by lia. split; [rewrite chunk_pages_eq in Hn by lia; lia|].
    apply Z.div_lt_upper_bound; lia.
  - apply readOverflowChain_eq; try done; try lia. intros ->. cbn in Hl. change (len []) with 0 in Hl. lia.
Qed.

(** The chain of [ov_value]. *)
Lemma ov_chain : exists h, heap_ok h 4 /\ chain (page h) 4 1 0 (pieces ov_value).
Proof.
  assert (0 < len ov_value < 2 ^ 32) as Hl by (rewrite ov_len; lia).
  assert (chunk_pages (len ov_value) = 2) as Hn by by rewrite ov_len.
  destruct (allocOverflowPages_eq ov_shard ov_value 4 ov_heap eq_refl ltac:(unfold mask_ok; vm_compute; discriminate) ov_bytes Hl
    ltac:(done) ltac:(rewrite Hn; vm_compute; discriminate) (fun s => Some (s, inl false))) as (s' & _ & Ha); [by rewrite Hn|].
  exists (dirty s'). split; [apply Ha|].
  apply (allocated_chain ov_shard ov_value 4 Hl ltac:(done) ltac:(rewrite Hn; done) s' _ Ha). intros q _. reflexivity.
Qed.

Lemma overflow_stream_witness : exists h, heap_ok h 4 /\
  read_all (fun _ => 4096) (Z.to_nat 20001) (stream_of h 4 20000 1) [] = Some (inl ov_value) /\
  readOverflowChain h 4 1 20000 = Some (inl ov_value).
Proof.
  destruct ov_chain as (h & Hh & Hc). exists h. split; [exact Hh|]. assert (0 < len ov_value < 2 ^ 32) as Hl by (rewrite ov_len; lia).
  pose proof (overflow_stream h 4 1 (pieces ov_value) (fun _ => 4096) (Z.to_nat 20001) Hh Hc) as H.
  rewrite (concat_all _ Hl), (len_pieces _ Hl), ov_len in H. apply H; lia.
Defined.

(** Reading a chain is safe on any buffer: whatever the pages hold,
    [readOverflowChain] returns within its fuel and without an index out of
    range, either one of its two errors or exactly [totalLen] bytes. *)
Theorem overflow_read_total h np head total :
  bytes_ok h -> len h < 2 ^ 63 -> np * pageN <= 2 ^ 63 -> 0 <= head -> 0 <= total < 2 ^ 32 ->
  exists r, readOverflowChain h np head total = Some r /\ match r with inl out => len out = total | inr _ => True end.
Proof.
  intros Hb Hl Hnp Hhd Ht. unfold readOverflowChain. destruct (_ || _); [by eexists|].
  assert (0 <= chunk_pages total < 2 ^ 31) as Hn.
  { rewrite chunk_pages_eq by lia. split; [apply Z.div_pos; lia | apply Z.div_lt_upper_bound; lia]. }
  destruct (read_loop_total (Z.to_nat (chunk_pages total + 2)) h np total (chunk_pages total) (zeros total) head 0 0)
    as (r & -> & Hr); try done; try lia; [by rewrite len_zeros by lia|].
  cbn [mbind option_bind]. destruct r as [[out off]|e]; [|by eexists]. destruct (negb _); by eexists.
Qed.

Lemma overflow_read_total_witness :
  exists r, readOverflowChain (zeros 0x8000) 2 1 5000 = Some r /\ match r with inl out => len out = 5000 | inr _ => True end.
Proof.
  apply (overflow_read_total (zeros 0x8000) 2 1 5000); [apply bytes_ok_zeros | rewrite len_zeros; [reflexivity | discriminate] | discriminate | discriminate | split; [discriminate | reflexivity]].
Defined.

(** Deleting a value gives its pages back.  When the chain of the value is
    the last one allocated and the page before it is in use, retiring it after
    the allocation brings the allocation mark back to where it was, and no
    other page has changed. *)
Theorem overflow_retired compact s val np s' head n :
  heap_ok (dirty s) np -> heapPages s = np -> mask_ok s -> 0 < heapUsed s -> heapWatermark s <= np ->
  bytes_ok val -> 0 < len val < 2 ^ 32 -> heapUsed s + chunk_pages (len val) <= heapWatermark s ->
  (heapUsed s = 1 \/ rd (page (dirty s) (heapUsed s - 1)) 20 <> 0) ->
  allocOverflowPages compact s val = Some (s', inl (head, n)) ->
  exists s'', retireDeletedOverflow s' [(head, n)] = Some s'' /\ heapUsed s'' = heapUsed s /\ heap_ok (dirty s'') np /\
    (forall q, 0 <= q < np -> ~ (heapUsed s <= q < heapUsed s + n) -> page (dirty s'') q = page (dirty s) q).
Proof.
  intros Hh Hp Hm Hu Hw Hv Hl Hroom Hbefore Hal. destruct (pages_bounds _ Hl) as (Hn & _). pose proof Hh as [Hhl _ Hhs].
  destruct (allocOverflowPages_eq s val np Hh Hp Hm Hv Hl Hu ltac:(lia) compact) as (s2 & Hal2 & Ha).
  { unfold full. rewrite w64_small by lia. zcases. }
  rewrite Hal2 in Hal. injection Hal as -> <- <-. destruct Ha as [H1 H2 H3 H4 H5 H6 _].
  unfold retireDeletedOverflow. cbn [len length Z.of_nat]. change (len [(heapUsed s, chunk_pages (len val))] =? 0) with false. cbn [foldl mbind option_bind].
  unfold retireOverflowChain. replace (heapUsed s =? 0) with false by lia. rewrite H2. replace (heapUsed s >=? np) with false by lia.
  replace (chunk_pages (len val) =? 0) with false by lia. cbn [orb].
  destruct (retire_loop_eq np (heapUsed s) (chunk_pages (len val)) Hu ltac:(lia) (S (Z.to_nat (chunk_pages (len val)))) (chunk_pages (len val)) 0 s')
    as (s3 & Hr & [M1 M2 M3 M4] & Hh3 & Hout & Hin); try done; try lia.
  { intros q Hq. destruct (H6 q ltac:(lia)) as (? & _ & Hx). split; [done|]. rewrite Hx. unfold next_of. zcases. }
  replace (0 <? chunk_pages (len val)) with true in Hr by lia. rewrite Z.add_0_r in Hr. rewrite Hr. cbn [mbind option_bind].
  unfold trimDeadOverflowTail. rewrite (trim_loop_eq np (heapUsed s) Hu _ (chunk_pages (len val))); [| lia | lia | done | lia | lia | |].
  - eexists. split; [reflexivity|]. split_and!; [done | done |]. intros q Hq Hni. cbn [set_used dirty]. rewrite Hout by lia. by apply H5.
  - intros q Hq. apply Hin. lia.
  - destruct Hbefore as [|Hb]; [by left|]. destruct (Z.eqb_spec (heapUsed s) 1); [by left|]. right.
    rewrite Hout, H5 by lia. done.
Qed.

Lemma overflow_retired_witness : exists s' s'' head n, allocOverflowPages (fun s => Some (s, inl false)) ov_shard ov_value = Some (s', inl (head, n)) /\
  retireDeletedOverflow s' [(head, n)] = Some s'' /\ heapUsed s'' = 1.
Proof.
  assert (0 < len ov_value < 2 ^ 32) as Hl by (rewrite ov_len; lia).
  assert (chunk_pages (len ov_value) = 2) as Hn by by rewrite ov_len.
  assert (mask_ok ov_shard) as Hm by (unfold mask_ok; vm_compute; discriminate).
  destruct (allocOverflowPages_eq ov_shard ov_value 4 ov_heap eq_refl Hm ov_bytes Hl ltac:(reflexivity) ltac:(rewrite Hn; discriminate)
    (fun s => Some (s, inl false))) as (s' & E & _); [rewrite Hn; reflexivity|].
  destruct (overflow_retired (fun s => Some (s, inl false)) ov_shard ov_value 4 s' _ _ ov_heap eq_refl Hm ltac:(reflexivity) ltac:(discriminate)
    ov_bytes Hl ltac:(rewrite Hn; discriminate) (or_introl eq_refl) E) as (s'' & Hr & Hu & _).
  exists s', s'', (heapUsed ov_shard), (chunk_pages (len ov_value)). split; [exact E|]. split; [exact Hr | exact Hu].
Defined.

(** The replay of the log accepts exactly the intact chains.  Reading each
    page from the published buffer, or else from the pager, the validation
    answers true if and only if the pages form a chain of exactly the chunks
    of [total] bytes, numbered from 0, every page under its checksum and none
    after the last. *)
Theorem overflow_replay_exact pub GetPage s np head total :
  bytes_ok pub -> len pub < 2 ^ 63 -> (forall a d, GetPage a = Some d -> bytes_ok d) ->
  heap_ok (dirty s) np -> heapPages s = np -> 0 <= head -> 0 < total < 2 ^ 32 ->
  exists s' b, replayValidateOverflowChain pub GetPage s head total = Some (s', b) /\
    (b = true <-> exists cs, chain (src_page pub GetPage) np head 0 cs /\ sealed (src_page pub GetPage) head cs /\
       len (concat cs) = total /\ len cs = chunk_pages total).
Proof.
  intros Hpub Hpl HG Hh Hp Hhd Ht. destruct (pages_bounds total Ht) as (Hn & Hb). unfold replayValidateOverflowChain. rewrite Hp.
  destruct ((head =? 0) || (head >=? np)) eqn:Ehd.
  { exists s, false. split; [done|]. split; [done|]. intros ([|c cs] & Hc & _ & Hlen & _); cbn in Hc; [change (len (concat [])) with 0 in Hlen; lia|].
    destruct Hc as (? & _). lia. }
  assert (chunk_pages total < 2 ^ 31) by (rewrite chunk_pages_eq by lia; apply Z.div_lt_upper_bound; lia).
  destruct (replay_loop_iff pub GetPage np Hpub HG (Z.to_nat (chunk_pages total + 2)) s total (chunk_pages total) head 0 0)
    as (s' & b & -> & Hiff); try done; try lia.
  exists s', b. split; [done|]. rewrite Hiff. unfold intact. setoid_rewrite Z.add_0_l. done.
Qed.

Lemma overflow_replay_exact_witness :
  exists s' b, replayValidateOverflowChain (zeros 0x8000) (fun _ => None) ov_shard 1 5000 = Some (s', b) /\
    (b = true <-> exists cs, chain (src_page (zeros 0x8000) (fun _ => None)) 4 1 0 cs /\ sealed (src_page (zeros 0x8000) (fun _ => None)) 1 cs /\
       len (concat cs) = 5000 /\ len cs = chunk_pages 5000).
Proof.
  apply (overflow_replay_exact (zeros 0x8000) (fun _ => None) ov_shard 4 1 5000);
    [apply bytes_ok_zeros | rewrite len_zeros; [reflexivity | discriminate] | discriminate | exact ov_heap | reflexivity | discriminate | split; reflexivity].
Defined.

End OverflowOk.
