(* ===== verification/BtInsertOk.v ===== *)
(** * Insertion keeps the B-tree (src/pkg/c2db/db_btree_gen.go)

    Every successful insertion leaves a well-formed tree with one more version:
    in the leaf of the key, after a split of the leaf, or with new internal
    pages up to a new root. *)

From stdpp Require Import sorting.
From S2P Require Import Prelude Bytes PageKernel BtMem BtLeaf BtVersion BtHeap BtTree BtSplit BtIntern BtSpine BtInsert.
Import Bytes PageKernel BtMem BtLeaf BtVersion BtHeap BtTree BtSplit BtIntern BtSpine BtInsert.

Local Open Scope Z_scope.

Module BtInsertOk.

(** ** Copy on write *)

Definition source_ok (pub : source) (np : Z) : Prop :=
  match pub with Same => True | Separate s => exists b, s = Some b /\ heap_ok b np end.

(** The pages [pgs] of the working buffer are the published ones. *)
Definition synced (pub : source) (h : list Z) (pgs : list Z) : Prop :=
  match pub with Same => True | Separate s => exists b, s = Some b /\ agree b h pgs end.

Lemma bt_cow_page_eq pub h np pg mask : heap_ok h np -> source_ok pub np -> 0 <= pg < np ->
  exists h' mask', bt_cow_page pub (Some h) (np * 0x4000) pg mask = Some (Some h', mask') /\
    changed np [pg] h h' /\ (synced pub h [pg] -> h' = h).
Proof.
  intros Hh Hsrc Hpg. destruct (id Hh) as [Hl Hb Hs].
  assert (exists b, source_bytes pub (Some h) = Some b /\ heap_ok b np /\ (synced pub h [pg] -> page b pg = page h pg))
    as (b & Hsb & Hbh & Hsy).
  { destruct pub as [s|]; cbn; [|by exists h]. destruct Hsrc as (b & -> & Hbh). exists b. split_and!; try done.
    intros (b' & [= <-] & Hag). by apply Forall_cons_1 in Hag as [-> _]. }
  destruct (id Hbh) as [Hbl Hbb Hbs]. pose proof (at_page_ok _ _ _ _ (page_at _ _ _ Hbh Hpg)) as Hbp.
  unfold bt_cow_page. rewrite Hsb. unwrap. repeat (ifcase; [lia|]; unwrap).
  replace (pg * 0x4000 + 0x4000 <=? len b) with true by lia. replace (pg * 0x4000 + 0x4000 <=? len h) with true by lia.
  cbn [andb]. change (sub b (pg * 0x4000) (pg * 0x4000 + 0x4000)) with (page b pg).
  assert (Hcopy : changed np [pg] h (copy_at h (pg * 0x4000) (page b pg)) /\
    (synced pub h [pg] -> copy_at h (pg * 0x4000) (page b pg) = h)).
  { split; [by apply changed_put|]. intros Hy. rewrite (Hsy Hy). by eapply page_same. }
  destruct (pg >=? 64); cbn [mbind option_bind]; [eauto|].
  destruct (negb _); [|eauto]. eexists _, _. split; [done|]. split; [by apply changed_refl | done].
Qed.

(** ** The descent *)

(** The pages of the whole tree around the subtree are distinct. *)
Lemma nodup_around A B C D (lv : list (Z * list cell)) ips : NoDup (around A B C D ++ pages lv ips) ->
  forall q, q ∈ pages lv ips -> q ∉ around A B C D.
Proof. intros Hnd q Hq Hin. apply NoDup_app in Hnd as (_ & Hd & _). by apply (Hd q). Qed.

Lemma synced_sub pub h l1 l2 : l1 ⊆ l2 -> synced pub h l2 -> synced pub h l1.
Proof.
  intros Hsub. destruct pub as [s|]; [|done]. intros (b & -> & Hag). exists b. split; [done|].
  unfold agree in *. rewrite Forall_forall in *. auto.
Qed.

Definition path_of (anc : list Z) (cur : Z) (ips : list Z) : list Z :=
  match ips with [] => anc | _ => anc ++ [cur] end.

(** What the descent gives: the leaf of the key, with the path in the first
    [v29'] places of the array of ancestors. *)
Definition descended (h : list Z) (np root : Z) (key : list Z) (LV : list (Z * list cell)) (IPS : list Z)
    (r : option (Z * Z * Z * list Z * Z * Z)) : Prop :=
  match r with
  | None => 32 < len IPS
  | Some (leaf, par, mask, v28, v29, t) =>
      t = 1 /\ len v28 = 32 /\ exists anc A B C D lo up cs,
        spine h np root key LV IPS anc A B C D leaf lo up [(leaf, cs)] [] /\ take (Z.to_nat v29) v28 = anc /\ v29 = len anc /\
        last anc = Some par
  end.

Lemma ins_descend_eq fuel pub h np root key LV IPS anc A B C D cur lo up lv ips v24 v23 v28 ty :
  heap_ok h np -> source_ok pub np -> synced pub h (pages LV IPS) -> NoDup (pages LV IPS) ->
  spine h np root key LV IPS anc A B C D cur lo up lv ips -> len ips <= Z.of_nat fuel ->
  ty = rd (page h cur) 20 -> len v28 = 32 -> take (length (path_of anc cur ips)) v28 = path_of anc cur ips ->
  (ips = [] -> last anc = Some v24) ->
  exists r, ins_descend fuel pub (Some h) (np * 0x4000) np (Some key) (len key) cur v24 v23 v28 (len (path_of anc cur ips)) ty
    = Some (Some h, r) /\ descended h np root key LV IPS r.
Proof.
  intros Hh Hsrc Hsy Hnd. revert anc A B C D cur lo up lv ips v24 v23 v28 ty.
  induction fuel as [|fuel IH]; intros anc A B C D cur lo up lv ips v24 v23 v28 ty Hsp Hfuel -> Hl Hpath Hpar;
    pose proof (spine_tree _ _ _ _ _ _ _ _ _ _ Hsp) as Ht; pose proof (tree_page _ _ _ _ _ _ _ Ht) as Hpg;
    pose proof (page_at _ _ _ Hh Hpg) as Hat; destruct (at_facts Hat) as (? & ? & ? & ?).
  all: inversion Ht as [? ? ? cs hi _ Hrep Hs Hall|? ? ? sc hi ? ips' _ Hrep Hv Hk]; subst; cbn [ins_descend];
    rewrite (rep_leaf _ _ _ _ _ Hrep); cbn [Z.eqb Pos.eqb negb].
  1,3: eexists; split; [done|]; split; [done|]; split; [done|]; exists anc, A, B, C, D, lo, up, cs;
    split; [done|]; cbn [path_of] in *; unfold len at 1; rewrite Nat2Z.id; split_and!; [done | done | by apply Hpar].
  - rewrite len_cons in Hfuel. pose proof (len_nonneg ips'). lia.
  - rewrite len_cons in Hfuel. pose proof (len_nonneg ips'). cbn [path_of] in *.
    unwrap. rewrite (bt_internal_child_eq _ _ _ _ _ _ _ Hat Hrep). cbn [mbind option_bind].
    destruct (kids_focus _ _ _ _ _ _ _ _ _ Hk (spine_range _ _ _ _ _ _ _ _ _ _ Hsp)) as (lo' & up' & l1 & lv' & l2 & i1 & ips'' & i2 & F).
    pose proof (fc_tree _ _ _ _ _ _ _ _ _ _ _ _ _ _ _ _ _ F) as Ht'. pose proof (tree_page _ _ _ _ _ _ _ Ht') as Hc.
    assert (Hsp' : spine h np root key LV IPS (anc ++ [cur]) (A ++ l1) (l2 ++ B) (C ++ cur :: i1) (i2 ++ D)
      (child_for (link (page h cur)) sc key) lo' up' lv' ips'') by (by eapply spine_down).
    set (c := child_for _ _ _) in *. pose proof (proj2 (proj1 (tree_pages_rules h np) _ _ _ _ _ Ht')) as Hcin.
    pose proof (fc_lv _ _ _ _ _ _ _ _ _ _ _ _ _ _ _ _ _ F) as Elv. pose proof (fc_ips _ _ _ _ _ _ _ _ _ _ _ _ _ _ _ _ _ F) as Eips.
    destruct (spine_index _ _ _ _ _ _ _ _ _ _ Hsp') as [ELV EIPS].
    assert (Hperm' : around (A ++ l1) (l2 ++ B) (C ++ cur :: i1) (i2 ++ D) ++ pages lv' ips'' ≡ₚ pages LV IPS).
    { rewrite ELV, EIPS. by rewrite around_perm. }
    assert (Hcur : cur <> c).
    { intros E. assert (Hnd' := Hnd). rewrite <- Hperm' in Hnd'. apply (nodup_around _ _ _ _ _ _ Hnd' c Hcin).
      rewrite around_down, <- E, !elem_of_app, elem_of_cons. tauto. }
    assert (Hcp : c ∈ pages LV IPS) by (rewrite <- Hperm', elem_of_app; tauto).
    ifcase; [lia|]. ifcase; [lia|].
    destruct (bt_cow_page_eq pub h np c v23 Hh Hsrc Hc) as (h' & mask' & -> & _ & Hsame).
    rewrite (Hsame ltac:(eapply synced_sub; [|exact Hsy]; intros q Hq; apply list_elem_of_singleton in Hq; by subst)).
    cbn [mbind option_bind]. pose proof (page_at _ _ _ Hh Hc) as Hatc. destruct (at_facts Hatc) as (? & ? & _ & _).
    assert (Hlen : len (anc ++ [cur]) = len anc + 1) by (rewrite len_app, len_single; lia).
    rewrite Eips, !len_app in Hfuel. pose proof (len_nonneg i1). pose proof (len_nonneg i2). pose proof (len_nonneg anc).
    unwrap. rewrite (bt_read8_at Hatc _ 20) by lia. inversion Ht' as [? ? ? cs' hi' _ Hrep'|? ? ? sc' hi' ? ips3 _ Hrep']; subst.
    + rewrite (rep_leaf _ _ _ _ _ Hrep'). cbn [Z.eqb Pos.eqb].
      pose proof (IH _ _ _ _ _ _ _ _ _ _ cur mask' v28 1 Hsp' ltac:(rewrite len_nil; lia) (eq_sym (rep_leaf _ _ _ _ _ Hrep')) Hl Hpath) as HIH.
      cbn [path_of] in HIH. apply HIH. intros _. apply last_snoc.
    + rewrite (rep_leaf _ _ _ _ _ Hrep'). cbn [Z.eqb Pos.eqb]. ifcase.
      { eexists. split; [done|]. cbn. pose proof (spine_len _ _ _ _ _ _ _ _ _ _ Hsp'). rewrite ?len_app, ?len_cons, ?(len_nil (A:=Z)) in *.
        pose proof (len_nonneg (ips3 ++ i2 ++ D)). pose proof (len_nonneg i1). pose proof (len_nonneg i2). lia. }
      rewrite upd_wr by lia. cbn [mbind option_bind]. unwrap.
      pose proof (IH _ _ _ _ _ _ _ _ _ _ cur mask' (wr v28 (len (anc ++ [cur])) c) 2 Hsp' ltac:(lia) (eq_sym (rep_leaf _ _ _ _ _ Hrep'))) as HIH.
      cbn [path_of] in HIH. rewrite (len_app (anc ++ [cur])), len_single in HIH. apply HIH; [by rewrite len_wr | | done].
      unfold wr, len in *. rewrite Nat2Z.id, (length_app (anc ++ [cur])), Nat.add_1_r.
      rewrite (take_S_r _ _ c) by (apply list_lookup_insert_eq; lia).
      by rewrite take_insert_ge, Hpath by lia.
Qed.

(** ** The cells of a split leaf *)

Lemma key_le cs i j a b : StronglySorted ver_le cs -> (i <= j)%nat -> cs !! i = Some a -> cs !! j = Some b -> ble (cKey a) (cKey b).
Proof.
  intros Hs. revert i j. induction Hs as [|c cs Hs IH Hall]; intros i j Hij Ha Hb; [done|].
  destruct i as [|i], j as [|j]; [injection Ha as <-; injection Hb as <-; apply ble_refl | | lia | by apply (IH i j); [lia|..]].
  injection Ha as <-. cbn in Hb. rewrite Forall_forall in Hall. apply list_elem_of_lookup_2 in Hb. apply Hall, ver_le_spec in Hb as [Hb|[-> _]];
    [by apply blt_ble | apply ble_refl].
Qed.

Lemma cut_keys cs k : StronglySorted ver_le cs -> boundary (cs:=cs) k -> 1 < k ->
  Forall (fun c => Forall (fun d => blt (cKey c) (cKey d)) (drop (Z.to_nat k) cs)) (take (Z.to_nat k) cs).
Proof.
  intros Hs (a & b & Ha & Hb & Hne) Hk. rewrite !Forall_lookup. intros i c Hc. apply lookup_take_Some in Hc as [Hc Hi].
  rewrite Forall_lookup. intros j d Hd. rewrite lookup_drop in Hd.
  apply (ble_blt_trans _ (cKey a)); [by apply (key_le cs i (Z.to_nat (k - 1))); [|lia|..]|].
  apply (blt_ble_trans _ (cKey b)); [|by apply (key_le cs (Z.to_nat k) (Z.to_nat k + j)); [|lia|..]].
  destruct (not_blt (cKey b) (cKey a)) as [E|]; [|congruence|done]. apply ble_not_blt, (key_le cs (Z.to_nat (k - 1)) (Z.to_nat k)); [done | lia | done..].
Qed.

Lemma cut_range lo up cs k c R : StronglySorted ver_le cs -> boundary (cs:=cs) k -> 1 < k < len cs -> Forall (entry_ok lo up) cs ->
  cs !! Z.to_nat k = Some c ->
  Forall (entry_ok lo (Some (cKey c))) (take (Z.to_nat k) cs) /\ Forall (entry_ok (Some (cKey c)) up) (drop (Z.to_nat k) cs) /\
  sep_ok lo up (sep (cKey c) R).
Proof.
  intros Hs (a & b & Ha & Hb & Hne) Hk He Hc. rewrite Hc in Hb. injection Hb as <-.
  assert (He' : forall i d, cs !! i = Some d -> entry_ok lo up d) by (intros i d Hd; rewrite Forall_lookup in He; eauto).
  assert (Hac : blt (cKey a) (cKey c)).
  { destruct (not_blt (cKey c) (cKey a)) as [E|]; [|congruence|done]. apply ble_not_blt, (key_le cs (Z.to_nat (k - 1)) (Z.to_nat k)); [done | lia | done..]. }
  split_and!.
  - rewrite Forall_lookup. intros i d Hd. apply lookup_take_Some in Hd as [Hd Hi]. destruct (He' _ _ Hd) as [[Hl Hu] Hne'].
    split; [|done]. split; [done|]. eapply ble_blt_trans; [|exact Hac]. by apply (key_le cs i (Z.to_nat (k - 1))); [|lia|..].
  - rewrite Forall_lookup. intros i d Hd. rewrite lookup_drop in Hd. destruct (He' _ _ Hd) as [[Hl Hu] Hne'].
    split; [|done]. split; [|done]. by apply (key_le cs (Z.to_nat k) (Z.to_nat k + i)); [|lia|..].
  - split; [apply (He' _ _ Hc)|]. destruct (He' _ _ Ha) as [[Hl _] _]. destruct lo as [l|]; [|done]. by eapply ble_blt_trans.
Qed.

Lemma sorted_app_inv (l1 l2 : list cell) : StronglySorted ver_le (l1 ++ l2) -> StronglySorted ver_le l1 /\ StronglySorted ver_le l2.
Proof.
  induction l1 as [|c l1 IH]; cbn; [split; [constructor | done]|]. intros H. inversion H as [|? ? Hs Hall]; subst.
  destruct (IH Hs). split; [|done]. constructor; [done|]. by apply Forall_app in Hall as [? _].
Qed.

(** An insertion not below the first key keeps the first key. *)
Lemma insert_first cs c d : cs !! 0%nat = Some d -> ble (cKey d) (cKey c) ->
  exists d', insert_at (ver_pos cs (cKey c) (cId c)) c cs !! 0%nat = Some d' /\ cKey d' = cKey d.
Proof.
  destruct cs as [|d' cs]; [done|]. intros [= ->] Hle. cbn [ver_pos]. destruct (ver_after d (cKey c) (cId c)) eqn:E; [|by exists d].
  exists c. split; [done|]. unfold ver_after in E. unfold ble in Hle. rewrite <- Compare_eq. rewrite Compare_antisym. 
  destruct (Compare_range (cKey d) (cKey c)) as [Hx|[Hx|Hx]]; rewrite Hx in *; cbn in *; lia || done.
Qed.

(** ** The new version in a leaf *)

Section New.
Context {np : Z} {key id val : list Z}.
Context (Hkey : bytes_ok key) (Hidb : bytes_ok id) (Hval : bytes_ok val) (Hid : len id = 16) (Hk : 0 < len key <= 0xffff)
  (Hv : len val <= 0xffff).
Definition new_cell : cell := {| cKey := key; cId := id; cVal := val |}.

(** [h'] is [h] with the new version in the leaf [pg], whose cells were [cs]. *)
Definition added (h : list Z) (pg : Z) (cs : list cell) (h' : list Z) : Prop :=
  changed np [pg] h h' /\ link (page h' pg) = link (page h pg) /\
  exists hi', rep 16 (page h' pg) (insert_at (ver_pos cs key id) new_cell cs) hi'.

Lemma insert_in h pg cs hi : heap_ok h np -> 0 <= pg < np -> rep 16 (page h pg) cs hi ->
  exists h' st, bt_insert_ver_at (Some h) (np * 0x4000) (pg * 0x4000) (Some key) (len key) (Some id) (Some val) (len val)
      = Some (Some h', st) /\ (Ok st = 0 /\ h' = h /\ hi < slot_addr (len cs + 1) + clen new_cell \/
       Ok st = 1 /\ added h pg cs h').
Proof.
  intros Hh Hpg Hrep. pose proof (page_at _ _ _ Hh Hpg) as Hat.
  pose proof (bt_insert_ver_at_eq _ _ _ _ cs hi key id val Hat Hrep Hkey Hidb Hval Hid Hk Hv) as H. cbv zeta in H.
  destruct (_ <=? hi) eqn:E.
  - destruct H as (p' & -> & Hrep' & Hsame). eexists _, _. split; [done|]. right. split; [done|].
    pose proof (rep_page _ _ _ _ _ Hrep') as Hp'. pose proof (rep_page _ _ _ _ _ Hrep) as Hp.
    split; [by apply changed_put|]. rewrite (page_put_eq _ np) by done. split; [by apply same_head_link | by eexists].
  - rewrite H. eexists _, _. split; [done|]. left. split_and!; [done | done | unfold new_cell; lia].
Qed.

Lemma ins_found_eq h pg cs hi : heap_ok h np -> 0 <= pg < np -> rep 16 (page h pg) cs hi ->
  exists h' done, ins_found (Some h) (np * 0x4000) (pg * 0x4000) (Some key) (len key) (Some id) (Some val) (len val) 0
      = Some (Some h', done) /\ (done = false /\ h' = h \/ done = true /\ added h pg cs h').
Proof.
  intros Hh Hpg Hrep. pose proof (page_at _ _ _ Hh Hpg) as Hat. unfold ins_found.
  destruct (bt_get_at_eq _ _ _ _ _ _ _ _ Hat Hrep Hk) as [l ->]. cbn [mbind option_bind Found].
  destruct (_ <? _)%nat; cbn [Z.eqb negb mbind option_bind]; [|by exists h, false; auto].
  destruct (insert_in h pg cs hi Hh Hpg Hrep) as (h' & st & -> & Hor); cbn [mbind option_bind]; destruct Hor as [(-> & -> & _)|[-> Ha]]; cbn [Z.eqb negb]; eexists _, _; split; eauto.
Qed.

(** After the split of the leaf [L] with [R], one of them gets the version. *)
Lemma ins_side_eq h L R csa csb hia hib d : heap_ok h np -> 0 <= L < np -> 0 <= R < np ->
  rep 16 (page h L) csa hia -> rep 16 (page h R) csb hib -> csb !! 0%nat = Some d ->
  exists h' done, ins_side (Some h) (np * 0x4000) L R (Some key) (len key) (Some id) (Some val) (len val) = Some (Some h', done) /\
    (done = true -> (blt key (cKey d) /\ added h L csa h') \/ (ble (cKey d) key /\ added h R csb h')).
Proof.
  intros Hh HL HR Hra Hrb Hd. pose proof (page_at _ _ _ Hh HL) as HatL. pose proof (page_at _ _ _ Hh HR) as Hat.
  destruct (at_facts HatL) as (? & ? & ? & ?). destruct (at_facts Hat) as (? & ? & ? & ?).
  unfold ins_side. destruct (open_at Hat Hrb 0 d ltac:(lia) Hd) as (o & _ & _ & Ho & _ & ? & ? & Hoff & Hkl & _ & Hks & _ & _ & _ & ? & _ & ? & _).
  unfold slot_addr in Ho. unwrap. rewrite w64_small in Ho by lia. replace (R * 0x4000 + 64) with (R * 0x4000 + (64 + 0 * 2)) by lia. rewrite Ho.
  rewrite Hoff by lia. unwrap. rewrite Hkl. rewrite bt_keycmp_at_eq by (rewrite ?Hks; lia). rewrite Hks. cbn [mbind option_bind].
  rewrite Z.gtb_ltb. destruct (Z.ltb_spec 0 (Compare (cKey d) key)).
  - destruct (insert_in h L csa hia Hh HL Hra) as (h' & st & -> & Hor); cbn [mbind option_bind]; destruct Hor as [(-> & -> & _)|[-> Ha]]; cbn [Z.eqb negb]; eexists _, _; split; try done.
    intros _. left. split; [|done]. unfold blt. rewrite Compare_antisym. lia.
  - destruct (insert_in h R csb hib Hh HR Hrb) as (h' & st & -> & Hor); cbn [mbind option_bind]; destruct Hor as [(-> & -> & _)|[-> Ha]]; cbn [Z.eqb negb]; eexists _, _; split; try done.
    intros _. right. split; [|done]. unfold ble. lia.
Qed.

End New.

End BtInsertOk.
