(* ===== verification/BtCut.v ===== *)
(** * The split of an internal page (src/pkg/c2db/db_btree_gen.go)

    [bt_split_internal] and the same steps of [bt_elevate_root]: the separators
    after the middle one go to a new page whose first child is the middle one's,
    and the page keeps the separators before it. *)

From stdpp Require Import sorting.
From S2P Require Import Prelude Bytes PageKernel BtMem BtLeaf BtVersion BtHeap BtTree BtSplit BtIntern BtInsert BtSpine.
Import Bytes PageKernel BtMem BtLeaf BtVersion BtHeap BtTree BtSplit BtIntern BtInsert BtSpine.

Local Open Scope Z_scope.

Module BtCut.

(** ** Moving separators *)

Lemma move_seps_eq h n bs bd p d0 sc hi lo :
  at_page h n bs p -> node 2 8 p sc hi -> Forall (fun s => cVal s = []) sc ->
  at_page h n bd d0 -> node 2 8 d0 [] 0x4000 -> disjoint_at bs bd -> 0 <= lo <= len sc ->
  exists r, move_seps (Some h) n bs bd lo (len sc) = Some r /\
    match r with
    | inl st => exists d hid, st = Some (copy_at h bd d) /\ node 2 8 d (sub sc lo (len sc)) hid /\ link d = link d0
    | inr st => is_nil st = false
    end.
Proof.
  intros Hat Hrep Hv Hatd Hd0 Hdis Hk. destruct (at_facts Hat) as (? & ? & ? & ?). destruct (at_facts Hatd) as (? & ? & _ & _).
  pose proof (rep_page _ _ _ _ _ Hrep) as Hp. pose proof (rep_page _ _ _ _ _ Hd0) as Hd0p.
  pose proof (rep_count Hrep). pose proof (len_nonneg sc). pose proof (rep_room _ _ _ _ _ Hrep) as Hroom. unfold slot_addr in Hroom.
  unfold move_seps.
  match goal with |- context [for_range lo (len sc) ?body _] =>
    destruct (for_range_inv (S:=slice) (R:=slice)
      (fun i st => exists d hid, st = Some (copy_at h bd d) /\ node 2 8 d (sub sc lo i) hid /\ link d = link d0)
      (fun r => match r with
        | inl st => exists d hid, st = Some (copy_at h bd d) /\ node 2 8 d (sub sc lo (len sc)) hid /\ link d = link d0
        | inr st => is_nil st = false end)
      lo (len sc) body (Some h)) as (r & Hr & HQ); [lia | | | | ] end.
  - exists d0, 0x4000. rewrite sub_nil. by rewrite (at_id Hatd).
  - intros i st Hi (d & hid & -> & Hd & Hl). cbv zeta. pose proof (rep_page _ _ _ _ _ Hd) as Hdp.
    pose proof (at_frame _ _ _ _ _ _ Hat Hdis ltac:(lia) Hdp) as Hat'. pose proof (at_put _ _ _ _ _ Hatd Hdp) as Hatd'.
    destruct (rep_lookup (cs:=sc) i ltac:(lia)) as [c Hc].
    assert (Hcv : cVal c = []) by (rewrite Forall_lookup in Hv; eauto).
    destruct (open_at Hat' Hrep i c ltac:(lia) Hc) as (off & Ha & Hok1 & Hr & _ & ? & ? & Hok & Hkl & _ & _ & _ & _ & ? & ? & _ & ? & Hcell).
    rewrite Ha, Hok1. rewrite Hr.
    assert (Hclen : clen c = 12 + len (cKey c)) by (unfold clen; rewrite Hcv, (len_nil (A:=Z)); lia).
    rewrite Hok by lia. unwrap. rewrite Hkl. unwrap. replace (4 + len (cKey c) + 8) with (clen c) by lia.
    rewrite Hok by lia.
    rewrite (bt_read16_at Hatd' (bd + 22) 22), (bt_read16_at Hatd' (bd + 24) 24), (bt_read16_at Hatd' (bd + 26) 26) by lia.
    rewrite (rep_nslots _ _ _ _ _ Hd), (rep_lo _ _ _ _ _ Hd), (rep_hi _ _ _ _ _ Hd).
    assert (Hlen : len (sub sc lo i) = i - lo) by (rewrite len_sub by lia; lia). rewrite Hlen.
    pose proof (rep_room _ _ _ _ _ Hd) as Hroomd. rewrite Hlen in Hroomd. unfold slot_addr in Hroomd |- *.
    repeat (ifcase; [done|]; unwrap). pose proof (cell_at_bytes _ _ _ Hp Hcell) as Hcb.
    rewrite bt_copy_bytes_same_eq by (rewrite ?len_copy_at; unfold disjoint_at in Hdis; lia). cbn [mbind option_bind].
    rewrite !Z.add_0_l.
    rewrite (at_sub Hat' _ _ off (off + clen c)) by lia. rewrite (proj2 Hcell : sub p off (off + clen c) = cell_bytes c).
    rewrite (at_copy Hatd' _ (hid - clen c)) by (rewrite ?len_cell_bytes; lia).
    rewrite (at_put_put Hatd) by (rewrite ?len_copy_at; apply Hdp).
    pose proof (at_put _ _ _ _ _ Hatd (page_ok_copy_at d (hid - clen c) _ Hdp Hcb)) as Hatd1. unwrap.
    pose proof (append_at _ n bd d c (i - lo) (hid - clen c) Hatd1 ltac:(lia) ltac:(unfold slot_addr; lia)) as Happ.
    unfold slot_addr in Happ.
    replace (64 + (i - lo) * 2 + 2) with (64 + (i - lo + 1) * 2) by lia. rewrite Happ.
    destruct (append_rep 2 8 d _ hid c Hd Hcb) as [Hd' Hsame]; [lia | rewrite Hlen; unfold slot_addr; lia|].
    rewrite Hlen in Hd', Hsame. pose proof (rep_page _ _ _ _ _ Hd') as Hdp'.
    rewrite (at_put_put Hatd) by (rewrite ?len_copy_at; apply Hdp || apply Hdp').
    exists (append_page d (i - lo) (hid - clen c) c), (hid - clen c). split; [done|]. split.
    + by rewrite (sub_snoc _ _ _ c) by (done || lia).
    + rewrite <- Hl. by apply same_head_link.
  - intros st (d & hid & -> & Hd). eauto.
  - rewrite Hr. eauto.
Qed.

Lemma keep_seps_eq h n src p sc hi m : at_page h n (src * 0x4000) p -> node 2 8 p sc hi -> 0 <= m <= len sc ->
  exists h' ok, keep_seps (Some h) n src (src * 0x4000) m = Some (Some h', ok) /\
    (ok = 0 \/ ok = 1 /\ exists q hiq, h' = copy_at h (src * 0x4000) q /\ node 2 8 q (take (Z.to_nat m) sc) hiq /\ link q = link p).
Proof.
  intros Hat Hrep Hm. destruct (at_facts Hat) as (? & ? & ? & ?). pose proof (rep_page _ _ _ _ _ Hrep) as Hp.
  pose proof (rep_count Hrep). pose proof (rep_room _ _ _ _ _ Hrep) as Hroom. unfold slot_addr in Hroom.
  assert (Hlen : len (take (Z.to_nat m) sc) = m) by (unfold len in *; rewrite length_take; lia).
  unfold keep_seps. unwrap. rewrite (bt_write16_at Hat _ 22) by lia.
  set (p1 := copy_at p 22 (le_put 2 m)). assert (Hp1 : page_ok p1) by (by apply page_ok_put).
  pose proof (at_put _ _ _ _ _ Hat Hp1) as Hat1. rewrite (tail_of_at Hat1). cbn [mbind option_bind].
  assert (Hcells : cells_ok 8 p1 (take (Z.to_nat m) sc) hi).
  { intros i c Hi Hc. apply lookup_take_Some in Hc as [Hc _]. destruct (rep_cells _ _ _ _ _ Hrep i c Hi Hc) as (Ho & Hcell & Hid).
    apply lookup_lt_Some in Hc. unfold slot_addr, len, p1 in *. rewrite fld_out by (rewrite ?len_le_put; done || lia).
    split_and!; [done | | done]. apply cell_at_out; [done | lia | lia | rewrite len_le_put; lia | done]. }
  destruct (bt_leaf_repack_eq (win _ (src * 0x4000)) p1 (take (Z.to_nat m) sc) hi 2 8 (win_at Hat1)) as (q & ok & -> & Hq & Hok).
  - unfold p1. rewrite rd_copy_at_out by (rewrite ?len_le_put; lia). apply Hrep.
  - rewrite Hlen. unfold p1. apply fld_put; [done | lia..].
  - done.
  - lia.
  - rewrite Hlen. unfold slot_addr. lia.
  - lia.
  - cbn [mbind option_bind]. rewrite (put_tail_at Hat1) by apply Hq. eexists _, _. split; [done|].
    destruct Hok as [[-> _]|(-> & Hlq & hiq & Hrq)]; [by left|]. right. split; [done|]. exists q, hiq. split_and!; [|done|].
    + apply (at_put_put Hat); [apply Hp1 | apply Hq].
    + rewrite Hlq. apply same_head_link; [done | done|]. intros a Ha. apply rd_copy_at_out; rewrite ?len_le_put; lia.
Qed.

(** ** The cut *)

Section Cut.
Context {h : list Z} {np P Q : Z} {sc : list cell} {hi m : Z} {mid : cell}.
Hypothesis Hh : heap_ok h np.
Hypothesis HP : 0 <= P < np.
Hypothesis HQ : 0 <= Q < np.
Hypothesis Hne : P <> Q.
Hypothesis Hrep : node 2 8 (page h P) sc hi.
Hypothesis Hv : Forall (fun s => cVal s = []) sc.
Hypothesis Hm : 0 <= m.
Hypothesis Hmid : sc !! Z.to_nat m = Some mid.

Abbreviation n := (np * 0x4000).

Lemma mid_lt : m < len sc.
Proof. apply lookup_lt_Some in Hmid. unfold len. lia. Qed.

Lemma child_id_bound : 0 <= child_id mid < 2 ^ 64.
Proof.
  pose proof (page_at _ _ _ Hh HP) as Hat. destruct (open_at Hat Hrep m mid Hm Hmid) as (off & _ & _ & _ & _ & _ & _ & _ & _ & _ & _ & Hid & _).
  unfold child_id. rewrite <- Hid. apply (le_get_sub_bound 8). apply Hh.
Qed.

(** [h'] has the separators before the middle in [P] and those after it in [Q]. *)
Record cut (h' : list Z) : Prop := {
  cut_P : exists hi, node 2 8 (page h' P) (take (Z.to_nat m) sc) hi;
  cut_linkP : link (page h' P) = link (page h P);
  cut_Q : exists hi, node 2 8 (page h' Q) (drop (S (Z.to_nat m)) sc) hi;
  cut_linkQ : link (page h' Q) = child_id mid;
}.

(** The page [Q] gets the separators after the middle. *)
Lemma move_upper : exists r,
  move_seps (init_internal (Some h) n (Q * 0x4000) (child_id mid)) n (P * 0x4000) (Q * 0x4000) (m + 1) (len sc) = Some r /\
  match r with
  | inl st => exists d hid, st = Some (copy_at h (Q * 0x4000) d) /\ node 2 8 d (drop (S (Z.to_nat m)) sc) hid /\ link d = child_id mid
  | inr st => is_nil st = false
  end.
Proof.
  pose proof (page_at _ _ _ Hh HP) as Hat. pose proof (page_at _ _ _ Hh HQ) as HatQ. pose proof mid_lt.
  pose proof (pages_disjoint _ _ Hne) as Hdis. destruct (at_facts Hat) as (? & ? & ? & ?). destruct (at_facts HatQ) as (? & ? & _ & _).
  destruct (init_internal_eq _ _ _ _ (child_id mid) HatQ) as (q & -> & Hq & Hlq).
  { apply child_id_bound. }
  pose proof (rep_page _ _ _ _ _ Hq) as Hqp. pose proof (at_put _ _ _ _ _ HatQ Hqp) as HatQ1.
  pose proof (at_frame _ _ _ _ _ _ Hat Hdis ltac:(lia) Hqp) as Hat1.
  destruct (move_seps_eq _ _ _ _ _ _ _ _ (m + 1) Hat1 Hrep Hv HatQ1 Hq Hdis ltac:(lia)) as (r & -> & Hr).
  exists r. split; [done|]. destruct r as [st|st]; [|done]. destruct Hr as (d & hid & -> & Hd & Hld).
  exists d, hid. rewrite (at_put_put HatQ) by (apply Hqp || apply (rep_page _ _ _ _ _ Hd)). split; [done|]. split; [|congruence].
  replace (drop (S (Z.to_nat m)) sc) with (sub sc (m + 1) (len sc)); [done|].
  unfold sub. replace (Z.to_nat (m + 1)) with (S (Z.to_nat m)) by lia. apply take_ge. rewrite length_drop. unfold len. lia.
Qed.
(** [P] keeps the others, whatever else has changed but [P]. *)
Lemma keep_lower h1 l hid : changed np l h h1 -> P ∉ l -> Q ∈ l ->
  node 2 8 (page h1 Q) (drop (S (Z.to_nat m)) sc) hid -> link (page h1 Q) = child_id mid ->
  exists h' ok, keep_seps (Some h1) n P (P * 0x4000) m = Some (Some h', ok) /\ (ok = 0 \/ ok = 1 /\ changed np (P :: l) h h' /\
    changed np [P] h1 h' /\ cut h').
Proof.
  intros Hcg Hni Hin Hd Hld. pose proof mid_lt. destruct (id Hcg) as [Hh1 Hpg]. pose proof (page_at _ _ _ Hh1 HP) as Hat.
  pose proof Hrep as Hrep1. rewrite <- (Hpg P HP Hni) in Hrep1.
  destruct (keep_seps_eq _ _ _ _ _ _ m Hat Hrep1 ltac:(lia)) as (h' & ok & -> & Hok). exists h', ok. split; [done|].
  destruct Hok as [->|(-> & q & hiq & -> & Hq & Hlq)]; [by left|]. right. pose proof (rep_page _ _ _ _ _ Hq) as Hqp.
  pose proof (changed_put np h1 P q Hh1 HP Hqp) as Hcg2. pose proof (page_put_eq h1 np P q Hh1 HP Hqp) as EP.
  pose proof (page_put_ne h1 np P Q q Hh1 HP HQ Hqp ltac:(congruence)) as EQ. split; [done|]. split.
  - eapply changed_mono; [|exact (changed_trans _ _ _ _ _ _ Hcg Hcg2)]. intros x. rewrite elem_of_app, !elem_of_cons, elem_of_nil. tauto.
  - split; [done|]. split; rewrite ?EP, ?EQ; eauto. by rewrite Hlq, (Hpg P HP Hni).
Qed.
End Cut.

Arguments cut : clear implicits.

Lemma bt_split_internal_eq h np P Q sc hi kb : heap_ok h np -> 0 <= P < np -> 0 <= Q < np -> P <> Q ->
  node 2 8 (page h P) sc hi -> Forall (fun s => cVal s = []) sc -> len kb = 0x4000 ->
  exists h' kb' r, bt_split_internal (Some h) (np * 0x4000) np P Q (Some kb) = Some (Some h', Some kb', r) /\ len kb' = 0x4000 /\
    (r = 0 \/ exists m mid, 0 <= m /\ sc !! Z.to_nat m = Some mid /\ changed np [P; Q] h h' /\ cut h P Q sc m mid h' /\
      r = len (cKey mid) /\ 0 < r <= 0x4000 /\ bytes_ok (cKey mid) /\ sub kb' 0 r = cKey mid).
Proof.
  intros Hh HP HQ Hne Hrep Hv Hkb. pose proof (page_at _ _ _ Hh HP) as Hat. pose proof (page_at _ _ _ Hh HQ) as HatQ.
  destruct (at_facts Hat) as (? & ? & ? & ?). destruct (at_facts HatQ) as (? & ? & _ & _). pose proof (rep_count Hrep). pose proof (len_nonneg sc).
  assert (Hret : forall h2 kb2 : list Z, len kb2 = 0x4000 -> exists h' kb' r, Some (Some h2, Some kb2, 0) = Some (Some h', Some kb', r) /\ len kb' = 0x4000 /\
    (r = 0 \/ exists m mid, 0 <= m /\ sc !! Z.to_nat m = Some mid /\ changed np [P; Q] h h' /\ cut h P Q sc m mid h' /\
      r = len (cKey mid) /\ 0 < r <= 0x4000 /\ bytes_ok (cKey mid) /\ sub kb' 0 r = cKey mid)) by (intros; eauto 8).
  unfold bt_split_internal. do 2 (ifcase; [lia|]). cbn [is_nil]. ifcase; [lia|]. unwrap.
  rewrite (at_type Hat Hrep) by done. cbn [Z.eqb Pos.eqb negb]. rewrite (at_count Hat Hrep) by done.
  pose proof (Z.div_mod (len sc) 2 ltac:(lia)). pose proof (Z.mod_pos_bound (len sc) 2 ltac:(lia)).
  set (m := len sc / 2) in *. ifcase; [by apply Hret|]. unwrap. ifcase; [by apply Hret|].
  destruct (rep_lookup (cs:=sc) m ltac:(lia)) as [mid Hmid].
  destruct (open_at Hat Hrep m mid ltac:(lia) Hmid) as (off & Ha & Hok1 & Hr & _ & ? & ? & Hok & Hkl & _ & Hkey & Hid & _ & ? & ? & _ & ? & Hcell).
  change (64 + m * 2) with (slot_addr m). rewrite Hok1. rewrite w64_small in Hr by (unfold slot_addr; lia). rewrite Hr. unwrap. rewrite Hok by lia. unwrap. rewrite Hkl. ifcase; [by apply Hret|]. do 2 (ifcase; [by apply Hret|]).
  unwrap. rewrite Hok by lia. rewrite bt_copy_out_eq by lia. rewrite Hkey. cbn [mbind option_bind].
  rewrite (bt_read64_sub h (np * 0x4000) (P * 0x4000 + off + 4 + len (cKey mid)) (cId mid) ltac:(apply Hh) ltac:(lia) ltac:(lia) ltac:(lia) Hid). change (le_get 8 (cId mid)) with (child_id mid).
  set (kb' := copy_at kb 0 (cKey mid)). assert (Hkb' : len kb' = 0x4000) by (unfold kb'; by rewrite len_copy_at).
  destruct (move_upper (m:=m) Hh HP HQ Hne Hrep Hv ltac:(lia) Hmid) as (r & Hmv & Hcase). revert Hmv. unwrap. intros ->. cbn [mbind option_bind].
  destruct r as [st|[st|]]; [|by apply Hret|done]. destruct Hcase as (d & hid & -> & Hd & Hld).
  pose proof (rep_page _ _ _ _ _ Hd) as Hdp. pose proof (changed_put np h Q d Hh HQ Hdp) as Hcg.
  pose proof (page_put_eq h np Q d Hh HQ Hdp) as EQ. rewrite <- EQ in Hd, Hld.
  destruct (keep_lower (m:=m) HP HQ Hne Hrep ltac:(lia) Hmid _ [Q] hid Hcg) as (h' & ok & -> & Hok'); [| | done | done |].
  1,2: rewrite list_elem_of_singleton; done.
  cbn [mbind option_bind]. destruct Hok' as [->|(-> & Hcg' & _ & Hcut)]; cbn [Z.eqb]; [by apply Hret|].
  exists h', kb', (len (cKey mid)). split; [done|]. split; [done|]. right. exists m, mid. split_and!; try done; try lia.
  - rewrite <- Hkey. apply bytes_ok_sub, Hh.
  - unfold kb'. rewrite <- (Z.add_0_l (len (cKey mid))). apply sub_copy_at_eq; lia.
Qed.

(** The new root over the two pages of a cut. *)
Lemma raise_root_eq h1 h np P Q NR sc hi m mid : heap_ok h np -> 0 <= P < np -> 0 <= Q < np -> 0 <= NR < np -> P <> NR ->
  node 2 8 (page h P) sc hi -> 0 <= m -> sc !! Z.to_nat m = Some mid -> h1 = Some h ->
  exists h' ok, raise_root h1 (np * 0x4000) (P * 0x4000) (slot_addr m) (len (cKey mid)) P Q NR = Some (Some h', ok) /\
    (ok = 0 \/ ok = 1 /\ changed np [NR] h h' /\ link (page h' NR) = P /\
      exists hi', node 2 8 (page h' NR) [sep (cKey mid) Q] hi').
Proof.
  intros Hh HP HQ HN Hne Hrep Hm Hmid ->. pose proof (page_at _ _ _ Hh HP) as Hat. pose proof (page_at _ _ _ Hh HN) as HatN.
  destruct (at_facts Hat) as (? & ? & ? & ?). destruct (at_facts HatN) as (? & ? & _ & _). pose proof (rep_count Hrep).
  pose proof (lookup_lt_Some _ _ _ Hmid) as Hml. pose proof (pages_disjoint _ _ Hne) as Hdis.
  unfold raise_root. unwrap. destruct (init_internal_eq _ _ _ _ P HatN) as (q & -> & Hq & Hlq); [lia|].
  pose proof (rep_page _ _ _ _ _ Hq) as Hqp. pose proof (at_put _ _ _ _ _ HatN Hqp) as HatN1.
  pose proof (at_frame _ _ _ _ _ _ Hat Hdis ltac:(lia) Hqp) as Hat1.
  destruct (open_at Hat1 Hrep m mid Hm Hmid) as (off & _ & _ & Hr & _ & ? & ? & _ & _ & _ & Hkey & _ & _ & ? & ? & _ & ? & Hcell).
  rewrite w64_small in Hr by (unfold slot_addr, len in *; lia).
  assert (Hcl : w64 (4 + len (cKey mid) + 8) = 12 + len (cKey mid)) by (rewrite w64_small; lia). rewrite Hcl. unwrap.
  ifcase; [eexists _, _; split; [done|by left]|]. 
  rewrite (w64_small (P * 0x4000 + slot_addr m)) by (unfold slot_addr, len in *; lia). rewrite Hr. unwrap.
  assert (Hb : bytes_ok (cKey mid)) by (rewrite <- Hkey; apply bytes_ok_sub, Hat1). assert (Hdis' := Hdis). unfold disjoint_at in Hdis'.
  destruct (first_sep_eq _ _ _ q (cKey mid) Q (fun heap v => bt_copy_bytes_same heap 0 (np * 0x4000) v 0 (np * 0x4000) (P * 0x4000 + off + 4) (len (cKey mid))) HatN1 Hq Hb)
    as (q' & Hst & Hq' & Hlq'); [lia | lia | |].
  - rewrite bt_copy_bytes_same_eq by (rewrite ?len_copy_at; lia). do 3 f_equal. rewrite !Z.add_0_l.
    by rewrite !(sub_copy_at_ne _ _ (le_put _ _)) by (rewrite ?len_copy_at, ?len_le_put; lia).
  - cbv beta in Hst. rewrite Hst. pose proof (rep_page _ _ _ _ _ Hq') as Hqp'. rewrite (at_put_put HatN) by (apply Hqp || apply Hqp').
    eexists _, _. split; [done|]. right. split; [done|]. split; [by apply changed_put|]. rewrite (page_put_eq _ np) by done.
    split; [congruence | by eexists].
Qed.

(** ** A separator for one of the two pages *)

(** The page [pg] gets the separator [s] at [k], or nothing changes. *)
Definition into (np : Z) (h : list Z) (pg : Z) (k : nat) (s : cell) (sc : list cell) (r : option (slice * Z)) : Prop :=
  exists h' ok, r = Some (Some h', ok) /\ (ok = 0 /\ h' = h \/ ok = 1 /\ changed np [pg] h h' /\
    link (page h' pg) = link (page h pg) /\ exists hi, node 2 8 (page h' pg) (insert_at k s sc) hi).

Lemma inserted_into h np pg sc k key b r : heap_ok h np -> 0 <= pg < np ->
  (exists h' ok, r = Some (Some h', ok) /\ sep_inserted (h:=h) (pg:=pg) (p:=page h pg) (sc:=sc) k key b h' ok) ->
  into np h pg k (sep key b) sc r.
Proof.
  intros Hh Hpg (h' & ok & -> & [[-> ->]|(-> & p' & hi' & -> & Hp' & Hl)]); eexists _, _; (split; [done|]); [by left|].
  right. pose proof (rep_page _ _ _ _ _ Hp') as Hpp. split; [done|]. rewrite (page_put_eq _ np) by done.
  split; [by apply changed_put|]. eauto.
Qed.

Lemma children_cut c sc m mid : sc !! m = Some mid ->
  children c sc = children c (take m sc) ++ children (child_id mid) (drop (S m) sc).
Proof.
  intros Hm. unfold children. rewrite <- (take_drop_middle sc m mid Hm) at 1. by rewrite map_app.
Qed.

Lemma find_child_lookup l ch i : find_child l ch = Some i -> l !! i = Some ch.
Proof.
  revert i. induction l as [|x l IH]; intros i; cbn; [done|]. destruct (Z.eqb_spec x ch) as [->|_]; [by intros [= <-]|].
  destruct (find_child l ch) as [j|]; [|done]. intros [= <-]. by apply IH.
Qed.

Lemma side_insert h np P Q sc m mid h1 left k s (ins : Z -> option (slice * Z)) :
  heap_ok h1 np -> 0 <= P < np -> 0 <= Q < np -> P <> Q -> cut h P Q sc m mid h1 -> 0 <= m -> sc !! Z.to_nat m = Some mid ->
  NoDup (children (link (page h P)) sc) -> find_child (children (link (page h P)) sc) left = Some k -> 0 <= left < np ->
  (forall pg sc' hi' k', pg = P \/ pg = Q -> node 2 8 (page h1 pg) sc' hi' ->
    find_child (children (link (page h1 pg)) sc') left = Some k' -> into np h1 pg k' s sc' (ins pg)) ->
  exists v23 h2 ok, side_of (Some h1) (np * 0x4000) np P Q left = Some v23 /\ ins v23 = Some (Some h2, ok) /\
    (ok = 0 \/ ok = 1 /\ changed np [P; Q] h1 h2 /\ exists sa sb hip hiq, insert_at k s sc = sa ++ mid :: sb /\
      node 2 8 (page h2 P) sa hip /\ node 2 8 (page h2 Q) sb hiq /\
      link (page h2 P) = link (page h P) /\ link (page h2 Q) = child_id mid).
Proof.
  intros Hh1 HP HQ Hne [[hip HnP] HlP [hiq HnQ] HlQ] Hm Hmid Hnd Hk Hleft Hins.
  pose proof (find_child_lt _ _ _ Hk) as Hklt. set (c := link (page h P)) in *. set (mn := Z.to_nat m) in *.
  pose proof (lookup_lt_Some _ _ _ Hmid) as Hml. unfold children in Hklt. cbn [length] in Hklt. rewrite length_map in Hklt.
  assert (Hkl : children c sc !! k = Some left) by (by apply find_child_lookup).
  rewrite (children_cut _ _ _ _ Hmid) in Hnd, Hkl. pose proof (proj1 (NoDup_app _ _) Hnd) as (Hnd1 & Hdis & Hnd2).
  assert (Hlen1 : length (children c (take mn sc)) = S mn) by (unfold children; cbn; rewrite length_map, length_take; lia).
  unfold side_of. rewrite (bt_internal_has_child_eq Hh1 HQ eq_refl HnQ) by done. rewrite HlQ.
  destruct (Nat.leb_spec k mn) as [Hkm|Hkm].
  - rewrite lookup_app_l in Hkl by lia. pose proof (list_elem_of_lookup_2 _ _ _ Hkl) as Hin.
    rewrite bool_decide_eq_false_2 by (by apply Hdis). cbn [Z.eqb negb].
    rewrite (bt_internal_has_child_eq Hh1 HP eq_refl HnP) by done. rewrite HlP. fold c. rewrite bool_decide_eq_true_2 by done. cbn [Z.eqb].
    destruct (Hins P _ _ k ltac:(by left) HnP) as (h2 & ok & Hr & Hor); [rewrite HlP; fold c; by apply find_child_Some|].
    exists P, h2, ok. split; [done|]. split; [done|]. destruct Hor as [[-> ->]|(-> & Hcg & Hl2 & hi2 & Hn2)]; [by left|]. right.
    assert (EQ : page h2 Q = page h1 Q) by (apply Hcg; [done | by rewrite list_elem_of_singleton]).
    split; [done|]. split; [eapply changed_mono; [|exact Hcg]; intros x; rewrite !elem_of_cons; tauto|].
    eexists _, _, _, _. split; [|split; [exact Hn2|]; rewrite EQ; split_and!; [exact HnQ | congruence | done]].
    rewrite (insert_cut sc s mid k mn) by (done || lia). by destruct (Nat.leb_spec k mn); [|lia].
  - rewrite lookup_app_r in Hkl by lia. rewrite Hlen1 in Hkl. pose proof (list_elem_of_lookup_2 _ _ _ Hkl) as Hin.
    rewrite bool_decide_eq_true_2 by done. cbn [Z.eqb negb].
    destruct (Hins Q _ _ (k - S mn)%nat ltac:(by right) HnQ) as (h2 & ok & Hr & Hor); [rewrite HlQ; by apply find_child_Some|].
    exists Q, h2, ok. split; [done|]. split; [done|]. destruct Hor as [[-> ->]|(-> & Hcg & Hl2 & hi2 & Hn2)]; [by left|]. right.
    assert (EP : page h2 P = page h1 P) by (apply Hcg; [done | by rewrite list_elem_of_singleton]).
    split; [done|]. split; [eapply changed_mono; [|exact Hcg]; intros x; rewrite !elem_of_cons; tauto|].
    eexists _, _, _, _. split; [|rewrite EP; split; [exact HnP|]; split_and!; [exact Hn2 | done | congruence]].
    rewrite (insert_cut sc s mid k mn) by (done || lia). by destruct (Nat.leb_spec k mn); [lia|].
Qed.

End BtCut.
