(* ===== verification/BtAttach.v ===== *)
(** * A new separator up the path (src/pkg/c2db/db_btree_gen.go)

    [bt_split_attach_deep], [bt_elevate_root] and their caller: a leaf was split
    and its parent is full, so internal pages are split from the parent up, to a
    new root when every one is full. *)

From stdpp Require Import sorting.
From S2P Require Import Prelude Bytes PageKernel BtMem BtLeaf BtVersion BtHeap BtTree BtSplit BtIntern BtSpine BtInsert BtInsertOk BtCut.
Import Bytes PageKernel BtMem BtLeaf BtVersion BtHeap BtTree BtSplit BtIntern BtSpine BtInsert BtInsertOk BtCut.

Local Open Scope Z_scope.

Module BtAttach.

(** A key in a buffer of one page. *)
Definition holds (buf : slice) (key : list Z) (k : Z) : Prop :=
  exists b, buf = Some b /\ len b = 0x4000 /\ k = len key /\ 0 < k <= 0x4000 /\ bytes_ok key /\ sub b 0 k = key.

Lemma insert_buf_into h np pg sc hi left b buf key k ix : heap_ok h np -> 0 <= pg < np -> node 2 8 (page h pg) sc hi ->
  0 <= left < np -> 0 <= b < np -> pg <> b -> find_child (children (link (page h pg)) sc) left = Some ix -> holds buf key k ->
  into np h pg ix (sep key b) sc (bt_internal_insert_buf (Some h) (np * 0x4000) np pg left b buf k).
Proof.
  intros Hh Hpg Hn Hl Hb Hne Hf (bb & -> & Hlb & -> & Hk & Hkb & Hsub).
  apply inserted_into; [done | done|]. apply (bt_internal_insert_buf_eq Hh Hpg eq_refl Hn); done || lia.
Qed.

Lemma add_sep_into h np pg sc hi left b cs hir c ix : heap_ok h np -> 0 <= pg < np -> node 2 8 (page h pg) sc hi ->
  0 <= left < np -> 0 <= b < np -> pg <> b -> find_child (children (link (page h pg)) sc) left = Some ix ->
  rep 16 (page h b) cs hir -> cs !! 0%nat = Some c -> cKey c <> [] ->
  into np h pg ix (sep (cKey c) b) sc (bt_internal_add_sep (Some h) (np * 0x4000) np pg left b).
Proof.
  intros Hh Hpg Hn Hl Hb Hne Hf Hr Hc Hk. apply inserted_into; [done | done|].
  by apply (bt_internal_add_sep_eq Hh Hpg eq_refl Hn _ _ 1 16 cs hir c).
Qed.

Section Attach.
Context {h : list Z} {np root : Z} {key : list Z} {LV : list (Z * list cell)} {IPS : list Z} {LV' : list (Z * list cell)}.
Context {pub : source}.
Hypothesis Hsrc : source_ok pub np.

Abbreviation pend used h' anc a b mk := (pending h np root key LV IPS LV' used h' anc a b mk).

(** What the ancestors made of the separator: the tree is whole, or every
    ancestor was split. *)
Definition whole (used : Z) (h2 : list Z) (st : Db_bt_heap_st_t) : Prop :=
  h_Ok st = 0 \/ h_Ok st = 1 /\ used <= h_Used st <= np /\ btree_used h2 np (h_Root st) LV' (h_Used st).

Definition attached (used : Z) (h2 : list Z) (r : Db_bt_heap_st_t + Z * Z * Z * Z * slice * Z) : Prop :=
  match r with
  | inl st => whole used h2 st
  | inr (used', _, a, b, buf, k) => used <= used' <= np /\ exists mk, pend used' h2 [] a b mk /\ holds buf mk k
  end.

Lemma attached_fail used h1 st : h_Ok st = 0 -> exists h2 r, Some (Some h1, inl st) = Some (Some h2, r) /\ attached used h2 r.
Proof. intros Hok. exists h1, (inl st). split; [done|]. by left. Qed.

Lemma attach_loop_eq fuel h1 anc0 anc used mask a b mk v14 v15 k :
  pend used h1 anc a b mk -> holds v14 mk k -> (exists kb, v15 = Some kb /\ len kb = 0x4000) ->
  0 <= used <= np -> (length anc <= fuel)%nat -> len anc0 = 32 -> take (length anc) anc0 = anc -> (length anc <= 32)%nat ->
  exists h2 r, attach_loop fuel pub (Some h1) (np * 0x4000) np anc0 root used mask a b v14 v15 k (len anc) = Some (Some h2, r) /\
    attached used h2 r.
Proof.
  revert h1 anc used mask a b mk v14 v15 k. induction fuel as [|fuel IH]; intros h1 anc used mask a b mk v14 v15 k HP Hbuf Hv15 Hused Hfuel Hl Hanc H32;
    destruct (decide (anc = [])) as [->|Hne]; cbn [attach_loop].
  1,3: rewrite (len_nil (A:=Z)); cbn [Z.gtb negb Z.compare]; exists h1; eexists; split; [done|]; split; [lia | by exists mk].
  - destruct anc; [done | cbn in Hfuel; lia].
  - destruct (exists_last Hne) as (anc' & P & ->). rewrite length_app in *. cbn [length] in *.
    destruct (pending_pair _ _ _ _ _ _ _ _ _ _ _ _ _ HP) as (Hh1 & Ha & Hb & Han & Hbn & Hb64 & Hmk).
    destruct (pending_parent _ _ _ _ _ _ _ _ _ _ _ _ _ _ HP ltac:(lia) ltac:(lia)) as
      (sc & hi & HPu & _ & _ & HPa & HPb & _ & HnP & Hv & Hnd & Hfind & Hins & Hspl).
    rewrite len_app, len_single. pose proof (len_nonneg anc'). destruct (id Hh1) as [Hlen1 _ Hsm1].
    assert (Hlk : anc0 !! length anc' = Some P).
    { apply (f_equal (.!! length anc')) in Hanc. rewrite lookup_take_lt in Hanc by lia. rewrite Hanc. by apply list_lookup_middle. }
    assert (Htk : take (length anc') anc0 = anc').
    { apply (f_equal (take (length anc'))) in Hanc. rewrite take_take, take_app_length, Nat.min_l in Hanc by lia. done. }
    ifcase; [|unfold len in *; lia]. assert (len anc' < 32) by (unfold len; lia). unwrap. replace (len anc' + 1 - 1) with (len anc') by lia.
    assert (idx anc0 (len anc') = Some P) as -> by (unfold idx; ifcase; [unfold len; by rewrite Nat2Z.id | lia]). cbn [mbind option_bind]. ifcase; [lia|].
    destruct (insert_buf_into _ _ P sc hi a b v14 mk k _ Hh1 ltac:(lia) HnP ltac:(lia) ltac:(lia) HPb Hfind Hbuf)
      as (h2 & ok & -> & Hor). cbn [mbind option_bind]. destruct Hor as [[-> ->]|(-> & Hcg & Hl2 & hi2 & Hn2)]; cbn [Z.eqb negb].
    2: { eexists _, _. split; [done|]. right. cbn [h_Ok h_Root h_Used]. split; [done|]. split; [lia|]. by eapply Hins. }
    unwrap. ifcase; [lia|]. ifcase; [by apply attached_fail|].
    destruct (bt_cow_page_eq pub h1 np used mask Hh1 Hsrc ltac:(lia)) as (h2 & mask' & -> & Hcg & _). cbn [mbind option_bind].
    assert (HP2 : pend used h2 (anc' ++ [P]) a b mk).
    { eapply pending_frame; [exact HP | lia | exact Hcg |]. intros q Hq. apply list_elem_of_singleton in Hq. lia. }
    clear HP HnP Hnd Hfind Hins Hspl sc hi Hv.
    destruct (pending_pair _ _ _ _ _ _ _ _ _ _ _ _ _ HP2) as (Hh2 & _).
    destruct (pending_parent _ _ _ _ _ _ _ _ _ _ _ _ _ _ HP2 ltac:(lia) ltac:(lia)) as
      (sc & hi & _ & _ & _ & _ & _ & _ & HnP & Hv & Hnd & Hfind & _ & Hspl).
    destruct Hv15 as (kb & -> & Hkb).
    destruct (bt_split_internal_eq h2 np P used sc hi kb Hh2 ltac:(lia) ltac:(lia) ltac:(lia) HnP Hv Hkb) as (h3 & kb' & r & -> & Hkb' & Hr).
    cbn [mbind option_bind]. ifcase; [by apply attached_fail|].
    destruct Hr as [?|(m & mid & Hm & Hmid & Hcg3 & Hcut & -> & Hr & Hmb & Hmsub)]; [lia|].
    destruct (id Hcg3) as [Hh3 _].
    destruct (side_insert h2 np P used sc m mid h3 a _ (sep mk b) (fun v23 => bt_internal_insert_buf (Some h3) (np * 0x4000) np v23 a b v14 k)
       Hh3 ltac:(lia) ltac:(lia) ltac:(lia) Hcut Hm Hmid Hnd Hfind ltac:(lia)) as (v23 & h4 & ok & -> & Hins4 & Hor).
    { intros pg sc' hi' k' Hpg Hn' Hf'. apply (insert_buf_into _ _ _ _ hi'); try done; lia. }
    cbv beta in Hins4. rewrite Hins4. cbn [mbind option_bind]. ifcase; [by apply attached_fail|].
    destruct Hor as [?|(_ & Hcg4 & sa & sb & hip & hiq & Hcut4 & Hna & Hnb & Hla & Hlb)]; [lia|].
    destruct Hbuf as (bb & -> & Hbb & -> & Hbk & _). rewrite bt_copy_bytes_eq by lia. rewrite Z.add_0_l, Hmsub. cbn [mbind option_bind].
    pose proof (changed_trans _ _ _ _ _ _ Hcg3 Hcg4) as Hcg34.
    assert (HP4 : pend (used + 1) h4 anc' P used (cKey mid)).
    { eapply (Hspl h4); try done; [|lia|lia]. intros q. rewrite !elem_of_app, !elem_of_cons, elem_of_nil. lia. }
    destruct (IH h4 anc' (used + 1) mask' P used (cKey mid) (Some (copy_at bb 0 (cKey mid))) (Some kb') (len (cKey mid)) HP4)
      as (h5 & r & Hloop & Hres); [| eauto | lia | lia | done | done | lia |].
    { eexists. split; [done|]. rewrite len_copy_at. split_and!; try done; try lia.
      rewrite <- (Z.add_0_l (len (cKey mid))). apply sub_copy_at_eq; lia. }
    exists h5, r. split; [exact Hloop|]. unfold attached in *. destruct r as [st|[[[[[? ?] ?] ?] ?] ?]]; [|split; [lia|apply Hres]].
    destruct Hres as [?|(? & ? & ?)]; [by left|]. right. split; [done|]. split; [lia | done].
Qed.

Lemma whole_fail used h1 st : h_Ok st = 0 -> exists h2 st', Some (Some h1, st) = Some (Some h2, st') /\ whole used h2 st'.
Proof. intros Hok. exists h1, st. split; [done|]. by left. Qed.

(** The leaf [R] with the separator's key, seen in a buffer where it is the same. *)
Definition first_key (h1 : list Z) (R : Z) (mk : list Z) : Prop :=
  exists cs hi c, rep 16 (page h1 R) cs hi /\ cs !! 0%nat = Some c /\ cKey c = mk.

Lemma first_key_frame h1 h2 l R mk : first_key h1 R mk -> changed np l h1 h2 -> 0 <= R < np -> R ∉ l -> first_key h2 R mk.
Proof. intros (cs & hi & c & Hr & Hc) [_ H] HR Hni. exists cs, hi, c. by rewrite H. Qed.

(** The parent [P] is split with the free page [Q], and the separator of the
    leaves [L] and [R] goes to one of the two. *)
Lemma split_attach_deep_eq h1 anc0 anc P used mask L R mk :
  pend used h1 (anc ++ [P]) L R mk -> first_key h1 R mk -> 0 <= used -> used + 1 <= np ->
  len anc0 = 32 -> take (length anc) anc0 = anc -> (length anc < 32)%nat ->
  exists h2 st, bt_split_attach_deep pub (Some h1) (np * 0x4000) np anc0 (len anc) root (used + 1) mask P used L R = Some (Some h2, st) /\
    whole (used + 1) h2 st.
Proof.
  intros HP HR Hu0 Hused Hl Htk H32. destruct (pending_pair _ _ _ _ _ _ _ _ _ _ _ _ _ HP) as (Hh1 & Ha & Hb & Han & Hbn & Hb64 & Hmk).
  destruct (pending_parent _ _ _ _ _ _ _ _ _ _ _ _ _ _ HP ltac:(lia) ltac:(lia)) as
    (sc & hi & HPu & _ & _ & HPa & HPb & _ & HnP & Hv & Hnd & Hfind & _ & Hspl).
  destruct (id Hh1) as [Hlen1 _ Hsm1]. unfold bt_split_attach_deep. ifcase; [by apply whole_fail|].
  ifcase; [by apply whole_fail|]. assert (is_nil (source_bytes pub (Some h1)) = false) as ->.
  { destruct pub as [sb|]; [|done]. destruct Hsrc as (bb & -> & _). done. }
  cbn [is_nil orb].
  destruct (bt_split_internal_eq h1 np P used sc hi (zeros 0x4000) Hh1 ltac:(lia) ltac:(lia) ltac:(lia) HnP Hv eq_refl) as (h3 & kb & r & -> & Hkb & Hr).
  cbn [mbind option_bind]. ifcase; [by apply whole_fail|].
  destruct Hr as [?|(m & mid & Hm & Hmid & Hcg3 & Hcut & -> & Hr & Hmb & Hmsub)]; [lia|].
  destruct (id Hcg3) as [Hh3 _]. assert (HR3 : first_key h3 R mk).
  { eapply first_key_frame; [exact HR | exact Hcg3 | lia|]. rewrite !elem_of_cons, elem_of_nil. lia. }
  destruct HR3 as (csR & hiR & cR & HrR & HcR & <-).
  destruct (side_insert h1 np P used sc m mid h3 L _ (sep (cKey cR) R) (fun v23 => bt_internal_add_sep (Some h3) (np * 0x4000) np v23 L R)
     Hh3 ltac:(lia) ltac:(lia) ltac:(lia) Hcut Hm Hmid Hnd Hfind ltac:(lia)) as (v23 & h4 & ok & -> & Hins4 & Hor).
  { intros pg sc' hi' k' Hpg Hn' Hf'. apply (add_sep_into _ _ _ _ hi' _ _ csR hiR); try done; lia. }
  cbv beta in Hins4. rewrite Hins4. cbn [mbind option_bind]. ifcase; [by apply whole_fail|].
  destruct Hor as [?|(_ & Hcg4 & sa & sb & hip & hiq & Hcut4 & Hna & Hnb & Hla & Hlb)]; [lia|].
  pose proof (changed_trans _ _ _ _ _ _ Hcg3 Hcg4) as Hcg34.
  assert (HP4 : pend (used + 1) h4 anc P used (cKey mid)).
  { eapply (Hspl h4); try done; [|lia|lia]. intros q. rewrite !elem_of_app, !elem_of_cons, elem_of_nil. lia. }
  destruct (attach_loop_eq (Z.to_nat (len anc)) h4 anc0 anc (used + 1) mask P used (cKey mid) (Some kb) (Some (zeros 0x4000)) (len (cKey mid)) HP4)
    as (h5 & res & -> & Hres); [by exists kb | by eexists | lia | unfold len; lia | done | done | lia |].
  cbn [mbind option_bind]. destruct res as [st|[[[[[used5 mask5] a5] b5] buf5] k5]]; [by exists h5, st|].
  destruct Hres as (Hu5 & mk5 & HP5 & Hbuf5). destruct (pending_pair _ _ _ _ _ _ _ _ _ _ _ _ _ HP5) as (Hh5 & Ha5 & Hb5 & Han5 & Hbn5 & Hb645 & Hmk5).
  unwrap. ifcase; [lia|]. ifcase; [by apply whole_fail|].
  destruct (bt_cow_page_eq pub h5 np used5 mask5 Hh5 Hsrc ltac:(lia)) as (h6 & mask6 & -> & Hcg6 & _). cbn [mbind option_bind].
  assert (HP6 : pend used5 h6 [] a5 b5 mk5).
  { eapply pending_frame; [exact HP5 | lia | exact Hcg6 |]. intros q Hq. apply list_elem_of_singleton in Hq. lia. }
  destruct Hbuf5 as (bb & -> & Hbb & -> & Hk5 & Hkb5 & Hsub5). destruct (id Hcg6) as [Hh6 _].
  destruct (bt_make_root_buf_eq h6 np a5 b5 used5 bb mk5 Hh6) as (h7 & ok7 & -> & Hor); [lia | lia | lia | lia | lia | done | lia | lia | done|].
  cbn [mbind option_bind]. ifcase; [by apply whole_fail|]. destruct Hor as [?|(_ & q & hi7 & -> & Hq & Hlq)]; [lia|].
  pose proof (rep_page _ _ _ _ _ Hq) as Hqp. pose proof (page_put_eq h6 np used5 q Hh6 ltac:(lia) Hqp) as Eq.
  eexists _, _. split; [done|]. right. cbn [h_Ok h_Root h_Used]. split; [done|]. split; [lia|].
  eapply (pending_root _ _ _ _ _ _ _ used5); [exact HP6 | by apply changed_put; [|lia|] | lia | lia | lia | | | lia]; rewrite Eq; done.
Qed.

(** The root is split with the free page [Q] under the new root after it. *)
Lemma bt_elevate_root_eq h1 used L R mk :
  pend used h1 [root] L R mk -> first_key h1 R mk -> 0 <= used -> used + 2 <= np ->
  exists h2 ok, bt_elevate_root (Some h1) (np * 0x4000) np root used (used + 1) L R = Some (Some h2, ok) /\
    (ok = 0 \/ ok = 1 /\ heap_ok h2 np /\ btree_used h2 np (used + 1) LV' (used + 2)).
Proof.
  intros HP HR Hu0 Hused. destruct (pending_pair _ _ _ _ _ _ _ _ _ _ _ _ _ HP) as (Hh1 & Ha & Hb & Han & Hbn & Hb64 & Hmk).
  destruct (pending_parent _ _ _ _ _ _ _ _ _ [] _ _ _ _ HP ltac:(lia) ltac:(lia)) as
    (sc & hi & HPu & _ & _ & HPa & HPb & _ & HnP & Hv & Hnd & Hfind & _ & Hspl).
  assert (HPn : 0 <= root < np) by lia. assert (HQn : 0 <= used < np) by lia. assert (HNn : 0 <= used + 1 < np) by lia.
  pose proof (page_at _ _ _ Hh1 HPn) as Hat. destruct (at_facts Hat) as (? & ? & ? & ?). pose proof (rep_count HnP). pose proof (len_nonneg sc).
  pose proof (page_at _ _ _ Hh1 HQn) as HatQ. destruct (at_facts HatQ) as (? & ? & _ & _).
  assert (Hret : forall h2, exists h' ok, Some (Some h2, 0) = Some (Some h', ok) /\
    (ok = 0 \/ ok = 1 /\ heap_ok h' np /\ btree_used h' np (used + 1) LV' (used + 2))) by eauto.
  unfold bt_elevate_root. do 3 (ifcase; [lia|]). do 3 (ifcase; [lia|]). unwrap.
  rewrite (at_type Hat HnP) by done. cbn [Z.eqb Pos.eqb negb]. rewrite (at_count Hat HnP) by done.
  pose proof (Z.div_mod (len sc) 2 ltac:(lia)). pose proof (Z.mod_pos_bound (len sc) 2 ltac:(lia)).
  set (m := len sc / 2) in *. ifcase; [by apply Hret|]. unwrap. ifcase; [by apply Hret|].
  destruct (rep_lookup (cs:=sc) m ltac:(lia)) as [mid Hmid].
  destruct (open_at Hat HnP m mid ltac:(lia) Hmid) as (off & _ & Hok1 & Hr & _ & ? & ? & Hok & Hkl & _ & Hkey & Hid & _ & ? & ? & _ & ? & Hcell).
  change (64 + m * 2) with (slot_addr m). rewrite Hok1. rewrite w64_small in Hr by (unfold slot_addr; lia). rewrite Hr. unwrap.
  rewrite Hok by lia. unwrap. rewrite Hkl. unwrap. rewrite Hok by lia.
  rewrite (bt_read64_sub h1 (np * 0x4000) (root * 0x4000 + off + 4 + len (cKey mid)) (cId mid) ltac:(apply Hh1) ltac:(lia) ltac:(lia) ltac:(lia) Hid).
  change (le_get 8 (cId mid)) with (child_id mid). assert (Hne : root <> used) by lia.
  destruct (move_upper (m:=m) Hh1 HPn HQn Hne HnP Hv ltac:(lia) Hmid) as (r & -> & Hcase). cbn [mbind option_bind].
  destruct r as [st|[st|]]; [|by apply Hret|done]. destruct Hcase as (d & hid & -> & Hd & Hld).
  pose proof (rep_page _ _ _ _ _ Hd) as Hdp. pose proof (changed_put np h1 used d Hh1 HQn Hdp) as Hcg.
  pose proof (page_put_eq h1 np used d Hh1 HQn Hdp) as EQ. rewrite <- EQ in Hd, Hld. destruct (id Hcg) as [Hh2 Hsame2].
  set (h2 := copy_at h1 (used * 0x4000) d) in *. assert (HnP2 : node 2 8 (page h2 root) sc hi).
  { rewrite Hsame2; [done | done | by rewrite list_elem_of_singleton]. }
  destruct (raise_root_eq (Some h2) h2 np root used (used + 1) sc hi m mid Hh2 HPn HQn HNn ltac:(lia) HnP2 ltac:(lia) Hmid eq_refl)
    as (h3 & ok3 & -> & Hor3). cbn [mbind option_bind]. ifcase; [by apply Hret|]. destruct Hor3 as [?|(_ & Hcg3 & Hl3 & hi3 & Hn3)]; [lia|].
  pose proof (changed_trans _ _ _ _ _ _ Hcg Hcg3) as Hcg13.
  assert (EQ3 : page h3 used = page h2 used) by (apply Hcg3; [done | rewrite list_elem_of_singleton; lia]). rewrite <- EQ3 in Hd, Hld.
  destruct (keep_lower (m:=m) HPn HQn Hne HnP ltac:(lia) Hmid _ ([used] ++ [used + 1]) hid Hcg13) as (h4 & ok4 & -> & Hor4); [| | done | done |].
  1,2: cbn [app]; rewrite !elem_of_cons, elem_of_nil; lia.
  cbn [mbind option_bind]. ifcase; [by apply Hret|]. destruct Hor4 as [?|(_ & Hcg4 & [_ Hsame4] & Hcut)]; [lia|]. cbn [app] in *.
  destruct (id Hcg4) as [Hh4 _]. assert (HR4 : first_key h4 R mk).
  { eapply first_key_frame; [exact HR | exact Hcg4 | lia|]. rewrite !elem_of_cons, elem_of_nil. lia. }
  destruct HR4 as (csR & hiR & cR & HrR & HcR & <-).
  destruct (side_insert h1 np root used sc m mid h4 L _ (sep (cKey cR) R) (fun v23 => bt_internal_add_sep (Some h4) (np * 0x4000) np v23 L R)
     Hh4 HPn HQn Hne Hcut ltac:(lia) Hmid Hnd Hfind ltac:(lia)) as (v23 & h5 & ok5 & -> & Hins5 & Hor).
  { intros pg sc' hi' k' Hpg Hn' Hf'. apply (add_sep_into _ _ _ _ hi' _ _ csR hiR); try done; lia. }
  cbv beta in Hins5. rewrite Hins5. exists h5, ok5. split; [done|].
  destruct Hor as [?|(-> & Hcg5 & sa & sb & hip & hiq & Hcut5 & Hna & Hnb & Hla & Hlb)]; [by left|]. right. split; [done|].
  pose proof (changed_trans _ _ _ _ _ _ Hcg4 Hcg5) as Hcg45. split; [apply Hcg5|].
  assert (HP5 : pend (used + 1) h5 [] root used (cKey mid)).
  { eapply (Hspl h5); try done; [|lia]. intros q. rewrite !elem_of_app, !elem_of_cons, elem_of_nil. lia. }
  destruct (id Hcg5) as [Hh5 Hsame5].
  assert (EN : page h5 (used + 1) = page h3 (used + 1)).
  { rewrite Hsame5, Hsame4; try done; rewrite !elem_of_cons, elem_of_nil; lia. }
  eapply (pending_root _ _ _ _ _ _ _ (used + 1)); [exact HP5 | by apply changed_refl | lia | lia | lia | | | lia]; rewrite EN; done.
Qed.

(** The state a successful insertion returns. *)
Definition counted (h2 : list Z) (st : Db_bt_heap_st_t) : Prop :=
  h_Ok st = 1 -> h_Nkeys st = bt_heap_nkeys (Some h2) (np * 0x4000) np (h_Root st).

Lemma finished_fail used h1 st : h_Ok st = 0 ->
  exists h2 st', Some (Some h1, st) = Some (Some h2, st') /\ whole used h2 st' /\ counted h2 st'.
Proof. intros Hok. exists h1, st. split; [done|]. split; [by left|]. unfold counted. lia. Qed.

Lemma finished_ok used h1 rt used' mask : used <= used' <= np -> btree_used h1 np rt LV' used' ->
  exists h2 st', Some (Some h1, st_ok (Some h1) (np * 0x4000) np rt used' mask) = Some (Some h2, st') /\ whole used h2 st' /\ counted h2 st'.
Proof. intros Hu Hb. eexists _, _. split; [done|]. split; [by right|]. done. Qed.

Lemma ins_attach_eq h1 anc L R mk mask v24 v28 :
  pend (R + 1) h1 (anc ++ [v24]) L R mk -> first_key h1 R mk -> R + 1 <= np ->
  len v28 = 32 -> take (length (anc ++ [v24])) v28 = anc ++ [v24] ->
  exists h2 st, ins_attach pub (Some h1) (np * 0x4000) np root R mask v24 v28 (len (anc ++ [v24])) L = Some (Some h2, st) /\
    whole R h2 st /\ counted h2 st.
Proof.
  intros HP HR HRn Hl Htk. destruct (pending_pair _ _ _ _ _ _ _ _ _ _ _ _ _ HP) as (Hh1 & Ha & Hb & Han & Hbn & Hb64 & Hmk).
  destruct (pending_parent _ _ _ _ _ _ _ _ _ _ _ _ _ _ HP ltac:(lia) ltac:(lia)) as
    (sc & hi & HPu & _ & _ & HPa & HPb & _ & HnP & Hv & Hnd & Hfind & Hins & _).
  destruct (id Hh1) as [Hlen1 _ Hsm1]. destruct (id HR) as (csR & hiR & cR & HrR & HcR & EmR).
  unfold ins_attach. pose proof (add_sep_into h1 np v24 sc hi L R csR hiR cR _ Hh1 ltac:(lia) HnP ltac:(lia) ltac:(lia) HPb Hfind HrR HcR) as Hadd.
  rewrite EmR in Hadd. destruct (Hadd Hmk) as (h2 & ok & -> & Hor). cbn [mbind option_bind].
  destruct Hor as [[-> ->]|(-> & Hcg & Hl2 & hi2 & Hn2)]; cbn [Z.eqb negb]; unwrap.
  2: { apply finished_ok; [lia|]. by eapply Hins. }
  assert (Hmask : forall h m q, heap_ok h np -> 0 <= q < np -> exists h' m', bt_cow_page pub (Some h) (np * 0x4000) q m = Some (Some h', m') /\ changed np [q] h h').
  { intros h0 m q Hh0 Hq. destruct (bt_cow_page_eq pub h0 np q m Hh0 Hsrc Hq) as (h' & m' & ? & ? & _). eauto. }
  assert (Hlater : forall l h2, changed np l h1 h2 -> (forall q, q ∈ l -> R + 1 <= q) ->
    pend (R + 1) h2 (anc ++ [v24]) L R mk /\ first_key h2 R mk).
  { intros l h2 Hcg Hl2. split; [by eapply pending_frame|]. eapply first_key_frame; [exact HR | exact Hcg | lia|]. intros Hin. apply Hl2 in Hin. lia. }
  rewrite len_app, len_single. pose proof (len_nonneg anc). ifcase.
  - subst v24. unwrap. ifcase; [by apply finished_fail|].
    destruct (Hmask h1 mask (R + 1) Hh1 ltac:(lia)) as (h2 & m2 & -> & Hcg2). cbn [mbind option_bind]. destruct (id Hcg2) as [Hh2 _].
    unwrap. destruct (Hmask h2 m2 (R + 2) Hh2 ltac:(lia)) as (h3 & m3 & Hc3 & Hcg3). replace (R + 1 + 1) with (R + 2) by lia. rewrite Hc3.
    cbn [mbind option_bind]. destruct (Hlater _ _ (changed_trans _ _ _ _ _ _ Hcg2 Hcg3)) as [HP3 HR3].
    { intros q. rewrite elem_of_app, !list_elem_of_singleton. lia. }
    pose proof (pending_top _ _ _ _ _ _ _ _ _ _ _ _ _ HP3) as ->.
    destruct (bt_elevate_root_eq h3 (R + 1) L R mk HP3 HR3 ltac:(lia) ltac:(lia)) as (h4 & ok4 & He & Hor).
    replace (R + 1 + 1) with (R + 2) in He by lia. rewrite He. cbn [mbind option_bind]. ifcase; [by apply finished_fail|].
    destruct Hor as [?|(_ & _ & Hb4)]; [lia|]. unwrap. replace (R + 1 + 1) with (R + 2) in * by lia. replace (R + 1 + 2) with (R + 3) in Hb4 by lia.
    apply finished_ok; [lia | done].
  - ifcase; [by apply finished_fail|].
    destruct (Hmask h1 mask (R + 1) Hh1 ltac:(lia)) as (h2 & m2 & -> & Hcg2). cbn [mbind option_bind].
    destruct (Hlater _ _ Hcg2) as [HP2 HR2]; [intros q; rewrite list_elem_of_singleton; lia|].
    rewrite length_app in Htk. cbn [length] in Htk. assert (Hlt : (length anc < 32)%nat).
    { apply (f_equal length) in Htk. rewrite length_take, length_app in Htk. cbn [length] in Htk. unfold len in Hl. lia. }
    assert (Htk' : take (length anc) v28 = anc).
    { apply (f_equal (take (length anc))) in Htk. rewrite take_take, take_app_length, Nat.min_l in Htk by lia. done. }
    assert (len anc < 32) by (unfold len; lia). unwrap. replace (len anc + 1 - 1) with (len anc) by lia.
    destruct (split_attach_deep_eq h2 v28 anc v24 (R + 1) m2 L R mk HP2 HR2 ltac:(lia) ltac:(lia) Hl Htk' Hlt) as (h3 & st & He & Hst).
    replace (R + 1 + 1) with (R + 2) in He by lia. rewrite He. cbn [mbind option_bind]. ifcase; [by apply finished_fail|].
    destruct Hst as [?|(Hok & Hu & Hb3)]; [lia|]. apply finished_ok; [lia | done].
Qed.
End Attach.
End BtAttach.
