(* ===== verification/BtGrow.v ===== *)
(** * Insertion keeps the B-tree (src/pkg/c2db/db_btree_gen.go)

    Every successful [Db_bt_insert_ver_heap] leaves a well-formed tree with one
    more version: in the leaf of the key, after a split of the leaf, or with new
    internal pages up to a new root. *)

From stdpp Require Import sorting.
From S2P Require Import Prelude Bytes PageKernel BtMem BtLeaf BtVersion BtHeap BtTree BtSplit BtIntern BtSpine BtInsert BtInsertOk BtCut BtAttach.
Import Bytes PageKernel BtMem BtLeaf BtVersion BtHeap BtTree BtSplit BtIntern BtSpine BtInsert BtInsertOk BtCut BtAttach.

Local Open Scope Z_scope.

Module BtGrow.

Section Grow.
Context {h : list Z} {np root : Z} {key vid val : list Z} {LV : list (Z * list cell)} {IPS : list Z} {used : Z} {pub : source}.
Hypothesis Hbt : btree h np root LV IPS.
Hypothesis Hus : Forall (fun q => 0 <= q < used) (pages LV IPS).
Hypothesis Hnp : used <= np.
Hypothesis Hsrc : source_ok pub np.
Hypothesis Hkey : bytes_ok key.
Hypothesis Hidb : bytes_ok vid.
Hypothesis Hval : bytes_ok val.
Hypothesis Hid : len vid = 16.
Hypothesis Hk : 0 < len key <= 0xffff.
Hypothesis Hv : len val <= 0xffff.

Abbreviation new := (new_cell (key:=key) (id:=vid) (val:=val)).

(** Every leaf has room for the version, and the path cannot be too long. *)
Definition roomy : Prop :=
  len IPS <= 32 /\ Forall (fun l => forall hi, rep 16 (page h l.1) l.2 hi -> slot_addr (len l.2 + 1) + clen new <= hi) LV.

(** A refusal, or a tree with one more version whose pages are below [h_Used]. *)
Definition inserted (h2 : list Z) (st : Db_bt_heap_st_t) : Prop :=
  h_Ok st = 0 /\ ~ roomy \/ h_Ok st = 1 /\ used <= h_Used st <= np /\
    h_Nkeys st = bt_heap_nkeys (Some h2) (np * 0x4000) np (h_Root st) /\
    exists LV', btree_used h2 np (h_Root st) LV' (h_Used st) /\ entries LV' ≡ₚ new :: entries LV.

Lemma inserted_fail h1 st : ~ roomy -> h_Ok st = 0 -> exists h2 st', Some (Some h1, st) = Some (Some h2, st') /\ inserted h2 st'.
Proof. intros Hr Hok. exists h1, st. split; [done|]. by left. Qed.

Lemma inserted_ok h1 rt used' mask LV' : used <= used' <= np -> btree_used h1 np rt LV' used' -> entries LV' ≡ₚ new :: entries LV ->
  exists h2 st', Some (Some h1, st_ok (Some h1) (np * 0x4000) np rt used' mask) = Some (Some h2, st') /\ inserted h2 st'.
Proof. intros Hu Hb He. eexists _, _. split; [done|]. right. split; [done|]. split; [done|]. split; [done|]. by exists LV'. Qed.

Section Leaf.
Context {anc : list Z} {A B : list (Z * list cell)} {C D : list Z} {leaf : Z} {lo up : bound} {cs : list cell}.
Hypothesis Hsp : spine h np root key LV IPS anc A B C D leaf lo up [(leaf, cs)] [].

Lemma leaf_facts : 0 <= leaf < np /\ (exists hi, rep 16 (page h leaf) cs hi) /\ StronglySorted ver_le cs /\ Forall (entry_ok lo up) cs.
Proof.
  pose proof (spine_tree _ _ _ _ _ _ _ _ _ _ Hsp) as Ht. inversion Ht; subst; eauto.
Qed.

Lemma key_entry : entry_ok lo up new.
Proof. split; [apply (spine_range _ _ _ _ _ _ _ _ _ _ Hsp)|]. cbn. intros E. rewrite E, (len_nil (A:=Z)) in Hk. lia. Qed.

Lemma new_entry i l lo' up' : in_range lo' up' key -> Forall (entry_ok lo' up') l -> Forall (entry_ok lo' up') (insert_at i new l).
Proof. intros Hr Hl. rewrite insert_at_perm. constructor; [|done]. split; [done | apply key_entry]. Qed.

Lemma entries_change l : entries (A ++ l ++ B) ≡ₚ entries l ++ entries (A ++ B).
Proof. rewrite !entries_app. solve_Permutation. Qed.

Lemma LV_eq : LV = A ++ [(leaf, cs)] ++ B.
Proof. apply (spine_index _ _ _ _ _ _ _ _ _ _ Hsp). Qed.

Lemma leaf_full hi : rep 16 (page h leaf) cs hi -> hi < slot_addr (len cs + 1) + clen new -> ~ roomy.
Proof.
  intros Hrep Hlt [_ Hall]. rewrite LV_eq in Hall. apply Forall_app in Hall as [_ Hall]. apply Forall_cons_1 in Hall as [Hl _].
  specialize (Hl hi Hrep). cbn in Hl. lia.
Qed.

(** The version fits in the leaf. *)
Lemma grow_leaf h1 : added (np:=np) (key:=key) (id:=vid) (val:=val) h leaf cs h1 ->
  exists LV', btree_used h1 np root LV' used /\ entries LV' ≡ₚ new :: entries LV.
Proof.
  destruct leaf_facts as (Hl & (hi & Hrep) & Hs & He). intros (Hcg & Hlk & hi' & Hrep').
  eexists. split.
  - eapply (leaf_replace Hbt Hus Hsp); [exact Hcg | exact Hrep' | by apply (ver_insert_sorted cs new) | | done].
    apply new_entry; [apply key_entry | done].
  - rewrite LV_eq, !entries_change. unfold entries at 1 3. cbn. rewrite !app_nil_r, insert_at_perm. done.
Qed.

(** The leaf is split with the free page [used]. *)
Lemma grow_split h2 : changed np [used] h h2 -> used < np ->
  exists h3 ok, bt_chain_split_ver (Some h2) np leaf used = Some (Some h3, ok) /\
    (ok = 0 \/ exists h4 done, ins_side (Some h3) (np * 0x4000) leaf used (Some key) (len key) (Some vid) (Some val) (len val) = Some (Some h4, done) /\
      (done = true -> exists LV' mk, pending h np root key LV IPS LV' (used + 1) h4 anc leaf used mk /\ first_key h4 used mk /\
        entries LV' ≡ₚ new :: entries LV)).
Proof.
  intros Hcg Hu. destruct leaf_facts as (Hl & (hi & Hrep) & Hs & He). destruct (spine_distinct Hbt Hus Hsp) as (_ & Hlu & _).
  destruct (id Hcg) as [Hh2 Hsame]. assert (El : page h2 leaf = page h leaf) by (apply Hsame; [done | rewrite list_elem_of_singleton; lia]).
  rewrite <- El in Hrep.
  destruct (bt_chain_split_ver_eq h2 np leaf used cs hi Hh2 Hl ltac:(lia) ltac:(lia) Hrep) as (h3 & ok & -> & Hor).
  exists h3, ok. split; [done|]. destruct Hor as [[? _]|(_ & k & [Hkb Hbd (q & d & hiq & hid & -> & Hq & Hlq & Hd & Hld)])]; [by left|]. right.
  pose proof (rep_page _ _ _ _ _ Hq) as Hqp. pose proof (rep_page _ _ _ _ _ Hd) as Hdp.
  pose proof (changed_put np h2 used d Hh2 ltac:(lia) Hdp) as Hcg2. destruct (id Hcg2) as [Hh2' _].
  pose proof (changed_put np _ leaf q Hh2' ltac:(lia) Hqp) as Hcg3.
  set (h3 := copy_at _ (leaf * 0x4000) q) in *. destruct (id Hcg3) as [Hh3 _].
  assert (EL : page h3 leaf = q) by (apply (page_put_eq _ np); done || lia).
  assert (ER : page h3 used = d).
  { unfold h3. rewrite (page_put_ne _ np) by (done || lia). apply (page_put_eq _ np); done || lia. }
  rewrite <- EL in Hq, Hlq. rewrite <- ER in Hd, Hld.
  destruct (rep_lookup (cs:=cs) k ltac:(lia)) as [c Hc]. destruct (cut_range lo up cs k c used Hs Hbd Hkb He Hc) as (Hea & Heb & Hsep).
  rewrite <- (take_drop (Z.to_nat k) cs) in Hs. apply sorted_app_inv in Hs as [Hsa Hsb].
  assert (Hfirst : drop (Z.to_nat k) cs !! 0%nat = Some c) by (by rewrite lookup_drop, Nat.add_0_r).
  destruct (ins_side_eq Hkey Hidb Hval Hid Hk Hv h3 leaf used _ _ _ _ c Hh3 Hl ltac:(lia) Hq Hd Hfirst) as (h4 & done & -> & Hdone).
  exists h4, done. split; [done|]. intros Ed. pose proof (changed_trans _ _ _ _ _ _ (changed_trans _ _ _ _ _ _ Hcg Hcg2) Hcg3) as Hcg03.
  assert (Hall : forall pg, changed np [pg] h3 h4 -> pg = leaf \/ pg = used -> changed np [leaf; used] h h4).
  { intros pg Hcg4 Hpg. eapply changed_mono; [|exact (changed_trans _ _ _ _ _ _ Hcg03 Hcg4)].
    intros x. rewrite !elem_of_app, !elem_of_cons, elem_of_nil. destruct Hpg as [->| ->]; tauto. }
  assert (Hlr : leaf <> used) by lia. destruct (spine_range _ _ _ _ _ _ _ _ _ _ Hsp) as [Hlo Hup].
  assert (Hent : forall x y, x ≡ₚ new :: take (Z.to_nat k) cs /\ y = drop (Z.to_nat k) cs \/
      x = take (Z.to_nat k) cs /\ y ≡ₚ new :: drop (Z.to_nat k) cs ->
    entries (A ++ [(leaf, x); (used, y)] ++ B) ≡ₚ new :: entries LV).
  { intros x y Hxy. assert (E : entries LV ≡ₚ take (Z.to_nat k) cs ++ drop (Z.to_nat k) cs ++ entries (A ++ B)).
    { rewrite LV_eq, entries_change. unfold entries at 1. cbn [map concat app snd]. by rewrite app_nil_r, app_assoc, take_drop. }
    rewrite E, entries_change. unfold entries at 1. cbn [map concat app snd]. rewrite app_nil_r.
    destruct Hxy as [[-> ->]|[-> ->]]; solve_Permutation. }
  destruct (Hdone Ed) as [(Hlt & Hcg4 & Hl4 & hi4 & Hr4)|(Hge & Hcg4 & Hl4 & hi4 & Hr4)].
  - assert (ER4 : page h4 used = page h3 used) by (apply Hcg4; [lia | by rewrite list_elem_of_singleton]). rewrite <- ER4 in Hd, Hld.
    eexists _, (cKey c). split; [|split].
    + eapply (leaf_pending Hbt Hus Hsp h4 used); [by eapply Hall; eauto | lia | exact Hr4 | by apply (ver_insert_sorted _ new) | by apply new_entry
        | exact Hd | done | done | done | congruence | congruence].
    + by eexists _, _, c.
    + apply Hent. left. split; [apply insert_at_perm | done].
  - assert (EL4 : page h4 leaf = page h3 leaf) by (apply Hcg4; [lia | by rewrite list_elem_of_singleton]). rewrite <- EL4 in Hq, Hlq.
    destruct (insert_first _ new c Hfirst Hge) as (c' & Hc' & Ec'). cbn [cKey cId new_cell] in Hc'.
    eexists _, (cKey c). split; [|split].
    + eapply (leaf_pending Hbt Hus Hsp h4 used); [by eapply Hall; eauto | lia | exact Hq | done | done
        | exact Hr4 | by apply (ver_insert_sorted _ new) | by apply new_entry | done | congruence | congruence].
    + by eexists _, _, c'.
    + apply Hent. right. split; [done | apply insert_at_perm].
Qed.
End Leaf.

Hypothesis Hsync : synced pub h (pages LV IPS).

Lemma used_pos : 0 < used.
Proof.
  pose proof (proj2 (proj1 (tree_pages_rules h np) _ _ _ _ _ (bt_tree _ _ _ _ _ Hbt))) as Hr.
  rewrite Forall_forall in Hus. specialize (Hus _ Hr). cbn in Hus. lia.
Qed.

Lemma last_app (l : list Z) x : last l = Some x -> exists l', l = l' ++ [x].
Proof. intros Hl. apply last_Some in Hl. done. Qed.

Abbreviation n := (np * 0x4000).

(** The root is an internal page. *)
Lemma ins_tree_eq mask : IPS <> [] ->
  exists h2 st, ins_tree pub (Some h) n np root used mask (Some key) (len key) (Some vid) (Some val) (len val) 0 = Some (Some h2, st) /\
    inserted h2 st.
Proof.
  intros Hips. destruct (btree_size _ _ _ _ _ Hbt) as (Hsize & Hlv & Hroot & Hsmall). pose proof (len_nonneg IPS). pose proof used_pos.
  pose proof (bt_heap _ _ _ _ _ Hbt) as Hh. pose proof (bt_tree _ _ _ _ _ Hbt) as Ht.
  assert (Hty : 2 = rd (page h root) 20).
  { inversion Ht as [|? ? ? sc hi ? ips' _ Hrep]; subst; [done|]. symmetry. apply Hrep. }
  assert (Hpath : path_of [] root IPS = [root]) by (by destruct IPS).
  destruct (ins_descend_eq (Z.to_nat np) pub h np root key LV IPS [] [] [] [] [] root None None LV IPS root mask
    (wr (zeros 32) 0 root) 2 Hh Hsrc Hsync (bt_distinct _ _ _ _ _ Hbt) ltac:(by constructor) ltac:(lia) Hty eq_refl) as (r & Hd & Hr).
  { by rewrite Hpath. }
  { done. }
  rewrite Hpath in Hd. unfold ins_tree. change (len [root]) with 1 in Hd. rewrite Hd. cbn [mbind option_bind].
  destruct r as [[[[[[leaf par] mask'] v28] v29] t]|]; [|apply inserted_fail; [intros [? _]; cbn in Hr; lia | done]].
  destruct Hr as (-> & H28 & anc & A & B & C & D & lo & up & cs & Hsp & Htk & -> & Hlast). cbn [Z.eqb Pos.eqb].
  apply last_app in Hlast as [anc' ->].
  destruct (leaf_facts Hsp) as (Hl & (hi & Hrep) & Hs & He). destruct (spine_distinct Hbt Hus Hsp) as (_ & Hlu & _). unwrap.
  destruct (ins_found_eq Hkey Hidb Hval Hid Hk Hv h leaf cs hi Hh Hl Hrep) as (h1 & done & -> & Hdone). cbn [mbind option_bind].
  destruct Hdone as [[-> ->]|[-> Hadd]].
  2: { destruct (grow_leaf Hsp h1 Hadd) as (LV' & Hb & Hp). by apply (inserted_ok _ _ _ _ LV'); [lia|..]. }
  destruct (insert_in Hkey Hidb Hval Hid Hk Hv h leaf cs hi Hh Hl Hrep) as (h1 & st & -> & Hor). cbn [mbind option_bind].
  destruct Hor as [(-> & -> & Hlt)|[-> Hadd]]; cbn [Z.eqb negb].
  2: { destruct (grow_leaf Hsp h1 Hadd) as (LV' & Hb & Hp). by apply (inserted_ok _ _ _ _ LV'); [lia|..]. }
  pose proof (leaf_full Hsp hi Hrep Hlt) as Hfull.
  unwrap. ifcase; [lia|]. ifcase; [by apply inserted_fail|].
  destruct (bt_cow_page_eq pub h np used mask' Hh Hsrc ltac:(lia)) as (h2 & mask2 & -> & Hcg & _). cbn [mbind option_bind].
  destruct (grow_split Hsp h2 Hcg ltac:(lia)) as (h3 & ok & -> & Hor). cbn [mbind option_bind]. ifcase; [by apply inserted_fail|].
  destruct Hor as [?|(h4 & done & -> & Hdone)]; [lia|]. cbn [mbind option_bind]. destruct done; [|by apply inserted_fail]. cbn [negb].
  destruct (Hdone eq_refl) as (LV' & mk & HP & HR & Hperm).
  destruct (ins_attach_eq Hsrc h4 anc' leaf used mk mask2 par v28 HP HR ltac:(lia) H28) as (h5 & st5 & -> & Hst & Hcnt).
  { rewrite <- Htk at 2. f_equal. unfold len. lia. }
  exists h5, st5. split; [done|]. destruct Hst as [?|(Hok & Hu & Hb)]; [by left|]. right. split_and!; [done | lia | lia | by apply Hcnt | by exists LV'].
Qed.

(** The root is a leaf. *)
Section Root.
Context {cs : list cell}.
Hypothesis Hcs : LV = [(root, cs)].
Hypothesis Hips : IPS = [].

Lemma root_spine : spine h np root key LV IPS [] [] [] [] [] root None None [(root, cs)] [].
Proof. pose proof (bt_tree _ _ _ _ _ Hbt) as Ht. rewrite Hcs, Hips in *. by constructor. Qed.

Lemma root_link : link (page h root) = 0.
Proof. pose proof (bt_chain _ _ _ _ _ Hbt) as Hc. rewrite Hcs in Hc. apply Hc. Qed.

Lemma root_cow mask : exists mask', bt_cow_page pub (Some h) n root mask = Some (Some h, mask').
Proof.
  destruct (leaf_facts root_spine) as (Hl & _). pose proof (bt_heap _ _ _ _ _ Hbt) as Hh.
  destruct (bt_cow_page_eq pub h np root mask Hh Hsrc Hl) as (h1 & mask1 & -> & _ & Hsame). rewrite Hsame; [eauto|].
  eapply synced_sub; [|exact Hsync]. by rewrite Hcs, Hips.
Qed.

Definition looked (full : bool) (h1 : list Z) (r : Db_bt_heap_st_t + Z * Z) : Prop :=
  match r with inl st => inserted h1 st | inr (v, _) => h1 = h /\ v = root /\ (full = true -> ~ roomy) end.

Lemma grow_root full h1 mask : added (np:=np) (key:=key) (id:=vid) (val:=val) h root cs h1 ->
  exists h2 r, Some (Some h1, inl (st_ok (Some h1) n np root used mask)) = Some (Some h2, r) /\ looked full h2 r.
Proof.
  intros Hadd. destruct (grow_leaf root_spine h1 Hadd) as (LV' & Hb & Hp).
  destruct (inserted_ok h1 root used mask LV' ltac:(lia) Hb Hp) as (h2 & st & [= <- <-] & Hi). by eexists _, _.
Qed.

Lemma leaf_find_eq fuel mask v18 : exists h1 r,
  leaf_find (S fuel) pub (Some h) n np root used (Some key) (len key) (Some vid) (Some val) (len val) 0 root v18 mask = Some (Some h1, r) /\
  looked false h1 r.
Proof.
  destruct (leaf_facts root_spine) as (Hl & (hi & Hrep) & _). pose proof (bt_heap _ _ _ _ _ Hbt) as Hh.
  pose proof (page_at _ _ _ Hh Hl) as Hat. destruct (at_facts Hat) as (? & ? & ? & ?).
  cbn [leaf_find]. replace (root >=? np) with false by lia. destruct (root_cow mask) as [mask1 ->]. cbn [mbind option_bind]. unwrap.
  destruct (bt_get_at_eq _ _ _ _ _ _ _ _ Hat Hrep Hk) as [l ->]. cbn [mbind option_bind].
  destruct (ins_found_eq Hkey Hidb Hval Hid Hk Hv h root cs hi Hh Hl Hrep) as (h2 & done & -> & Hdone). cbn [mbind option_bind].
  destruct Hdone as [[-> ->]|[-> Hadd]]; [|by apply grow_root].
  rewrite (bt_read_link _ _ _ _ Hat), root_link. destruct (negb _); eexists _, _; split; done.
Qed.

Lemma leaf_insert_eq fuel mask v18 : exists h1 r,
  leaf_insert (S fuel) pub (Some h) n np root used (Some key) (len key) (Some vid) (Some val) (len val) root v18 mask = Some (Some h1, r) /\
  looked true h1 r.
Proof.
  destruct (leaf_facts root_spine) as (Hl & (hi & Hrep) & _). pose proof (bt_heap _ _ _ _ _ Hbt) as Hh.
  pose proof (page_at _ _ _ Hh Hl) as Hat. destruct (at_facts Hat) as (? & ? & ? & ?).
  cbn [leaf_insert]. replace (root >=? np) with false by lia. destruct (root_cow mask) as [mask1 ->]. cbn [mbind option_bind]. unwrap.
  destruct (insert_in Hkey Hidb Hval Hid Hk Hv h root cs hi Hh Hl Hrep) as (h1 & st & -> & Hor). cbn [mbind option_bind].
  destruct Hor as [(-> & -> & Hlt)|[-> Hadd]]; cbn [Z.eqb negb]; [|by apply grow_root].
  rewrite (bt_read_link _ _ _ _ Hat), root_link. pose proof (leaf_full root_spine hi Hrep Hlt). eexists _, _; split; done.
Qed.

Lemma ins_leaf_eq mask : np <> 2 ->
  exists h2 st, ins_leaf pub (Some h) n np root used mask (Some key) (len key) (Some vid) (Some val) (len val) 0 = Some (Some h2, st) /\
    inserted h2 st.
Proof.
  intros Hn2. destruct (btree_size _ _ _ _ _ Hbt) as (Hsize & Hlv & Hroot & Hsmall). pose proof used_pos.
  pose proof (bt_heap _ _ _ _ _ Hbt) as Hh. pose proof (len_nonneg IPS). destruct (spine_distinct Hbt Hus root_spine) as (_ & Hlu & _).
  unfold ins_leaf. replace (Z.to_nat np) with (S (Z.to_nat np - 1)) by lia.
  destruct (leaf_find_eq (Z.to_nat np - 1) mask root) as (h1 & r & -> & Hr). cbn [mbind option_bind].
  destruct r as [st|[v mask1]]; [by eexists _, _|]. destruct Hr as (-> & -> & _).
  destruct (leaf_insert_eq (Z.to_nat np - 1) mask1 root) as (h1 & r & -> & Hr). cbn [mbind option_bind].
  destruct r as [st|[v mask2]]; [by eexists _, _|]. destruct Hr as (-> & -> & Hfull). specialize (Hfull eq_refl). rewrite Z.eqb_refl. cbn [negb].
  ifcase; [by apply inserted_fail|]. unwrap. destruct ((np >? 2) && _) eqn:E; [by apply inserted_fail|].
  assert (used + 2 <= np) by lia. destruct (root_cow mask2) as [mask3 ->]. cbn [mbind option_bind].
  destruct (bt_cow_page_eq pub h np used mask3 Hh Hsrc ltac:(lia)) as (h2 & mask4 & -> & Hcg & _). cbn [mbind option_bind].
  destruct (grow_split root_spine h2 Hcg ltac:(lia)) as (h3 & ok & -> & Hor). cbn [mbind option_bind]. ifcase; [by apply inserted_fail|].
  destruct Hor as [?|(h4 & done & -> & Hdone)]; [lia|]. cbn [mbind option_bind]. destruct done; [|by apply inserted_fail]. cbn [negb].
  destruct (Hdone eq_refl) as (LV' & mk & HP & HR & Hperm). replace (used + 1 <? np) with true by lia.
  destruct (pending_pair _ _ _ _ _ _ _ _ _ _ _ _ _ HP) as (Hh4 & Ha & Hb & Han & Hbn & Hb64 & Hmk).
  destruct (bt_cow_page_eq pub h4 np (used + 1) mask4 Hh4 Hsrc ltac:(lia)) as (h5 & mask5 & -> & Hcg5 & _). cbn [mbind option_bind].
  assert (Hl5 : forall q, q ∈ [used + 1] -> used + 1 <= q) by (intros q; rewrite list_elem_of_singleton; lia).
  pose proof (pending_frame _ _ _ _ _ _ _ _ _ _ _ _ _ _ _ HP ltac:(lia) Hcg5 Hl5) as HP5.
  assert (HR5 : first_key h5 used mk) by (eapply first_key_frame; [exact HR | exact Hcg5 | lia | rewrite list_elem_of_singleton; lia]).
  destruct HR5 as (csR & hiR & cR & HrR & HcR & <-). destruct Hcg5 as [Hh5 _].
  destruct (bt_make_internal_eq h5 np root used (used + 1) 1 16 csR hiR cR Hh5 ltac:(lia) ltac:(lia) ltac:(lia) ltac:(lia) ltac:(lia) HrR HcR Hmk)
    as (h6 & ok6 & -> & Hor6). cbn [mbind option_bind]. ifcase; [by apply inserted_fail|].
  destruct Hor6 as [?|(_ & q & hi6 & -> & Hq & Hlq)]; [lia|]. pose proof (rep_page _ _ _ _ _ Hq) as Hqp.
  pose proof (page_put_eq h5 np (used + 1) q Hh5 ltac:(lia) Hqp) as Eq.
  apply (inserted_ok _ _ _ _ LV'); [lia | | done].
  eapply (pending_root _ _ _ _ _ _ _ (used + 1)); [exact HP5 | by apply changed_put; [|lia|] | lia | lia | lia | | | lia]; rewrite Eq; done.
Qed.
End Root.
End Grow.

End BtGrow.
