(* ===== verification/BtStore.v ===== *)
(** * The B-tree as a store of versions (src/pkg/c2db/db_btree_gen.go)

    What the insertion and the snapshot read promise to the engine: the buffer is
    a store of versions, read by key and snapshot; and the count of versions the
    insertion reports. *)

From stdpp Require Import sorting.
From S2P Require Import Prelude Bytes PageKernel BtMem BtLeaf BtVersion BtHeap BtTree BtSplit BtIntern BtSpine BtInsert BtInsertOk BtCut BtAttach BtGrow.
Import Bytes PageKernel BtMem BtLeaf BtVersion BtHeap BtTree BtSplit BtIntern BtSpine BtInsert BtInsertOk BtCut BtAttach BtGrow.

Local Open Scope Z_scope.

Module BtStore.

(** ** Versions in any order *)

Definition ver (c : cell) : list Z * list Z := (cKey c, cId c).
Definition distinct (vs : list cell) : Prop := NoDup (map ver vs).

Lemma distinct_eq vs c d : distinct vs -> c ∈ vs -> d ∈ vs -> ver c = ver d -> c = d.
Proof.
  unfold distinct. induction vs as [|e vs IH]; intros Hnd Hc Hd E; [by apply elem_of_nil in Hc|]. cbn in Hnd.
  apply NoDup_cons in Hnd as [Hni Hnd]. apply elem_of_cons in Hc as [->|Hc]; apply elem_of_cons in Hd as [->|Hd]; [done | | | by apply IH].
  - exfalso. apply Hni. rewrite E. apply list_elem_of_In, in_map. by apply list_elem_of_In.
  - exfalso. apply Hni. rewrite <- E. apply list_elem_of_In, in_map. by apply list_elem_of_In.
Qed.

Lemma distinct_perm vs vs' : vs ≡ₚ vs' -> distinct vs -> distinct vs'.
Proof. unfold distinct. intros Hp. by rewrite (Permutation_map ver Hp). Qed.

Lemma as_of_perm vs vs' key snap : vs ≡ₚ vs' -> distinct vs -> as_of vs key snap = as_of vs' key snap.
Proof.
  intros Hp Hd. pose proof (as_of_spec vs key snap) as H1. pose proof (as_of_spec vs' key snap) as H2.
  destruct (as_of vs key snap) as [c|], (as_of vs' key snap) as [d|]; try done.
  - destruct H1 as (Hc & [Ekc Hvc] & Hmc). destruct H2 as (Hdd & [Ekd Hvd] & Hmd). rewrite <- Hp in Hdd, Hmd.
    rewrite Forall_forall in Hmc, Hmd. specialize (Hmc d Hdd (conj Ekd Hvd)). specialize (Hmd c Hc (conj Ekc Hvc)).
    f_equal. apply (distinct_eq vs); try done. unfold ver. rewrite Ekc, Ekd. f_equal. apply Compare_eq.
    rewrite Compare_antisym in Hmc. lia.
  - destruct H1 as (Hc & Hv & _). rewrite <- Hp in H2. rewrite Forall_forall in H2. by destruct (H2 c Hc).
  - destruct H2 as (Hc & Hv & _). rewrite Hp in H1. rewrite Forall_forall in H1. by destruct (H1 d Hc).
Qed.

(** ** The count of versions *)

Lemma tree_leaves h np :
  (forall pg lo up lv ips, tree h np pg lo up lv ips -> Forall (fun l => 0 <= l.1 < np /\ exists hi, rep 16 (page h l.1) l.2 hi) lv) /\
  (forall c lo up sc lv ips, kids h np c lo up sc lv ips -> Forall (fun l => 0 <= l.1 < np /\ exists hi, rep 16 (page h l.1) l.2 hi) lv).
Proof.
  apply tree_kids_rules; try done.
  - intros pg lo up cs hi Hpg Hrep _ _. constructor; [|done]. cbn. eauto.
  - intros. by apply Forall_app_2.
Qed.

Lemma kids_first h np c lo up sc lv : kids h np c lo up sc lv [] -> exists cs lv', lv = (c, cs) :: lv'.
Proof.
  intros Hk. inversion Hk as [? ? ? ? ? Ht|? ? ? ? ? lv1 lv2 ips1 ips2 _ Ht _ E1 E2 E3 E4 E5 Eips]; subst.
  - inversion Ht; subst. eauto.
  - apply app_eq_nil in Eips as [-> _]. inversion Ht; subst. cbn. eauto.
Qed.

Lemma chain_next h l1 a b l2 : chain h (l1 ++ a :: b :: l2) -> link (page h a) = b /\ b <> 0.
Proof. induction l1 as [|x l1 IH]; cbn [app chain]; [tauto|]. intros [_ H]. by apply IH. Qed.
Lemma chain_last h l1 a : chain h (l1 ++ [a]) -> link (page h a) = 0.
Proof. induction l1 as [|x l1 IH]; cbn [app chain]; [tauto|]. intros [_ H]. by apply IH. Qed.

Lemma entries_len lv : Forall (fun l => len l.2 <= 8160) lv -> 0 <= len (entries lv) <= 8160 * len lv.
Proof.
  induction 1 as [|[pg cs] lv Hl _ IH]; [done|]. unfold entries in *. cbn [map concat snd] in *. rewrite len_app, len_cons.
  pose proof (len_nonneg cs). cbn in Hl. lia.
Qed.

(** The count when the root is a leaf or an internal page over leaves. *)
Lemma bt_heap_nkeys_eq h np root lv ips : btree h np root lv ips -> len ips <= 1 ->
  bt_heap_nkeys (Some h) (np * 0x4000) np root = len (entries lv).
Proof.
  intros Hbt Hips. destruct (btree_size _ _ _ _ _ Hbt) as (Hsize & Hlv & Hroot & Hsmall). destruct Hbt as [Hh Ht Hnd Hc].
  pose proof (page_at _ _ _ Hh Hroot) as Hat. destruct (at_facts Hat) as (? & ? & ? & ?).
  pose proof (proj1 (tree_leaves h np) _ _ _ _ _ Ht) as Hleaves. pose proof (len_nonneg ips).
  assert (Hcnt : Forall (fun l => len l.2 <= 8160) lv).
  { eapply Forall_impl; [exact Hleaves|]. intros l (_ & hi & Hr). by apply (rep_count Hr). }
  unfold bt_heap_nkeys. ifcase; [lia|]. unwrap.
  assert (Hfirst : exists cs lv', lv = ((if bt_read8 (Some h) (np * 0x4000) (root * 0x4000 + 20) =? 2
    then bt_read64 (Some h) (np * 0x4000) (root * 0x4000 + 8) else root), cs) :: lv').
  { inversion Ht as [? ? ? cs hi _ Hrep|? ? ? sc hi ? ips' _ Hrep _ Hk]; subst.
    - rewrite (at_type Hat Hrep) by done. cbn. eauto.
    - rewrite (at_type Hat Hrep) by done. cbn [Z.eqb Pos.eqb]. rewrite (bt_read_link _ _ _ _ Hat).
      rewrite len_cons in Hips. destruct ips' as [|x ips']; [by apply kids_first in Hk | rewrite len_cons in Hips; pose proof (len_nonneg ips'); lia]. }
  destruct Hfirst as (cs0 & lv0 & E0). set (v4 := if _ =? 2 then _ else root) in *.
  match goal with |- context [for_range 0 np ?body (v4, 0)] =>
    destruct (for_range_inv (S:=Z * Z) (R:=Z)
      (fun i st => exists l1 cs l2, lv = l1 ++ (st.1, cs) :: l2 /\ len l1 = i /\ st.2 = len (entries l1))
      (fun r => r = inr (len (entries lv))) 0 np body (v4, 0)) as (r & -> & ->); [lia | | | | done] end.
  - exists [], cs0, lv0. done.
  - intros i [pg acc] Hi (l1 & cs & l2 & El & Hl1 & Ha). cbn [fst snd] in *.
    assert (Hin : (pg, cs) ∈ lv) by (rewrite El, elem_of_app, elem_of_cons; tauto).
    rewrite Forall_forall in Hleaves. destruct (Hleaves _ Hin) as (Hpg & hi & Hr). cbn [fst snd] in *.
    pose proof (page_at _ _ _ Hh Hpg) as Hatp. destruct (at_facts Hatp) as (? & ? & _ & _). ifcase; [lia|]. unwrap.
    rewrite (at_type Hatp Hr) by done. cbn [Z.eqb Pos.eqb]. rewrite (at_count Hatp Hr) by done. rewrite (bt_read_link _ _ _ _ Hatp).
    rewrite El in Hcnt. apply Forall_app in Hcnt as [Hcnt1 Hcnt2]. apply Forall_cons_1 in Hcnt2 as [Hcntc _]. cbn in Hcntc.
    pose proof (entries_len _ Hcnt1). pose proof (len_nonneg cs). assert (len l1 <= np) by lia. rewrite (w64_small (acc + len cs)) by lia.
    destruct l2 as [|[pg2 cs2] l2].
    + rewrite El, map_app in Hc. cbn [map fst] in Hc. rewrite (chain_last _ _ _ Hc). cbn [Z.eqb]. f_equal.
      rewrite El, entries_app, len_app. unfold entries at 2. cbn. rewrite app_nil_r. by subst acc.
    + rewrite El, map_app in Hc. cbn [map fst] in Hc. destruct (chain_next _ _ _ _ _ Hc) as [-> Hne]. destruct (Z.eqb_spec pg2 0); [done|].
      assert (Hpp : pg2 <> pg).
      { intros ->. rewrite El in Hnd. unfold pages in Hnd. apply NoDup_app in Hnd as (_ & _ & Hnd). rewrite map_app in Hnd.
        apply NoDup_app in Hnd as (_ & _ & Hnd). cbn in Hnd. apply NoDup_cons in Hnd as [Hni _]. apply Hni. by left. }
      destruct (Z.eqb_spec pg2 pg); [done|]. exists (l1 ++ [(pg, cs)]), cs2, l2. split; [by rewrite <- app_assoc|].
      split; [rewrite len_app, len_single; lia|]. rewrite entries_app, len_app. unfold entries at 2. cbn. rewrite app_nil_r. by subst acc.
  - intros [pg acc] (l1 & cs & l2 & El & Hl1 & _). exfalso. rewrite El, len_app, len_cons in Hsize. pose proof (len_nonneg l2). lia.
Qed.

(** A root over internal pages, when the first leaf is page 0: the walk from the
    second level stops at the link 0 before any leaf. *)
Lemma bt_heap_nkeys_deep h np root X sc hi sc' hi' : heap_ok h np -> 0 <= root < np -> 0 <= X < np -> X <> 0 ->
  node 2 8 (page h root) sc hi -> link (page h root) = X -> node 2 8 (page h X) sc' hi' -> link (page h X) = 0 ->
  bt_heap_nkeys (Some h) (np * 0x4000) np root = 0.
Proof.
  intros Hh Hr HX Hne Hn Hl HnX HlX. pose proof (page_at _ _ _ Hh Hr) as Hat. pose proof (page_at _ _ _ Hh HX) as HatX.
  destruct (at_facts Hat) as (? & ? & ? & ?). destruct (at_facts HatX) as (? & ? & _ & _).
  unfold bt_heap_nkeys. ifcase; [lia|]. unwrap. rewrite (at_type Hat Hn) by done. cbn [Z.eqb Pos.eqb].
  rewrite (bt_read_link _ _ _ _ Hat), Hl. unfold for_range. replace (Z.to_nat (np - 0)) with (S (Z.to_nat (np - 1))) by lia.
  cbn [for_to]. replace (X >=? np) with false by lia. unwrap. rewrite (at_type HatX HnX) by done. cbn [Z.eqb Pos.eqb].
  by rewrite (bt_read_link _ _ _ _ HatX), HlX.
Qed.

(** ** The store *)

(** The abstract store: versions, and the value a snapshot sees for a key. *)
Definition vs_put (vs : list cell) (c : cell) : list cell := c :: vs.
Definition vs_get (vs : list cell) (key snap : list Z) : option (list Z) := cVal <$> as_of vs key snap.

#[export] Instance visible_dec key snap c : Decision (visible key snap c).
Proof. unfold visible. apply and_dec; apply _. Defined.

(** A read of the store with one more version: its value where the snapshot sees
    it and no newer version of the key, and what it was before elsewhere. *)
Lemma vs_get_put vs c key snap : distinct (vs_put vs c) ->
  vs_get (vs_put vs c) key snap =
    if decide (visible key snap c /\ Forall (fun d => visible key snap d -> Compare (cId d) (cId c) <= 0) vs)
    then Some (cVal c) else vs_get vs key snap.
Proof.
  intros Hd. unfold vs_get. rewrite (as_of_perm _ (vs ++ [c]) _ _ (Permutation_cons_append vs c) Hd), as_of_snoc.
  unfold as_of_step. pose proof (as_of_spec vs key snap) as H. destruct (decide _) as [[[Ek Hv] Hnew]|Hno].
  - rewrite Ek, Compare_refl. replace (Compare (cId c) snap <=? 0) with true by lia. cbn [Z.eqb andb].
    destruct (as_of vs key snap) as [d|]; [|done]. destruct H as (Hin & Hvd & _). destruct (id Hvd) as [Ekd _].
    rewrite Forall_forall in Hnew. specialize (Hnew d Hin Hvd). rewrite Z.gtb_ltb. destruct (Z.ltb_spec 0 (Compare (cId c) (cId d))); [done|].
    exfalso. assert (cId c = cId d) by (apply Compare_eq; pose proof (Compare_antisym (cId c) (cId d)); lia).
    unfold distinct, vs_put in Hd. cbn in Hd. apply NoDup_cons in Hd as [Hni _]. apply Hni.
    replace (ver c) with (ver d) by (unfold ver; congruence). apply list_elem_of_In, in_map. by apply list_elem_of_In.
  - destruct (Z.eqb_spec (Compare (cKey c) key) 0) as [E|]; [|done]. apply Compare_eq in E.
    destruct (Z.leb_spec (Compare (cId c) snap) 0); [|done]. cbn [andb]. destruct (as_of vs key snap) as [d|].
    + destruct H as (_ & _ & Hmax). rewrite Z.gtb_ltb. destruct (Z.ltb_spec 0 (Compare (cId c) (cId d))) as [Hgt|]; [|done].
      destruct Hno. split; [done|]. eapply Forall_impl; [exact Hmax|]. intros e He Hve. specialize (He Hve).
      assert (Hlt : blt (cId d) (cId c)) by (unfold blt; rewrite Compare_antisym; lia).
      destruct (Z.le_gt_cases (Compare (cId e) (cId c)) 0) as [|Hec]; [done|]. exfalso.
      assert (Hde : blt (cId d) (cId e)) by (eapply blt_ge_trans; [done | lia]). unfold blt in Hde. rewrite Compare_antisym in Hde. lia.
    + destruct Hno. split; [done|]. eapply Forall_impl; [exact H|]. intros e He Hve. by destruct He.
Qed.

(** The buffer holds the versions [vs] in a tree at [root], whose pages are below
    [used]. *)
Definition store (h : list Z) (np root used : Z) (vs : list cell) : Prop :=
  exists LV IPS, btree h np root LV IPS /\ Forall (fun q => 0 <= q < used) (pages LV IPS) /\ used <= np /\
    entries LV ≡ₚ vs /\ distinct vs.

(** The working buffer starts as the published one. *)
Definition in_step (pub : source) (h : list Z) : Prop := pub = Same \/ pub = Separate (Some h).

Lemma in_step_ok pub h np pgs : heap_ok h np -> in_step pub h -> source_ok pub np /\ synced pub h pgs.
Proof. intros Hh [->| ->]; [done|]. split; exists h; split; try done. unfold agree. by apply Forall_forall. Qed.

Lemma store_get h np root used vs key snap out :
  store h np root used vs -> 0 < len key <= 0xffff -> len snap = 16 -> len out < 2 ^ 64 ->
  exists w, 1 <= w <= np /\
    Db_bt_get_as_of_heap (Some h) (np * 0x4000) np root (Some key) (len key) (Some snap) (Some out) (len out)
    = walked_result w (get_result (vs_get vs key snap) out).
Proof.
  intros (LV & IPS & Hbt & _ & _ & Hp & Hd) Hk Hs Ho. destruct (Db_bt_get_as_of_heap_eq h np root LV IPS key snap out Hbt Hk Hs Ho) as (w & Hw & ->).
  exists w. split; [done|]. unfold vs_get. rewrite (as_of_perm vs (entries LV)); [done | by symmetry | done].
Qed.

Lemma insert_eq h np root used LV IPS pub key id val :
  btree h np root LV IPS -> Forall (fun q => 0 <= q < used) (pages LV IPS) -> used <= np -> in_step pub h -> np <> 2 ->
  bytes_ok key -> bytes_ok id -> bytes_ok val -> len id = 16 -> 0 < len key <= 0xffff -> len val <= 0xffff ->
  exists h' st, Db_bt_insert_ver_heap pub (Some h) (np * 0x4000) np root used (Some key) (len key) (Some id) (Some val) (len val)
      = Some (Some h', st) /\ inserted (h:=h) (np:=np) (key:=key) (vid:=id) (val:=val) (LV:=LV) (IPS:=IPS) (used:=used) h' st.
Proof.
  intros Hbt Hus Hnp Hstep Hn2 Hkey Hidb Hval Hid Hk Hv. destruct (btree_size _ _ _ _ _ Hbt) as (Hsize & Hlv & Hroot & Hsmall).
  pose proof (bt_heap _ _ _ _ _ Hbt) as Hh. destruct (in_step_ok pub h np (pages LV IPS) Hh Hstep) as [Hsrc Hsy].
  pose proof (used_pos Hbt Hus). pose proof (len_nonneg val).
  unfold Db_bt_insert_ver_heap, bt_insert_ver_heap_impl. assert (is_nil (source_bytes pub (Some h)) = false) as -> by (destruct Hstep as [->| ->]; done).
  cbn [is_nil orb]. ifcase; [lia|]. rewrite size_good by lia. repeat (ifcase; [lia|]). rewrite andb_false_r.
  replace (root >=? np) with false by lia. replace (if used =? 0 then 1 else used) with used by (ifcase; [lia | done]).
  destruct (bt_cow_page_eq pub h np root 0 Hh Hsrc Hroot) as (h1 & mask & -> & _ & Hsame). rewrite Hsame.
  2: { eapply synced_sub; [|exact Hsy]. intros q Hq. apply list_elem_of_singleton in Hq as ->.
       apply (proj2 (proj1 (tree_pages_rules h np) _ _ _ _ _ (bt_tree _ _ _ _ _ Hbt))). }
  cbn [mbind option_bind]. pose proof (page_at _ _ _ Hh Hroot) as Hat. destruct (at_facts Hat) as (? & ? & ? & ?). unwrap.
  pose proof (bt_tree _ _ _ _ _ Hbt) as Ht. inversion Ht as [? ? ? cs hi _ Hrep|? ? ? sc hi ? ips' _ Hrep]; subst;
    rewrite (at_type Hat Hrep) by done; cbn [Z.eqb Pos.eqb].
  - by apply (ins_leaf_eq Hbt Hus Hnp Hsrc Hkey Hidb Hval Hid Hk Hv Hsy eq_refl eq_refl).
  - by apply (ins_tree_eq Hbt Hus Hnp Hsrc Hkey Hidb Hval Hid Hk Hv Hsy).
Qed.

Lemma store_put h np root used vs pub key id val :
  store h np root used vs -> in_step pub h -> np <> 2 ->
  bytes_ok key -> bytes_ok id -> bytes_ok val -> len id = 16 -> 0 < len key <= 0xffff -> len val <= 0xffff ->
  let c := {| cKey := key; cId := id; cVal := val |} in
  ver c ∉ map ver vs ->
  exists h' st, Db_bt_insert_ver_heap pub (Some h) (np * 0x4000) np root used (Some key) (len key) (Some id) (Some val) (len val)
      = Some (Some h', st) /\
    (h_Ok st = 0 \/ h_Ok st = 1 /\ used <= h_Used st /\ store h' np (h_Root st) (h_Used st) (vs_put vs c)).
Proof.
  intros (LV & IPS & Hbt & Hus & Hnp & Hp & Hd) Hstep Hn2 Hkey Hidb Hval Hid Hk Hv c Hfresh.
  destruct (insert_eq h np root used LV IPS pub key id val) as (h' & st & -> & Hins); [done..|].
  exists h', st. split; [done|]. destruct Hins as [[? _]|(Hok & Hu & _ & LV' & (IPS' & Hbt' & Hus') & Hp')]; [by left|]. right.
  split; [done|]. split; [lia|]. exists LV', IPS'. split_and!; try done; [lia | | ].
  - rewrite Hp'. unfold vs_put. by rewrite Hp.
  - unfold distinct. cbn. by apply NoDup_cons.
Qed.

(** With room in every leaf the insertion is accepted. *)
Lemma store_accepts h np root used LV IPS pub key id val :
  btree h np root LV IPS -> Forall (fun q => 0 <= q < used) (pages LV IPS) -> used <= np -> distinct (entries LV) ->
  in_step pub h -> np <> 2 ->
  bytes_ok key -> bytes_ok id -> bytes_ok val -> len id = 16 -> 0 < len key <= 0xffff -> len val <= 0xffff ->
  let c := {| cKey := key; cId := id; cVal := val |} in
  ver c ∉ map ver (entries LV) -> roomy (h:=h) (key:=key) (vid:=id) (val:=val) (LV:=LV) (IPS:=IPS) ->
  exists h' st, Db_bt_insert_ver_heap pub (Some h) (np * 0x4000) np root used (Some key) (len key) (Some id) (Some val) (len val)
      = Some (Some h', st) /\ h_Ok st = 1 /\ store h' np (h_Root st) (h_Used st) (vs_put (entries LV) c).
Proof.
  intros Hbt Hus Hnp Hd Hstep Hn2 Hkey Hidb Hval Hid Hk Hv c Hfresh Hroomy.
  destruct (insert_eq h np root used LV IPS pub key id val) as (h' & st & -> & Hins); [done..|].
  exists h', st. split; [done|]. destruct Hins as [[_ Hno]|(Hok & Hu & _ & LV' & (IPS' & Hbt' & Hus') & Hp')]; [done|].
  split; [done|]. exists LV', IPS'. split_and!; try done; [lia|]. unfold distinct. cbn. by apply NoDup_cons.
Qed.

(** ** Reading for the engine (src/pkg/c2db/engine.go) *)

(** [getRawAsOfHeap]: a probe without buffer for the length, then the value.  The
    inner [None] is [errNotFound]. *)
Definition getRawAsOfHeap (heap : list Z) (root : Z) (key snap : list Z) : option (option (list Z)) :=
  b ← (if len heap >=? 0x4000 then x ← idx heap 20; Some (x =? 0) else Some false);
  if (b : bool) then Some None else
  let nbytes := len heap in
  let npages := nbytes / 0x4000 in
  '(probe, _) ← Db_bt_get_as_of_heap (Some heap) nbytes npages root (Some key) (len key) (Some snap) None 0;
  if Found probe =? 0 then Some None else
  '(got, out) ← Db_bt_get_as_of_heap (Some heap) nbytes npages root (Some key) (len key) (Some snap)
                  (Some (zeros (Len probe))) (Len probe);
  if Found got =? 0 then Some None else
  if Len got <=? slen out then Some (Some (sub (bytes_of out) 0 (Len got))) else None.

(** With the capacity 0 nothing is copied: the buffer comes back as it was. *)
Definition with_out (out : slice) (r : option (Db_bt_get_t * slice)) : option (Db_bt_get_t * slice) := '(g, _) ← r; Some (g, out).

Lemma probe_at h n base key klen snap out :
  bt_get_as_of_at h n base key klen snap out 0 = with_out out (bt_get_as_of_at h n base key klen snap None 0).
Proof.
  unfold bt_get_as_of_at, with_out. do 3 (case_match; [done|]).
  destruct (for_range _ _ _ _) as [[[[? ?]|]|]|]; try done. cbn [mbind option_bind is_nil negb andb].
  match goal with |- context [if ?v >? 0 then 0 else ?v] => assert (((if v >? 0 then 0 else v) >? 0) = false) as -> by
    (rewrite !Z.gtb_ltb; destruct (Z.ltb_spec 0 v); [done | by apply Z.ltb_ge]) end.
  by rewrite andb_false_r.
Qed.

Lemma probe_chain fuel h n np key klen snap out v10 v11 g :
  get_chain fuel h n np key klen snap out 0 v10 v11 g = with_out out (get_chain fuel h n np key klen snap None 0 v10 v11 g).
Proof.
  revert v10 v11 g. induction fuel as [|fuel IH]; intros v10 v11 g; [done|]. cbn [get_chain]. case_match; [done|].
  rewrite probe_at. destruct (bt_get_as_of_at _ _ _ _ _ _ None 0) as [[g' o]|] eqn:E; [|done]. cbn [with_out mbind option_bind].
  pose proof (probe_at h n (w64 (v10 * 0x4000)) key klen snap None) as H0. rewrite E in H0. cbn in H0. injection H0 as ->. do 3 (case_match; [done|]). apply IH.
Qed.

Lemma probe_heap h n np root key klen snap out :
  Db_bt_get_as_of_heap h n np root key klen snap out 0 = with_out out (Db_bt_get_as_of_heap h n np root key klen snap None 0).
Proof.
  unfold Db_bt_get_as_of_heap. do 4 (case_match; [done|]).
  destruct (get_descend _ _ _ _ _ _ _ _) as [[w|[[v10 v11] v15]]|]; [done | | done]. cbn [mbind option_bind].
  case_match; [done|]. case_match; [|apply probe_chain]. rewrite probe_at.
  by destruct (bt_get_as_of_at _ _ _ _ _ _ None 0) as [[g' o]|].
Qed.

Lemma as_of_in vs key snap c : as_of vs key snap = Some c -> c ∈ vs.
Proof. intros E. pose proof (as_of_spec vs key snap) as H. rewrite E in H. apply H. Qed.

(** The values of a store are at most a page long. *)
Lemma store_value h np root used vs c : store h np root used vs -> c ∈ vs -> len (cVal c) <= 0x4000.
Proof.
  intros (LV & IPS & Hbt & _ & _ & Hp & _) Hc. rewrite <- Hp in Hc. unfold entries in Hc. apply list_elem_of_In, in_concat in Hc as (l & Hl & Hc).
  apply in_map_iff in Hl as ([pg cs] & <- & Hl). apply list_elem_of_In in Hl, Hc. pose proof (proj1 (tree_leaves h np) _ _ _ _ _ (bt_tree _ _ _ _ _ Hbt)) as Hls.
  rewrite Forall_forall in Hls. destruct (Hls _ Hl) as (_ & hi & Hrep). cbn in *. apply list_elem_of_lookup in Hc as [i Hi].
  destruct (rep_cell Hrep (Z.of_nat i) c ltac:(lia) ltac:(by rewrite Nat2Z.id)) as (_ & _ & ? & Hend & _). unfold clen in Hend.
  pose proof (len_nonneg (cKey c)). pose proof (len_nonneg (cId c)). lia.
Qed.

Lemma getRawAsOfHeap_eq h np root used vs key snap :
  store h np root used vs -> rd h 20 <> 0 -> 0 < len key <= 0xffff -> len snap = 16 ->
  getRawAsOfHeap h root key snap = Some (vs_get vs key snap).
Proof.
  intros Hst Hty Hk Hs. destruct (id Hst) as (LV & IPS & Hbt & _ & _ & _ & _). destruct (btree_size _ _ _ _ _ Hbt) as (Hsize & Hlv & Hroot & Hsmall).
  destruct (bt_heap _ _ _ _ _ Hbt) as [Hl _ _]. pose proof (len_nonneg IPS).
  unfold getRawAsOfHeap. replace (len h >=? 0x4000) with true by lia. rewrite idx_rd by lia. cbn [mbind option_bind].
  replace (rd h 20 =? 0) with false by lia. rewrite Hl, Z.div_mul by lia.
  pose proof (store_get h np root used vs key snap [] Hst Hk Hs ltac:(done)) as (w & Hw & E0).
  change (len []) with 0 in E0. rewrite probe_heap in E0.
  destruct (Db_bt_get_as_of_heap _ _ _ _ _ _ _ None 0) as [[g o]|]; [|by destruct (vs_get vs key snap)].
  cbn [with_out mbind option_bind] in *. destruct (vs_get vs key snap) as [v|] eqn:Ev; cbn in E0; injection E0 as ->; cbn [walked Found Len Z.eqb]; [|done].
  unfold vs_get in Ev. destruct (as_of vs key snap) as [c|] eqn:Ec; [|done]. injection Ev as Ev. pose proof (as_of_in _ _ _ _ Ec) as Hin.
  pose proof (store_value _ _ _ _ _ _ Hst Hin). rewrite Ev in *. pose proof (len_nonneg v).
  assert (Hz : len (zeros (len v)) = len v) by (apply len_zeros; lia).
  pose proof (store_get h np root used vs key snap (zeros (len v)) Hst Hk Hs ltac:(lia)) as (w2 & _ & E2). rewrite Hz in E2. rewrite E2.
  unfold vs_get. rewrite Ec. cbn [fmap option_fmap option_map]. rewrite Ev. cbn [get_result walked_result mbind option_bind walked Found Len Z.eqb slen bytes_of default].
  rewrite Hz, Z.min_id, sub_full. unfold slen, bytes_of, id in *. cbn [default]. unfold id. rewrite len_copy_at, Hz, Z.leb_refl. do 2 f_equal.
  rewrite <- (Z.add_0_l (len v)) at 2. apply sub_copy_at_eq; lia.
Qed.

End BtStore.
