(* ===== verification/BtLaws.v ===== *)
(** * Properties of the B-tree of many pages (src/pkg/c2db/db_btree_gen.go)

    The theorems about the whole tree, each with a concrete tree where its
    hypotheses hold. *)

From stdpp Require Import sorting.
From S2P Require Import Prelude Bytes PageKernel BtMem BtLeaf BtVersion BtHeap BtTree BtSplit BtIntern BtSpine BtInsert BtInsertOk BtCut BtAttach BtGrow BtStore.
Import Bytes PageKernel BtMem BtLeaf BtVersion BtHeap BtTree BtSplit BtIntern BtSpine BtInsert BtInsertOk BtCut BtAttach BtGrow BtStore.

Local Open Scope Z_scope.

Module BtLaws.

(** ** Buffers made of given pages *)

Lemma concat_heap ps : Forall page_ok ps -> len ps * 0x4000 < 2 ^ 63 ->
  heap_ok (concat ps) (len ps) /\ forall i p, ps !! i = Some p -> page (concat ps) (Z.of_nat i) = p.
Proof.
  intros Hps Hsm. assert (Hl : len (concat ps) = len ps * 0x4000).
  { clear Hsm. induction Hps as [|p ps [Hp _] _ IH]; [done|]. cbn. rewrite len_app, len_cons. lia. }
  split; [split; [done | | lia]|].
  - clear Hsm Hl. induction Hps as [|p ps [_ Hp] _ IH]; [constructor|]. cbn. by apply bytes_ok_app.
  - clear Hsm Hl. induction Hps as [|q ps Hq _ IH]; intros i p Hi; [done|]. destruct Hq as [Hq _].
    unfold page in *. destruct i as [|i]; cbn [concat].
    + injection Hi as ->. rewrite Z.mul_0_l, Z.add_0_l, <- Hq. rewrite sub_app_l by lia. apply sub_full.
    + rewrite sub_app_r by lia. rewrite <- (IH i p Hi). f_equal; lia.
Qed.

(** A page of type [ty] with the cells [cs], linked to [v]. *)
Lemma build ty idl v cs : 0 <= ty < 256 -> 0 <= idl -> Forall (fun c => bytes_ok (cell_bytes c) /\ len (cId c) = idl /\ clen c <= 100) cs ->
  len cs <= 100 -> 0 <= v < 2 ^ 64 -> exists p hi, node ty idl p cs hi /\ link p = v /\ 0x4000 - 100 * len cs <= hi.
Proof.
  intros Hty Hidl Hcs Hn Hv. induction cs as [|c cs IH] using rev_ind.
  - assert (Hz : page_ok (zeros 0x4000)) by (split; [by apply len_zeros | apply bytes_ok_zeros]).
    assert (Hw : page_ok (wr (zeros 0x4000) 20 ty)) by (destruct Hz; split; [by rewrite len_wr | by apply bytes_ok_wr]).
    exists (copy_at (set_hdr (wr (zeros 0x4000) 20 ty) 0 64 0x4000) 8 (le_put 8 v)), 0x4000.
    assert (Hnode : node ty idl (set_hdr (wr (zeros 0x4000) 20 ty) 0 64 0x4000) [] 0x4000).
    { apply (rep_set_hdr ty idl _ [] 0x4000); [done | apply rd_wr_eq; rewrite len_zeros by lia; lia | | done]. unfold slot_addr. change (len []) with 0. lia. }
    split; [by apply node_link|]. split; [apply link_put; [apply (rep_page _ _ _ _ _ Hnode) | done] | done].
  - rewrite len_app, len_single in *. pose proof (len_nonneg cs). apply Forall_app in Hcs as [Hcs Hc]. apply Forall_cons_1 in Hc as [(Hb & Hi & Hl) _].
    destruct (IH Hcs ltac:(lia)) as (p & hi & Hp & Hlk & Hhi).
    destruct (append_rep ty idl p cs hi c Hp Hb Hi) as [Hq Hsame]; [unfold slot_addr; lia|].
    eexists _, _. split; [exact Hq|]. split; [|lia]. rewrite <- Hlk. apply same_head_link; [apply (rep_page _ _ _ _ _ Hp) | apply (rep_page _ _ _ _ _ Hq) | done].
Qed.

(** Two versions of one key in a leaf, one of a greater key in the next, and a root. *)
Definition ex1 : cell := {| cKey := [7]; cId := zeros 15 ++ [1]; cVal := [10] |}.
Definition ex2 : cell := {| cKey := [7]; cId := zeros 15 ++ [5]; cVal := [20] |}.
Definition ex3 : cell := {| cKey := [9]; cId := zeros 15 ++ [2]; cVal := [30] |}.

Definition ex_leaves : list (Z * list cell) := [(0, [ex1; ex2]); (1, [ex3])].

Lemma ex_tree : exists h, btree h 4 2 ex_leaves [2] /\ rd h 20 = 1 /\
  Forall (fun l => forall hi, rep 16 (page h l.1) l.2 hi -> 16000 <= hi) ex_leaves.
Proof.
  assert (Hb : forall c, c = ex1 \/ c = ex2 \/ c = ex3 -> bytes_ok (cell_bytes c) /\ len (cId c) = 16 /\ clen c <= 100).
  { intros c [->|[->| ->]]; (split; [|split; [done | vm_compute; done]]);
      (apply bytes_ok_cell; [repeat constructor; lia | apply bytes_ok_app; [apply bytes_ok_zeros | repeat constructor; lia] | repeat constructor; lia]). }
  destruct (build 1 16 1 [ex1; ex2]) as (p0 & hi0 & H0 & L0 & I0); [lia | lia | do 2 (constructor; [apply Hb; tauto|]); done | done | lia|].
  destruct (build 1 16 0 [ex3]) as (p1 & hi1 & H1 & L1 & I1); [lia | lia | constructor; [apply Hb; tauto | done] | done | lia|].
  destruct (build 2 8 0 [sep [9] 1]) as (p2 & hi2 & H2 & L2 & _); [lia | lia | | done | lia|].
  { constructor; [|done]. split; [apply bytes_ok_sep; repeat constructor; lia|]. split; done. }
  pose proof (rep_page _ _ _ _ _ H0). pose proof (rep_page _ _ _ _ _ H1). pose proof (rep_page _ _ _ _ _ H2).
  assert (Hz : page_ok (zeros 0x4000)) by (split; [by apply len_zeros | apply bytes_ok_zeros]).
  destruct (concat_heap [p0; p1; p2; zeros 0x4000]) as [Hh Hpages]; [do 4 (constructor; [done|]); done | by vm_compute |].
  set (h := concat _) in *. pose proof (Hpages 0%nat p0 eq_refl) as E0. pose proof (Hpages 1%nat p1 eq_refl) as E1. pose proof (Hpages 2%nat p2 eq_refl) as E2.
  change (Z.of_nat 0) with 0 in E0. change (Z.of_nat 1) with 1 in E1. change (Z.of_nat 2) with 2 in E2. rewrite <- E0 in H0, L0. rewrite <- E1 in H1, L1. rewrite <- E2 in H2, L2. clear Hpages. clearbody h.
  change (len [p0; p1; p2; zeros 0x4000]) with 4 in Hh.
  exists h. split; [split; [done | | | ]|split].
  - eapply tree_node; [done | exact H2 | by (constructor; [done|])|]. rewrite L2.
    apply (kids_sep h 4 0 None None (sep [9] 1) [] [(0, [ex1; ex2])] [(1, [ex3])] [] []).
    + split; [|done]. by split.
    + eapply tree_leaf; [done | exact H0 | | ].
      * constructor; [repeat constructor|]. by constructor.
      * do 2 (constructor; [split; [split; [done | by vm_compute] | done]|]). done.
    + constructor. eapply tree_leaf; [done | exact H1 | by repeat constructor |].
      constructor; [|done]. split; [split; [by vm_compute | done] | done].
  - change (NoDup [2; 0; 1]). by apply (bool_decide_unpack (NoDup [2; 0; 1])); vm_compute.
  - split; [split; [exact L0 | done] | split; [exact L1 | exact I]].
  - rewrite <- (rep_leaf _ _ _ _ _ H0). unfold page. rewrite rd_sub by lia. f_equal.
  - repeat constructor; cbn; intros hi Hr.
    + pose proof (rep_hi _ _ _ _ _ H0) as X. pose proof (rep_hi _ _ _ _ _ Hr). rewrite X in *. change (len [ex1; ex2]) with 2 in I0. lia.
    + pose proof (rep_hi _ _ _ _ _ H1) as X. pose proof (rep_hi _ _ _ _ _ Hr). rewrite X in *. change (len [ex3]) with 1 in I1. lia.
Qed.

Definition ex_versions : list cell := [ex1; ex2; ex3].

Lemma ex_store : exists h, store h 4 2 3 ex_versions /\ rd h 20 <> 0 /\ btree h 4 2 ex_leaves [2] /\
  Forall (fun l => forall hi, rep 16 (page h l.1) l.2 hi -> 16000 <= hi) ex_leaves.
Proof.
  destruct ex_tree as (h & Hbt & Hty & Hroom). exists h. split; [|split; [lia | done]].
  exists ex_leaves, [2]. split_and!; [done | | lia | done |].
  { change (Forall (fun q => 0 <= q < 3) [2; 0; 1]). do 3 (constructor; [lia|]). done. }
  unfold distinct. by apply (bool_decide_unpack _); vm_compute.
Qed.

(** ** Properties *)

(** C7: the read the engine makes of a key as of a snapshot gives the value of the
    newest of its versions in the tree that is not younger than the snapshot, whole
    and whatever leaf it is in, and [errNotFound] when there is no such version.  The
    type byte of page 0 is set ([rd h 20 <> 0]), as it is once the tree was written to;
    the engine takes a page 0 of type 0 for an empty shard. *)
Theorem heap_read h np root used vs key snap :
  store h np root used vs -> rd h 20 <> 0 -> 0 < len key <= 0xffff -> len snap = 16 ->
  (exists c, c ∈ vs /\ visible key snap c /\ Forall (fun d => visible key snap d -> Compare (cId d) (cId c) <= 0) vs /\
     getRawAsOfHeap h root key snap = Some (Some (cVal c))) \/
  (Forall (fun d => ~ visible key snap d) vs /\ getRawAsOfHeap h root key snap = Some None).
Proof.
  intros Hst Hty Hk Hs. rewrite (getRawAsOfHeap_eq h np root used vs) by done. unfold vs_get.
  pose proof (as_of_spec vs key snap) as Hspec. destruct (as_of vs key snap) as [c|]; [left | by right].
  destruct Hspec as (? & ? & ?). by exists c.
Qed.

Lemma heap_read_witness : exists h, store h 4 2 3 ex_versions /\
  ((exists c, c ∈ ex_versions /\ visible [7] (zeros 15 ++ [4]) c /\
     Forall (fun d => visible [7] (zeros 15 ++ [4]) d -> Compare (cId d) (cId c) <= 0) ex_versions /\
     getRawAsOfHeap h 2 [7] (zeros 15 ++ [4]) = Some (Some (cVal c))) \/
   (Forall (fun d => ~ visible [7] (zeros 15 ++ [4]) d) ex_versions /\ getRawAsOfHeap h 2 [7] (zeros 15 ++ [4]) = Some None)).
Proof.
  destruct ex_store as (h & Hst & Hty & _). exists h. split; [exact Hst|].
  apply (heap_read h 4 2 3); [exact Hst | exact Hty | small | reflexivity].
Defined.

(** C5: the tree implements the store of versions: whatever happens on the way, the
    insertion returns; when it reports success, the new root is that of a
    well-formed tree (ordered leaves in one chain, separators around every subtree,
    no page shared, none beyond the new [Used], which only grows) that holds the old
    versions and the new one and no other. *)
Theorem heap_insert h np root used vs pub key id val :
  store h np root used vs -> in_step pub h -> np <> 2 ->
  bytes_ok key -> bytes_ok id -> bytes_ok val -> len id = 16 -> 0 < len key <= 0xffff -> len val <= 0xffff ->
  let c := {| cKey := key; cId := id; cVal := val |} in
  ver c ∉ map ver vs ->
  exists h' st, Db_bt_insert_ver_heap pub (Some h) (np * 0x4000) np root used (Some key) (len key) (Some id) (Some val) (len val)
      = Some (Some h', st) /\
    (h_Ok st = 0 \/ h_Ok st = 1 /\ used <= h_Used st /\ store h' np (h_Root st) (h_Used st) (vs_put vs c)).
Proof. exact (store_put h np root used vs pub key id val). Qed.

Lemma heap_insert_witness : exists h, store h 4 2 3 ex_versions /\
  exists h' st, Db_bt_insert_ver_heap Same (Some h) (4 * 0x4000) 4 2 3 (Some [8]) 1 (Some (zeros 16)) (Some [1; 2]) 2 = Some (Some h', st) /\
    (h_Ok st = 0 \/ h_Ok st = 1 /\ 3 <= h_Used st /\
      store h' 4 (h_Root st) (h_Used st) (vs_put ex_versions {| cKey := [8]; cId := zeros 16; cVal := [1; 2] |})).
Proof.
  destruct ex_store as (h & Hst & _). exists h. split; [exact Hst|].
  apply (heap_insert h 4 2 3 ex_versions Same [8] (zeros 16) [1; 2]);
    [exact Hst | by left | done | repeat constructor; lia | apply bytes_ok_zeros | repeat constructor; lia | reflexivity | small | done |].
  by apply (bool_decide_unpack _); vm_compute.
Defined.

(** C6: after a successful insertion, a snapshot that sees the new version and no
    newer version of its key reads its value; every other read (of another key, of a
    snapshot before the version, or of a snapshot that sees a newer version of the
    key) gives what it gave before. *)
Theorem heap_insert_read h np root used vs pub key id val h' st :
  store h np root used vs -> in_step pub h -> np <> 2 ->
  bytes_ok key -> bytes_ok id -> bytes_ok val -> len id = 16 -> 0 < len key <= 0xffff -> len val <= 0xffff ->
  let c := {| cKey := key; cId := id; cVal := val |} in
  ver c ∉ map ver vs ->
  Db_bt_insert_ver_heap pub (Some h) (np * 0x4000) np root used (Some key) (len key) (Some id) (Some val) (len val) = Some (Some h', st) ->
  h_Ok st = 1 ->
  forall key' snap out, 0 < len key' <= 0xffff -> len snap = 16 -> len out < 2 ^ 64 ->
  exists w, Db_bt_get_as_of_heap (Some h') (np * 0x4000) np (h_Root st) (Some key') (len key') (Some snap) (Some out) (len out)
    = walked_result w (get_result
        (if decide (visible key' snap c /\ Forall (fun d => visible key' snap d -> Compare (cId d) id <= 0) vs)
         then Some val else vs_get vs key' snap) out).
Proof.
  intros Hst Hstep Hn2 Hkey Hidb Hval Hid Hk Hv c Hfresh Hins Hok key' snap out Hk' Hs Ho.
  destruct (store_put h np root used vs pub key id val) as (h2 & st2 & E & Hor); [done..|]. rewrite Hins in E. injection E as <- <-.
  destruct Hor as [?|(_ & _ & Hst')]; [lia|].
  destruct (store_get h' np (h_Root st) (h_Used st) (vs_put vs c) key' snap out Hst' Hk' Hs Ho) as (w & _ & ->).
  exists w. f_equal. f_equal. apply vs_get_put. by destruct Hst' as (? & ? & _ & _ & _ & _ & Hd).
Qed.

(** C13: the insertion does not refuse a version every leaf has room for, in a tree
    with at most 32 internal pages. *)
Theorem heap_insert_accepted h np root used LV IPS pub key id val :
  btree h np root LV IPS -> Forall (fun q => 0 <= q < used) (pages LV IPS) -> used <= np -> distinct (entries LV) ->
  in_step pub h -> np <> 2 ->
  bytes_ok key -> bytes_ok id -> bytes_ok val -> len id = 16 -> 0 < len key <= 0xffff -> len val <= 0xffff ->
  let c := {| cKey := key; cId := id; cVal := val |} in
  ver c ∉ map ver (entries LV) -> len IPS <= 32 ->
  Forall (fun l => forall hi, rep 16 (page h l.1) l.2 hi -> slot_addr (len l.2 + 1) + clen c <= hi) LV ->
  exists h' st, Db_bt_insert_ver_heap pub (Some h) (np * 0x4000) np root used (Some key) (len key) (Some id) (Some val) (len val)
      = Some (Some h', st) /\ h_Ok st = 1 /\ store h' np (h_Root st) (h_Used st) (vs_put (entries LV) c).
Proof. intros. by apply (store_accepts h np root used LV IPS). Qed.

(** The new version of the examples. *)
Definition ex_new : cell := {| cKey := [7]; cId := zeros 15 ++ [8]; cVal := [40] |}.

Lemma ex_fresh : ver ex_new ∉ map ver ex_versions.
Proof. by apply (bool_decide_unpack _); vm_compute. Qed.

Lemma ex_room h : Forall (fun l => forall hi, rep 16 (page h l.1) l.2 hi -> 16000 <= hi) ex_leaves ->
  Forall (fun l => forall hi, rep 16 (page h l.1) l.2 hi -> slot_addr (len l.2 + 1) + clen ex_new <= hi) ex_leaves.
Proof.
  intros Hr. apply Forall_forall. intros l Hl hi Hrep. rewrite Forall_forall in Hr. specialize (Hr l Hl hi Hrep).
  assert (slot_addr (len l.2 + 1) + clen ex_new <= 200); [|lia].
  apply elem_of_cons in Hl as [->|Hl]; [vm_compute; done|]. apply list_elem_of_singleton in Hl as ->. by vm_compute.
Qed.

Lemma ex_bytes : bytes_ok (cKey ex_new) /\ bytes_ok (cId ex_new) /\ bytes_ok (cVal ex_new).
Proof. split; [repeat constructor; lia|]. split; [|repeat constructor; lia]. apply bytes_ok_app; [apply bytes_ok_zeros | repeat constructor; lia]. Qed.

Lemma ex_used : Forall (fun q => 0 <= q < 3) (pages ex_leaves [2]).
Proof. change (Forall (fun q => 0 <= q < 3) [2; 0; 1]). do 3 (constructor; [lia|]). done. Qed.

Lemma heap_insert_accepted_witness : exists h h' st, store h 4 2 3 ex_versions /\
  Db_bt_insert_ver_heap (Separate (Some h)) (Some h) (4 * 0x4000) 4 2 3 (Some [7]) 1 (Some (zeros 15 ++ [8])) (Some [40]) 1 = Some (Some h', st) /\
  h_Ok st = 1 /\ store h' 4 (h_Root st) (h_Used st) (ex_new :: ex_versions).
Proof.
  destruct ex_store as (h & Hst & _ & Hbt & Hroom).
  destruct (heap_insert_accepted h 4 2 3 ex_leaves [2] (Separate (Some h)) [7] (zeros 15 ++ [8]) [40]) as (h' & st & Hins & Hok & Hst');
    [exact Hbt | exact ex_used | lia | by destruct Hst as (? & ? & _ & _ & _ & _ & Hd) | by right | done | apply ex_bytes | apply ex_bytes | apply ex_bytes
    | reflexivity | small | done | exact ex_fresh | done | by apply ex_room |].
  exists h, h', st. split; [exact Hst|]. split; [exact Hins|]. split; [exact Hok | exact Hst'].
Defined.

Lemma heap_insert_read_witness : exists h h' st, store h 4 2 3 ex_versions /\
  Db_bt_insert_ver_heap Same (Some h) (4 * 0x4000) 4 2 3 (Some [7]) 1 (Some (zeros 15 ++ [8])) (Some [40]) 1 = Some (Some h', st) /\
  exists w, Db_bt_get_as_of_heap (Some h') (4 * 0x4000) 4 (h_Root st) (Some [7]) 1 (Some (zeros 15 ++ [9])) (Some [0]) 1
    = walked_result w (get_result (Some [40]) [0]).
Proof.
  destruct ex_store as (h & Hst & _ & Hbt & Hroom).
  destruct (store_accepts h 4 2 3 ex_leaves [2] Same [7] (zeros 15 ++ [8]) [40]) as (h' & st & Hins & Hok & _);
    [exact Hbt | exact ex_used | lia | by destruct Hst as (? & ? & _ & _ & _ & _ & Hd) | by left | done | apply ex_bytes | apply ex_bytes | apply ex_bytes
    | reflexivity | small | done | exact ex_fresh | split; [done | by apply ex_room] |].
  exists h, h', st. split; [exact Hst|]. split; [exact Hins|].
  apply (heap_insert_read h 4 2 3 ex_versions Same [7] (zeros 15 ++ [8]) [40] h' st Hst) with (key' := [7]) (snap := zeros 15 ++ [9]) (out := [0]);
    [by left | done | apply ex_bytes | apply ex_bytes | apply ex_bytes | reflexivity | small | done | exact ex_fresh | exact Hins | exact Hok | small | reflexivity | done].
Defined.

(** C15: the snapshot read always returns, after at most as many pages as the
    buffer has, and it finds a value exactly when some version of the key is visible
    to the snapshot. *)
Theorem heap_read_bounded h np root used vs key snap out :
  store h np root used vs -> 0 < len key <= 0xffff -> len snap = 16 -> len out < 2 ^ 64 ->
  exists g out', Db_bt_get_as_of_heap (Some h) (np * 0x4000) np root (Some key) (len key) (Some snap) (Some out) (len out) = Some (g, out') /\
    1 <= Walked g <= np /\ (Found g <> 0 <-> Exists (visible key snap) vs).
Proof.
  intros Hst Hk Hs Ho. destruct (store_get h np root used vs key snap out Hst Hk Hs Ho) as (w & Hw & ->). unfold vs_get.
  pose proof (as_of_spec vs key snap) as Hspec. destruct (as_of vs key snap) as [c|]; cbn [fmap option_fmap option_map get_result];
    eexists _, _; (split; [done|]); (split; [exact Hw|]); cbn [walked Found].
  - destruct Hspec as (Hin & Hv & _). split; [intros _ | done]. apply Exists_exists. eauto.
  - split; [done|]. intros He. apply Exists_exists in He as (d & Hd & Hv). rewrite Forall_forall in Hspec. by destruct (Hspec d Hd).
Qed.

Lemma heap_read_bounded_witness : exists h g out', store h 4 2 3 ex_versions /\
  Db_bt_get_as_of_heap (Some h) (4 * 0x4000) 4 2 (Some [9]) 1 (Some (zeros 16)) (Some [0]) 1 = Some (g, out') /\
  1 <= Walked g <= 4 /\ (Found g <> 0 <-> Exists (visible [9] (zeros 16)) ex_versions).
Proof.
  destruct ex_store as (h & Hst & _).
  destruct (heap_read_bounded h 4 2 3 ex_versions [9] (zeros 16) [0]) as (g & out' & E & H); [exact Hst | small | reflexivity | done|].
  exists h, g, out'. split; [exact Hst|]. split; [exact E | exact H].
Defined.

(** C16: on the leaf at [base] of a buffer, the read of the tree, which stops at
    the first greater key, gives what the read of the leaf kernel, which looks at
    every cell, gives on the page alone. *)
Theorem heap_leaf_read_equiv h n base p cs hi key snap out :
  at_page h n base p -> rep 16 p cs hi -> StronglySorted ver_le cs ->
  0 < len key <= 0xffff -> len snap = 16 -> len out < 2 ^ 64 ->
  bt_get_as_of_at (Some h) n base (Some key) (len key) (Some snap) (Some out) (len out)
  = Db_bt_get_as_of (Some p) 0x4000 (Some key) (len key) (Some snap) (Some out) (len out).
Proof. intros Hat Hrep Hs Hk Hsn Ho. by rewrite (bt_get_as_of_at_eq h n base p cs hi), (Db_bt_get_as_of_eq p cs hi). Qed.

Lemma heap_leaf_read_equiv_witness : exists h p,
  bt_get_as_of_at (Some h) (4 * 0x4000) (0 * 0x4000) (Some [7]) 1 (Some (zeros 15 ++ [4])) (Some [0]) 1
  = Db_bt_get_as_of (Some p) 0x4000 (Some [7]) 1 (Some (zeros 15 ++ [4])) (Some [0]) 1.
Proof.
  destruct ex_store as (h & _ & _ & Hbt & _). exists h, (page h 0).
  pose proof (proj1 (tree_leaves h 4) _ _ _ _ _ (bt_tree _ _ _ _ _ Hbt)) as Hl. apply Forall_cons_1 in Hl as [(_ & hi & Hr) _]. cbn in Hr.
  apply (heap_leaf_read_equiv h (4 * 0x4000) (0 * 0x4000) (page h 0) [ex1; ex2] hi [7] (zeros 15 ++ [4]) [0]);
    [apply page_at; [apply (bt_heap _ _ _ _ _ Hbt) | lia] | exact Hr | | small | reflexivity | done].
  constructor; [repeat constructor | by constructor].
Defined.

(** C14: the split of a leaf.  Where [bt_chain_split_ver] returns 1 it has put the
    cells of the leaf, in order, in the leaf and the new page after it in the chain,
    cut between two keys: every key of the first is below every key of the second,
    so no key has versions in both; no other page changes.  It returns 0 only for a
    leaf that is not [splittable]: every leaf with at least four cells that fit on a
    page without overlap, and a change of key after two or more cells such that the
    cells from the last one before the change on leave 2500 bytes of a page, is
    split.  (A leaf whose cells all have one key has no cut, so it is refused.) *)
Theorem leaf_split h np src dst cs hi :
  heap_ok h np -> 0 <= src < np -> 0 <= dst < np -> src <> dst -> rep 16 (page h src) cs hi -> StronglySorted ver_le cs ->
  exists h' ok, bt_chain_split_ver (Some h) np src dst = Some (Some h', ok) /\
    (ok = 0 /\ ~ splittable cs \/ ok = 1 /\ exists l1 l2 hi1 hi2, cs = l1 ++ l2 /\ l1 <> [] /\ l2 <> [] /\
      rep 16 (page h' src) l1 hi1 /\ rep 16 (page h' dst) l2 hi2 /\
      Forall (fun c => Forall (fun d => blt (cKey c) (cKey d)) l2) l1 /\
      link (page h' src) = dst /\ link (page h' dst) = link (page h src) /\
      forall q, 0 <= q < np -> q <> src -> q <> dst -> page h' q = page h q).
Proof.
  intros Hh Hs Hd Hne Hrep Hsort. destruct (bt_chain_split_ver_eq h np src dst cs hi Hh Hs Hd Hne Hrep) as (h' & ok & -> & Hor).
  exists h', ok. split; [done|]. destruct Hor as [?|(-> & k & [Hk Hbd (q & d & hiq & hid & -> & Hq & Hlq & Hdd & Hld)])]; [by left|]. right.
  split; [done|]. pose proof (rep_page _ _ _ _ _ Hq) as Hqp. pose proof (rep_page _ _ _ _ _ Hdd) as Hdp.
  pose proof (heap_put h np dst d Hh Hd Hdp) as Hh2. exists (take (Z.to_nat k) cs), (drop (Z.to_nat k) cs), hiq, hid.
  rewrite (page_put_eq _ np src q Hh2 Hs Hqp), (page_put_ne _ np src dst q Hh2 Hs Hd Hqp) by done. rewrite (page_put_eq _ np dst d Hh Hd Hdp).
  split_and!; try done.
  - by rewrite take_drop.
  - intros E. apply (f_equal length) in E. rewrite length_take in E. unfold len in *. cbn in E. lia.
  - intros E. apply (f_equal length) in E. rewrite length_drop in E. unfold len in *. cbn in E. lia.
  - apply cut_keys; [done | done | lia].
  - intros x Hx Hx1 Hx2. rewrite (page_put_ne _ np src) by done. by rewrite (page_put_ne _ np dst).
Qed.

(** Four versions of three keys in a leaf, and a free page. *)
Definition ex4 : cell := {| cKey := [11]; cId := zeros 15 ++ [3]; cVal := [50] |}.
Definition ex_cells : list cell := [ex1; ex2; ex3; ex4].

Lemma ex_cells_ok c : c ∈ ex_cells -> bytes_ok (cell_bytes c) /\ len (cId c) = 16 /\ clen c <= 100.
Proof.
  intros Hc. assert (Hb : c = ex1 \/ c = ex2 \/ c = ex3 \/ c = ex4) by (revert Hc; unfold ex_cells; rewrite !elem_of_cons, elem_of_nil; tauto).
  destruct Hb as [->|[->|[->| ->]]]; (split; [|split; [done | vm_compute; done]]);
    (apply bytes_ok_cell; [repeat constructor; lia | apply bytes_ok_app; [apply bytes_ok_zeros | repeat constructor; lia] | repeat constructor; lia]).
Qed.

Lemma ex_leaf : exists h hi, heap_ok h 2 /\ rep 16 (page h 0) ex_cells hi /\ StronglySorted ver_le ex_cells.
Proof.
  destruct (build 1 16 0 ex_cells) as (p & hi & Hp & _); [lia | lia | apply Forall_forall; apply ex_cells_ok | done | lia|].
  assert (Hz : page_ok (zeros 0x4000)) by (split; [by apply len_zeros | apply bytes_ok_zeros]).
  destruct (concat_heap [p; zeros 0x4000]) as [Hh Hpages]; [constructor; [apply (rep_page _ _ _ _ _ Hp) | by constructor] | by vm_compute |].
  exists (concat [p; zeros 0x4000]), hi. split; [exact Hh|]. rewrite (Hpages 0%nat p eq_refl : page _ 0 = p). split; [done|].
  repeat constructor.
Qed.

Lemma ex_splittable : splittable ex_cells.
Proof.
  split; [done|]. split; [by vm_compute|]. exists 2. split; [done|]. split; [|by vm_compute].
  exists ex2, ex3. split_and!; [done | done | done].
Qed.

Lemma leaf_split_witness : exists h h', bt_chain_split_ver (Some h) 2 0 1 = Some (Some h', 1) /\
  exists l1 l2 hi1 hi2, ex_cells = l1 ++ l2 /\ l1 <> [] /\ l2 <> [] /\
    rep 16 (page h' 0) l1 hi1 /\ rep 16 (page h' 1) l2 hi2 /\
    Forall (fun c => Forall (fun d => blt (cKey c) (cKey d)) l2) l1 /\
    link (page h' 0) = 1 /\ link (page h' 1) = link (page h 0) /\
    forall q, 0 <= q < 2 -> q <> 0 -> q <> 1 -> page h' q = page h q.
Proof.
  destruct ex_leaf as (h & hi & Hh & Hr & Hs). exists h.
  destruct (leaf_split h 2 0 1 ex_cells hi) as (h' & ok & Hsplit & [[_ Hno]|[-> Hcut]]);
    [exact Hh | lia | lia | lia | exact Hr | exact Hs | destruct (Hno ex_splittable) |].
  exists h'. split; [exact Hsplit | exact Hcut].
Defined.

(** C17: the count of versions that a successful insertion reports is that of all the
    leaves, when the root is a leaf or an internal page over leaves. *)
Theorem heap_count h np root LV IPS : btree h np root LV IPS -> len IPS <= 1 ->
  bt_heap_nkeys (Some h) (np * 0x4000) np root = len (entries LV).
Proof. apply bt_heap_nkeys_eq. Qed.

Lemma heap_count_witness : exists h, btree h 4 2 ex_leaves [2] /\ bt_heap_nkeys (Some h) (4 * 0x4000) 4 2 = 3.
Proof. destruct ex_store as (h & _ & _ & Hbt & _). exists h. split; [exact Hbt|]. apply (heap_count h 4 2 ex_leaves [2] Hbt). done. Defined.

(** C18: with a second level of internal pages the count is 0, however many versions
    there are, when the first leaf is page 0 (where every tree starts): the walk
    takes the link 0 of the first internal page for the end of the chain. *)
Theorem heap_count_deep h np root X sc hi sc' hi' : heap_ok h np -> 0 <= root < np -> 0 <= X < np -> X <> 0 ->
  node 2 8 (page h root) sc hi -> link (page h root) = X -> node 2 8 (page h X) sc' hi' -> link (page h X) = 0 ->
  bt_heap_nkeys (Some h) (np * 0x4000) np root = 0.
Proof. apply bt_heap_nkeys_deep. Qed.

(** Three levels over one leaf. *)
Lemma ex_deep : exists h, heap_ok h 3 /\ (exists sc hi, node 2 8 (page h 2) sc hi) /\ link (page h 2) = 1 /\
  (exists sc hi, node 2 8 (page h 1) sc hi) /\ link (page h 1) = 0 /\ btree h 3 2 [(0, ex_cells)] [2; 1].
Proof.
  destruct (build 1 16 0 ex_cells) as (p0 & hi0 & H0 & L0 & _); [lia | lia | apply Forall_forall; apply ex_cells_ok | done | lia|].
  destruct (build 2 8 0 []) as (p1 & hi1 & H1 & L1 & _); [lia | lia | done | done | lia|].
  destruct (build 2 8 1 []) as (p2 & hi2 & H2 & L2 & _); [lia | lia | done | done | lia|].
  pose proof (rep_page _ _ _ _ _ H0). pose proof (rep_page _ _ _ _ _ H1). pose proof (rep_page _ _ _ _ _ H2).
  destruct (concat_heap [p0; p1; p2]) as [Hh Hpages]; [do 3 (constructor; [done|]); done | by vm_compute |].
  pose proof (Hpages 0%nat p0 eq_refl) as E0. pose proof (Hpages 1%nat p1 eq_refl) as E1. pose proof (Hpages 2%nat p2 eq_refl) as E2.
  change (Z.of_nat 0) with 0 in E0. change (Z.of_nat 1) with 1 in E1. change (Z.of_nat 2) with 2 in E2.
  change (len [p0; p1; p2]) with 3 in Hh. set (h := concat _) in *. clearbody h. rewrite <- E0 in H0, L0. rewrite <- E1 in H1, L1. rewrite <- E2 in H2, L2.
  exists h. split; [exact Hh|]. split; [by exists [], hi2|]. split; [exact L2|]. split; [by exists [], hi1|]. split; [exact L1|].
  split; [exact Hh | | | split; [exact L0 | exact I]].
  - eapply tree_node; [lia | exact H2 | done|]. rewrite L2. constructor. eapply tree_node; [lia | exact H1 | done|]. rewrite L1. constructor.
    eapply tree_leaf; [lia | exact H0 | by repeat constructor |]. apply Forall_forall. intros c Hc. split; [done|].
    revert Hc. unfold ex_cells. rewrite !elem_of_cons, elem_of_nil. intros [->|[->|[->|[->|[]]]]]; done.
  - change (NoDup [2; 1; 0]). by apply (bool_decide_unpack (NoDup [2; 1; 0])); vm_compute.
Qed.

Lemma heap_count_deep_witness : exists h LV, btree h 3 2 LV [2; 1] /\ len (entries LV) = 4 /\ bt_heap_nkeys (Some h) (3 * 0x4000) 3 2 = 0.
Proof.
  destruct ex_deep as (h & Hh & (sc & hi & H2) & L2 & (sc' & hi' & H1) & L1 & Hbt). exists h, [(0, ex_cells)].
  split; [exact Hbt|]. split; [reflexivity|]. apply (heap_count_deep h 3 2 1 sc hi sc' hi'); [exact Hh | lia | lia | lia | exact H2 | exact L2 | exact H1 | exact L1].
Defined.

End BtLaws.
