(* ===== verification/Cursor.v ===== *)
(** * The cursor (src/pkg/c2db/cursor.go)

    A cursor lists the leaves of a tree once and then moves over their slots.
    The versions of a key are a group of slots; a move resolves the group at the
    snapshot and skips it when no version, or a deletion, is visible.  Loops take
    the number of slots and leaves as fuel ([cursor_fuel]). *)

From S2P Require Import Prelude Bytes Cell Overflow.
Import Bytes Cell.

Local Open Scope Z_scope.

Module Cursor.

Definition pageN : Z := 0x4000.
Definition BT_HLCOffset : Z := 8.
Definition BT_TypeOffset : Z := 20.
Definition BT_NSlotsOffset : Z := 22.
Definition BT_BodyOffset : Z := 64.
Definition BT_TypeLeaf : Z := 1.
Definition BT_TypeInternal : Z := 2.
Definition BT_SlotSize : Z := 2.
Definition BT_IDLen : Z := 16.

(** The mutex and the pin of the buffer are left out: one call at a time, over a
    buffer that does not change. *)
Record Cursor := {
  heap : slice; npages : Z; root : Z; snap : list Z;
  leafPages : list Z; leafIdx : Z; slotIdx : Z; valid : bool;
  currKey : list Z; currVal : list Z; currID : list Z;
}.

(** The positioned cursor, the cursor that ran off an end, and the one that
    finds no leaf at all. *)
Definition land_on (c : Cursor) (l s : Z) (k v id : list Z) : Cursor :=
  {| heap := heap c; npages := npages c; root := root c; snap := snap c; leafPages := leafPages c;
     leafIdx := l; slotIdx := s; valid := true; currKey := k; currVal := v; currID := id |}.
Definition run_off (c : Cursor) : Cursor :=
  {| heap := heap c; npages := npages c; root := root c; snap := snap c; leafPages := leafPages c;
     leafIdx := leafIdx c; slotIdx := slotIdx c; valid := false; currKey := []; currVal := []; currID := [] |}.
Definition no_leaf (c : Cursor) : Cursor :=
  {| heap := heap c; npages := npages c; root := root c; snap := snap c; leafPages := leafPages c;
     leafIdx := leafIdx c; slotIdx := slotIdx c; valid := false; currKey := currKey c; currVal := currVal c; currID := [] |}.
Definition move_to (c : Cursor) (l s : Z) : Cursor :=
  {| heap := heap c; npages := npages c; root := root c; snap := snap c; leafPages := leafPages c;
     leafIdx := l; slotIdx := s; valid := valid c; currKey := currKey c; currVal := currVal c; currID := currID c |}.

Definition u16 (h : list Z) (a : Z) : Z := le_get 2 (sub h a (a + 2)).
Definition u64 (h : list Z) (a : Z) : Z := le_get 8 (sub h a (a + 8)).

(** ** The list of leaves *)

(** [for walked < c.npages]: the leftmost leaf; [None] is the early return. *)
Fixpoint leftmost (fuel : nat) (h : list Z) (np page : Z) : option Z :=
  match fuel with
  | O => Some page
  | S fuel' =>
      let base := w64 (page * pageN) in
      if w64 (base + BT_TypeOffset) >=? len h then None else
      let typ := rd h (base + BT_TypeOffset) in
      if typ =? BT_TypeLeaf then Some page else
      if negb (typ =? BT_TypeInternal) then None else
      if w64 (w64 (base + BT_HLCOffset) + 8) >? len h then None else
      let next := u64 h (base + BT_HLCOffset) in
      if (next >=? np) || (next =? page) then None else
      leftmost fuel' h np next
  end.

(** [for page < c.npages && walked < c.npages]: along the links. *)
Fixpoint leaf_chain (fuel : nat) (h : list Z) (np page : Z) : list Z :=
  match fuel with
  | O => []
  | S fuel' =>
      if page >=? np then [] else
      page ::
        (let base := w64 (page * pageN) in
         if w64 (w64 (base + BT_HLCOffset) + 8) >? len h then [] else
         let next := u64 h (base + BT_HLCOffset) in
         if ((next =? 0) || (next =? page)) || (next >=? np) then [] else
         leaf_chain fuel' h np next)
  end.

Definition initLeafPages (hp : slice) (np rt : Z) : list Z :=
  match hp with
  | None => []
  | Some h =>
      if (np =? 0) || (rt >=? np) then [] else
      match leftmost (Z.to_nat np) h np rt with
      | None => []
      | Some page => leaf_chain (Z.to_nat np) h np page
      end
  end.

Definition newCursor (hp : slice) (rt : Z) (sn : list Z) : Cursor :=
  let np := slen hp / pageN in
  {| heap := hp; npages := np; root := rt; snap := sn; leafPages := initLeafPages hp np rt;
     leafIdx := 0; slotIdx := 0; valid := false; currKey := []; currVal := []; currID := [] |}.

(** ** Cells *)

(** Key, id, value and value length of a slot; [None] is [ok = false].  Every
    read is behind its own bounds test. *)
Definition readSlotCell (c : Cursor) (l s : Z) : option (list Z * list Z * list Z * Z) :=
  let h := bytes_of (heap c) in
  if (l <? 0) || (l >=? len (leafPages c)) then None else
  let base := w64 (rd (leafPages c) l * pageN) in
  if w64 (w64 (base + BT_NSlotsOffset) + 2) >? len h then None else
  let nslots := u16 h (base + BT_NSlotsOffset) in
  if (s <? 0) || (s >=? nslots) then None else
  let slotAddr := w64 (w64 (base + BT_BodyOffset) + s * BT_SlotSize) in
  if w64 (slotAddr + BT_SlotSize) >? w64 (base + pageN) then None else
  if w64 (slotAddr + 2) >? len h then None else
  let cellOff := u16 h slotAddr in
  if (cellOff <? BT_BodyOffset) || (cellOff >? pageN - 4) then None else
  let cellBase := w64 (base + cellOff) in
  if (w64 (cellBase + 4) >? len h) || (w64 (cellBase + 4) >? w64 (base + pageN)) then None else
  let klen := u16 h cellBase in
  let vlen := u16 h (cellBase + 2) in
  let cellSize := 4 + klen + BT_IDLen + vlen in
  if (klen >? pageN) || (vlen >? pageN) then None else
  if (cellSize >? OverflowChunkCapacity) || (cellSize >? pageN - cellOff) then None else
  if (w64 (cellBase + cellSize) >? len h) || (w64 (cellBase + cellSize) >? w64 (base + pageN)) then None else
  let kStart := w64 (cellBase + 4) in
  let fits e := (e >? w64 (base + pageN)) || (e >? len h) in
  if fits (w64 (kStart + klen)) then None else
  if fits (w64 (w64 (kStart + klen) + BT_IDLen)) then None else
  if fits (w64 (w64 (w64 (kStart + klen) + BT_IDLen) + vlen)) then None else
  let idStart := w64 (kStart + klen) in
  let valStart := w64 (idStart + BT_IDLen) in
  Some (sub h kStart (w64 (kStart + klen)), sub h idStart (w64 (idStart + BT_IDLen)), sub h valStart (w64 (valStart + vlen)), vlen).

Definition leafSlotCount (c : Cursor) (l : Z) : Z :=
  let h := bytes_of (heap c) in
  if (l <? 0) || (l >=? len (leafPages c)) then 0 else
  let base := w64 (rd (leafPages c) l * pageN) in
  if w64 (w64 (base + BT_NSlotsOffset) + 2) >? len h then 0 else
  u16 h (base + BT_NSlotsOffset).

(** nil when the leaf is empty or its first cell is not readable. *)
Definition leafFirstKey (c : Cursor) (l : Z) : slice :=
  match readSlotCell c l 0 with Some (k, _, _, _) => Some k | None => None end.

Definition cursor_fuel (c : Cursor) : nat :=
  S (Z.to_nat (foldr (fun l n => 1 + leafSlotCount c l + n) 0 (seqZ 0 (len (leafPages c))))).

(** ** Resolving a group *)

Record resolved := { rKey : list Z; rVal : list Z; rId : list Z; rL : Z; rS : Z; rActive : bool }.

(** The version so far: value, id and length. *)
Definition newer (c : Cursor) (best : option (list Z * list Z * Z)) (nid nval : list Z) (nvlen : Z) : option (list Z * list Z * Z) :=
  if Compare nid (snap c) <=? 0 then Some (nval, nid, nvlen) else best.

(** [for { ... }]: forward while the key is the same. *)
Fixpoint group_end (fuel : nat) (c : Cursor) (key : list Z) (curL curS : Z) (best : option (list Z * list Z * Z))
    : option (option (list Z * list Z * Z) * Z * Z) :=
  match fuel with
  | O => None
  | S fuel' =>
      let '(nextL, nextS) := if curS + 1 >=? leafSlotCount c curL then (curL + 1, 0) else (curL, curS + 1) in
      if nextL >=? len (leafPages c) then Some (best, curL, curS) else
      match readSlotCell c nextL nextS with
      | None => Some (best, curL, curS)
      | Some (nk, nid, nval, nvlen) =>
          if negb (Equal nk key) then Some (best, curL, curS) else
          group_end fuel' c key nextL nextS (newer c best nid nval nvlen)
      end
  end.

Definition resolveKeyAt (c : Cursor) (l s : Z) : option resolved :=
  match readSlotCell c l s with
  | None => Some {| rKey := []; rVal := []; rId := []; rL := l; rS := s; rActive := false |}
  | Some (key, initID, initVal, initVLen) =>
      '(best, endL, endS) ← group_end (cursor_fuel c) c key l s (newer c None initID initVal initVLen);
      Some (match best with
            | Some (v, id, vlen) =>
                if vlen >? 0 then {| rKey := key; rVal := v; rId := id; rL := endL; rS := endS; rActive := true |}
                else {| rKey := key; rVal := []; rId := []; rL := endL; rS := endS; rActive := false |}
            | None => {| rKey := key; rVal := []; rId := []; rL := endL; rS := endS; rActive := false |}
            end)
  end.

(** Backward while the key is the same. *)
Fixpoint group_start (fuel : nat) (c : Cursor) (key : list Z) (curL curS : Z) : option (Z * Z) :=
  match fuel with
  | O => None
  | S fuel' =>
      let '(prevL, prevS) := if curS - 1 <? 0 then (curL - 1, leafSlotCount c (curL - 1) - 1) else (curL, curS - 1) in
      if (prevL <? 0) || (prevS <? 0) then Some (curL, curS) else
      match readSlotCell c prevL prevS with
      | None => Some (curL, curS)
      | Some (pk, _, _, _) => if negb (Equal pk key) then Some (curL, curS) else group_start fuel' c key prevL prevS
      end
  end.

(** The positions [rL], [rS] are those of the start. *)
Definition resolveKeyEndingAt (c : Cursor) (l s : Z) : option resolved :=
  match readSlotCell c l s with
  | None => Some {| rKey := []; rVal := []; rId := []; rL := l; rS := s; rActive := false |}
  | Some (key, _, _, _) =>
      '(startL, startS) ← group_start (cursor_fuel c) c key l s;
      r ← resolveKeyAt c startL startS;
      Some {| rKey := rKey r; rVal := rVal r; rId := rId r; rL := startL; rS := startS; rActive := rActive r |}
  end.

(** ** Steps *)

Fixpoint forward_loop (fuel : nat) (c : Cursor) (curL curS : Z) : option (Cursor * bool) :=
  match fuel with
  | O => None
  | S fuel' =>
      let '(curL, curS) := if curS + 1 >=? leafSlotCount c curL then (curL + 1, 0) else (curL, curS + 1) in
      if curL >=? len (leafPages c) then Some (run_off c, false) else
      r ← resolveKeyAt c curL curS;
      if rActive r then Some (land_on c curL curS (rKey r) (rVal r) (rId r), true) else
      forward_loop fuel' c (rL r) (rS r)
  end.
Definition stepForward (c : Cursor) : option (Cursor * bool) := forward_loop (cursor_fuel c) c (leafIdx c) (slotIdx c).

(** The cursor lands on the end of the group, in the leaf of its start; an
    inactive group leaves [curS] at 0. *)
Fixpoint backward_loop (fuel : nat) (c : Cursor) (curL curS : Z) : option (Cursor * bool) :=
  match fuel with
  | O => None
  | S fuel' =>
      let '(curL, curS) := if curS - 1 <? 0 then (curL - 1, leafSlotCount c (curL - 1) - 1) else (curL, curS - 1) in
      if (curL <? 0) || (curS <? 0) then Some (run_off c, false) else
      r ← resolveKeyEndingAt c curL curS;
      if rActive r then Some (land_on c (rL r) curS (rKey r) (rVal r) (rId r), true) else
      backward_loop fuel' c (rL r) 0
  end.
Definition stepBackward (c : Cursor) : option (Cursor * bool) := backward_loop (cursor_fuel c) c (leafIdx c) (slotIdx c).

(** ** Values *)

(** The raw value stands in for one whose chain cannot be read. *)
Definition resolveVal (c : Cursor) (raw : list Z) : list Z :=
  match Overflow.decodeValue (bytes_of (heap c)) (npages c) raw with
  | Some (inl v) => v
  | _ => raw
  end.

(** ** Moves

    A move gives the key and value it lands on, [None] for [ok = false]. *)

Definition landed (c : Cursor) (l s : Z) (r : resolved) : Cursor * option (list Z * list Z) :=
  (land_on c l s (rKey r) (rVal r) (rId r), Some (rKey r, resolveVal c (rVal r))).

(** [for curL < len(c.leafPages)] of [First] and of [Seek], where a group must
    also be at or above the target. *)
Fixpoint seek_loop (fuel : nat) (c : Cursor) (target : slice) (curL curS : Z) : option (Cursor * option (list Z * list Z)) :=
  match fuel with
  | O => None
  | S fuel' =>
      if curL >=? len (leafPages c) then Some (run_off c, None) else
      if leafSlotCount c curL =? 0 then seek_loop fuel' c target (curL + 1) 0 else
      r ← resolveKeyAt c curL curS;
      if rActive r && match target with None => true | Some t => Compare (rKey r) t >=? 0 end
      then Some (landed c curL curS r) else
      let '(curL, curS) := (rL r, rS r + 1) in
      if curS >=? leafSlotCount c curL then seek_loop fuel' c target (curL + 1) 0 else seek_loop fuel' c target curL curS
  end.

Definition First (c : Cursor) : option (Cursor * option (list Z * list Z)) :=
  if len (leafPages c) =? 0 then Some (no_leaf c, None) else seek_loop (cursor_fuel c) c None 0 0.

(** [for curL >= 0], with the inner [for curS >= 0] unrolled into it: [curS] is
    [None] when the leaf [curL] is about to be entered. *)
Fixpoint last_loop (fuel : nat) (c : Cursor) (curL : Z) (curS : option Z) : option (Cursor * option (list Z * list Z)) :=
  match fuel with
  | O => None
  | S fuel' =>
      match curS with
      | None =>
          if curL <? 0 then Some (run_off c, None) else
          let cnt := leafSlotCount c curL in
          if cnt =? 0 then last_loop fuel' c (curL - 1) None else last_loop fuel' c curL (Some (cnt - 1))
      | Some curS =>
          if curS <? 0 then last_loop fuel' c curL None else
          r ← resolveKeyEndingAt c curL curS;
          if rActive r then Some (landed c (rL r) curS r) else
          let '(curL, curS) := (rL r, rS r - 1) in
          if curS <? 0 then last_loop fuel' c (curL - 1) None else last_loop fuel' c curL (Some curS)
      end
  end.

Definition Last (c : Cursor) : option (Cursor * option (list Z * list Z)) :=
  if len (leafPages c) =? 0 then Some (no_leaf c, None) else
  last_loop (3 * cursor_fuel c) c (len (leafPages c) - 1) None.

(** Go's [sort.Search]. *)
Fixpoint search_loop (fuel : nat) (f : Z -> bool) (i j : Z) : option Z :=
  match fuel with
  | O => None
  | S fuel' =>
      if i <? j then
        let h := (i + j) / 2 in
        if negb (f h) then search_loop fuel' f (h + 1) j else search_loop fuel' f i h
      else Some i
  end.
Definition Search (n : Z) (f : Z -> bool) : option Z := search_loop (S (Z.to_nat n)) f 0 n.

Definition Seek (c : Cursor) (target : list Z) : option (Cursor * option (list Z * list Z)) :=
  if len (leafPages c) =? 0 then Some (no_leaf c, None) else
  i ← Search (len (leafPages c)) (fun i =>
        match leafFirstKey c i with None => true | Some fk => Compare fk target >? 0 end);
  let curL := if i - 1 <? 0 then 0 else i - 1 in
  let cnt := leafSlotCount c curL in
  '(curL, curS) ← (if cnt >? 0 then
      curS ← Search cnt (fun i => match readSlotCell c curL i with None => true | Some (k, _, _, _) => Compare k target >=? 0 end);
      Some (if curS >=? cnt then (curL + 1, 0) else (curL, curS))
    else Some (curL, 0));
  seek_loop (cursor_fuel c) c (Some target) curL curS.

(** What [Next] and [Prev] return after the step. *)
Definition stepped (r : Cursor * bool) : Cursor * option (list Z * list Z) :=
  let '(c, ok) := r in (c, if ok then Some (currKey c, resolveVal c (currVal c)) else None).

Definition Next (c : Cursor) : option (Cursor * option (list Z * list Z)) :=
  if negb (valid c) then Some (c, None) else
  r ← resolveKeyAt c (leafIdx c) (slotIdx c);
  r' ← stepForward (move_to c (rL r) (rS r));
  Some (stepped r').

Definition Prev (c : Cursor) : option (Cursor * option (list Z * list Z)) :=
  if negb (valid c) then Some (c, None) else
  r ← resolveKeyEndingAt c (leafIdx c) (slotIdx c);
  r' ← stepBackward (move_to c (rL r) (rS r));
  Some (stepped r').

(** ** Accessors *)

Definition Key (c : Cursor) : slice := if valid c then Some (currKey c) else None.
Definition VersionID (c : Cursor) : slice := if valid c then Some (currID c) else None.
Definition Value (c : Cursor) : slice := if valid c then Some (resolveVal c (currVal c)) else None.
Definition RawValue (c : Cursor) : slice := if valid c then Some (currVal c) else None.
Definition IsOverflow (c : Cursor) : bool := valid c && (checkOverflowDesc (currVal c)).1.1.
Definition ValueLen (c : Cursor) : Z :=
  if negb (valid c) then 0 else
  match isOverflowDescriptor (currVal c) with
  | Some (tLen, _) => tLen
  | None => if (len (currVal c) >? 0) && (rd (currVal c) 0 =? cellKindInline) then len (currVal c) - 1 else len (currVal c)
  end.

Definition Close (c : Cursor) : Cursor :=
  {| heap := None; npages := npages c; root := root c; snap := snap c; leafPages := leafPages c;
     leafIdx := leafIdx c; slotIdx := slotIdx c; valid := false; currKey := []; currVal := []; currID := [] |}.

(** [Range]: [fn] is a callback with state, which answers whether to go on. *)
Section Range.
Context {Y : Type} (end_ : list Z) (fn : list Z -> list Z -> Y -> Y * bool).
Fixpoint range_loop (fuel : nat) (c : Cursor) (kv : option (list Z * list Z)) (y : Y) : option Y :=
  match fuel with
  | O => None
  | S fuel' =>
      match kv with
      | None => Some y
      | Some (k, v) =>
          if (len end_ >? 0) && (Compare k end_ >=? 0) then Some y else
          let '(y, go_on) := fn k v y in
          if negb go_on then Some y else
          '(c, kv) ← Next c;
          range_loop fuel' c kv y
      end
  end.
Definition Range (start : list Z) (c : Cursor) (y : Y) : option Y :=
  '(c, kv) ← (if len start =? 0 then First c else Seek c start);
  range_loop (S (cursor_fuel c)) c kv y.
End Range.

End Cursor.
