(* ===== verification/CursorOk.v ===== *)
(** * Cursors over a tree (Cursor.v)

    What a cursor reads is the cells of the leaves ([cells]).  The groups of
    versions are the maximal runs of one key; [ahead l s] are the groups from a
    position on, [behind l s] those before it. *)

From S2P Require Import Prelude Bytes PageKernel Cell Query BtMem BtLeaf BtVersion BtHeap BtTree BtSpine Overflow BtStore Cursor.
Import Bytes PageKernel Cell BtMem BtLeaf BtVersion BtHeap BtTree BtStore Cursor.

Local Open Scope Z_scope.

Module CursorOk.

(** ** Runs of one key *)

Fixpoint run (k : list Z) (cs : list cell) : list cell :=
  match cs with
  | c :: cs' => if decide (cKey c = k) then c :: run k cs' else []
  | [] => []
  end.

Definition grouped (c : cell) (gs : list (list cell)) : list (list cell) :=
  match gs with
  | (d :: g) :: gs => if decide (cKey d = cKey c) then (c :: d :: g) :: gs else [c] :: (d :: g) :: gs
  | _ => [[c]]
  end.
Definition groups (cs : list cell) : list (list cell) := foldr grouped [] cs.

Lemma run_key k cs : Forall (fun c => cKey c = k) (run k cs).
Proof. induction cs as [|c cs IH]; cbn; [done|]. case_decide; [by constructor | done]. Qed.

Lemma run_app k cs : exists t, cs = run k cs ++ t /\ match t with [] => True | d :: _ => cKey d <> k end.
Proof.
  induction cs as [|c cs (t & E & Ht)]; [by exists []|]. cbn. case_decide.
  - exists t. cbn. by rewrite <- E.
  - by exists (c :: cs).
Qed.

Lemma run_all k g t : Forall (fun c => cKey c = k) g -> match t with [] => True | d :: _ => cKey d <> k end -> run k (g ++ t) = g.
Proof.
  intros Hg Ht. induction Hg as [|c g Hc _ IH]; cbn.
  - destruct t as [|d t]; [done|]. cbn. by rewrite decide_False.
  - by rewrite decide_True, IH.
Qed.

Lemma groups_cons c cs : groups (c :: cs) = run (cKey c) (c :: cs) :: groups (drop (length (run (cKey c) (c :: cs))) (c :: cs)).
Proof.
  revert c. induction cs as [|d cs IH]; intros c.
  - cbn. by rewrite decide_True.
  - change (groups (c :: d :: cs)) with (grouped c (groups (d :: cs))). rewrite IH. cbn [run].
    rewrite (decide_True (P := cKey d = cKey d)) by done. rewrite (decide_True (P := cKey c = cKey c)) by done.
    cbn [grouped]. case_decide as E; [by rewrite E|]. cbn [length drop]. rewrite IH. cbn [run]. by rewrite (decide_True (P := cKey d = cKey d)).
Qed.

(** A group followed by another key. *)
Lemma groups_run k g t : g <> [] -> Forall (fun c => cKey c = k) g -> match t with [] => True | d :: _ => cKey d <> k end ->
  groups (g ++ t) = g :: groups t.
Proof.
  intros Hne Hg Ht. destruct g as [|c g]; [done|]. assert (cKey c = k) as Ek by by inversion Hg.
  cbn [app]. rewrite groups_cons, Ek. change (c :: g ++ t) with ((c :: g) ++ t). rewrite run_all by done.
  by rewrite drop_app_length.
Qed.

Lemma concat_groups cs : concat (groups cs) = cs.
Proof.
  induction cs as [|c cs IH]; [done|]. change (groups (c :: cs)) with (grouped c (groups cs)). destruct cs as [|d cs]; [done|].
  rewrite groups_cons in *. cbn [run] in *. rewrite decide_True in * by done. cbn [grouped]. cbn [concat app] in IH.
  case_decide; cbn [concat app]; by rewrite IH.
Qed.

(** The keys on both sides of a position differ. *)
Definition edge (a b : list cell) : Prop :=
  match last a, b with Some x, y :: _ => cKey x <> cKey y | _, _ => True end.

Lemma groups_app a b : edge a b -> groups (a ++ b) = groups a ++ groups b.
Proof.
  remember (length a) as n eqn:En. revert a En. induction n as [n IH] using lt_wf_ind. intros a En Hed. subst.
  destruct a as [|c a]; [done|]. destruct (run_app (cKey c) (c :: a)) as (t & E & Ht).
  set (g := run (cKey c) (c :: a)) in *. assert (g <> []) as Hg by (unfold g; cbn; by rewrite decide_True).
  assert (length t < length (c :: a))%nat as Hlt.
  { rewrite E, length_app. destruct g; [done | cbn; lia]. }
  rewrite E, <- app_assoc, (groups_run (cKey c) g (t ++ b)), (groups_run (cKey c) g t); try done; try apply run_key.
  - cbn [app]. f_equal. destruct t as [|d t]; [done|]. apply (IH (length (d :: t))); [done | done|].
    unfold edge in *. by rewrite E, last_app_cons in Hed.
  - destruct t as [|d t]; [|done]. cbn [app]. destruct b as [|y b]; [done|].
    rewrite E, app_nil_r in Hed. unfold edge in Hed. destruct (last g) as [x|] eqn:El.
    + apply last_Some_elem_of in El. pose proof (run_key (cKey c) (c :: a)) as Hk. rewrite Forall_forall in Hk. fold g in Hk. rewrite Hk in Hed by done. congruence.
    + by apply last_None in El.
Qed.

(** ** The leaves a cursor reads *)

(** The leaves from page [pg] on, as the links give them. *)
Lemma leaf_chain_eq fuel h np (lv : list (Z * list cell)) : heap_ok h np -> chain h (map fst lv) -> Forall (fun q => 0 <= q < np) (map fst lv) -> NoDup (map fst lv) ->
  (length lv <= fuel)%nat -> match lv with [] => True | l :: _ => leaf_chain fuel h np l.1 = map fst lv end.
Proof.
  intros Hh. revert fuel. induction lv as [|[a cs] lv IH]; intros fuel Hc Hb Hnd Hf; [done|]. cbn in Hf. destruct fuel as [|fuel]; [lia|].
  cbn [map fst] in *. apply Forall_cons_1 in Hb as [Ha Hb]. apply NoDup_cons in Hnd as [Hni Hnd]. cbn [leaf_chain].
  replace (a >=? np) with false by lia. f_equal. pose proof (page_at h np a Hh Ha) as Hat. destruct Hh as [Hhl Hhb Hhs].
  unfold pageN, BT_HLCOffset. unwrap. replace (a * 0x4000 + 8 + 8 >? len h) with false by lia.
  assert (u64 h (a * 0x4000 + 8) = link (page h a)) as ->.
  { unfold u64, link, page. f_equal. rewrite sub_sub by lia. f_equal; lia. }
  destruct lv as [|[b cs'] lv].
  - cbn [BtTree.chain map] in Hc. destruct Hc as [-> _]. done.
  - cbn [map fst] in *. cbn [BtTree.chain] in Hc. destruct Hc as [[-> Hb0] Hc]. apply Forall_cons_1 in Hb as [Hb Hb'].
    replace (b =? 0) with false by lia. replace (b =? a) with false by (rewrite elem_of_cons in Hni; lia).
    replace (b >=? np) with false by lia. cbn [orb]. apply (IH fuel); [done | by constructor | done | cbn in *; lia].
Qed.

(** The descent to the leftmost leaf. *)
Lemma leftmost_rules h np : heap_ok h np ->
  (forall pg lo up lv ips, tree h np pg lo up lv ips -> NoDup (pages lv ips) -> forall fuel, (length ips <= fuel)%nat ->
     exists l lv', lv = l :: lv' /\ leftmost fuel h np pg = Some l.1) /\
  (forall c lo up sc lv ips, kids h np c lo up sc lv ips -> NoDup (pages lv ips) -> forall fuel, (length ips <= fuel)%nat ->
     exists l lv', lv = l :: lv' /\ leftmost fuel h np c = Some l.1).
Proof.
  intros Hh. pose proof Hh as [Hhl Hhb Hhs]. apply tree_kids_rules.
  - intros pg lo up cs hi Hpg Hrep _ _ _ fuel _. eexists _, _. split; [reflexivity|]. destruct fuel as [|fuel]; [done|]. cbn [leftmost].
    unfold pageN, BT_TypeOffset. unwrap. replace (pg * 0x4000 + 20 >=? len h) with false by lia.
    pose proof (rep_leaf _ _ _ _ _ Hrep) as Hty. unfold page in Hty. rewrite rd_sub in Hty by lia. by rewrite Hty.
  - intros pg lo up sc hi lv ips Hpg Hrep _ Hk IH Hnd fuel Hf. unfold pages in Hnd. cbn in Hnd, Hf. apply NoDup_cons in Hnd as [Hni Hnd].
    destruct fuel as [|fuel]; [lia|]. cbn [leftmost]. unfold pageN, BT_TypeOffset, BT_HLCOffset. unwrap.
    replace (pg * 0x4000 + 20 >=? len h) with false by lia.
    pose proof (rep_leaf _ _ _ _ _ Hrep) as Hty. unfold page in Hty. rewrite rd_sub in Hty by lia. rewrite Hty. cbn [Z.eqb Pos.eqb negb BT_TypeLeaf BT_TypeInternal].
    replace (pg * 0x4000 + 8 + 8 >? len h) with false by lia.
    assert (u64 h (pg * 0x4000 + 8) = link (page h pg)) as ->.
    { unfold u64, link, page. f_equal. rewrite sub_sub by lia. f_equal; lia. }
    destruct (proj2 (tree_pages_rules h np) _ _ _ _ _ _ Hk) as [Hall Hin].
    rewrite Forall_forall in Hall. pose proof (Hall _ Hin).
    replace (link (page h pg) >=? np) with false by lia.
    replace (link (page h pg) =? pg) with false by (symmetry; apply Z.eqb_neq; intros E; apply Hni; by rewrite <- E at 1). cbn [orb].
    apply IH; [done | lia].
  - intros c lo up lv ips _ IH. exact IH.
  - intros c lo up s sc lv1 lv2 ips1 ips2 _ _ IH1 _ _ Hnd fuel Hf. rewrite length_app in Hf.
    destruct (IH1) with (fuel := fuel) as (l & lv' & -> & E); [| lia | by exists l, (lv' ++ lv2)].
    unfold pages in *. rewrite map_app in Hnd. apply NoDup_app in Hnd as (H1 & Hx & H2). apply NoDup_app in H1 as (H1 & _ & _).
    apply NoDup_app in H2 as (H2 & _ & _). apply NoDup_app. split; [done|]. split; [|done]. intros x Hin Hin2.
    apply (Hx x); rewrite elem_of_app; by left.
Qed.

Lemma initLeafPages_eq h np root lv ips : btree h np root lv ips -> initLeafPages (Some h) np root = map fst lv.
Proof.
  intros Hbt. destruct (btree_size _ _ _ _ _ Hbt) as (Hsize & Hlv & Hroot & Hsmall). pose proof (bt_heap _ _ _ _ _ Hbt) as Hh.
  unfold initLeafPages. replace (np =? 0) with false by lia. replace (root >=? np) with false by lia. cbn [orb].
  pose proof (len_nonneg lv). destruct (proj1 (leftmost_rules h np Hh) _ _ _ _ _ (bt_tree _ _ _ _ _ Hbt) (bt_distinct _ _ _ _ _ Hbt) (Z.to_nat np)) as (l & lv' & E & ->);
    [unfold len in *; lia|].
  pose proof (leaf_chain_eq (Z.to_nat np) h np lv Hh (bt_chain _ _ _ _ _ Hbt)) as Hch. subst lv. apply Hch.
  - destruct (proj1 (tree_pages_rules h np) _ _ _ _ _ (bt_tree _ _ _ _ _ Hbt)) as [Hall _]. unfold pages in Hall. by apply Forall_app in Hall as [_ ?].
  - pose proof (bt_distinct _ _ _ _ _ Hbt) as Hnd. unfold pages in Hnd. by apply NoDup_app in Hnd as (_ & _ & ?).
  - unfold len in *. lia.
Qed.

(** ** Reading slots *)

Section Over.
Context {h : list Z} {np rt : Z} {LV : list (Z * list cell)} {IPS : list Z} (Hbt : btree h np rt LV IPS).

(** [c] is a cursor over the tree. *)
Record over_tree (c : Cursor) : Prop := {
  ov_heap : heap c = Some h; ov_pages : npages c = np; ov_leaves : leafPages c = map fst LV;
}.

Abbreviation n := (len LV).
Definition cells (l : Z) : list cell := if l <? 0 then [] else match LV !! Z.to_nat l with Some (_, cs) => cs | None => [] end.
Definition cell_at_pos (l s : Z) : option cell := if s <? 0 then None else cells l !! Z.to_nat s.

Lemma leaf_at l : 0 <= l < n -> exists pg cs hi, LV !! Z.to_nat l = Some (pg, cs) /\ 0 <= pg < np /\ rep 16 (page h pg) cs hi /\
  cells l = cs /\ rd (map fst LV) l = pg.
Proof.
  intros Hl. destruct (lookup_lt_is_Some_2 LV (Z.to_nat l)) as [[pg cs] E]; [unfold len in Hl; lia|].
  pose proof (proj1 (tree_leaves h np) _ _ _ _ _ (bt_tree _ _ _ _ _ Hbt)) as Hall. rewrite Forall_forall in Hall.
  destruct (Hall (pg, cs)) as (Hpg & hi & Hrep); [by eapply list_elem_of_lookup_2|]. cbn [fst snd] in *. exists pg, cs, hi. split_and!; try done; try lia.
  - unfold cells. replace (l <? 0) with false by lia. by rewrite E.
  - unfold rd. by rewrite list_lookup_fmap, E.
Qed.

Lemma cells_out l : l < 0 \/ n <= l -> cells l = [].
Proof.
  intros Hl. unfold cells. zcase; [done|]. rewrite lookup_ge_None_2; [done|]. unfold len in Hl. lia.
Qed.

Lemma len_leaves c : over_tree c -> len (leafPages c) = n.
Proof. intros [_ _ ->]. unfold len. by rewrite length_map. Qed.

Lemma count_eq c l : over_tree c -> leafSlotCount c l = len (cells l).
Proof.
  intros Hov. pose proof (len_leaves c Hov) as Hn. destruct Hov as [E1 E2 E3]. unfold leafSlotCount. rewrite Hn, E1, E3.
  destruct (Z.ltb_spec l 0); cbn [orb]; [by rewrite cells_out by lia|]. destruct (Z.geb_spec l n); [by rewrite cells_out by lia|].
  destruct (leaf_at l) as (pg & cs & hi & _ & Hpg & Hrep & -> & ->); [lia|]. cbn [bytes_of default from_option]. unfold id.
  pose proof (page_at h np pg (bt_heap _ _ _ _ _ Hbt) Hpg) as Hat. destruct (bt_heap _ _ _ _ _ Hbt) as [Hhl _ Hhs].
  unfold pageN, BT_NSlotsOffset. unwrap. replace (pg * 0x4000 + 22 + 2 >? len h) with false by lia.
  rewrite <- (rep_nslots _ _ _ _ _ Hrep). unfold u16, fld. by rewrite (at_sub Hat (pg * 0x4000 + 22) _ 22 (22 + 2)) by lia.
Qed.

(** A slot below the count reads as its cell. *)
Lemma read_eq c l s : over_tree c ->
  readSlotCell c l s = (fun x => (cKey x, cId x, cVal x, len (cVal x))) <$> cell_at_pos l s.
Proof.
  intros Hov. pose proof (len_leaves c Hov) as Hn. pose proof (bt_heap _ _ _ _ _ Hbt) as Hh. destruct Hov as [E1 E2 E3].
  unfold readSlotCell, cell_at_pos. rewrite Hn, E1, E3.
  destruct (Z.ltb_spec l 0); cbn [orb]; [rewrite cells_out by lia; by case_match|].
  destruct (Z.geb_spec l n); [rewrite cells_out by lia; by case_match|].
  destruct (leaf_at l) as (pg & cs & hi & _ & Hpg & Hrep & -> & ->); [lia|]. cbn [bytes_of default from_option]. unfold id.
  pose proof (page_at h np pg Hh Hpg) as Hat. pose proof Hh as [Hhl Hhb Hhs]. pose proof (rep_room _ _ _ _ _ Hrep) as Hroom. pose proof (rep_count Hrep) as Hcnt.
  unfold pageN, BT_NSlotsOffset, BT_BodyOffset, BT_SlotSize, BT_IDLen, OverflowChunkCapacity, u16. unwrap.
  replace (pg * 0x4000 + 22 + 2 >? len h) with false by lia.
  rewrite (at_sub Hat (pg * 0x4000 + 22) _ 22 (22 + 2)) by lia. fold (fld (page h pg) 22). rewrite (rep_nslots _ _ _ _ _ Hrep).
  destruct (Z.ltb_spec s 0); cbn [orb]; [done|]. destruct (Z.geb_spec s (len cs)); [by rewrite lookup_ge_None_2 by (unfold len in *; lia)|].
  destruct (lookup_lt_is_Some_2 cs (Z.to_nat s)) as [x Hx]; [unfold len in *; lia|]. rewrite Hx. cbn [fmap option_fmap option_map].
  destruct (rep_open Hrep s x ltac:(lia) Hx) as (off & _ & _ & Eoff & Hoff & Hend & Hhi & _ & Hkl & Hvl & Hk & Hid & Hv & Hil & Hk0 & _ & Hv0 & _).
  pose proof (rep_page _ _ _ _ _ Hrep) as Hp. unfold slot_addr in *. rewrite bt_read16_fld in Eoff, Hkl, Hvl by (done || lia).
  unwrap. replace (pg * 0x4000 + 64 + s * 2 + 2 >? pg * 0x4000 + 0x4000) with false by lia.
  replace (pg * 0x4000 + 64 + s * 2 + 2 >? len h) with false by lia.
  rewrite (at_sub Hat (pg * 0x4000 + 64 + s * 2) _ (64 + s * 2) (64 + s * 2 + 2)) by lia. fold (fld (page h pg) (64 + s * 2)). rewrite Eoff.
  replace (off <? 64) with false by lia. replace (off >? 0x4000 - 4) with false by lia. cbn [orb]. unwrap.
  replace (pg * 0x4000 + off + 4 >? len h) with false by lia. replace (pg * 0x4000 + off + 4 >? pg * 0x4000 + 0x4000) with false by lia. cbn [orb].
  rewrite (at_sub Hat (pg * 0x4000 + off) _ off (off + 2)) by lia. rewrite (at_sub Hat (pg * 0x4000 + off + 2) _ (off + 2) (off + 2 + 2)) by lia.
  fold (fld (page h pg) off) (fld (page h pg) (off + 2)). rewrite Hkl, Hvl.
  replace (len (cKey x) >? 0x4000) with false by lia. replace (len (cVal x) >? 0x4000) with false by lia. cbn [orb].
  replace (4 + len (cKey x) + 16 + len (cVal x) >? 0x4000 - 64) with false by lia.
  replace (4 + len (cKey x) + 16 + len (cVal x) >? 0x4000 - off) with false by lia. cbn [orb]. unwrap.
  repeat match goal with |- context [?a >? ?b] => replace (a >? b) with false by lia end. cbn [orb].
  rewrite (at_sub Hat (pg * 0x4000 + off + 4) _ (off + 4) (off + 4 + len (cKey x))) by lia.
  rewrite (at_sub Hat (pg * 0x4000 + off + 4 + len (cKey x)) _ (off + 4 + len (cKey x)) (off + 4 + len (cKey x) + 16)) by lia.
  rewrite (at_sub Hat (pg * 0x4000 + off + 4 + len (cKey x) + 16) _ (off + 4 + len (cKey x) + 16) (off + 4 + len (cKey x) + 16 + len (cVal x))) by lia.
  by rewrite Hk, Hid, Hv.
Qed.

End Over.

End CursorOk.
