(* ===== verification/Lz4.v ===== *)
(** * LZ4 blocks (src/pkg/c2lz4/c2lz4_gen.go, c2lz4.go)

    The compressor looks for matches through a table of 4096 positions and never
    lets a match reach beyond the current position; the decompressor checks every
    length it reads.  [encode] and [expand] are the format: a block is a list of
    sequences (literals, then a copy from [qOff] bytes back) and last literals. *)

From S2P Require Import Prelude.

Local Open Scope Z_scope.

Module Lz4.

(** ** The decompressor

    The result is the returned count and the destination; [None] is an index
    panic (or the end of the fuel, which [decompress_total] excludes). *)

(** The continuation bytes of a length: up to the first that is not 255. *)
Definition read_run (src : list Z) (src_len v18 v : Z) : option (Z * Z) :=
  no_ret (for_range v18 src_len (fun v34 '(_, v) =>
    v37 ← idx src v34;
    Some (if v37 =? 255 then Next (R:=Empty_set) (v34 + 1, v + v37) else Stop (v34 + 1, v + v37))) (v18, v)).

Definition copy_lits (src : list Z) (v18 : Z) (dst : list Z) (v20 v27 : Z) : option (list Z) :=
  no_ret (for_range 0 v27 (fun v51 dst =>
    x ← idx src (v18 + v51); dst ← upd dst (v20 + v51) x; Some (Next (R:=Empty_set) dst)) dst).

Definition copy_match (dst : list Z) (v20 v74 v85 : Z) : option (list Z) :=
  no_ret (for_range 0 v85 (fun v51 dst =>
    x ← idx dst (v20 - v74 + v51); dst ← upd dst (v20 + v51) x; Some (Next (R:=Empty_set) dst)) dst).

Fixpoint decompress_loop (fuel : nat) (src : list Z) (src_len dst_len v18 v20 : Z) (dst : list Z)
    : option (Z * list Z) :=
  match fuel with
  | O => None
  | S fuel' =>
      if negb (v18 <? src_len) then Some (v20, dst) else
      v26 ← idx src v18;
      let v18 := v18 + 1 in
      let v27 := Z.land (Z.shiftr v26 4) 15 in
      '(v18, v27) ← (if v27 =? 15 then read_run src src_len v18 v27 else Some (v18, v27));
      if (v27 <? 0) || (v20 + v27 >? dst_len) || (v18 + v27 >? src_len) then Some (-2, dst) else
      dst ← copy_lits src v18 dst v20 v27;
      let v20 := v20 + v27 in
      let v18 := v18 + v27 in
      if v18 >=? src_len then Some (v20, dst) else
      if v18 + 2 >? src_len then Some (-3, dst) else
      lo ← idx src v18;
      hi ← idx src (v18 + 1);
      let v74 := Z.lor lo (Z.shiftl hi 8) in
      let v18 := v18 + 2 in
      if (v74 =? 0) || (v74 >? v20) then Some (-4, dst) else
      let v85 := Z.land v26 15 + 4 in
      '(v18, v85) ← (if v85 =? 19 then read_run src src_len v18 v85 else Some (v18, v85));
      if (v85 <? 0) || (v20 + v85 >? dst_len) then Some (-5, dst) else
      dst ← copy_match dst v20 v74 v85;
      decompress_loop fuel' src src_len dst_len v18 (v20 + v85) dst
  end.

Definition Lz4_decompress_safe (src : slice) (src_len : Z) (dst : slice) (dst_len : Z)
    : option (Z * slice) :=
  let src_len := if slen src <? src_len then slen src else src_len in
  let dst_len := if slen dst <? dst_len then slen dst else dst_len in
  match src, dst with
  | Some s, Some d =>
      if (src_len <=? 0) || (dst_len <=? 0) then Some (-1, dst) else
      '(n, d) ← decompress_loop (S (Z.to_nat src_len)) s src_len dst_len 0 0 d;
      Some (n, Some d)
  | _, _ => Some (-1, dst)
  end.

Definition Decompress (src dst : slice) : option (Z * bool * slice) :=
  if (slen src =? 0) || (slen dst =? 0) then Some (0, false, dst) else
  '(n, dst) ← Lz4_decompress_safe src (slen src) dst (slen dst);
  Some (if n <? 0 then (0, false, dst) else (n, true, dst)).

(** ** The compressor

    The output is the destination and the write position [v18].  A step goes on
    with a new output, or makes the function return 0 ([inr]). *)

Definition out : Type := list Z * Z.
Abbreviation step A := (option (A + list Z)).
Definition sbind {A B} (m : step A) (k : A -> step B) : step B :=
  match m with Some (inl a) => k a | Some (inr d) => Some (inr d) | None => None end.
Notation "x <-- m ;; k" := (sbind m (fun x => k)) (at level 100, m at next level, right associativity).

(** [if v18 >= dst_max_len { return 0 }; dst[v18++] = b] *)
Definition emit (dst_max_len b : Z) (o : out) : step out :=
  if o.2 >=? dst_max_len then Some (inr o.1) else
  d ← upd o.1 o.2 b; Some (inl (d, o.2 + 1)).

(** [for v >= 255 { emit 0xff; v -= 255 }; emit byte(v)]; [v] rounds are enough. *)
Fixpoint emit_run_loop (fuel : nat) (dst_max_len v : Z) (o : out) : step out :=
  match fuel with
  | O => None
  | S fuel' =>
      if v >=? 255 then
        o <-- emit dst_max_len 255 o ;; emit_run_loop fuel' dst_max_len (v - 255) o
      else emit dst_max_len (w8 v) o
  end.
Definition emit_run (dst_max_len v : Z) (o : out) : step out :=
  emit_run_loop (S (Z.to_nat v)) dst_max_len v o.

Definition emit_lits (dst_max_len : Z) (src : list Z) (v20 n : Z) (o : out) : step out :=
  for_range 0 n (fun v23 o =>
    x ← idx src (v20 + v23);
    match emit dst_max_len x o with
    | Some (inl o') => Some (Next o')
    | Some (inr d) => Some (Ret d)
    | None => None
    end) o.

(** [(v18 + 2) > dst_max_len] is tested once for both bytes of the offset. *)
Definition emit_off (dst_max_len v166 : Z) (o : out) : step out :=
  if o.2 + 2 >? dst_max_len then Some (inr o.1) else
  d ← upd o.1 o.2 (w8 (Z.land v166 0xff));
  d ← upd d (o.2 + 1) (w8 (Z.land (Z.shiftr v166 8) 0xff));
  Some (inl (d, o.2 + 2)).

Definition load32 (src : list Z) (i : Z) : option Z :=
  b0 ← idx src i; b1 ← idx src (i + 1); b2 ← idx src (i + 2); b3 ← idx src (i + 3);
  Some (Z.lor (Z.lor (Z.lor b0 (Z.shiftl b1 8)) (Z.shiftl b2 16)) (Z.shiftl b3 24)).

(** The match length: from 4 on, while inside the source, behind the current
    position and equal. *)
Definition match_len (src : list Z) (src_len v16 v63 : Z) : option Z :=
  no_ret (for_range 4 src_len (fun v98 _ =>
    if negb (v16 + v98 <? src_len) then Some (Stop (R:=Empty_set) v98) else
    if negb (v63 + v98 <? v16) then Some (Stop v98) else
    a ← idx src (v16 + v98); b ← idx src (v63 + v98);
    Some (if negb (a =? b) then Stop v98 else Next (v98 + 1))) 4).

(** One sequence: token, literal length, literals, offset, match length. *)
Definition emit_sequence (dst_max_len : Z) (src : list Z) (v20 v16 v63 v98 : Z) (o : out) : step out :=
  let v114 := v16 - v20 in
  let v119 := Z.min v114 15 in
  let v128 := Z.min (v98 - 4) 15 in
  o <-- emit dst_max_len (w8 (Z.lor (Z.shiftl v119 4) v128)) o ;;
  o <-- (if v119 =? 15 then emit_run dst_max_len (v114 - 15) o else Some (inl o)) ;;
  o <-- emit_lits dst_max_len src v20 v114 o ;;
  o <-- emit_off dst_max_len (w16 (v16 - v63)) o ;;
  if v128 =? 15 then emit_run dst_max_len (v98 - 4 - 15) o else Some (inl o).

(** The search loop; its result is the start [v20] of the last literals. *)
Fixpoint compress_loop (fuel : nat) (src : list Z) (src_len dst_max_len v16 v20 : Z)
    (v22 : list Z) (o : out) : step (Z * out) :=
  match fuel with
  | O => None
  | S fuel' =>
      if negb (v16 + 4 <=? src_len) then Some (inl (v20, o)) else
      v56 ← load32 src v16;
      let v61 := Z.shiftr (w32 (v56 * 0x9e3779b1)) 20 in
      v63 ← idx v22 v61;
      v22 ← upd v22 v61 v16;
      let skip := compress_loop fuel' src src_len dst_max_len (v16 + 1) v20 v22 o in
      if (v63 >=? 0) && (v16 - v63 <? 0x10000) && (v63 + 4 <=? src_len) then
        w ← load32 src v63;
        if v56 =? w then
          v98 ← match_len src src_len v16 v63;
          o <-- emit_sequence dst_max_len src v20 v16 v63 v98 o ;;
          compress_loop fuel' src src_len dst_max_len (v16 + v98) (v16 + v98) v22 o
        else skip
      else skip
  end.

Definition emit_last (dst_max_len : Z) (src : list Z) (src_len v20 : Z) (o : out) : step out :=
  let v207 := src_len - v20 in
  if v207 >? 0 then
    let v213 := Z.min v207 15 in
    o <-- emit dst_max_len (w8 (Z.shiftl v213 4)) o ;;
    o <-- (if v213 =? 15 then emit_run dst_max_len (v207 - 15) o else Some (inl o)) ;;
    emit_lits dst_max_len src v20 v207 o
  else Some (inl o).

Definition Lz4_compress_fast (src : slice) (src_len : Z) (dst : slice) (dst_max_len : Z)
    : option (Z * slice) :=
  let src_len := if slen src <? src_len then slen src else src_len in
  match src, dst with
  | Some s, Some d =>
      if (src_len <=? 0) || (dst_max_len <=? 0) then Some (0, dst) else
      match
        r <-- compress_loop (S (Z.to_nat src_len)) s src_len dst_max_len 0 0
                (replicate (Z.to_nat 0x1000) (-1)) (d, 0) ;;
        emit_last dst_max_len s src_len r.1 r.2
      with
      | Some (inl (d, v18)) => Some (v18, Some d)
      | Some (inr d) => Some (0, Some d)
      | None => None
      end
  | _, _ => Some (0, dst)
  end.

Definition Compress (src dst : slice) : option (Z * slice) :=
  if (slen src =? 0) || (slen dst =? 0) then Some (0, dst) else
  Lz4_compress_fast src (slen src) dst (slen dst).

(** ** The format *)

Record sq := { qLits : list Z; qOff : Z; qLen : Z }.

Definition nib (x : Z) : Z := Z.min x 15.
Definition ext_bytes (x : Z) : list Z := replicate (Z.to_nat (x / 255)) 255 ++ [x `mod` 255].
(** The continuation bytes of a length whose nibble is [nib x]. *)
Definition run_bytes (x : Z) : list Z := if x <? 15 then [] else ext_bytes (x - 15).

Definition lit_bytes (l : list Z) (m : Z) : list Z :=
  nib (len l) * 16 + m :: run_bytes (len l) ++ l.
Definition seq_bytes (q : sq) : list Z :=
  lit_bytes (qLits q) (nib (qLen q - 4)) ++ le_put 2 (qOff q) ++ run_bytes (qLen q - 4).
Definition last_bytes (l : list Z) : list Z := if len l =? 0 then [] else lit_bytes l 0.
Definition encode (qs : list sq) (l : list Z) : list Z := concat (map seq_bytes qs) ++ last_bytes l.

(** What a copy of [n] bytes from [off] bytes back appends, byte by byte. *)
Fixpoint copied (n : nat) (off : Z) (o : list Z) : list Z :=
  match n with
  | O => o
  | S n' => copied n' off (o ++ [rd o (len o - off)])
  end.
Definition expand_sq (o : list Z) (q : sq) : list Z :=
  copied (Z.to_nat (qLen q)) (qOff q) (o ++ qLits q).
Definition expand (qs : list sq) (o : list Z) : list Z := foldl expand_sq o qs.

(** The sequences a block may hold after the output [o]. *)
Record sq_ok (o : list Z) (q : sq) : Prop := {
  sq_lits : bytes_ok (qLits q);
  sq_off : 0 < qOff q < 65536;
  sq_back : qOff q <= len o + len (qLits q);
  sq_len : 4 <= qLen q;
}.
Fixpoint sqs_ok (o : list Z) (qs : list sq) : Prop :=
  match qs with [] => True | q :: qs' => sq_ok o q /\ sqs_ok (expand_sq o q) qs' end.

(** ** The format's sizes *)

Lemma len_replicate {A} n (x : A) : len (replicate n x) = Z.of_nat n.
Proof. unfold len. by rewrite length_replicate. Qed.

Lemma len_run_bytes x : 0 <= x ->
  len (run_bytes x) = if x <? 15 then 0 else (x - 15) / 255 + 1.
Proof.
  intros Hx. unfold run_bytes. zcase; [done|].
  unfold ext_bytes. rewrite len_app, len_replicate, len_single.
  assert (0 <= (x - 15) / 255) by (apply Z.div_pos; lia). lia.
Qed.

(** A length costs at most a byte in 255, and one more. *)
Lemma run_bytes_lits x : 0 <= x -> len (run_bytes x) <= x / 255 + 1.
Proof.
  intros Hx. rewrite len_run_bytes by done. pose proof (Z.div_pos x 255 ltac:(lia) ltac:(lia)). zcase; [lia|].
  pose proof (Z.div_le_mono (x - 15) x 255 ltac:(lia) ltac:(lia)). lia.
Qed.

(** A match is shorter in the block than in the output, with a byte to spare. *)
Lemma run_bytes_match m : 4 <= m -> len (run_bytes (m - 4)) + 4 <= m.
Proof.
  intros Hm. rewrite len_run_bytes by lia. zcase; [lia|].
  pose proof (Z.mul_div_le (m - 4 - 15) 255). lia.
Qed.

Lemma len_lit_bytes l m : len (lit_bytes l m) = 1 + len (run_bytes (len l)) + len l.
Proof. unfold lit_bytes. rewrite len_cons, len_app. lia. Qed.

Lemma len_copied n off o : len (copied n off o) = len o + Z.of_nat n.
Proof.
  revert o. induction n as [|n IH]; intros o; cbn [copied]; [lia|].
  rewrite IH, len_app, len_single. lia.
Qed.

Lemma len_expand_sq o q : 0 <= qLen q -> len (expand_sq o q) = len o + len (qLits q) + qLen q.
Proof. intros Hq. unfold expand_sq. rewrite len_copied, len_app. lia. Qed.

Lemma len_seq_bytes q : 4 <= qLen q ->
  len (seq_bytes q) <= len (qLits q) + len (qLits q) / 255 + qLen q.
Proof.
  intros Hq. unfold seq_bytes. rewrite !len_app, len_lit_bytes, len_le_put.
  pose proof (run_bytes_match (qLen q) Hq).
  pose proof (run_bytes_lits (len (qLits q)) (len_nonneg _)). lia.
Qed.

Lemma div_super a b : 0 <= a -> 0 <= b -> a / 255 + b / 255 <= (a + b) / 255.
Proof.
  intros Ha Hb. apply Z.div_le_lower_bound; [lia|].
  pose proof (Z.mul_div_le a 255). pose proof (Z.mul_div_le b 255). lia.
Qed.

(** The blocks of [n] bytes of output have at most [n + n / 255] bytes. *)
Lemma len_encode_seqs qs o : sqs_ok o qs ->
  len (concat (map seq_bytes qs)) + len o + len o / 255 <= len (expand qs o) + len (expand qs o) / 255.
Proof.
  revert o. induction qs as [|q qs IH]; intros o; [intros _; cbn [map concat expand foldl]; rewrite len_nil; lia|].
  intros [Hq Hqs]. destruct Hq as [_ _ _ Hl]. cbn [map concat expand foldl]. rewrite len_app.
  specialize (IH _ Hqs). fold (expand qs (expand_sq o q)).
  pose proof (len_seq_bytes q Hl). rewrite len_expand_sq in IH by lia.
  pose proof (len_nonneg o). pose proof (len_nonneg (qLits q)).
  pose proof (div_super (len o) (len (qLits q) + qLen q) ltac:(lia) ltac:(lia)).
  pose proof (Z.div_le_mono (len (qLits q)) (len (qLits q) + qLen q) 255 ltac:(lia) ltac:(lia)).
  replace (len o + len (qLits q) + qLen q) with (len o + (len (qLits q) + qLen q)) in IH by lia. lia.
Qed.

(** ** Emission

    A step of the compressor writes given bytes at the write position, or finds
    that they do not fit. *)

Definition wrote (dst_max_len : Z) (bs : list Z) (k : out -> step out) : Prop :=
  forall d p, 0 <= p <= dst_max_len -> dst_max_len <= len d ->
    match k (d, p) with
    | Some (inl o) => p + len bs <= dst_max_len /\ o = (copy_at d p bs, p + len bs)
    | Some (inr d') => dst_max_len < p + len bs /\ len d' = len d
    | None => False
    end.

Section emission.
Context (dst_max_len : Z).

Lemma wrote_nil : wrote dst_max_len [] (fun o => Some (inl o)).
Proof. intros d p Hp Hd. rewrite len_nil, copy_at_nil, Z.add_0_r. split; [lia | done]. Qed.

Lemma wrote_bind a b k1 k2 :
  wrote dst_max_len a k1 -> wrote dst_max_len b k2 ->
  wrote dst_max_len (a ++ b) (fun o => o <-- k1 o ;; k2 o).
Proof.
  intros H1 H2 d p Hp Hd. specialize (H1 d p Hp Hd). pose proof (len_nonneg a). pose proof (len_nonneg b).
  rewrite len_app.
  destruct (k1 (d, p)) as [[o|d']|]; [|cbn; split; [lia | apply H1] | done]. destruct H1 as [Ha ->].
  cbn [sbind]. specialize (H2 (copy_at d p a) (p + len a) ltac:(lia) ltac:(rewrite len_copy_at; lia)).
  rewrite len_copy_at in H2.
  destruct (k2 _) as [[o|d']|]; [|split; [lia | apply H2] | done]. destruct H2 as [Hb ->].
  split; [lia|]. f_equal; [|lia]. apply copy_at_app; lia.
Qed.

Lemma wrote_if (c : bool) a b k1 k2 :
  (c = true -> wrote dst_max_len a k1) -> (c = false -> wrote dst_max_len b k2) ->
  wrote dst_max_len (if c then a else b) (fun o => if c then k1 o else k2 o).
Proof. destruct c; auto. Qed.

Lemma wrote_ext bs k1 k2 : (forall o, k1 o = k2 o) -> wrote dst_max_len bs k1 -> wrote dst_max_len bs k2.
Proof. intros He H d p Hp Hd. rewrite <- He. by apply H. Qed.

Lemma emit_wrote b : wrote dst_max_len [b] (emit dst_max_len b).
Proof.
  intros d p Hp Hd. unfold emit. cbn [fst snd]. rewrite len_single. zcase.
  - split; [lia | done].
  - rewrite upd_wr by lia. cbn. split; [lia|]. by rewrite wr_copy_at.
Qed.

Lemma emit_run_wrote v : 0 <= v -> wrote dst_max_len (ext_bytes v) (emit_run dst_max_len v).
Proof.
  unfold emit_run. intros Hv.
  assert (forall f, (Z.to_nat v < f)%nat -> wrote dst_max_len (ext_bytes v) (emit_run_loop f dst_max_len v)) as H;
    [|apply H; lia].
  pattern v. apply (Zlt_0_ind _); [|done]. clear v Hv. intros v IH Hv f Hf.
  destruct f as [|f]; [lia|]. unfold ext_bytes.
  destruct (Z.leb_spec 255 v) as [Hbig|Hsmall].
  - replace (v / 255) with (1 + (v - 255) / 255)
      by (rewrite <- Z.div_add_l by lia; f_equal; lia).
    rewrite Z2Nat.inj_add by (try apply Z.div_pos; lia).
    change (Z.to_nat 1) with 1%nat. cbn [Nat.add replicate app].
    replace (v `mod` 255) with ((v - 255) `mod` 255)
      by (rewrite <- (Z_mod_plus_full _ 1); f_equal; lia).
    apply (wrote_ext _ (fun o => o <-- emit dst_max_len 255 o ;; emit_run_loop f dst_max_len (v - 255) o)).
    { intros o. cbn [emit_run_loop]. zcase; [done | lia]. }
    apply (wrote_bind [255]); [apply emit_wrote|]. apply (IH (v - 255)); lia.
  - rewrite Z.div_small, Z.mod_small by lia. cbn [replicate app].
    apply (wrote_ext _ (emit dst_max_len (w8 v))).
    { intros o. cbn [emit_run_loop]. zcase; [lia | done]. }
    rewrite w8_small by lia. apply emit_wrote.
Qed.

Lemma emit_lits_wrote src v20 n : 0 <= v20 -> 0 <= n -> v20 + n <= len src ->
  wrote dst_max_len (sub src v20 (v20 + n)) (emit_lits dst_max_len src v20 n).
Proof.
  intros Hv Hn Hsrc d p Hp Hd. rewrite len_sub by lia. unfold emit_lits.
  destruct (for_range_inv (S:=out) (R:=list Z)
    (fun i o => p + i <= dst_max_len /\ o = (copy_at d p (sub src v20 (v20 + i)), p + i))
    (fun r => match r with
              | inl o => p + n <= dst_max_len /\ o = (copy_at d p (sub src v20 (v20 + n)), p + n)
              | inr d' => dst_max_len < p + n /\ len d' = len d
              end) 0 n
    (fun v23 o => x ← idx src (v20 + v23);
       match emit dst_max_len x o with
       | Some (inl o') => Some (Next o')
       | Some (inr d) => Some (Ret d)
       | None => None
       end) (d, p)) as (r & -> & Hr).
  - lia.
  - rewrite !Z.add_0_r, sub_nil, copy_at_nil. split; [lia | done].
  - intros i o Hi [Hfit ->]. rewrite idx_rd by lia. cbn [mbind option_bind].
    pose proof (emit_wrote (rd src (v20 + i)) (copy_at d p (sub src v20 (v20 + i))) (p + i)
      ltac:(lia) ltac:(rewrite len_copy_at; lia)) as He.
    rewrite len_single, len_copy_at in He.
    destruct (emit _ _ _) as [[o|d']|]; [|split; [lia | apply He] | done]. destruct He as [Hf ->].
    split; [lia|]. f_equal; [|lia]. rewrite copy_at_app by (rewrite ?len_sub; lia).
    f_equal. symmetry. rewrite Z.add_assoc. apply sub_snoc; [lia..|].
    unfold rd. destruct (lookup_lt_is_Some_2 src (Z.to_nat (v20 + i))) as [x Hx]; [unfold len in *; lia|].
    by rewrite Hx.
  - intros o [Hf ->]. by split.
  - destruct r as [o|d']; [destruct Hr as [Hf ->]; split; [lia | by f_equal; lia] | split; [lia | apply Hr]].
Qed.

Lemma emit_off_wrote v : 0 <= v < 65536 -> wrote dst_max_len (le_put 2 v) (emit_off dst_max_len v).
Proof.
  intros Hv d p Hp Hd. unfold emit_off. cbn [fst snd]. rewrite len_le_put. zcase.
  - split; [lia | done].
  - rewrite upd_wr by lia. cbn [mbind option_bind]. rewrite upd_wr by (rewrite len_wr; lia).
    cbn [mbind option_bind]. split; [lia|]. f_equal.
    rewrite !wr_copy_at, copy_at_app by (rewrite ?len_single; lia). f_equal.
    cbn [app]. rewrite !le_put_S. cbn [le_put]. rewrite !w8_small; [done|..];
      change 255 with (Z.ones 8); rewrite Z.land_ones by lia; apply Z.mod_pos_bound; lia.
Qed.

Lemma token_byte l m : 0 <= l -> 0 <= m ->
  w8 (Z.lor (Z.shiftl (nib l) 4) (nib m)) = nib l * 16 + nib m.
Proof.
  intros Hl Hm. unfold nib. rewrite Z.lor_comm, lor_shiftl_add by lia.
  rewrite w8_small; lia.
Qed.

(** A length: its continuation bytes are written when the nibble is full. *)
Lemma emit_ext_wrote x : 0 <= x ->
  wrote dst_max_len (run_bytes x)
    (fun o => if nib x =? 15 then emit_run dst_max_len (x - 15) o else Some (inl o)).
Proof.
  intros Hx. unfold nib, run_bytes. destruct (Z.ltb_spec x 15).
  - apply (wrote_ext _ (fun o => Some (inl o))); [|apply wrote_nil]. intros o. zcase; [lia | done].
  - apply (wrote_ext _ (emit_run dst_max_len (x - 15))); [|apply emit_run_wrote; lia].
    intros o. zcase; [done | lia].
Qed.

Lemma emit_sequence_wrote src v20 v16 v63 v98 :
  0 <= v20 <= v16 -> v16 <= len src -> 0 < v16 - v63 < 65536 -> 4 <= v98 ->
  wrote dst_max_len (seq_bytes {| qLits := sub src v20 v16; qOff := v16 - v63; qLen := v98 |})
    (emit_sequence dst_max_len src v20 v16 v63 v98).
Proof.
  intros Hv Hsrc Hoff Hlen. unfold seq_bytes, lit_bytes, emit_sequence. cbn [qLits qOff qLen].
  rewrite len_sub by lia. fold (nib (v16 - v20)) (nib (v98 - 4)).
  rewrite token_byte by lia. change (?x :: ?a ++ ?b) with ([x] ++ (a ++ b)).
  rewrite <- !app_assoc. apply wrote_bind; [apply emit_wrote|].
  apply wrote_bind; [apply emit_ext_wrote; lia|].
  apply wrote_bind; [|apply wrote_bind].
  - replace v16 with (v20 + (v16 - v20)) at 1 by lia. apply emit_lits_wrote; lia.
  - rewrite w16_small by lia. apply emit_off_wrote. lia.
  - apply emit_ext_wrote. lia.
Qed.

Lemma emit_last_wrote src v20 : 0 <= v20 <= len src ->
  wrote dst_max_len (last_bytes (sub src v20 (len src))) (emit_last dst_max_len src (len src) v20).
Proof.
  intros Hv. unfold last_bytes, lit_bytes. rewrite len_sub by lia.
  destruct (Z.eqb_spec (len src - v20) 0) as [He|He].
  - apply (wrote_ext _ (fun o => Some (inl o))); [|apply wrote_nil].
    intros o. unfold emit_last. by replace (len src - v20 >? 0) with false by lia.
  - apply (wrote_ext _ (fun o =>
      o <-- emit dst_max_len (w8 (Z.shiftl (nib (len src - v20)) 4)) o ;;
      o <-- (if nib (len src - v20) =? 15 then emit_run dst_max_len (len src - v20 - 15) o else Some (inl o)) ;;
      emit_lits dst_max_len src v20 (len src - v20) o)).
    { intros o. unfold emit_last. by replace (len src - v20 >? 0) with true by lia. }
    replace (w8 _) with (nib (len src - v20) * 16 + 0)
      by (unfold nib; rewrite Z.shiftl_mul_pow2 by lia; rewrite w8_small; lia).
    change (?x :: ?a ++ ?b) with ([x] ++ (a ++ b)).
    apply wrote_bind; [apply emit_wrote|]. apply wrote_bind; [apply emit_ext_wrote; lia|].
    replace (len src) with (v20 + (len src - v20)) at 1 by lia. apply emit_lits_wrote; lia.
Qed.

End emission.

(** ** Matches *)

Lemma load32_eq src i : 0 <= i -> i + 4 <= len src -> bytes_ok src ->
  load32 src i = Some (le_get 4 (sub src i (i + 4))).
Proof.
  intros Hi Hl Hb. unfold load32. rewrite !idx_rd by lia. cbn [mbind option_bind]. f_equal.
  rewrite (le_get_sub_S 3 src i), (le_get_sub_S 2 src (i + 1)), (le_get_sub_S 1 src (i + 1 + 1)),
    (le_get_sub_S 0 src (i + 1 + 1 + 1)) by lia.
  cbn [le_get]. replace (i + 1 + 1) with (i + 2) by lia. replace (i + 2 + 1) with (i + 3) by lia.
  pose proof (rd_bound src i Hb). pose proof (rd_bound src (i + 1) Hb).
  pose proof (rd_bound src (i + 2) Hb). pose proof (rd_bound src (i + 3) Hb).
  rewrite (lor_shiftl_add _ (rd src (i + 1))), (lor_shiftl_add _ (rd src (i + 2))),
    (lor_shiftl_add _ (rd src (i + 3))) by lia. lia.
Qed.

(** Equal words are equal bytes. *)
Lemma load32_match src i j k : bytes_ok src -> 0 <= i -> i + 4 <= len src -> 0 <= j -> j + 4 <= len src ->
  le_get 4 (sub src i (i + 4)) = le_get 4 (sub src j (j + 4)) -> 0 <= k < 4 ->
  rd src (i + k) = rd src (j + k).
Proof.
  intros Hb Hi Hil Hj Hjl He Hk.
  assert (sub src i (i + 4) = sub src j (j + 4)) as Hs.
  { pose proof (len_sub src i (i + 4) ltac:(lia) Hil) as Li.
    pose proof (len_sub src j (j + 4) ltac:(lia) Hjl) as Lj. unfold len in Li, Lj.
    assert (length (sub src i (i + 4)) = 4%nat) as Ni by lia.
    assert (length (sub src j (j + 4)) = 4%nat) as Nj by lia.
    apply le_get_inj; [auto with c2db..|lia|]. by rewrite Ni, Nj. }
  rewrite <- (rd_sub src i (i + 4)), <- (rd_sub src j (j + 4)) by lia. by rewrite Hs.
Qed.

Definition agree (src : list Z) (v16 v63 n : Z) : Prop :=
  v16 + n <= len src /\ forall k, 0 <= k < n -> rd src (v16 + k) = rd src (v63 + k).

Lemma match_len_eq src v16 v63 : 0 <= v63 < v16 -> agree src v16 v63 4 ->
  exists m, match_len src (len src) v16 v63 = Some m /\ 4 <= m /\ agree src v16 v63 m.
Proof.
  intros Hv [Hlen H4]. unfold match_len.
  destruct (for_range_inv (S:=Z) (R:=Empty_set)
    (fun i m => m = i /\ agree src v16 v63 m)
    (fun r => match r with inl m => 4 <= m /\ agree src v16 v63 m | inr _ => False end) 4 (len src)
    (fun v98 _ =>
      if negb (v16 + v98 <? len src) then Some (Stop (R:=Empty_set) v98) else
      if negb (v63 + v98 <? v16) then Some (Stop v98) else
      a ← idx src (v16 + v98); b ← idx src (v63 + v98);
      Some (if negb (a =? b) then Stop v98 else Next (v98 + 1))) 4) as (r & -> & Hr).
  - lia.
  - done.
  - intros i m Hi (-> & Ha & Hag). zcase; cbn [negb]; [|by split; [lia|]].
    zcase; cbn [negb]; [|by split; [lia|]].
    rewrite !idx_rd by lia. cbn [mbind option_bind]. zcase; cbn [negb]; [|by split; [lia|]].
    split; [done|]. split; [lia|]. intros k Hk.
    destruct (decide (k = i)) as [->|]; [done|]. apply Hag. lia.
  - intros m (-> & Ha & Hag). split; [lia | by split].
  - destruct r as [m|[]]. exists m. split; [done | exact Hr].
Qed.

(** Copying a match rebuilds the source. *)
Lemma copied_source src off p n : 0 < off <= p -> p + Z.of_nat n <= len src ->
  (forall k, 0 <= k < Z.of_nat n -> rd src (p + k) = rd src (p - off + k)) ->
  copied n off (sub src 0 p) = sub src 0 (p + Z.of_nat n).
Proof.
  revert p. induction n as [|n IH]; intros p Hoff Hlen Hag; cbn [copied]; [f_equal; lia|].
  rewrite len_sub, rd_sub by lia.
  assert (sub src 0 p ++ [rd src (0 + (p - 0 - off))] = sub src 0 (p + 1)) as ->.
  { symmetry. apply sub_snoc; [lia..|].
    pose proof (Hag 0 ltac:(lia)) as H0. rewrite !Z.add_0_r in H0.
    replace (0 + (p - 0 - off)) with (p - off) by lia. rewrite <- H0. unfold rd.
    destruct (lookup_lt_is_Some_2 src (Z.to_nat p)) as [x Hx]; [unfold len in *; lia|]. by rewrite Hx. }
  rewrite IH; [f_equal; lia | lia.. |].
  intros k Hk. specialize (Hag (k + 1) ltac:(lia)).
  replace (p + 1 + k) with (p + (k + 1)) by lia. rewrite Hag. f_equal. lia.
Qed.

(** ** The compressor's block stands for the source *)

Definition enc (qs : list sq) : list Z := concat (map seq_bytes qs).

Lemma enc_snoc qs q : enc (qs ++ [q]) = enc qs ++ seq_bytes q.
Proof. unfold enc. rewrite map_app, concat_app. cbn. by rewrite app_nil_r. Qed.
Lemma expand_snoc qs q o : expand (qs ++ [q]) o = expand_sq (expand qs o) q.
Proof. unfold expand. by rewrite foldl_app. Qed.
Lemma sqs_ok_snoc qs q o : sqs_ok o qs -> sq_ok (expand qs o) q -> sqs_ok o (qs ++ [q]).
Proof.
  revert o. induction qs as [|q' qs IH]; intros o; [by cbn|].
  cbn [sqs_ok app]. intros [Hq' Hqs] Hq. split; [done|]. by apply IH.
Qed.

Definition table_ok (v22 : list Z) (v16 : Z) : Prop :=
  len v22 = 4096 /\ forall i, 0 <= i < 4096 -> -1 <= rd v22 i < v16.

Lemma table_ok_put v22 i v16 v : table_ok v22 v16 -> 0 <= i < 4096 -> v16 < v ->
  0 <= v16 -> table_ok (wr v22 i v16) v.
Proof.
  intros [Hl Ht] Hi Hv H0. split; [by rewrite len_wr|]. intros j Hj.
  destruct (decide (i = j)) as [<-|Hne]; [rewrite rd_wr_eq by lia; lia|].
  rewrite rd_wr_ne by lia. specialize (Ht j Hj). lia.
Qed.

Lemma hash_bound x : 0 <= Z.shiftr (w32 x) 20 < 4096.
Proof.
  rewrite Z.shiftr_div_pow2 by lia. pose proof (w32_bound x).
  split; [apply Z.div_pos; lia|]. apply Z.div_lt_upper_bound; lia.
Qed.

(** The state of the search: the sequences so far stand for [src[:v20]]. *)
Definition parsed (src : list Z) (v20 : Z) (qs : list sq) : Prop :=
  sqs_ok [] qs /\ expand qs [] = sub src 0 v20.

Lemma parsed_snoc src v20 qs v16 v63 m :
  bytes_ok src -> 0 <= v20 <= v16 -> 0 <= v63 < v16 -> v16 - v63 < 65536 -> 4 <= m ->
  agree src v16 v63 m -> parsed src v20 qs ->
  parsed src (v16 + m) (qs ++ [{| qLits := sub src v20 v16; qOff := v16 - v63; qLen := m |}]).
Proof.
  intros Hb Hv20 Hv63 Hoff Hm [Hlen Hag] [Hqs Hexp]. split.
  - apply sqs_ok_snoc; [done|]. rewrite Hexp. split; cbn [qLits qOff qLen];
      rewrite ?len_sub by lia; [auto with c2db | lia..].
  - rewrite expand_snoc, Hexp. unfold expand_sq. cbn [qLits qOff qLen].
    rewrite <- sub_split by lia.
    rewrite copied_source; [by rewrite Z2Nat.id by lia | lia.. |].
    rewrite Z2Nat.id by lia. intros k Hk. rewrite (Hag k Hk). f_equal. lia.
Qed.

Lemma len_enc_parsed src v20 qs : 0 <= v20 <= len src -> parsed src v20 qs ->
  len (enc qs) <= len src + len src / 255.
Proof.
  intros Hv [Hqs Hexp]. pose proof (len_encode_seqs qs [] Hqs) as H.
  rewrite Hexp, len_sub, len_nil in H by lia. change (0 / 255) with 0 in H.
  fold (enc qs) in H. pose proof (Z.div_le_mono v20 (len src) 255 ltac:(lia) ltac:(lia)).
  replace (v20 - 0) with v20 in H by lia. lia.
Qed.

Definition written (d0 : list Z) (bs : list Z) : out := (copy_at d0 0 bs, len bs).

Lemma emit_after dst_max_len d0 bs bs' k : wrote dst_max_len bs' k ->
  len bs <= dst_max_len -> dst_max_len <= len d0 ->
  match k (written d0 bs) with
  | Some (inl o) => len (bs ++ bs') <= dst_max_len /\ o = written d0 (bs ++ bs')
  | Some (inr d') => dst_max_len < len (bs ++ bs') /\ len d' = len d0
  | None => False
  end.
Proof.
  intros Hk Hbs Hd. pose proof (len_nonneg bs).
  specialize (Hk (copy_at d0 0 bs) (len bs) ltac:(lia) ltac:(rewrite len_copy_at; lia)).
  unfold written. rewrite len_copy_at in Hk. rewrite len_app.
  destruct (k _) as [[o|d']|]; [|exact Hk|done]. destruct Hk as [Hfit ->]. split; [done|].
  f_equal. apply copy_at_app; lia.
Qed.

Section search.
Context (src d0 : list Z) (dst_max_len : Z).
Context (Hb : bytes_ok src) (Hd : dst_max_len <= len d0).

Definition search_result (r : step (Z * out)) : Prop :=
  match r with
  | Some (inl (v20, o)) => exists qs, parsed src v20 qs /\ 0 <= v20 <= len src /\
      len (enc qs) <= dst_max_len /\ o = written d0 (enc qs)
  | Some (inr d) => dst_max_len < len src + len src / 255 /\ len d = len d0
  | None => False
  end.

Lemma compress_loop_ok fuel v16 v20 v22 qs :
  0 <= v20 <= v16 -> v16 <= len src -> table_ok v22 v16 -> parsed src v20 qs ->
  len (enc qs) <= dst_max_len -> (Z.to_nat (len src - v16) < fuel)%nat ->
  search_result (compress_loop fuel src (len src) dst_max_len v16 v20 v22 (written d0 (enc qs))).
Proof using Hb Hd.
  revert v16 v20 v22 qs. induction fuel as [|fuel IH]; intros v16 v20 v22 qs Hv20 Hv16 Ht Hqs Hfit Hf; [lia|].
  cbn [compress_loop]. zcase; cbn [negb]; [|exists qs; destruct Hqs; repeat split; (done || lia)].
  rewrite load32_eq by (done || lia). cbn [mbind option_bind].
  set (h := Z.shiftr _ 20). pose proof (hash_bound (le_get 4 (sub src v16 (v16 + 4)) * 0x9e3779b1)) as Hh. fold h in Hh.
  rewrite idx_rd, upd_wr by (destruct Ht; lia). cbn [mbind option_bind].
  assert (search_result (compress_loop fuel src (len src) dst_max_len (v16 + 1) v20 (wr v22 h v16) (written d0 (enc qs)))) as Hskip.
  { apply IH; try done; try lia. apply table_ok_put; [done | lia..]. }
  destruct Ht as [Htl Ht]. pose proof (Ht h Hh) as Hv63.
  destruct ((rd v22 h >=? 0) && _ && _) eqn:Hc; [|done].
  apply andb_prop in Hc as [[Hc1 Hc2]%andb_prop Hc3].
  rewrite load32_eq by (done || lia). cbn [mbind option_bind].
  zcase; [|done].
  destruct (match_len_eq src v16 (rd v22 h)) as (m & -> & Hm & Hag); [lia | |].
  { split; [lia|]. intros k Hk. apply load32_match; (done || lia). }
  cbn [mbind option_bind].
  pose proof (emit_after dst_max_len d0 (enc qs) _ _
    (emit_sequence_wrote dst_max_len src v20 v16 (rd v22 h) m ltac:(lia) ltac:(lia) ltac:(lia) Hm) Hfit Hd) as He.
  destruct Hag as [Hml Hag].
  assert (parsed src (v16 + m) (qs ++ [{| qLits := sub src v20 v16; qOff := v16 - rd v22 h; qLen := m |}])) as Hp.
  { apply parsed_snoc; (done || lia). }
  pose proof (len_enc_parsed src (v16 + m) _ ltac:(lia) Hp) as Hlen.
  rewrite <- enc_snoc in He.
  destruct (emit_sequence _ _ _ _ _ _ _) as [[o|d']|]; cbn [sbind]; [|split; [lia | apply He] | done].
  destruct He as [Hfit' ->]. apply IH; try done; try lia.
  apply table_ok_put; [by split | lia..].
Qed.

End search.

Lemma table_ok_init : table_ok (replicate (Z.to_nat 0x1000) (-1)) 0.
Proof.
  split; [by rewrite len_replicate|]. intros i Hi. unfold rd.
  rewrite lookup_replicate_2 by lia. cbn. lia.
Qed.

(** A block that decompresses to [src]. *)
Definition block_of (src bs : list Z) : Prop :=
  exists qs l, bs = encode qs l /\ sqs_ok [] qs /\ bytes_ok l /\ expand qs [] ++ l = src.

Lemma encode_pos src qs l : expand qs [] ++ l = src -> 0 < len src -> 0 < len (encode qs l).
Proof.
  intros <- Hpos. unfold encode, last_bytes. rewrite len_app.
  pose proof (len_nonneg (concat (map seq_bytes qs))). zcase.
  - destruct qs as [|q qs]; [change (expand [] []) with (@nil Z) in Hpos; cbn [app] in Hpos; lia|].
    unfold seq_bytes, lit_bytes. cbn [map concat app]. rewrite len_cons, (len_nil (A:=Z)).
    match goal with |- context [1 + len ?x] => pose proof (len_nonneg x) end. lia.
  - rewrite len_lit_bytes. pose proof (len_nonneg (run_bytes (len l))). pose proof (len_nonneg l). lia.
Qed.

Lemma encode_size src v20 qs : 0 <= v20 <= len src -> parsed src v20 qs ->
  len (encode qs (sub src v20 (len src))) <= len src + len src / 255 + 2.
Proof.
  intros Hv [Hqs Hexp]. unfold encode, last_bytes. rewrite len_app, len_sub by lia.
  pose proof (len_encode_seqs qs [] Hqs) as Hlen.
  rewrite Hexp, len_sub, len_nil in Hlen by lia. change (0 / 255) with 0 in Hlen.
  replace (v20 - 0) with v20 in Hlen by lia.
  pose proof (div_super v20 (len src - v20) ltac:(lia) ltac:(lia)) as Hd.
  replace (v20 + (len src - v20)) with (len src) in Hd by lia.
  pose proof (Z.div_pos (len src - v20) 255 ltac:(lia) ltac:(lia)).
  zcase; [rewrite len_nil; lia|].
  rewrite len_lit_bytes, len_sub by lia. pose proof (run_bytes_lits (len src - v20) ltac:(lia)). lia.
Qed.

Lemma compress_fast_ok src d dst_max_len :
  bytes_ok src -> 0 < len src -> 0 < dst_max_len <= len d ->
  exists n d', Lz4_compress_fast (Some src) (len src) (Some d) dst_max_len = Some (n, Some d') /\
    len d' = len d /\
    ((n = 0 /\ dst_max_len < len src + len src / 255 + 2) \/
     (0 < n <= dst_max_len /\ exists bs, n = len bs /\ d' = copy_at d 0 bs /\ block_of src bs)).
Proof.
  intros Hb Hsrc Hmax. unfold Lz4_compress_fast, slen, bytes_of. cbn [from_option id].
  rewrite Z.ltb_irrefl. replace ((_ <=? 0) || _) with false by lia.
  replace (d, 0) with (written d (enc [])) by (unfold written; change (enc []) with (@nil Z); by rewrite copy_at_nil).
  pose proof (compress_loop_ok src d dst_max_len Hb ltac:(lia) (S (Z.to_nat (len src))) 0 0 _ []
    ltac:(lia) ltac:(lia) table_ok_init ltac:(split; [done | by rewrite sub_nil])
    ltac:(change (enc []) with (@nil Z); rewrite len_nil; lia) ltac:(lia)) as Hr.
  destruct (compress_loop _ _ _ _ _ _ _ _) as [[[v20 o]|d']|]; [|cbn [sbind]|done].
  2:{ exists 0, d'. destruct Hr as [Hr Hl]. repeat split; [done|]. left. lia. }
  destruct Hr as (qs & Hp & Hv & Hfit & ->). cbn [sbind fst snd].
  pose proof (emit_after dst_max_len d (enc qs) _ _ (emit_last_wrote dst_max_len src v20 Hv) Hfit ltac:(lia)) as He.
  pose proof (encode_size src v20 qs Hv Hp) as Hsz.
  assert (expand qs [] ++ sub src v20 (len src) = src) as Hall.
  { destruct Hp as [_ ->]. rewrite <- sub_split by lia. apply sub_full. }
  pose proof (encode_pos src qs _ Hall Hsrc) as Hpos. unfold encode in Hsz, Hpos. fold (enc qs) in Hsz, Hpos.
  destruct (emit_last _ _ _ _ _) as [[o|d']|]; [| |done]; destruct He as [Hf He].
  - subst o. unfold written. eexists _, _. split; [done|]. rewrite len_copy_at. split; [done|].
    right. split; [lia|]. eexists. do 2 (split; [done|]). exists qs, (sub src v20 (len src)).
    destruct Hp. repeat split; [done | auto with c2db | done].
  - exists 0, d'. repeat split; [done|]. left. lia.
Qed.

(** ** The decompressor rebuilds the output of a block *)

(** [src] holds the bytes [bs] from [v] on. *)
Definition holds (src : list Z) (v : Z) (bs : list Z) : Prop :=
  0 <= v /\ v + len bs <= len src /\ sub src v (v + len bs) = bs.

Lemma holds_app src v a b : holds src v (a ++ b) -> holds src v a /\ holds src (v + len a) b.
Proof.
  intros (Hv & Hl & Hs). rewrite len_app in *. pose proof (len_nonneg a). pose proof (len_nonneg b).
  rewrite (sub_split src v (v + len a)) in Hs by lia.
  apply app_inj_1 in Hs as [Ha Hbb].
  - split; (split; [lia|]; split; [lia|]); [done|]. by rewrite <- Z.add_assoc.
  - pose proof (len_sub src v (v + len a) ltac:(lia) ltac:(lia)) as Hlen. unfold len in *. lia.
Qed.

Lemma holds_cons src v x b : holds src v (x :: b) -> idx src v = Some x /\ holds src (v + 1) b.
Proof.
  intros H. change (x :: b) with ([x] ++ b) in H. apply holds_app in H as [(Hv & Hl & Hs) Hb].
  rewrite len_single in *. split; [|done]. rewrite idx_rd by lia. f_equal.
  rewrite <- (Z.add_0_r v), <- (rd_sub src v (v + 1)) by lia. by rewrite Hs.
Qed.

Lemma holds_len src v b : holds src v b -> 0 <= v /\ v + len b <= len src.
Proof. intros (? & ? & _). lia. Qed.

Lemma read_run_ok src v a x : 0 <= x -> holds src v (ext_bytes x) ->
  read_run src (len src) v a = Some (v + len (ext_bytes x), a + x).
Proof.
  unfold read_run. intros Hx. revert v a.
  assert (forall w v a, holds src v (ext_bytes x) ->
    no_ret (for_range v (len src) (fun v34 '(_, v) =>
      v37 ← idx src v34;
      Some (if v37 =? 255 then Next (R:=Empty_set) (v34 + 1, v + v37) else Stop (v34 + 1, v + v37))) (w, a))
    = Some (v + len (ext_bytes x), a + x)) as H; [|intros; by apply H].
  pattern x. apply (Zlt_0_ind _); [|done]. clear x Hx. intros x IH Hx w v a H.
  assert (v < len src) as Hv.
  { apply holds_len in H as [_ H]. unfold ext_bytes in H. rewrite len_app, len_single in H.
    pose proof (len_nonneg (replicate (Z.to_nat (x / 255)) 255)). lia. }
  rewrite for_range_step by done. unfold ext_bytes in *.
  destruct (Z.leb_spec 255 x) as [Hbig|Hsmall].
  - replace (x / 255) with (1 + (x - 255) / 255) in *
      by (rewrite <- Z.div_add_l by lia; f_equal; lia).
    rewrite Z2Nat.inj_add in * by (try apply Z.div_pos; lia).
    change (Z.to_nat 1) with 1%nat in *. cbn [Nat.add replicate app] in *.
    replace (x `mod` 255) with ((x - 255) `mod` 255) in *
      by (rewrite <- (Z_mod_plus_full _ 1); f_equal; lia).
    apply holds_cons in H as [-> H]. cbn [mbind option_bind]. rewrite Z.eqb_refl.
    rewrite (IH (x - 255) ltac:(lia) _ (v + 1)) by done. rewrite len_cons. do 2 f_equal; lia.
  - rewrite Z.div_small, Z.mod_small in * by lia. cbn [replicate app] in *.
    apply holds_cons in H as [-> H]. cbn [mbind option_bind].
    destruct (Z.eqb_spec x 255); [lia|]. cbn. do 2 f_equal; rewrite len_single; lia.
Qed.

(** A length behind its nibble; [c] is the bias of match lengths. *)
Lemma read_len_ok src v x c : 0 <= x -> 0 <= v <= len src -> holds src v (run_bytes x) ->
  (if nib x + c =? 15 + c then read_run src (len src) v (nib x + c) else Some (v, nib x + c))
  = Some (v + len (run_bytes x), x + c).
Proof.
  intros Hx Hv H. unfold run_bytes, nib in *. destruct (Z.ltb_spec x 15).
  - destruct (Z.eqb_spec (Z.min x 15 + c) (15 + c)); [lia|]. rewrite len_nil. do 2 f_equal; lia.
  - destruct (Z.eqb_spec (Z.min x 15 + c) (15 + c)); [|lia].
    rewrite (read_run_ok src v _ (x - 15)) by (done || lia). do 2 f_equal. lia.
Qed.

Lemma copy_lits_ok src v d a n : 0 <= v -> 0 <= n -> v + n <= len src -> 0 <= a -> a + n <= len d ->
  copy_lits src v d a n = Some (copy_at d a (sub src v (v + n))).
Proof.
  intros Hv Hn Hs Ha Hd. unfold copy_lits.
  rewrite (for_range_ext 0 n _ (fun i d' => x ← idx (sub src v (v + n)) i; d' ← upd d' (a + i) x; Some (Next (R:=Empty_set) d'))).
  - rewrite copy_loop by (rewrite ?len_sub; lia). cbn. do 2 f_equal. apply sub_all; [done | rewrite len_sub; lia].
  - intros i t Hi. rewrite !idx_rd by (rewrite ?len_sub; lia). by rewrite rd_sub by lia.
Qed.

Lemma copied_snoc n off o : copied (S n) off o =
  copied n off o ++ [rd (copied n off o) (len (copied n off o) - off)].
Proof. revert o. induction n as [|n IH]; intros o; [done|]. change (copied (S (S n)) off o) with
  (copied (S n) off (o ++ [rd o (len o - off)])). by rewrite IH. Qed.

Lemma copy_match_ok d o off n : 0 < off <= len o -> 0 <= n -> len o + n <= len d ->
  copy_match (copy_at d 0 o) (len o) off n = Some (copy_at d 0 (copied (Z.to_nat n) off o)).
Proof.
  intros Ho Hn Hd. unfold copy_match.
  destruct (for_range_inv (S:=list Z) (R:=Empty_set)
    (fun i d' => d' = copy_at d 0 (copied (Z.to_nat i) off o))
    (fun r => r = inl (copy_at d 0 (copied (Z.to_nat n) off o))) 0 n
    (fun v51 dst => x ← idx dst (len o - off + v51); dst ← upd dst (len o + v51) x; Some (Next (R:=Empty_set) dst))
    (copy_at d 0 o)) as (r & -> & ->); [lia | done | | by intros t -> | done].
  intros i d' Hi ->. rewrite idx_rd by (rewrite len_copy_at; lia). cbn [mbind option_bind].
  rewrite upd_wr by (rewrite len_copy_at; lia). cbn [mbind option_bind].
  replace (Z.to_nat (i + 1)) with (S (Z.to_nat i)) by lia. rewrite copied_snoc.
  pose proof (len_copied (Z.to_nat i) off o) as Hlen.
  rewrite wr_copy_at, copy_at_app by lia. do 3 f_equal.
  rewrite rd_copy_at_in by lia. f_equal. lia.
Qed.

Lemma token_split l m : 0 <= l -> 0 <= m < 16 ->
  Z.land (Z.shiftr (nib l * 16 + m) 4) 15 = nib l /\ Z.land (nib l * 16 + m) 15 = m.
Proof.
  intros Hl Hm. change 15 with (Z.ones 4). rewrite !Z.land_ones, Z.shiftr_div_pow2 by lia.
  change (2 ^ 4) with 16. unfold nib. rewrite Z.div_add_l, (Z.div_small m), Z.add_0_r by lia.
  rewrite Z.add_comm, Z.mod_add, !Z.mod_small by lia. done.
Qed.

Lemma len_expand_mono qs o : sqs_ok o qs -> len o <= len (expand qs o).
Proof.
  revert o. induction qs as [|q qs IH]; intros o; [change (expand [] o) with o; lia|].
  intros [[_ _ _ Hq] Hqs]. cbn [expand foldl]. specialize (IH _ Hqs). unfold expand in IH.
  rewrite len_expand_sq in IH by lia. pose proof (len_nonneg (qLits q)). lia.
Qed.

Lemma off_bytes v : 0 <= v < 65536 -> Z.lor (v `mod` 256) (Z.shiftl ((v / 256) `mod` 256) 8) = v.
Proof.
  intros Hv. pose proof (Z.mod_pos_bound v 256 ltac:(lia)). pose proof (Z.div_mod v 256 ltac:(lia)).
  assert (0 <= v / 256 < 256) by (split; [apply Z.div_pos | apply Z.div_lt_upper_bound]; lia).
  rewrite (Z.mod_small (v / 256)), lor_shiftl_add by lia. lia.
Qed.

Lemma nib_bound x : 0 <= x -> 0 <= nib x < 16.
Proof. unfold nib. lia. Qed.

(** The literals of a sequence, up to the test for the end of the block. *)
Lemma decompress_lits src dst_len fuel v18 o d l m rest :
  holds src v18 (lit_bytes l m ++ rest) -> 0 <= m < 16 -> len o + len l <= dst_len -> dst_len <= len d ->
  decompress_loop (S fuel) src (len src) dst_len v18 (len o) (copy_at d 0 o) =
    let v18 := v18 + len (lit_bytes l m) in
    let v20 := len o + len l in
    let dst := copy_at d 0 (o ++ l) in
    if v18 >=? len src then Some (v20, dst) else
    if v18 + 2 >? len src then Some (-3, dst) else
    lo ← idx src v18;
    hi ← idx src (v18 + 1);
    let v74 := Z.lor lo (Z.shiftl hi 8) in
    let v18 := v18 + 2 in
    if (v74 =? 0) || (v74 >? v20) then Some (-4, dst) else
    let v85 := m + 4 in
    '(v18, v85) ← (if v85 =? 19 then read_run src (len src) v18 v85 else Some (v18, v85));
    if (v85 <? 0) || (v20 + v85 >? dst_len) then Some (-5, dst) else
    dst ← copy_match dst v20 v74 v85;
    decompress_loop fuel src (len src) dst_len v18 (v20 + v85) dst.
Proof.
  intros [H _]%holds_app Hm Hfit Hd. pose proof (holds_len _ _ _ H) as [Hv Hend].
  rewrite len_lit_bytes in *. pose proof (len_nonneg (run_bytes (len l))). pose proof (len_nonneg l).
  pose proof (len_nonneg o). apply holds_cons in H as [Htok H]. apply holds_app in H as [Hrun Hl].
  destruct (token_split (len l) m ltac:(lia) Hm) as [Hhi Hlo].
  cbn [decompress_loop]. replace (v18 <? len src) with true by lia. cbn [negb].
  rewrite Htok. cbn [mbind option_bind]. rewrite Hhi, Hlo.
  pose proof (read_len_ok src (v18 + 1) (len l) 0 ltac:(lia) ltac:(lia) Hrun) as Hrl.
  rewrite !Z.add_0_r in Hrl. rewrite Hrl. cbn [mbind option_bind].
  replace ((_ <? 0) || _ || _) with false by lia.
  rewrite copy_lits_ok by (rewrite ?len_copy_at; lia). cbn [mbind option_bind].
  destruct Hl as (_ & _ & ->). rewrite copy_at_app by lia.
  replace (v18 + (1 + len (run_bytes (len l)) + len l)) with (v18 + 1 + len (run_bytes (len l)) + len l) by lia.
  done.
Qed.

Lemma decompress_loop_ok src dst_len d : dst_len <= len d ->
  forall qs l o v18 fuel, holds src v18 (encode qs l) -> v18 + len (encode qs l) = len src ->
  sqs_ok o qs -> bytes_ok l -> len (expand qs o ++ l) <= dst_len ->
  (Z.to_nat (len src - v18) < fuel)%nat ->
  decompress_loop fuel src (len src) dst_len v18 (len o) (copy_at d 0 o) =
    Some (len (expand qs o ++ l), copy_at d 0 (expand qs o ++ l)).
Proof.
  intros Hd qs l. induction qs as [|q qs IH]; intros o v18 fuel H Hend Hqs Hl Hfit Hf;
    (destruct fuel as [|fuel]; [lia|]).
  - change (expand [] o) with o in *. rewrite len_app in *. unfold encode in H, Hend. cbn [map concat app] in *.
    unfold last_bytes in *. destruct (Z.eqb_spec (len l) 0) as [He|He].
    + assert (l = []) as -> by (destruct l; [done | rewrite len_cons in He; pose proof (len_nonneg l); lia]).
      rewrite len_nil in Hend. cbn [decompress_loop]. replace (v18 <? len src) with false by lia.
      cbn [negb]. rewrite app_nil_r, (len_nil (A:=Z)), Z.add_0_r. done.
    + rewrite <- (app_nil_r (lit_bytes l 0)) in H. rewrite (decompress_lits _ _ _ _ _ _ _ _ _ H) by lia.
      cbn zeta. replace (v18 + len (lit_bytes l 0) >=? len src) with true by lia. done.
  - destruct Hqs as [[Hlits Hoff Hback Hlen] Hqs]. cbn [expand foldl] in *. fold (expand qs (expand_sq o q)) in *.
    pose proof (nib_bound (qLen q - 4) ltac:(lia)) as Hnib.
    unfold encode in H, Hend. cbn [map concat] in *. rewrite <- app_assoc in *.
    change (concat (map seq_bytes qs) ++ last_bytes l) with (encode qs l) in *.
    unfold seq_bytes in H, Hend. rewrite <- !app_assoc in *. rewrite !len_app, len_le_put in Hend.
    assert (len o + len (qLits q) + qLen q <= dst_len) as Hroom.
    { rewrite len_app in Hfit. pose proof (len_nonneg l).
      pose proof (len_expand_mono qs _ Hqs). rewrite len_expand_sq in * by lia. lia. }
    rewrite (decompress_lits _ _ _ _ _ _ _ _ _ H) by lia. cbn zeta.
    apply holds_app in H as [_ H]. apply holds_app in H as [Ho H]. apply holds_app in H as [Hrun H].
    rewrite len_le_put in *. change (Z.of_nat 2) with 2 in *.
    pose proof (len_nonneg (encode qs l)). pose proof (len_nonneg (run_bytes (qLen q - 4))).
    pose proof (len_nonneg (lit_bytes (qLits q) (nib (qLen q - 4)))). destruct Hrun as (Hv0 & Hv1 & Hrun).
    replace (_ >=? len src) with false by lia. replace (_ >? len src) with false by lia.
    unfold le_put in Ho. apply holds_cons in Ho as [Hlo Ho]. apply holds_cons in Ho as [Hhi _].
    rewrite Hlo, Hhi. cbn [mbind option_bind]. rewrite off_bytes by lia.
    replace ((qOff q =? 0) || _) with false by lia.
    pose proof (read_len_ok src _ (qLen q - 4) 4 ltac:(lia) ltac:(split; [exact Hv0 | lia])
      ltac:(split; [exact Hv0|]; split; [exact Hv1 | exact Hrun])) as Hrl.
    change (15 + 4) with 19 in Hrl. rewrite Hrl. cbn [mbind option_bind].
    replace (qLen q - 4 + 4) with (qLen q) by lia. replace ((qLen q <? 0) || _) with false by lia.
    rewrite <- len_app in Hback, Hroom |- *. rewrite copy_match_ok by lia. cbn [mbind option_bind].
    change (copied (Z.to_nat (qLen q)) (qOff q) (o ++ qLits q)) with (expand_sq o q).
    replace (len (o ++ qLits q) + qLen q) with (len (expand_sq o q)) by (rewrite len_expand_sq, len_app by lia; lia).
    apply IH; try done; lia.
Qed.

(** ** The decompressor on any input *)

Lemma read_run_total src src_len v a : bytes_ok src -> 0 <= v <= src_len -> src_len <= len src -> 0 <= a ->
  exists v' a', read_run src src_len v a = Some (v', a') /\ v <= v' <= src_len /\ a <= a'.
Proof.
  intros Hb Hv Hs Ha. unfold read_run.
  destruct (for_range_inv (S:=Z * Z) (R:=Empty_set)
    (fun i s => s.1 = i /\ a <= s.2)
    (fun r => match r with inl s => v <= s.1 <= src_len /\ a <= s.2 | inr _ => False end) v src_len
    (fun v34 '(_, v) => v37 ← idx src v34;
      Some (if v37 =? 255 then Next (R:=Empty_set) (v34 + 1, v + v37) else Stop (v34 + 1, v + v37))) (v, a))
    as (r & -> & Hr); [lia | done | | |].
  - intros i [p x] Hi [Hp Hx]. cbn [fst snd] in *. rewrite idx_rd by lia. cbn [mbind option_bind].
    pose proof (rd_bound src i Hb). zcase; cbn [fst snd]; lia.
  - intros [p x] [Hp Hx]. cbn [fst snd] in *. lia.
  - destruct r as [[v' a']|[]]. by exists v', a'.
Qed.

Lemma read_len_total src src_len v a (c : bool) : bytes_ok src -> 0 <= v <= src_len -> src_len <= len src -> 0 <= a ->
  exists v' a', (if c then read_run src src_len v a else Some (v, a)) = Some (v', a') /\ v <= v' <= src_len /\ a <= a'.
Proof. intros. destruct c; [by apply read_run_total|]. exists v, a. repeat split; lia. Qed.

(** [d] is [d0] but for the bytes below [n]. *)
Definition same_from (n : Z) (d0 d : list Z) : Prop :=
  len d = len d0 /\ forall a, 0 <= a -> n <= a -> rd d a = rd d0 a.

Lemma same_from_copy n m d0 d a src : same_from n d0 d -> 0 <= a -> n <= m -> a + len src <= m ->
  same_from m d0 (copy_at d a src).
Proof.
  intros [Hl Hs] Ha Hn Hm. split; [by rewrite len_copy_at|]. intros b Hb Hmb.
  rewrite rd_copy_at_out by lia. apply Hs; lia.
Qed.

Lemma copy_match_total d v20 off n : 0 < off <= v20 -> 0 <= n -> v20 + n <= len d ->
  exists bs, copy_match d v20 off n = Some (copy_at d 0 bs) /\ len bs = v20 + n.
Proof.
  intros Ho Hn Hd. pose proof (copy_match_ok d (sub d 0 v20) off n) as H.
  rewrite len_sub, Z.sub_0_r in H by lia. specialize (H Ho Hn Hd).
  assert (copy_at d 0 (sub d 0 v20) = d) as He.
  { apply bytes_ext; [by rewrite len_copy_at|]. intros i Hi. rewrite len_copy_at in Hi.
    destruct (Z.ltb_spec i v20).
    - rewrite rd_copy_at_in by (rewrite ?len_sub; lia). rewrite rd_sub by lia. f_equal. lia.
    - rewrite rd_copy_at_out by (rewrite ?len_sub; lia). done. }
  rewrite He in H. eexists. split; [exact H|]. rewrite len_copied, len_sub by lia. lia.
Qed.

Definition safe_result (dst_len : Z) (d0 : list Z) (r : option (Z * list Z)) : Prop :=
  match r with
  | Some (n, d) => (-5 <= n < 0 /\ same_from dst_len d0 d) \/ (0 <= n <= dst_len /\ same_from n d0 d)
  | None => False
  end.

Lemma same_from_weaken n m d0 d : same_from n d0 d -> n <= m -> same_from m d0 d.
Proof. intros [Hl Hs] Hm. split; [done|]. intros a Ha Hma. apply Hs; lia. Qed.

Lemma decompress_loop_total fuel src src_len dst_len d0 : bytes_ok src -> src_len <= len src -> dst_len <= len d0 ->
  forall v18 v20 d, 0 <= v18 <= src_len -> 0 <= v20 <= dst_len -> same_from v20 d0 d ->
  (Z.to_nat (src_len - v18) < fuel)%nat ->
  safe_result dst_len d0 (decompress_loop fuel src src_len dst_len v18 v20 d).
Proof.
  intros Hb Hsl Hdl. induction fuel as [|fuel IH]; intros v18 v20 d Hv18 Hv20 Hd Hf; [lia|].
  cbn [decompress_loop]. zcase; cbn [negb]; [|by right].
  rewrite idx_rd by lia. cbn [mbind option_bind].
  set (tok := rd src v18). assert (0 <= Z.land (Z.shiftr tok 4) 15 /\ 0 <= Z.land tok 15) as [Hhi Hlo].
  { split; apply Z.land_nonneg; lia. }
  destruct (read_len_total src src_len (v18 + 1) (Z.land (Z.shiftr tok 4) 15) (Z.land (Z.shiftr tok 4) 15 =? 15))
    as (p1 & n1 & -> & Hp1 & Hn1); [done | lia..|]. cbn [mbind option_bind].
  destruct ((n1 <? 0) || _ || _) eqn:Hc1; [left; split; [lia|]; apply (same_from_weaken v20); (done || lia)|].
  assert (Hld : len d = len d0) by apply Hd.
  rewrite copy_lits_ok by lia. cbn [mbind option_bind].
  assert (same_from (v20 + n1) d0 (copy_at d v20 (sub src p1 (p1 + n1)))) as Hd1.
  { apply (same_from_copy v20); [done | lia.. |]. rewrite len_sub by lia. lia. }
  set (d1 := copy_at d v20 _) in *.
  ifcase; [right; split; [lia | done]|].
  ifcase; [left; split; [lia|]; apply (same_from_weaken (v20 + n1)); (done || lia)|].
  rewrite !idx_rd by lia. cbn [mbind option_bind]. set (off := Z.lor _ _).
  assert (0 <= off) as Hoff.
  { apply Z.lor_nonneg. split; [|apply Z.shiftl_nonneg]; by apply (rd_bound src _ Hb). }
  destruct ((off =? 0) || _) eqn:Hc2; [left; split; [lia|]; apply (same_from_weaken (v20 + n1)); (done || lia)|].
  destruct (read_len_total src src_len (p1 + n1 + 2) (Z.land tok 15 + 4) (Z.land tok 15 + 4 =? 19))
    as (p2 & n2 & -> & Hp2 & Hn2); [done | lia..|]. cbn [mbind option_bind].
  destruct ((n2 <? 0) || _) eqn:Hc3; [left; split; [lia|]; apply (same_from_weaken (v20 + n1)); (done || lia)|].
  assert (Hld1 : len d1 = len d0) by apply Hd1.
  destruct (copy_match_total d1 (v20 + n1) off n2) as (bs & -> & Hbs); [lia..|]. cbn [mbind option_bind].
  apply IH; [lia.. | | lia]. apply (same_from_copy (v20 + n1)); [done | lia..].
Qed.

(** ** Properties *)

(** C35: Compression to a destination of [len src + len src/255 + 2] bytes always
    produces a block, and whatever block compression produces, decompressing it
    to a destination that is long enough gives back the source: exactly its
    bytes, at the front of the destination, and its length. *)
Theorem lz4_roundtrip src d out :
  bytes_ok src -> 0 < len src -> 0 < len d -> len src <= len out ->
  exists n d', Compress (Some src) (Some d) = Some (n, Some d') /\ len d' = len d /\
    (len src + len src / 255 + 2 <= len d -> 0 < n) /\
    (0 < n -> Decompress (Some (sub d' 0 n)) (Some out) = Some (len src, true, Some (copy_at out 0 src))).
Proof.
  intros Hb Hs Hd Ho. unfold Compress, slen, bytes_of. cbn [from_option id].
  rewrite (proj2 (Z.eqb_neq (len src) 0)), (proj2 (Z.eqb_neq (len d) 0)) by lia. cbn [orb].
  destruct (compress_fast_ok src d (len d) Hb Hs ltac:(lia)) as (n & d' & -> & Hl & Hn).
  exists n, d'. split; [done|]. split; [done|]. split; [lia|]. intros Hpos.
  destruct Hn as [[-> _]|(Hn & bs & -> & -> & qs & l & -> & Hqs & Hbl & <-)]; [lia|].
  rewrite sub_copy_at_eq by lia. unfold Decompress, Lz4_decompress_safe, slen, bytes_of. cbn [from_option id].
  replace ((_ =? 0) || _) with false by lia. rewrite !Z.ltb_irrefl.
  replace ((_ <=? 0) || _) with false by lia.
  pose proof (decompress_loop_ok (encode qs l) (len out) out ltac:(lia) qs l [] 0
    (S (Z.to_nat (len (encode qs l)))) ltac:(split; [lia|]; split; [lia | by apply sub_full])
    ltac:(lia) Hqs Hbl Ho ltac:(lia)) as H.
  rewrite copy_at_nil in H. change (len []) with 0 in H. rewrite H. cbn [mbind option_bind].
  pose proof (len_nonneg (expand qs [] ++ l)). by replace (_ <? 0) with false by lia.
Qed.
Definition src_ex : list Z := [1;2;3;4;5;6;1;2;3;4;5;6;7;7;7;7;7;7;7;7].
Lemma lz4_roundtrip_witness : exists n d',
  Compress (Some src_ex) (Some (zeros 40)) = Some (n, Some d') /\ len d' = len (zeros 40) /\
    (len src_ex + len src_ex / 255 + 2 <= len (zeros 40) -> 0 < n) /\
    (0 < n -> Decompress (Some (sub d' 0 n)) (Some (zeros 30)) = Some (len src_ex, true, Some (copy_at (zeros 30) 0 src_ex))).
Proof.
  apply (lz4_roundtrip src_ex (zeros 40) (zeros 30)); [by apply (bool_decide_unpack _) | reflexivity | reflexivity |].
  vm_compute. discriminate.
Defined.

(** C36: The decompressor is safe on any input, whatever bytes the block holds and
    whatever lengths the caller gives: it returns, with an error code or a count
    within the given length and the destination, it never indexes out of a slice,
    and it leaves every byte at or behind the count (the given length, after an
    error) as it was. *)
Theorem lz4_decompress_safe src src_len dst dst_len : bytes_ok src ->
  exists n d', Lz4_decompress_safe (Some src) src_len (Some dst) dst_len = Some (n, Some d') /\
    ((-5 <= n < 0 /\ same_from (Z.max 0 dst_len) dst d') \/
     (0 <= n <= Z.min dst_len (len dst) /\ same_from n dst d')).
Proof.
  intros Hb. unfold Lz4_decompress_safe, slen, bytes_of. cbn [from_option id].
  set (sl := if len src <? src_len then _ else _). set (dl := if len dst <? dst_len then _ else _).
  assert (Hsl : sl <= len src) by (subst sl; zcase; lia).
  assert (Hdl : dl = Z.min dst_len (len dst)) by (subst dl; zcase; lia). clearbody sl dl. subst dl.
  destruct ((sl <=? 0) || _) eqn:Hc.
  { exists (-1), dst. split; [done|]. left. split; [lia | done]. }
  pose proof (decompress_loop_total (S (Z.to_nat sl)) src sl (Z.min dst_len (len dst)) dst Hb Hsl ltac:(lia) 0 0 dst
    ltac:(lia) ltac:(lia) ltac:(done) ltac:(lia)) as H.
  destruct (decompress_loop _ _ _ _ _ _ _) as [[n d]|]; [|done]. cbn [mbind option_bind]. exists n, d. split; [done|].
  destruct H as [[Hn Hd]|[Hn Hd]]; [left | by right]. split; [done|]. apply (same_from_weaken (Z.min dst_len (len dst))); [done | lia].
Qed.
Lemma lz4_decompress_safe_witness : exists n d',
  Lz4_decompress_safe (Some [0x1F; 9; 1; 0; 255]) 9 (Some (zeros 8)) 8 = Some (n, Some d') /\
    ((-5 <= n < 0 /\ same_from (Z.max 0 8) (zeros 8) d') \/
     (0 <= n <= Z.min 8 (len (zeros 8)) /\ same_from n (zeros 8) d')).
Proof. apply (lz4_decompress_safe [0x1F; 9; 1; 0; 255] 9 (zeros 8) 8). by apply (bool_decide_unpack _). Defined.

End Lz4.
