(* ===== verification/Uuid.v ===== *)
(** * Identifiers (src/pkg/c2uuidv7/uuidv7.go, strict.go, src/pkg/c2db/id.go)

    A UUID is a list of 16 bytes.  As a big-endian number ([be]) a version 7 id
    is its millisecond, the 12-bit fraction and 62 bits that the store fills with
    kind, collection, shard and counter; [Compare] is the order of these numbers.
    The lock-free generator is a step relation over any number of calls. *)

From Stdlib Require Import String.
From stdpp Require Import gmap.
From S2P Require Import Prelude Bytes.

Local Open Scope Z_scope.

Module Uuid.

Definition UUID : Type := list Z.
Definition uuid_ok (u : UUID) : Prop := bytes_ok u /\ len u = 16.

Definition archtimeHexDecode : list Z :=
  replicate 48 0xFF ++ [0; 1; 2; 3; 4; 5; 6; 7; 8; 9] ++ replicate 7 0xFF
  ++ [0xA; 0xB; 0xC; 0xD; 0xE; 0xF] ++ replicate 26 0xFF
  ++ [0xA; 0xB; 0xC; 0xD; 0xE; 0xF] ++ replicate 153 0xFF.
Definition archtimeHexChars : list Z := Bytes.str "0123456789abcdef".

Definition Nil : UUID := zeros 16.
Definition Max : UUID := replicate 16 0xFF.

(** The 16 bytes that [Compose] and [NewV7Fast] write. *)
Definition layout (tsMs subMs12 r : Z) : UUID :=
  [w8 (Z.land (Z.shiftr tsMs 40) 0xFF); w8 (Z.land (Z.shiftr tsMs 32) 0xFF);
   w8 (Z.land (Z.shiftr tsMs 24) 0xFF); w8 (Z.land (Z.shiftr tsMs 16) 0xFF);
   w8 (Z.land (Z.shiftr tsMs 8) 0xFF); w8 (Z.land tsMs 0xFF);
   w8 (Z.lor 0x70 (Z.land (Z.shiftr subMs12 8) 0x0F)); w8 (Z.land subMs12 0xFF);
   w8 (Z.lor 0x80 (Z.land (Z.shiftr r 56) 0x3F)); w8 (Z.land (Z.shiftr r 48) 0xFF);
   w8 (Z.land (Z.shiftr r 40) 0xFF); w8 (Z.land (Z.shiftr r 32) 0xFF);
   w8 (Z.land (Z.shiftr r 24) 0xFF); w8 (Z.land (Z.shiftr r 16) 0xFF);
   w8 (Z.land (Z.shiftr r 8) 0xFF); w8 (Z.land r 0xFF)].

Definition Compose (tsNs seqOrRand : Z) : UUID :=
  let tsMs := tsNs / 1000000 in
  let fracNs := w32 (tsNs `mod` 1000000) in
  let subMs12 := w32 (fracNs * 4096) / 1000000 in
  layout tsMs subMs12 seqOrRand.

(** ** Text *)

Definition hex (u : UUID) (i : Z) : list Z :=
  [rd archtimeHexChars (Z.shiftr (rd u i) 4); rd archtimeHexChars (Z.land (rd u i) 0x0F)].
Definition EncodeHex (u : UUID) : list Z :=
  hex u 0 ++ hex u 1 ++ hex u 2 ++ hex u 3 ++ Bytes.str "-"
  ++ hex u 4 ++ hex u 5 ++ Bytes.str "-"
  ++ hex u 6 ++ hex u 7 ++ Bytes.str "-"
  ++ hex u 8 ++ hex u 9 ++ Bytes.str "-"
  ++ hex u 10 ++ hex u 11 ++ hex u 12 ++ hex u 13 ++ hex u 14 ++ hex u 15.

(** One byte from the two digits at [off]; [None] is ErrInvalidUUID. *)
Definition hex_byte (b : list Z) (off : Z) : option Z :=
  let h1 := rd archtimeHexDecode (rd b off) in
  let h2 := rd archtimeHexDecode (rd b (off + 1)) in
  if negb (Z.land (Z.lor h1 h2) 0xF0 =? 0) then None
  else Some (Z.lor (w8 (Z.shiftl h1 4)) h2).

Definition offsets : list Z := [0; 2; 4; 6; 9; 11; 14; 16; 19; 21; 24; 26; 28; 30; 32; 34].
Definition compact_offsets : list Z := [0; 2; 4; 6; 8; 10; 12; 14; 16; 18; 20; 22; 24; 26; 28; 30].

Definition ParseBytes (b : list Z) : option UUID :=
  let b := if (len b >=? 9) && bool_decide (sub b 0 9 = Bytes.str "urn:uuid:") then sub b 9 (len b) else b in
  let b := if (len b =? 38) && (rd b 0 =? 123) && (rd b 37 =? 125) then sub b 1 37 else b in
  if len b =? 36 then
    if negb (rd b 8 =? 45) || negb (rd b 13 =? 45) || negb (rd b 18 =? 45) || negb (rd b 23 =? 45) then None
    else mapM (hex_byte b) offsets
  else if len b =? 32 then mapM (hex_byte b) compact_offsets
  else None.

(** ** Fields *)

Definition TimestampMs (u : UUID) : Z :=
  Z.lor (Z.lor (Z.lor (Z.lor (Z.lor (Z.shiftl (rd u 0) 40) (Z.shiftl (rd u 1) 32)) (Z.shiftl (rd u 2) 24))
    (Z.shiftl (rd u 3) 16)) (Z.shiftl (rd u 4) 8)) (rd u 5).
Definition Version (u : UUID) : Z := Z.shiftr (rd u 6) 4.
Definition Variant (u : UUID) : Z :=
  let v := rd u 8 in
  if Z.land v 0x80 =? 0 then 0 else
  if Z.land v 0xC0 =? 0x80 then 2 else
  if Z.land v 0xE0 =? 0xC0 then 6 else 7.
Definition IsV7 (u : UUID) : bool := (Version u =? 7) && (Variant u =? 2).
Definition IsV4 (u : UUID) : bool := (Version u =? 4) && (Variant u =? 2).
Definition IsNil (u : UUID) : bool := bool_decide (u = Nil).
Definition IsMax (u : UUID) : bool := bool_decide (u = Max).

Definition Compare (u v : UUID) : Z :=
  match for_range 0 16 (fun i _ =>
      Some (if rd u i <? rd v i then Ret (-1) else
            if rd u i >? rd v i then Ret 1 else Next tt)) tt with
  | Some (inr c) => c
  | _ => 0
  end.

Definition ParseV7 (s : list Z) : option UUID :=
  if negb (len s =? 36) then None else
  match ParseBytes s with
  | Some u => if negb (IsV7 u) then None else Some u
  | None => None
  end.

(** ** The store's ids (id.go) *)

Definition maxShard : Z := 1024.
Definition maxKind : Z := 16.
Definition maxColl : Z := 256.
Definition counterMask : Z := 2 ^ 40 - 1.

Definition overlay62 (id : UUID) : Z :=
  Z.lor (Z.lor (Z.lor (Z.lor (Z.lor (Z.lor (Z.lor
    (Z.shiftl (Z.land (rd id 8) 0x3F) 56) (Z.shiftl (rd id 9) 48)) (Z.shiftl (rd id 10) 40))
    (Z.shiftl (rd id 11) 32)) (Z.shiftl (rd id 12) 24)) (Z.shiftl (rd id 13) 16))
    (Z.shiftl (rd id 14) 8)) (rd id 15).

(** [None] is an error: shard or kind out of range. *)
Definition NewIDKind (tsNs shard counter kind coll : Z) : option UUID :=
  if shard >=? maxShard then None else
  if kind >=? maxKind then None else
  let seqOrRand := Z.lor (Z.lor (Z.lor (w64 (Z.shiftl kind 58)) (w64 (Z.shiftl coll 50)))
                     (w64 (Z.shiftl shard 40))) (Z.land counter counterMask) in
  Some (Compose tsNs seqOrRand).
Definition NewID (tsNs shard counter : Z) : option UUID := NewIDKind tsNs shard counter 0 0.
Definition ShardOf (id : UUID) : Z := w16 (Z.land (Z.shiftr (overlay62 id) 40) (maxShard - 1)).
Definition CounterOf (id : UUID) : Z := Z.land (overlay62 id) counterMask.
Definition KindOf (id : UUID) : Z := w8 (Z.shiftr (overlay62 id) 58).
Definition CollOf (id : UUID) : Z := w8 (Z.land (Z.shiftr (overlay62 id) 50) (maxColl - 1)).

(** ** The lock-free generator *)

(** The new state and the output of the generator of random bits. *)
Definition nextPRNG (s : Z) : Z * Z :=
  let s := w64 (s + 0x9e3779b97f4a7c15) in
  let z := w64 (Z.lxor s (Z.shiftr s 30) * 0xbf58476d1ce4e5b9) in
  let z := w64 (Z.lxor z (Z.shiftr z 27) * 0x94d049bb133111eb) in
  (s, Z.lxor z (Z.shiftr z 31)).

(** The time stamp of a clock reading: milliseconds and a 12-bit fraction. *)
Definition timestamp (secs nanos : Z) : Z :=
  let msecs := nanos / 1000000 in
  let frac := w64 (nanos - w64 (msecs * 1000000)) in
  w64 (w64 (Z.shiftl (w64 (w64 (secs * 1000) + msecs)) 12) + w64 (frac * 4096) / 1000000).

Definition next_cur (ts prev : Z) : Z := if ts <=? prev then w64 (prev + 1) else ts.

Definition v7_of (cur rnd : Z) : UUID := layout (Z.shiftr cur 12) (w32 (Z.land cur 0x0FFF)) rnd.

(** One call that no other call disturbs. *)
Definition NewV7Fast (last prng secs nanos : Z) : Z * Z * UUID :=
  let cur := next_cur (timestamp secs nanos) last in
  let '(prng, rnd) := nextPRNG prng in
  (cur, prng, v7_of cur rnd).

(** Calls in flight.  A call reads the clock, loads the last time stamp, tries to
    replace it, and on success draws random bits and returns.  [before] records
    the ids that had been returned when the call began. *)
Inductive call :=
| Timed (ts : Z) (before : list UUID)
| Loaded (ts prev : Z) (before : list UUID)
| Won (cur : Z) (before : list UUID).

Record gen := {
  gUUIDLastTimestamp : Z;
  gUUIDPRNGState : Z;
  calls : gmap nat call;
  returned : list (UUID * list UUID);
}.

Definition put_call (g : gen) (t : nat) (c : call) : gen :=
  {| gUUIDLastTimestamp := gUUIDLastTimestamp g; gUUIDPRNGState := gUUIDPRNGState g;
     calls := <[t := c]> (calls g); returned := returned g |}.

Inductive gstep : gen -> gen -> Prop :=
| step_now g t secs nanos : calls g !! t = None -> 0 <= secs -> 0 <= nanos < 1000000000 ->
    gstep g (put_call g t (Timed (timestamp secs nanos) (map fst (returned g))))
| step_load g t ts before : calls g !! t = Some (Timed ts before) ->
    gstep g (put_call g t (Loaded ts (gUUIDLastTimestamp g) before))
| step_cas_ok g t ts prev before : calls g !! t = Some (Loaded ts prev before) ->
    gUUIDLastTimestamp g = prev ->
    gstep g {| gUUIDLastTimestamp := next_cur ts prev; gUUIDPRNGState := gUUIDPRNGState g;
               calls := <[t := Won (next_cur ts prev) before]> (calls g); returned := returned g |}
| step_cas_fail g t ts prev before : calls g !! t = Some (Loaded ts prev before) ->
    gUUIDLastTimestamp g <> prev -> gstep g (put_call g t (Timed ts before))
| step_return g t cur before : calls g !! t = Some (Won cur before) ->
    gstep g {| gUUIDLastTimestamp := gUUIDLastTimestamp g; gUUIDPRNGState := (nextPRNG (gUUIDPRNGState g)).1;
               calls := delete t (calls g);
               returned := (v7_of cur (nextPRNG (gUUIDPRNGState g)).2, before) :: returned g |}.

Definition gen_init (seed : Z) : gen :=
  {| gUUIDLastTimestamp := 0; gUUIDPRNGState := seed; calls := ∅; returned := [] |}.

(** ** Big-endian numbers *)

Fixpoint be (l : list Z) : Z :=
  match l with [] => 0 | b :: l' => b * 256 ^ len l' + be l' end.

Lemma be_bound l : bytes_ok l -> 0 <= be l < 256 ^ len l.
Proof.
  induction 1 as [|b l Hb Hl IH]; [done|]. cbn [be]. rewrite len_cons.
  rewrite Z.pow_add_r by (pose proof (len_nonneg l); lia). nia.
Qed.

(** The lexicographic order is the order of the numbers. *)
Lemma Compare_be a b : bytes_ok a -> bytes_ok b -> len a = len b ->
  Bytes.Compare a b = match be a ?= be b with Lt => -1 | Eq => 0 | Gt => 1 end.
Proof.
  intros Ha. revert b. induction Ha as [|x a Hx Ha IH]; intros b Hb Hlen.
  - destruct b; [done|]. rewrite len_cons in Hlen. change (len []) with 0 in Hlen. pose proof (len_nonneg b). lia.
  - destruct Hb as [|y b Hy Hb]; [rewrite len_cons in Hlen; change (len []) with 0 in Hlen; pose proof (len_nonneg a); lia|].
    rewrite !len_cons in Hlen. assert (len a = len b) as Hl by lia.
    pose proof (be_bound a Ha). pose proof (be_bound b Hb). cbn [be Bytes.Compare]. rewrite Hl in *.
    destruct (Z.ltb_spec x y); [rewrite (proj2 (Z.compare_lt_iff _ _)) by nia; done|].
    destruct (Z.ltb_spec y x); [rewrite (proj2 (Z.compare_gt_iff _ _)) by nia; done|].
    assert (x = y) as -> by lia. rewrite Z.add_compare_mono_l. by apply IH.
Qed.

Lemma Compare_Bytes u v : len u = 16 -> len v = 16 -> Compare u v = Bytes.Compare u v.
Proof.
  intros Hu Hv. unfold Compare.
  set (body := fun (i : Z) (_ : unit) => Some (if rd u i <? rd v i then Ret (-1) else
                 if rd u i >? rd v i then Ret 1 else Next tt)).
  assert (forall k i, 0 <= i -> i + Z.of_nat k = 16 ->
    match for_range i 16 body tt with Some (inr c) => c | _ => 0 end
    = Bytes.Compare (sub u i 16) (sub v i 16)) as H.
  { induction k as [|k IH]; intros i Hi Hk.
    - replace i with 16 by lia. by rewrite !sub_nil.
    - rewrite for_range_step by lia. specialize (IH (i + 1) ltac:(lia) ltac:(lia)).
      rewrite (sub_split u i (i + 1) 16), (sub_split v i (i + 1) 16) by lia.
      rewrite !sub_single by lia. cbn [app Bytes.Compare]. unfold body at 1. rewrite Z.gtb_ltb.
      zcase; [done|]. zcase; [done|]. exact IH. }
  rewrite (H 16%nat 0) by lia. by rewrite !sub_all by lia.
Qed.

Lemma byte_at v k : 0 <= k -> w8 (Z.land (Z.shiftr v k) 0xFF) = (v / 2 ^ k) `mod` 256.
Proof.
  intros Hk. rewrite land_shiftr_255 by done. apply w8_small. change (2 ^ 8) with 256. apply Z.mod_pos_bound. lia.
Qed.

(** The number of a version 7 id. *)
Definition v7_number (ms sub r : Z) : Z :=
  ms * 2 ^ 80 + 7 * 2 ^ 76 + sub * 2 ^ 64 + 2 ^ 63 + r `mod` 2 ^ 62.

Fixpoint be_put (n : nat) (v : Z) : list Z :=
  match n with O => [] | S n' => (v / 256 ^ Z.of_nat n') `mod` 256 :: be_put n' v end.

Lemma len_be_put n v : len (be_put n v) = Z.of_nat n.
Proof. induction n as [|n IH]; [done|]. cbn [be_put]. rewrite len_cons, IH. lia. Qed.

Lemma be_be_put n v : be (be_put n v) = v `mod` 256 ^ Z.of_nat n.
Proof.
  induction n as [|n IH]; [by rewrite Z.mod_1_r|]. cbn [be_put be]. rewrite len_be_put, IH.
  replace (Z.of_nat (S n)) with (Z.of_nat n + 1) by lia.
  rewrite Z.pow_add_r, Z.rem_mul_r by lia. change (256 ^ 1) with 256. lia.
Qed.

Lemma be_app a b : be (a ++ b) = be a * 256 ^ len b + be b.
Proof.
  induction a as [|x a IH]; [done|]. cbn [app be]. rewrite IH, len_app.
  rewrite Z.pow_add_r by apply len_nonneg. lia.
Qed.

Lemma byte_low v : w8 (Z.land v 0xFF) = (v / 1) `mod` 256.
Proof. rewrite <- (Z.shiftr_0_r v) at 1. by apply byte_at. Qed.

Lemma version_byte sub : 0 <= sub < 2 ^ 12 ->
  w8 (Z.lor 0x70 (Z.land (Z.shiftr sub 8) 0x0F)) = 0x70 + sub / 2 ^ 8.
Proof.
  intros Hs. rewrite Z.shiftr_div_pow2 by lia. change 0x0F with (Z.ones 4). rewrite Z.land_ones by lia.
  assert (0 <= sub / 2 ^ 8 < 16) by (split; [apply Z.div_pos | apply Z.div_lt_upper_bound]; lia).
  rewrite Z.mod_small by lia. change 0x70 with (Z.shiftl 7 4) at 1.
  rewrite Z.lor_comm, lor_shiftl_add by lia. rewrite w8_small; lia.
Qed.

Lemma variant_byte r : 0 <= r ->
  w8 (Z.lor 0x80 (Z.land (Z.shiftr r 56) 0x3F)) = 0x80 + (r / 2 ^ 56) `mod` 64.
Proof.
  intros Hr. rewrite Z.shiftr_div_pow2 by lia. change 0x3F with (Z.ones 6). rewrite Z.land_ones by lia.
  change (2 ^ 6) with 64. pose proof (Z.mod_pos_bound (r / 2 ^ 56) 64 ltac:(lia)).
  change 0x80 with (Z.shiftl 2 6) at 1. rewrite Z.lor_comm, lor_shiftl_add by lia. rewrite w8_small; lia.
Qed.

Lemma layout_ok ms sub r : 0 <= ms < 2 ^ 48 -> 0 <= sub < 2 ^ 12 -> 0 <= r ->
  uuid_ok (layout ms sub r) /\ be (layout ms sub r) = v7_number ms sub r.
Proof.
  intros Hms Hsub Hr. split.
  { split; [|done]. unfold layout. repeat (constructor; [apply w8_bound|]). constructor. }
  assert (layout ms sub r = be_put 6 ms ++ [0x70 + sub / 2 ^ 8; sub `mod` 256; 0x80 + (r / 2 ^ 56) `mod` 64] ++ be_put 7 r) as ->.
  { unfold layout. rewrite version_byte, variant_byte, !byte_at, !byte_low by lia.
    rewrite (Z.div_1_r sub). done. }
  rewrite !be_app, len_app, !be_be_put, len_be_put. cbn [be]. rewrite !len_cons, len_nil.
  unfold v7_number. change (Z.of_nat 6) with 6. change (Z.of_nat 7) with 7.
  rewrite (Z.mod_small ms) by (change (256 ^ 6) with (2 ^ 48); lia).
  rewrite (Z.div_mod sub 256) at 3 by lia. change (2 ^ 8) with 256.
  assert (r `mod` 2 ^ 62 = r `mod` 256 ^ 7 + 256 ^ 7 * ((r / 2 ^ 56) `mod` 64)) as ->.
  { change (2 ^ 62) with (256 ^ 7 * 64). rewrite Z.rem_mul_r by lia. done. }
  lia.
Qed.

(** ** Fields *)

Lemma lor_hi a b k : 0 <= k -> 0 <= b < 2 ^ k -> 0 <= a -> Z.lor (Z.shiftl a k) b = a * 2 ^ k + b.
Proof. intros Hk Hb Ha. rewrite Z.lor_comm, lor_shiftl_add by lia. lia. Qed.

(** Disjoint bytes, from the least significant on. *)
Lemma lor_bytes8 h b1 b2 b3 b4 b5 b6 b7 : bytes_ok [h; b1; b2; b3; b4; b5; b6; b7] ->
  Z.lor (Z.lor (Z.lor (Z.lor (Z.lor (Z.lor (Z.lor (Z.shiftl h 56) (Z.shiftl b1 48)) (Z.shiftl b2 40))
    (Z.shiftl b3 32)) (Z.shiftl b4 24)) (Z.shiftl b5 16)) (Z.shiftl b6 8)) b7
  = be [h; b1; b2; b3; b4; b5; b6; b7].
Proof.
  intros H. do 8 (apply Forall_cons in H as [? H]). rewrite <- !Z.lor_assoc.
  rewrite (lor_hi b6), (lor_hi b5), (lor_hi b4), (lor_hi b3), (lor_hi b2), (lor_hi b1), (lor_hi h) by lia.
  cbn [be]. rewrite !len_cons, len_nil. lia.
Qed.

Lemma overlay62_be id : uuid_ok id ->
  overlay62 id = be [Z.land (rd id 8) 0x3F; rd id 9; rd id 10; rd id 11; rd id 12; rd id 13; rd id 14; rd id 15].
Proof.
  intros [Hb _]. unfold overlay62. apply lor_bytes8. constructor; [|repeat (constructor; [by apply rd_bound|]); constructor].
  change 0x3F with (Z.ones 6). rewrite Z.land_ones by lia. pose proof (Z.mod_pos_bound (rd id 8) (2 ^ 6) ltac:(lia)). lia.
Qed.

Lemma overlay62_layout ms sub r : 0 <= ms < 2 ^ 48 -> 0 <= sub < 2 ^ 12 -> 0 <= r ->
  overlay62 (layout ms sub r) = r `mod` 2 ^ 62.
Proof.
  intros Hms Hsub Hr. destruct (layout_ok ms sub r Hms Hsub Hr) as [Hok _]. rewrite overlay62_be by done.
  assert ([Z.land (rd (layout ms sub r) 8) 0x3F; rd (layout ms sub r) 9; rd (layout ms sub r) 10;
    rd (layout ms sub r) 11; rd (layout ms sub r) 12; rd (layout ms sub r) 13; rd (layout ms sub r) 14;
    rd (layout ms sub r) 15] = (r / 2 ^ 56) `mod` 64 :: be_put 7 r) as ->.
  { unfold layout. rewrite variant_byte, !byte_at, !byte_low by lia.
    change (rd (_ :: _) 8) with (0x80 + (r / 2 ^ 56) `mod` 64).
    pose proof (Z.mod_pos_bound (r / 2 ^ 56) 64 ltac:(lia)).
    assert (Z.land (0x80 + (r / 2 ^ 56) `mod` 64) 0x3F = (r / 2 ^ 56) `mod` 64) as ->; [|done].
    change 0x3F with (Z.ones 6). rewrite Z.land_ones by lia.
    change 0x80 with (2 * 2 ^ 6). rewrite Z.add_comm, Z.mod_add, Z.mod_small by lia. done. }
  cbn [be]. rewrite len_be_put, be_be_put. change (2 ^ 62) with (256 ^ Z.of_nat 7 * 64).
  rewrite Z.rem_mul_r by lia. change (256 ^ Z.of_nat 7) with (2 ^ 56). lia.
Qed.

Lemma TimestampMs_layout ms sub r : 0 <= ms < 2 ^ 48 -> 0 <= sub < 2 ^ 12 -> 0 <= r ->
  TimestampMs (layout ms sub r) = ms.
Proof.
  intros Hms Hsub Hr. unfold TimestampMs.
  assert (forall u, bytes_ok u -> Z.lor (Z.lor (Z.lor (Z.lor (Z.lor (Z.shiftl (rd u 0) 40) (Z.shiftl (rd u 1) 32))
    (Z.shiftl (rd u 2) 24)) (Z.shiftl (rd u 3) 16)) (Z.shiftl (rd u 4) 8)) (rd u 5)
    = be [rd u 0; rd u 1; rd u 2; rd u 3; rd u 4; rd u 5]) as ->.
  { intros u Hu. transitivity (be [0; 0; rd u 0; rd u 1; rd u 2; rd u 3; rd u 4; rd u 5]); [|cbn [be]; lia].
    rewrite <- lor_bytes8; [|do 2 (constructor; [lia|]); repeat (constructor; [by apply rd_bound|]); constructor].
    by rewrite !Z.shiftl_0_l, !Z.lor_0_l. }
  2:{ by apply layout_ok. }
  transitivity (be (be_put 6 ms)); [|rewrite be_be_put; apply Z.mod_small; change (256 ^ Z.of_nat 6) with (2 ^ 48); lia].
  f_equal. unfold layout. by rewrite !byte_at, !byte_low by lia.
Qed.

Lemma IsV7_layout ms sub r : 0 <= sub < 2 ^ 12 -> 0 <= r -> IsV7 (layout ms sub r) = true.
Proof.
  intros Hsub Hr. unfold IsV7, Version, Variant, layout. rewrite version_byte, variant_byte by lia.
  change (rd (_ :: _) 6) with (0x70 + sub / 2 ^ 8). change (rd (_ :: _) 8) with (0x80 + (r / 2 ^ 56) `mod` 64).
  assert (0 <= sub / 2 ^ 8 < 16) by (split; [apply Z.div_pos | apply Z.div_lt_upper_bound]; lia).
  pose proof (Z.mod_pos_bound (r / 2 ^ 56) 64 ltac:(lia)).
  rewrite Z.shiftr_div_pow2 by lia. change 0x70 with (7 * 2 ^ 4). rewrite Z.div_add_l, (Z.div_small (sub / 2 ^ 8)) by lia.
  cbn [andb Z.add Z.eqb Pos.eqb]. generalize dependent ((r / 2 ^ 56) `mod` 64). intros m Hm.
  assert (forallb (fun m => (if Z.land (128 + m) 128 =? 0 then 0 else if Z.land (128 + m) 192 =? 128 then 2
    else if Z.land (128 + m) 224 =? 192 then 6 else 7) =? 2) (seqZ 0 64) = true) as Hall by reflexivity.
  rewrite forallb_forall in Hall. apply (Hall m). apply list_elem_of_In, elem_of_seqZ. lia.
Qed.

(** ** The store's ids *)

Definition tick (ts : Z) : Z := ts / 1000000 * 4096 + (ts `mod` 1000000 * 4096) / 1000000.

Lemma Compose_layout ts r : 0 <= ts < 2 ^ 64 ->
  exists ms sub, Compose ts r = layout ms sub r /\ ms = ts / 1000000 /\ 0 <= ms < 2 ^ 48 /\ 0 <= sub < 2 ^ 12
    /\ tick ts = ms * 4096 + sub.
Proof.
  intros Hts. unfold Compose, tick. pose proof (Z.mod_pos_bound ts 1000000 ltac:(lia)).
  rewrite (w32_small (ts `mod` 1000000)), w32_small by lia. do 2 eexists. split; [done|]. split; [done|].
  split; [split; [apply Z.div_pos | apply Z.div_lt_upper_bound]; lia|].
  split; [split; [apply Z.div_pos | apply Z.div_lt_upper_bound]; lia|]. done.
Qed.

Definition id_word (kind coll shard counter : Z) : Z :=
  kind * 2 ^ 58 + coll * 2 ^ 50 + shard * 2 ^ 40 + counter `mod` 2 ^ 40.

(** The arguments of [NewIDKind] at their Go types, in range. *)
Record id_args (ts shard counter kind coll : Z) : Prop := {
  arg_ts : 0 <= ts < 2 ^ 64;
  arg_shard : 0 <= shard < 1024;
  arg_counter : 0 <= counter < 2 ^ 64;
  arg_kind : 0 <= kind < 16;
  arg_coll : 0 <= coll < 256;
}.

Lemma id_word_bound kind coll shard counter : 0 <= shard < 1024 -> 0 <= kind < 16 -> 0 <= coll < 256 ->
  0 <= id_word kind coll shard counter < 2 ^ 62.
Proof. intros. unfold id_word. pose proof (Z.mod_pos_bound counter (2 ^ 40) ltac:(lia)). lia. Qed.

Lemma NewIDKind_eq ts shard counter kind coll : id_args ts shard counter kind coll ->
  NewIDKind ts shard counter kind coll = Some (Compose ts (id_word kind coll shard counter)).
Proof.
  intros [Hts Hs Hc Hk Hl]. unfold NewIDKind, maxShard, maxKind, counterMask.
  do 2 (rewrite Z.geb_leb; zcase; [lia|]). do 2 f_equal.
  change (2 ^ 40 - 1) with (Z.ones 40). rewrite Z.land_ones by lia.
  pose proof (Z.mod_pos_bound counter (2 ^ 40) ltac:(lia)).
  rewrite !w64_small by (rewrite Z.shiftl_mul_pow2; lia). rewrite <- !Z.lor_assoc.
  rewrite (lor_hi shard), (lor_hi coll), (lor_hi kind) by lia. unfold id_word. lia.
Qed.

Lemma id_word_fields kind coll shard counter : 0 <= shard < 1024 -> 0 <= kind < 16 -> 0 <= coll < 256 ->
  let w := id_word kind coll shard counter in
  Z.shiftr w 58 = kind /\ Z.shiftr w 50 = kind * 256 + coll /\
  Z.shiftr w 40 = (kind * 256 + coll) * 1024 + shard /\ w `mod` 2 ^ 40 = counter `mod` 2 ^ 40.
Proof.
  intros Hs Hk Hl w. subst w. unfold id_word. pose proof (Z.mod_pos_bound counter (2 ^ 40) ltac:(lia)) as Hm.
  set (m := counter `mod` 2 ^ 40) in *. clearbody m. rewrite !Z.shiftr_div_pow2 by lia. repeat split.
  - symmetry. apply (Z.div_unique_pos _ _ _ (coll * 2 ^ 50 + shard * 2 ^ 40 + m)); lia.
  - symmetry. apply (Z.div_unique_pos _ _ _ (shard * 2 ^ 40 + m)); lia.
  - symmetry. apply (Z.div_unique_pos _ _ _ m); lia.
  - symmetry. apply (Z.mod_unique_pos _ _ ((kind * 256 + coll) * 1024 + shard)); lia.
Qed.

(** The order of two version 7 ids. *)
Lemma layout_order ms1 sub1 r1 ms2 sub2 r2 :
  0 <= ms1 < 2 ^ 48 -> 0 <= sub1 < 2 ^ 12 -> 0 <= r1 -> 0 <= ms2 < 2 ^ 48 -> 0 <= sub2 < 2 ^ 12 -> 0 <= r2 ->
  Compare (layout ms1 sub1 r1) (layout ms2 sub2 r2) = -1 <->
  ms1 * 4096 + sub1 < ms2 * 4096 + sub2 \/
  (ms1 * 4096 + sub1 = ms2 * 4096 + sub2 /\ r1 `mod` 2 ^ 62 < r2 `mod` 2 ^ 62).
Proof.
  intros Hm1 Hs1 Hr1 Hm2 Hs2 Hr2.
  destruct (layout_ok ms1 sub1 r1) as [[Hb1 Hl1] Hn1]; [done..|].
  destruct (layout_ok ms2 sub2 r2) as [[Hb2 Hl2] Hn2]; [done..|].
  rewrite Compare_Bytes, Compare_be, Hn1, Hn2 by (done || congruence). unfold v7_number.
  pose proof (Z.mod_pos_bound r1 (2 ^ 62) ltac:(lia)). pose proof (Z.mod_pos_bound r2 (2 ^ 62) ltac:(lia)).
  destruct (Z.compare_spec (ms1 * 2 ^ 80 + 7 * 2 ^ 76 + sub1 * 2 ^ 64 + 2 ^ 63 + r1 `mod` 2 ^ 62)
    (ms2 * 2 ^ 80 + 7 * 2 ^ 76 + sub2 * 2 ^ 64 + 2 ^ 63 + r2 `mod` 2 ^ 62)); split; intros; (lia || done).
Qed.

(** C40: An id gives back what it was made from: the millisecond, shard, kind and
    collection exactly, the counter modulo 2^40, as a version 7 UUID; a shard or
    kind that does not fit its field is refused. *)
Theorem id_fields ts shard counter kind coll :
  0 <= ts < 2 ^ 64 -> 0 <= shard < 2 ^ 16 -> 0 <= counter < 2 ^ 64 -> 0 <= kind < 256 -> 0 <= coll < 256 ->
  match NewIDKind ts shard counter kind coll with
  | Some id => uuid_ok id /\ IsV7 id = true /\ TimestampMs id = ts / 1000000 /\ ShardOf id = shard /\
      CounterOf id = counter `mod` 2 ^ 40 /\ KindOf id = kind /\ CollOf id = coll
  | None => maxShard <= shard \/ maxKind <= kind
  end.
Proof.
  intros Hts Hs Hc Hk Hl.
  destruct (decide (shard < 1024 /\ kind < 16)) as [[Hs' Hk']|Hno].
  2:{ unfold NewIDKind, maxShard, maxKind in *. do 2 (rewrite Z.geb_leb; zcase; [lia|]). lia. }
  rewrite NewIDKind_eq by (constructor; lia).
  destruct (Compose_layout ts (id_word kind coll shard counter) Hts) as (ms & sub & -> & -> & Hms & Hsub & _).
  pose proof (id_word_bound kind coll shard counter ltac:(lia) ltac:(lia) ltac:(lia)) as Hw.
  split; [apply layout_ok; lia|]. rewrite IsV7_layout, TimestampMs_layout by lia. do 2 (split; [done|]).
  unfold ShardOf, CounterOf, KindOf, CollOf, maxShard, maxColl, counterMask.
  rewrite overlay62_layout, (Z.mod_small _ (2 ^ 62)) by lia.
  destruct (id_word_fields kind coll shard counter) as (-> & -> & -> & Hctr); [lia..|].
  change (1024 - 1) with (Z.ones 10). change (256 - 1) with (Z.ones 8). change (2 ^ 40 - 1) with (Z.ones 40).
  rewrite !Z.land_ones, Hctr, !(Z.add_comm (_ * _)) by lia. change (2 ^ 10) with 1024. change (2 ^ 8) with 256.
  rewrite !Z.mod_add, (Z.mod_small shard), (Z.mod_small coll) by lia. by rewrite w16_small, !w8_small by lia.
Qed.
Lemma id_fields_witness : match NewIDKind 1700000000123456789 7 99 1 3 with
  | Some id => uuid_ok id /\ IsV7 id = true /\ TimestampMs id = 1700000000123456789 / 1000000 /\ ShardOf id = 7 /\
      CounterOf id = 99 `mod` 2 ^ 40 /\ KindOf id = 1 /\ CollOf id = 3
  | None => maxShard <= 7 \/ maxKind <= 1
  end.
Proof. apply (id_fields 1700000000123456789 7 99 1 3); lia. Defined.

(** C39: The ids a shard hands out for one kind and collection are ordered, as the
    bytes the B-tree compares, by time stamp (in steps of 1/4096 ms) and, within
    a step, by counter. *)
Theorem id_order ts1 ts2 shard c1 c2 kind coll id1 id2 :
  id_args ts1 shard c1 kind coll -> id_args ts2 shard c2 kind coll ->
  NewIDKind ts1 shard c1 kind coll = Some id1 -> NewIDKind ts2 shard c2 kind coll = Some id2 ->
  Bytes.Compare id1 id2 = -1 <->
  tick ts1 < tick ts2 \/ (tick ts1 = tick ts2 /\ c1 `mod` 2 ^ 40 < c2 `mod` 2 ^ 40).
Proof.
  intros H1 H2. rewrite !NewIDKind_eq by done. intros [= <-] [= <-]. destruct H1, H2.
  destruct (Compose_layout ts1 (id_word kind coll shard c1)) as (m1 & s1 & -> & _ & Hm1 & Hs1 & ->); [done|].
  destruct (Compose_layout ts2 (id_word kind coll shard c2)) as (m2 & s2 & -> & _ & Hm2 & Hs2 & ->); [done|].
  pose proof (id_word_bound kind coll shard c1 ltac:(lia) ltac:(lia) ltac:(lia)).
  pose proof (id_word_bound kind coll shard c2 ltac:(lia) ltac:(lia) ltac:(lia)).
  rewrite <- Compare_Bytes, layout_order, !Z.mod_small by (done || lia). unfold id_word in *. lia.
Qed.
Lemma id_order_witness : exists id1 id2,
  NewIDKind 1700000000123456789 7 1 0 0 = Some id1 /\ NewIDKind 1700000000123456789 7 2 0 0 = Some id2 /\
  (Bytes.Compare id1 id2 = -1 <-> tick 1700000000123456789 < tick 1700000000123456789 \/
     (tick 1700000000123456789 = tick 1700000000123456789 /\ 1 `mod` 2 ^ 40 < 2 `mod` 2 ^ 40)).
Proof.
  eexists _, _. split; [reflexivity|]. split; [reflexivity|].
  apply (id_order 1700000000123456789 1700000000123456789 7 1 2 0 0); (constructor; lia) || reflexivity.
Defined.

(** ** The generator *)

Lemma nextPRNG_nonneg s : 0 <= (nextPRNG s).2.
Proof.
  unfold nextPRNG. cbn [snd]. apply Z.lxor_nonneg. split; intros _; [|apply w64_bound].
  apply Z.shiftr_nonneg, w64_bound.
Qed.

Definition made (c : Z) (u : UUID) : Prop := exists rnd, 0 <= rnd /\ u = v7_of c rnd.
Definition all_below (c : Z) (us : list UUID) : Prop :=
  Forall (fun u => exists c', 0 <= c' < c /\ made c' u) us.

Lemma all_below_mono c d us : all_below c us -> c <= d -> all_below d us.
Proof. intros H Hcd. eapply Forall_impl; [exact H|]. cbn. intros u (c' & Hc' & Hu). exists c'. split; [lia | done]. Qed.

Lemma v7_of_layout c rnd : 0 <= c < 2 ^ 60 ->
  v7_of c rnd = layout (c / 4096) (c `mod` 4096) rnd /\ 0 <= c / 4096 < 2 ^ 48 /\ 0 <= c `mod` 4096 < 2 ^ 12.
Proof.
  intros Hc. unfold v7_of. change 0x0FFF with (Z.ones 12). rewrite Z.land_ones, Z.shiftr_div_pow2 by lia.
  change (2 ^ 12) with 4096. pose proof (Z.mod_pos_bound c 4096 ltac:(lia)).
  rewrite w32_small by lia. split; [done|]. split; [|lia].
  split; [apply Z.div_pos | apply Z.div_lt_upper_bound]; lia.
Qed.

Lemma made_order c d u v : made c u -> made d v -> 0 <= c < d -> d < 2 ^ 60 -> Compare u v = -1.
Proof.
  intros (r & Hr & ->) (r' & Hr' & ->) Hcd Hd.
  destruct (v7_of_layout c r) as (-> & ? & ?); [lia|]. destruct (v7_of_layout d r') as (-> & ? & ?); [lia|].
  apply layout_order; [done..|]. left.
  pose proof (Z.div_mod c 4096 ltac:(lia)). pose proof (Z.div_mod d 4096 ltac:(lia)). lia.
Qed.

Definition call_ok (last : Z) (k : call) : Prop :=
  match k with
  | Timed ts before => 0 <= ts /\ all_below (last + 1) before
  | Loaded ts prev before => 0 <= ts /\ 0 <= prev <= last /\ all_below (prev + 1) before
  | Won cur before => 0 <= cur <= last /\ all_below cur before
  end.

Lemma call_ok_mono l l' k : call_ok l k -> l <= l' -> call_ok l' k.
Proof.
  destruct k; cbn; intros H Hl; repeat split; try apply H; try lia.
  eapply all_below_mono; [apply H | lia].
Qed.

Definition issued (last : Z) (c : Z) (e : UUID * list UUID) : Prop :=
  0 <= c <= last /\ made c e.1 /\ all_below c e.2.

(** [curs] are the time stamps of the ids returned. *)
Record gen_inv (g : gen) (curs : list Z) : Prop := {
  gi_last : 0 <= gUUIDLastTimestamp g;
  gi_issued : Forall2 (issued (gUUIDLastTimestamp g)) curs (returned g);
  gi_curs : NoDup curs;
  gi_fresh : forall t c b, calls g !! t = Some (Won c b) -> c ∉ curs;
  gi_won : forall t1 t2 c b1 b2, calls g !! t1 = Some (Won c b1) -> calls g !! t2 = Some (Won c b2) -> t1 = t2;
  gi_calls : forall t k, calls g !! t = Some k -> call_ok (gUUIDLastTimestamp g) k;
}.

Lemma issued_below l curs es : Forall2 (issued l) curs es -> all_below (l + 1) (map fst es).
Proof.
  induction 1 as [|c e curs es (Hc & Hm & _) _ IH]; [constructor|].
  constructor; [|exact IH]. exists c. split; [lia | done].
Qed.

Lemma put_call_inv g curs t k : gen_inv g curs -> call_ok (gUUIDLastTimestamp g) k ->
  (forall c b, k <> Won c b) -> gen_inv (put_call g t k) curs.
Proof.
  intros [H1 H2 H3 H4 H5 H6] Hk Hw. split; cbn; [done..| | |].
  - intros t' c b. rewrite lookup_insert. case_decide; [intros [= ->]; by destruct (Hw c b)|]. eauto.
  - intros t1 t2 c b1 b2. rewrite !lookup_insert.
    case_decide; [intros [= ->]; by destruct (Hw c b1)|]. case_decide; [intros _ [= ->]; by destruct (Hw c b2)|]. eauto.
  - intros t' k'. rewrite lookup_insert. case_decide; [by intros [= <-] | eauto].
Qed.

Lemma next_cur_gt ts prev : 0 <= ts -> 0 <= prev < 2 ^ 60 -> prev < next_cur ts prev.
Proof. intros Hts Hp. unfold next_cur. zcase; [rewrite w64_small; lia | lia]. Qed.

Lemma timestamp_nonneg secs nanos : 0 <= timestamp secs nanos.
Proof. apply w64_bound. Qed.

Lemma gstep_inv g g' curs : gstep g g' -> gUUIDLastTimestamp g < 2 ^ 60 -> gen_inv g curs ->
  exists curs', gen_inv g' curs' /\ gUUIDLastTimestamp g <= gUUIDLastTimestamp g'.
Proof.
  intros Hstep Hl Hi. pose proof Hi as [H1 H2 H3 H4 H5 H6].
  destruct Hstep as [g t secs nanos Ht _ _ | g t ts before Ht | g t ts prev before Ht Hp
    | g t ts prev before Ht Hp | g t cur before Ht]; try apply H6 in Ht as Hok.
  - exists curs. split; [|cbn; lia]. apply put_call_inv; [done | | done].
    split; [apply timestamp_nonneg | by eapply issued_below].
  - exists curs. split; [|cbn; lia]. apply put_call_inv; [done | | done]. destruct Hok. cbn. repeat split; (done || lia).
  - exists curs. destruct Hok as (Hts & Hprev & Hb). pose proof (next_cur_gt ts prev Hts ltac:(lia)) as Hgt. subst prev.
    split; [|cbn; lia]. split; cbn; [lia | | done | | |].
    + eapply Forall2_impl; [exact H2|]. intros c e (Hc & Hm). split; [lia | done].
    + intros t' c b. rewrite lookup_insert. case_decide; [|eauto]. intros [= <- <-] Hin.
      apply list_elem_of_lookup in Hin as [i Hi']. destruct (Forall2_lookup_l _ _ _ _ _ H2 Hi') as (e & _ & Hc & _). lia.
    + intros t1 t2 c b1 b2. rewrite !lookup_insert. repeat case_decide; subst; [done | | | eauto].
      * intros [= <- <-] [Hc _]%H6. lia.
      * intros [Hc _]%H6 [= <- <-]. lia.
    + intros t' k. rewrite lookup_insert. case_decide; [intros [= <-]|intros Hk%H6; by apply (call_ok_mono (gUUIDLastTimestamp g)); [|lia]].
      split; [lia|]. eapply all_below_mono; [exact Hb | lia].
  - exists curs. split; [|cbn; lia]. apply put_call_inv; [done | | done]. destruct Hok as (Hts & Hprev & Hb).
    split; [done|]. eapply all_below_mono; [exact Hb | lia].
  - exists (cur :: curs). split; [|cbn; lia]. destruct Hok as [Hc Hb]. split; cbn; [done | | | | |].
    + constructor; [|done]. split; [done|]. split; [|done]. eexists. split; [apply nextPRNG_nonneg | done].
    + constructor; [by eapply H4 | done].
    + intros t' c b. rewrite lookup_delete. case_decide as Htt; [done|]. intros Hc' [->|Hin]%elem_of_cons; [|by eapply H4].
      apply Htt. by eapply H5.
    + intros t1 t2 c b1 b2. rewrite !lookup_delete. repeat case_decide; try done. eauto.
    + intros t' k. rewrite lookup_delete. case_decide; [done | eauto].
Qed.

(** Runs from a fresh process in which the time stamp stays below 2^60, which a
    clock reaches after the year 10000. *)
Definition gen_run : gen -> gen -> Prop :=
  rtc (fun g g' => gstep g g' /\ gUUIDLastTimestamp g' < 2 ^ 60).

Lemma gen_run_inv seed g : gen_run (gen_init seed) g ->
  gUUIDLastTimestamp g < 2 ^ 60 /\ exists curs, gen_inv g curs.
Proof.
  revert g. apply (rtc_ind_r (R:=fun g g' => gstep g g' /\ gUUIDLastTimestamp g' < 2 ^ 60)).
  - split; [done|]. exists []. split; cbn; [done | constructor | constructor | done | done | done].
  - intros g g' _ [Hs Hl'] [Hl [curs Hi]]. split; [done|].
    destruct (gstep_inv g g' curs Hs Hl Hi) as (curs' & Hi' & _). by exists curs'.
Qed.

(** C37: In every interleaving of concurrent calls of the lock-free generator, the
    ids returned are pairwise distinct, and an id is greater, in the byte order,
    than every id that had been returned before its call began. *)
Theorem v7fast_increasing seed g : gen_run (gen_init seed) g ->
  NoDup (map fst (returned g)) /\
  forall u before v, (u, before) ∈ returned g -> v ∈ before -> Compare v u = -1.
Proof.
  intros (Hl & curs & [_ His Hnd _ _ _])%gen_run_inv. split.
  - clear -His Hnd Hl. induction His as [|c e curs es (Hc & Hm & _) His IH]; [constructor|].
    apply NoDup_cons in Hnd as [Hnc Hnd]. cbn. constructor; [|by apply IH].
    intros (e' & He & Hin)%list_elem_of_fmap. apply list_elem_of_lookup in Hin as [i Hi].
    destruct (Forall2_lookup_r _ _ _ _ _ His Hi) as (c' & Hc' & Hb' & Hm' & _). rewrite <- He in Hm'.
    assert (c <> c') as Hne by (intros ->; apply Hnc; by eapply list_elem_of_lookup_2).
    assert (Compare e.1 e.1 = -1) as Habs by (destruct (decide (c < c')); [apply (made_order c c') | apply (made_order c' c)]; (done || lia)).
    destruct Hm as (r & Hr & E). destruct (v7_of_layout c r ltac:(lia)) as (E' & ? & ?).
    assert (uuid_ok e.1) as [_ Hlen] by (rewrite E, E'; by apply layout_ok).
    rewrite Compare_Bytes, Bytes.Compare_refl in Habs by done. done.
  - intros u before v Hin Hv. apply list_elem_of_lookup in Hin as [i Hi].
    destruct (Forall2_lookup_r _ _ _ _ _ His Hi) as (c & _ & Hc & Hm & Hb).
    unfold all_below in Hb. cbn in Hb. rewrite Forall_forall in Hb. destruct (Hb v Hv) as (c' & Hc' & Hm'). cbn in Hm. apply (made_order c' c); (done || lia).
Qed.

Lemma v7fast_increasing_witness : exists g, gen_run (gen_init 1) g /\ length (returned g) = 1%nat /\
  NoDup (map fst (returned g)) /\
  forall u before v, (u, before) ∈ returned g -> v ∈ before -> Compare v u = -1.
Proof.
  assert (exists g, gen_run (gen_init 1) g /\ length (returned g) = 1%nat) as (g & Hr & Hl).
  { eexists. split.
    - eapply rtc_l; [split; [apply (step_now _ 0 1700000000 5); [reflexivity | lia | lia] | vm_compute; reflexivity]|].
      eapply rtc_l; [split; [eapply (step_load _ 0); reflexivity | vm_compute; reflexivity]|].
      eapply rtc_l; [split; [eapply (step_cas_ok _ 0); reflexivity | vm_compute; reflexivity]|].
      eapply rtc_l; [split; [eapply (step_return _ 0); reflexivity | vm_compute; reflexivity]|].
      apply rtc_refl.
    - reflexivity. }
  exists g. split; [exact Hr|]. split; [exact Hl|]. exact (v7fast_increasing 1 g Hr).
Defined.

(** ** Text *)

Definition lower (c : Z) : Z := if (65 <=? c) && (c <=? 90) then c + 32 else c.

(** A fact about a byte, by evaluation on all of them. *)
Lemma byte_cases (p : Z -> bool) c : forallb p (seqZ 0 256) = true -> 0 <= c < 256 -> p c = true.
Proof. rewrite forallb_forall. intros H Hc. apply H, list_elem_of_In, elem_of_seqZ. lia. Qed.

Lemma digit_cases c : 0 <= c < 256 ->
  let h := rd archtimeHexDecode c in h = 255 \/ (0 <= h < 16 /\ lower c = rd archtimeHexChars h).
Proof.
  intros Hc h.
  pose proof (byte_cases (fun c => let h := rd archtimeHexDecode c in
    (h =? 255) || ((0 <=? h) && (h <? 16) && (lower c =? rd archtimeHexChars h))) c ltac:(vm_compute; reflexivity) Hc) as H.
  cbn beta zeta in H. fold h in H. lia.
Qed.

Lemma hex_byte_some b off x : bytes_ok b -> hex_byte b off = Some x ->
  0 <= x < 256 /\ lower (rd b off) = rd archtimeHexChars (Z.shiftr x 4) /\
  lower (rd b (off + 1)) = rd archtimeHexChars (Z.land x 0x0F).
Proof.
  intros Hb. unfold hex_byte.
  pose proof (digit_cases (rd b off) (rd_bound b off Hb)) as H1. cbv zeta in H1.
  pose proof (digit_cases (rd b (off + 1)) (rd_bound b _ Hb)) as H2. cbv zeta in H2.
  set (h1 := rd archtimeHexDecode (rd b off)) in *. set (h2 := rd archtimeHexDecode (rd b (off + 1))) in *.
  clearbody h1 h2. intros H.
  assert (0 <= h1 < 16 /\ 0 <= h2 < 16 /\ x = h1 * 16 + h2) as (Hh1 & Hh2 & ->).
  { assert (forall h, 0 <= h -> h <= 255 -> Z.land (Z.lor 255 h) 0xF0 <> 0 /\ Z.land (Z.lor h 255) 0xF0 <> 0) as Hbad.
    { intros h H0 Hl. pose proof (byte_cases (fun h => negb (Z.land (Z.lor 255 h) 0xF0 =? 0) && negb (Z.land (Z.lor h 255) 0xF0 =? 0))
        h ltac:(vm_compute; reflexivity) ltac:(lia)). cbn beta in *. lia. }
    destruct (Z.eqb_spec (Z.land (Z.lor h1 h2) 0xF0) 0) as [He|He]; [|done]. injection H as <-.
    destruct H1 as [->|[H1 _]]; [by destruct (proj1 (Hbad h2 ltac:(lia) ltac:(lia)))|].
    destruct H2 as [->|[H2 _]]; [by destruct (proj2 (Hbad h1 ltac:(lia) ltac:(lia)))|].
    split; [done|]. split; [done|]. rewrite w8_small by (rewrite Z.shiftl_mul_pow2; lia). rewrite lor_hi by lia. lia. }
  destruct H1 as [|[_ ->]]; [lia|]. destruct H2 as [|[_ ->]]; [lia|].
  rewrite Z.shiftr_div_pow2 by lia. change 0x0F with (Z.ones 4). rewrite Z.land_ones by lia. change (2 ^ 4) with 16.
  rewrite Z.div_add_l, (Z.div_small h2), Z.add_0_r by lia.
  rewrite (Z.add_comm (h1 * 16)), Z.mod_add, Z.mod_small by lia. split; [lia | done].
Qed.

Definition digits (b : list Z) (off x : Z) : Prop :=
  lower (rd b off) = rd archtimeHexChars (Z.shiftr x 4) /\
  lower (rd b (off + 1)) = rd archtimeHexChars (Z.land x 0x0F).

Lemma digit_value c h : 0 <= c < 256 -> 0 <= h < 16 -> lower c = rd archtimeHexChars h -> rd archtimeHexDecode c = h.
Proof.
  intros Hc Hh He. pose proof (byte_cases (fun c => forallb (fun h =>
    negb (lower c =? rd archtimeHexChars h) || (rd archtimeHexDecode c =? h)) (seqZ 0 16)) c
    ltac:(vm_compute; reflexivity) Hc) as H. cbn beta in H. rewrite forallb_forall in H.
  specialize (H h ltac:(apply list_elem_of_In, elem_of_seqZ; lia)). lia.
Qed.

Lemma nibbles x : 0 <= x < 256 -> 0 <= Z.shiftr x 4 < 16 /\ 0 <= Z.land x 0x0F < 16 /\
  x = Z.shiftr x 4 * 16 + Z.land x 0x0F.
Proof.
  intros Hx. change 0x0F with (Z.ones 4). rewrite Z.land_ones, Z.shiftr_div_pow2 by lia. change (2 ^ 4) with 16.
  pose proof (Z.div_mod x 16 ltac:(lia)). pose proof (Z.mod_pos_bound x 16 ltac:(lia)). lia.
Qed.

Lemma hex_byte_iff b off x : bytes_ok b -> hex_byte b off = Some x <-> 0 <= x < 256 /\ digits b off x.
Proof.
  intros Hb. split; [by apply hex_byte_some|]. intros [Hx [H1 H2]]. destruct (nibbles x Hx) as (Hh & Hl & He).
  unfold hex_byte. rewrite (digit_value _ (Z.shiftr x 4)), (digit_value _ (Z.land x 0x0F)) by (try apply rd_bound; done).
  pose proof (byte_cases (fun x => let h1 := Z.shiftr x 4 in let h2 := Z.land x 0x0F in
    (Z.land (Z.lor h1 h2) 0xF0 =? 0) && (Z.lor (w8 (Z.shiftl h1 4)) h2 =? x)) x ltac:(vm_compute; reflexivity) Hx) as H.
  cbv beta zeta in H. apply andb_prop in H as [-> He2]. cbn [negb]. f_equal. lia.
Qed.

#[local] Opaque lower archtimeHexChars.

Definition dashes (s : list Z) : Prop :=
  lower (rd s 8) = 45 /\ lower (rd s 13) = 45 /\ lower (rd s 18) = 45 /\ lower (rd s 23) = 45.

(** The elements of a list of known length. *)
Lemma len_S {A} (l : list A) n : len l = Zpos n -> exists x k, l = x :: k /\ len k = Z.pred (Zpos n).
Proof. destruct l as [|x k]; [done|]. rewrite len_cons. exists x, k. split; [done | lia]. Qed.
Ltac explicit l H :=
  repeat (let x := fresh "c" in apply len_S in H as (x & ? & -> & H); cbn [Z.pred Z.add Z.pos_sub Pos.pred_double Pos.pred] in H);
  apply len_nil_inv in H as ->.

(** A text of 36 characters is the canonical one, but for the case of its digits. *)
Lemma canonical_iff s u : len s = 36 -> len u = 16 ->
  map lower s = EncodeHex u <-> Forall2 (digits s) offsets u /\ dashes s.
Proof.
  intros Hs Hu. explicit s Hs. explicit u Hu. split.
  - intros H. unfold EncodeHex, hex in H. change (Bytes.str "-") with [45] in H. cbn [map app] in H. injection H; clear H. intros.
    split; [|by repeat split]. unfold offsets. repeat (constructor; [by split|]). constructor.
  - intros [H (D1 & D2 & D3 & D4)]. unfold offsets in H.
    repeat match type of H with
    | Forall2 _ (_ :: _) (_ :: _) => apply Forall2_cons_1 in H; destruct H as [[? ?] H]
    end. clear H.
    unfold EncodeHex, hex. change (Bytes.str "-") with [45]. cbn [map app]. repeat (apply (f_equal2 cons); [match goal with H : _ = _ |- _ => exact H end|]). done.
Qed.

Lemma lower_dash c : 0 <= c < 256 -> lower c = 45 <-> c = 45.
Proof.
  intros Hc. pose proof (byte_cases (fun c => eqb (lower c =? 45) (c =? 45)) c ltac:(vm_compute; reflexivity) Hc) as H.
  cbn beta in H. apply eqb_prop in H. lia.
Qed.

Lemma digit_not_u c h : c = 117 -> 0 <= h < 16 -> lower c <> rd archtimeHexChars h.
Proof.
  intros -> Hh. assert (forallb (fun h => negb (lower 117 =? rd archtimeHexChars h)) (seqZ 0 16) = true) as H
    by (vm_compute; reflexivity). rewrite forallb_forall in H.
  specialize (H h ltac:(apply list_elem_of_In, elem_of_seqZ; lia)). lia.
Qed.

(** Parsing 36 characters: exactly the canonical texts, in either case. *)
Lemma ParseBytes_36 b u : bytes_ok b -> len b = 36 ->
  ParseBytes b = Some u <-> uuid_ok u /\ map lower b = EncodeHex u.
Proof.
  intros Hb Hl. unfold ParseBytes. rewrite Hl. cbn [Z.geb Z.compare Pos.compare Pos.compare_cont andb Z.eqb Pos.eqb].
  case_bool_decide as Hurn.
  - rewrite len_sub by lia. change (36 - 9) with 27. cbn [andb Z.eqb Pos.eqb].
    rewrite len_sub by lia. change (36 - 9) with 27. cbn [Z.eqb Pos.eqb].
    split; [done|]. intros [[Hbu Hlu] Hc]. apply canonical_iff in Hc as [Hd _]; [|done..].
    destruct u as [|x u]; [by apply Forall2_cons_nil_inv in Hd|]. apply Forall2_cons_1 in Hd as [[Hd _] _].
    apply Forall_cons in Hbu as [Hx _]. exfalso. revert Hd. apply digit_not_u; [|by apply nibbles].
    change 0 with (0 + 0). rewrite <- (rd_sub b 0 9) by lia. by rewrite Hurn.
  - rewrite Hl. cbn [Z.eqb Pos.eqb andb]. rewrite Hl. cbn [Z.eqb Pos.eqb].
    destruct (decide (dashes b)) as [Hdash|Hdash].
    + destruct Hdash as (D1 & D2 & D3 & D4). rewrite lower_dash in D1, D2, D3, D4 by (by apply rd_bound).
      rewrite D1, D2, D3, D4. cbn [Z.eqb Pos.eqb negb orb]. transitivity (Forall2 (fun o x => hex_byte b o = Some x) offsets u); [apply mapM_Some|]. split.
      * intros H. assert (len u = 16) as Hlu by (apply Forall2_length in H; unfold len; by rewrite <- H).
        split; [split; [|done]|].
        -- clear -Hb H. induction H as [|o x os u Ho H IH]; [constructor|].
           apply hex_byte_iff in Ho as [Hx _]; [|done]. by constructor.
        -- apply canonical_iff; [done..|]. split; [|repeat split; (apply lower_dash; [by apply rd_bound | done])].
           eapply Forall2_impl; [exact H|]. intros o x Ho. by apply hex_byte_iff in Ho as [_ Ho].
      * intros [[Hbu Hlu] Hc]. apply canonical_iff in Hc as [Hd _]; [|done..].
        clear -Hb Hbu Hd. induction Hd as [|o x os u Hx Hd IH]; [constructor|].
        apply Forall_cons in Hbu as [Hxb Hbu]. constructor; [by apply hex_byte_iff | by apply IH].
    + destruct (negb _ || _ || _ || _) eqn:Hn; [|exfalso; apply Hdash; repeat split; (apply lower_dash; [by apply rd_bound | lia])].
      split; [done|]. intros [[Hbu Hlu] Hc]. by apply canonical_iff in Hc as [_ Hc].
Qed.

(** C38: [ParseV7] accepts a string exactly when it is the canonical text of a
    version 7 id, with its hexadecimal digits in either case, and then returns
    that id: no other spelling, length, version or variant is accepted. *)
Theorem parse_v7_exact s u : bytes_ok s ->
  ParseV7 s = Some u <-> len s = 36 /\ uuid_ok u /\ IsV7 u = true /\ map lower s = EncodeHex u.
Proof.
  intros Hs. unfold ParseV7. destruct (Z.eqb_spec (len s) 36) as [Hl|Hl]; cbn [negb]; [|by split; [|intros [? _]]].
  pose proof (ParseBytes_36 s) as HP. destruct (ParseBytes s) as [v|].
  - destruct (proj1 (HP v Hs Hl) eq_refl) as [Hv Hc]. split.
    + destruct (IsV7 v) eqn:H7; [|done]. intros [= ->]. done.
    + intros (_ & Hu & H7 & Hcu). pose proof (proj2 (HP u Hs Hl) (conj Hu Hcu)) as [= ->]. by rewrite H7.
  - split; [done|]. intros (_ & Hu & _ & Hcu). by pose proof (proj2 (HP u Hs Hl) (conj Hu Hcu)).
Qed.
Definition text_ex : list Z := Bytes.str "018F3a5b-7c8d-7e9f-a012-3456789abcde".
Lemma parse_v7_exact_witness :
  ParseV7 text_ex = Some (layout 0x018f3a5b7c8d 0xe9f 0x20123456789abcde) <->
  len text_ex = 36 /\ uuid_ok (layout 0x018f3a5b7c8d 0xe9f 0x20123456789abcde) /\
  IsV7 (layout 0x018f3a5b7c8d 0xe9f 0x20123456789abcde) = true /\
  map lower text_ex = EncodeHex (layout 0x018f3a5b7c8d 0xe9f 0x20123456789abcde).
Proof. apply (parse_v7_exact text_ex). by apply (bool_decide_unpack _). Defined.

End Uuid.
